(* ===== verification/_CoqProject ===== *)
-Q . S2P
Prelude.v
Frames.v
BumpAlloc.v
BuddyAlloc.v
BuddySpec.v
Machine.v
ContextSwitch.v
Coroutine.v
Preempt.v
PreemptStub.v
PreemptTable.v
Task.v
Sched.v
SchedRun.v
SchedSpec.v
SchedSpawn.v
SchedFair.v
CfsWait.v
Driver.v
SchedSystem.v
PreemptedStep.v
Paging.v
Memory.v
Apic.v
ApicSpec.v
Irq.v
Boot.v
KernelMain.v
ShippedDemo.v
Serial.v
Faults.v
Config.v
