(* ===== verification/Prelude.v ===== *)
(** * RustyCore: a verification of the kernel in Rocq

    RustyCore is a small x86-64 kernel: it brings up memory, the interrupt
    controllers and two clocks, then runs a handful of tasks on their own stacks
    under one of two schedulers, with a naked timer stub that records the frame
    of whatever it interrupts.  This library models the kernel and its build
    tools, and proves the properties that make each part correct.

    ** Parts, files and correspondence (paths below [src/])

    - Prelude (this file): the outcome monad ([Ret] or [Panic]), [result], 64-bit
      integers under both Cargo profiles, [Vec] operations, bounded loops, the
      shared tactics and the hint database [rusty].
    - Frames, BumpAlloc ([Bump]), BuddyAlloc ([Buddy]), BuddySpec: the frame
      allocators of [kernel/src/memory/bump.rs] and [buddy.rs], one definition
      per method, the interface [FrameAllocator] both implement for their
      clients, and the transition system of an allocator and the frames that are
      out ([activate] carves the map into thirteen free lists; allocation splits,
      release merges).
    - Paging, Memory: [kernel/src/memory.rs] and [memory/heap.rs]: heap and MMIO
      mapping over the page-table interface, the memory summary, the self-tests
      and [memory::init], generic in the allocator.
    - Machine: a processor model for the instructions of the naked routines.
      ContextSwitch ([Switch]): [context_switch], the bootstrap frame and the
      entry shim of [kernel/src/task.rs].  Coroutine: the machine of parked stacks
      that the switch implements.  Preempt, PreemptStub ([Stub]),
      PreemptTable ([Table]): [kernel/src/preempt.rs], its slot table and
      [lapic_preempt_stub], instruction by instruction; the table also store by
      store, with ticks between the stores of one call.
    - Task ([Tasks]), Sched, SchedRun, SchedSpec, SchedSpawn, SchedFair: stacks
      with canaries, tasks, the trampoline loop, [RoundRobin] and [Cfs] of
      [kernel/src/task.rs].  The world is an explicit heap of task boxes, the
      pointer table and the statics, so aliasing between queue, table and running
      task is visible.  The class [Scheduler] is the trait with its contract;
      both policies are instances, and clients are proved against the class.
      CfsWait: how long a CFS task waits, and what starves it.  SchedSystem
      ([System]): the states that spawns, calls and idle interrupts reach.
      PreemptedStep ([Preempted]): the step of a task as machine code and timer
      interrupts.
    - Driver: the demo of [kernel/src/main.rs].
    - Apic, ApicSpec: [kernel/src/apic.rs], [timer.rs], [interrupts.rs]; device
      accesses are events on a trace, and what a device shows is any function of
      that trace.
    - Irq: [kernel/src/idt.rs] and [syscall.rs]: the table, the handlers, and the
      sections that hold the PIC lock, as a step relation with interrupts between
      any two actions.
    - Boot: the clock self-tests of [kernel_main] and the boot sequence up to the
      demo.  KernelMain: [BOOTLOADER_CONFIG], the entry point and [kernel_main]
      whole, boot and demo.  ShippedDemo: the demo's tasks under CFS.
    - Serial: [kernel/src/serial.rs].  Faults: [kernel/src/gdt.rs] and the panic
      handler.  Config: [kernel/build.rs], [xtask/src/main.rs], the shipped
      [config/kernel_config.toml] and the compile-time checks of the kernel crate.

    How they interact: [kernel_boot] runs memory bring-up over the selected frame
    allocator, maps the APIC window with what is left of it, calibrates, soaks and
    promotes the clocks; the timer stub then shares the statics of [preempt.rs]
    with the schedulers, which switch into tasks through the context switch; the
    driver paces the scheduler on the stub's tick counter.  The refinement of the
    stub to [Stub.stub_effect] is what the table, the interrupt and the panic
    theorems use for a tick, and PreemptedStep joins it to the schedulers' view of
    a step.

    ** What the theorems show

    - Memory: every reachable allocator state splits the usable frames exactly
      into pooled and owned ones; requests and legal frees never panic, a second
      activation and a free before the first do; fragmentation heals;
      activation, bump order, and the equivalence of the two bring-up cursors;
      heap and window mappings give every page its own frame and report the real
      obstacle.
    - Switching: parked stacks are coroutines, resumed exactly where they stopped
      after any sequence of spawns, switches, drops and other code; a fresh task enters
      its trampoline with the right stack parity; the timer stub resumes the
      interrupted code exactly and changes the table by its specified effect; a
      step cut up by interrupts is the environment the scheduler theorems ask for;
      free slots never hold a frame that validates, wherever ticks land between
      the stores of the table; what stack pointer a stash holds.
    - Scheduling: no assert of the schedulers fires in a well-formed world,
      bounded waiting and round structure for round robin, least-vruntime choice,
      weighted fairness and bounded waiting for CFS (and its failure for a weight
      whose slice is zero), capacity; the driver loop drains any finite tasks that
      fit its guards and reports what their run counts call for, and under CFS the
      demo's heavier worker finishes first; over a whole run the
      ledger names every task once and counts every step once, and live stacks
      never overlap.
    - Clocks and interrupts: calibration ends on every device, tells live from
      dead and stores the rate of the median window; each way the clock phase ends
      is tied to the counters it read, so that promotion happens only on proven
      clocks and is undone on a stall; the
      PIC lock cannot deadlock and the mask updates are atomic.
    - The whole kernel: on a sane machine, entered by a bootloader that honours the
      configuration, [kernel_main] reaches the success report
      of the demo, under either frame allocator and either policy, with every
      task stack mapped.
    - Faults and tools: the double-fault stack is in place for every interrupted
      stack pointer, a panicked kernel goes quiet, the serial line carries what
      is printed line by line, the shipped configuration builds with its features
      only, passes the compile-time checks and exports the sizes used here, sizes
      parse as printed.

    ** Bounds and fuel

    A source loop without a counter runs through [iter_pos] with [loop_fuel]
    [= 2^64] turns; leaving it by the bound is a distinguished panic, and each
    theorem about such a loop proves that it is not reached: the guards
    [SPIN_GUARD], [SOAK_SPIN_GUARD] and [SCHED_RUNAWAY_GUARD] of the source, or
    the measure of the loop (for the serial port, a transmitter that drains),
    end it far below.  Assembly runs by its instruction list, and the allocators
    recurse on lists or orders, so need no fuel.  Liveness of the clocks is asked
    of traces of at most [10^9] events ([ApicSpec.horizon]), more than
    all guards together allow, so that counters that fit 63 bits can satisfy it.
    Decimal printing has twenty digits, enough for 64 bits.

    ** Code outside the repository

    [x86_64] (addresses, page tables, descriptor table), [pic8259] and the
    bootloader with its boot information are classes or arguments with the laws their documentation
    states, each with a concrete instance used by the witnesses; hardware shows
    up as arguments ([cpuid], MSR, CR3, line status, device registers, tick
    counters, interrupt arrival).

    ** Not modelled

    - Log texts and [core::fmt], except that any cut of a text is printed.
    - The heap allocator crate: reduced to the range it is given; [Box] and
      stack memory are the explicit box store of Task, with allocation
      addresses as arguments.
    - Step closures of tasks: a task is its sequence of verdicts with any effect
      of one step on memory that keeps the canaries.  The wait for a tick in a
      worker's first step is a condition on the turn: a tick lands in it.
    - Ticks between the sleep checks of one round-robin pass: the pass reads one
      tick count (the source loads the counter for each sleeper), and ticks arrive
      while the driver waits or in the step that is run.
    - TLB flushes, [lgdt]/[lidt] as such, the type check that [entry_point!] adds
      to the call of [kernel_main]; memory-ordering of a second processor (the
      kernel starts none).
    - Unicode white space and case in the configuration reader. *)
From Stdlib Require Export ZArith Lia.
From stdpp Require Export base tactics numbers option strings sets relations list_numbers list.

#[local] Open Scope Z_scope.

(** ** Panics, errors and machine integers

    A Rust computation either returns or panics ([assert!], [expect], an
    overflow check); a kernel panic halts the machine, so no state survives
    it and [Panic] carries only its message.  [Result<T, &str>] is
    [result T]. *)

Inductive outcome (A : Type) : Type :=
| Ret (a : A)
| Panic (msg : string).
Arguments Ret {_} _.
Arguments Panic {_} _.

Inductive result (A : Type) : Type :=
| Ok (a : A)
| Err (msg : string).
Arguments Ok {_} _.
Arguments Err {_} _.

#[export] Instance outcome_ret : MRet outcome := λ A a, Ret a.

#[export] Instance outcome_bind : MBind outcome := λ A B f m,
  match m with Ret a => f a | Panic e => Panic e end.

#[export] Instance outcome_fmap : FMap outcome := λ A B f m,
  match m with Ret a => Ret (f a) | Panic e => Panic e end.

(** [assert!(b, msg)]. *)
Definition assert_ (b : bool) (msg : string) : outcome unit :=
  if b then Ret () else Panic msg.

(** [opt.expect(msg)] *)
Definition expect {A} (o : option A) (msg : string) : outcome A :=
  match o with Some a => Ret a | None => Panic msg end.

(** The two Cargo profiles: [dev] keeps overflow checks and debug
    assertions, [release] has [overflow-checks = false] and drops both. *)
Inductive profile := Dev | Release.

#[export] Instance profile_eq_dec : EqDecision profile.
Proof. solve_decision. Defined.

Definition checks (p : profile) : bool :=
  match p with Dev => true | Release => false end.

Definition debug_assert (p : profile) (b : bool) (msg : string) : outcome unit :=
  if checks p then assert_ b msg else Ret ().

Definition u64_lim : Z := 2 ^ 64.
Definition u64_max : Z := u64_lim - 1.
Definition u64 (z : Z) : Prop := 0 ≤ z < u64_lim.
Definition wrap64 (z : Z) : Z := z `mod` u64_lim.

(** [+], [-] and [*] on [u64]: exact in range, else a panic under overflow
    checks and wrap-around without them. *)
Definition arith64 (p : profile) (z : Z) (msg : string) : outcome Z :=
  if (0 <=? z) && (z <? u64_lim) then Ret z
  else if checks p then Panic msg else Ret (wrap64 z).

Definition add64 (p : profile) (a b : Z) : outcome Z :=
  arith64 p (a + b) "attempt to add with overflow".
Definition sub64 (p : profile) (a b : Z) : outcome Z :=
  arith64 p (a - b) "attempt to subtract with overflow".
Definition mul64 (p : profile) (a b : Z) : outcome Z :=
  arith64 p (a * b) "attempt to multiply with overflow".

Definition checked_add64 (a b : Z) : option Z :=
  if a + b <? u64_lim then Some (a + b) else None.
Definition checked_mul64 (a b : Z) : option Z :=
  if a * b <? u64_lim then Some (a * b) else None.
Definition saturating_add64 (a b : Z) : Z := Z.min (a + b) u64_max.
Definition saturating_sub64 (a b : Z) : Z := Z.max (a - b) 0.
Definition saturating_mul64 (a b : Z) : Z := Z.min (a * b) u64_max.

(** [u64::next_multiple_of] inherits the caller's overflow checks;
    [checked_next_multiple_of] never wraps. *)
Definition next_multiple_of (p : profile) (a n : Z) : outcome Z :=
  if a `mod` n =? 0 then Ret a else add64 p a (n - a `mod` n).
Definition checked_next_multiple_of (a n : Z) : option Z :=
  if a `mod` n =? 0 then Some a else checked_add64 a (n - a `mod` n).

(** ** [Vec] and slice operations *)
Section vec.
Context {A : Type}.
Implicit Types l : list A.

(** [Vec::pop]: the last element and the shortened vector. *)
Definition vec_pop l : option (A * list A) :=
  match last l with
  | Some x => Some (x, take (pred (length l)) l)
  | None => None
  end.

(** [Vec::swap_remove]: the last element takes the hole's place. *)
Definition swap_remove (pos : nat) l : option (A * list A) :=
  match l !! pos, last l with
  | Some x, Some y => Some (x, take (pred (length l)) (<[pos := y]> l))
  | _, _ => None
  end.
End vec.

(** [iter().position(|&a| a == x)] on a vector of integers. *)
Fixpoint position (x : Z) (l : list Z) : option nat :=
  match l with
  | [] => None
  | y :: l' => if y =? x then Some 0%nat else S <$> position x l'
  end.

(** ** Byte strings and the decimal [const fn] parsers *)

Definition bytes_of_string (s : string) : list Z :=
  (λ c, Z.of_nat (Ascii.nat_of_ascii c)) <$> String.list_ascii_of_string s.

(** The digit loop of [memory::parse_heap_bytes] and [task::parse_stack_bytes];
    they run at compile time, where overflow is always refused. *)
Fixpoint parse_digits (msg : string) (s : list Z) (n : Z) : outcome Z :=
  match s with
  | [] => Ret n
  | b :: s' =>
      let d := (b - 48) `mod` 256 in
      _ ← assert_ (d <? 10) msg;
      n10 ← mul64 Dev n 10;
      n' ← add64 Dev n10 d;
      parse_digits msg s' n'
  end.

(** ** Loops

    [iter_pos f n s] runs the loop body [f] at most [n] times; [inl] asks for
    another round, [inr] leaves the loop.  The recursion is on the binary
    representation of the bound, so a bound of [2^64] costs nothing when the
    loop leaves early. *)
Section loops.
Context {S R : Type} (f : S → S + R).

Fixpoint iter_pos (n : positive) (s : S) : S + R :=
  match n with
  | xH => f s
  | xO n' =>
      match iter_pos n' s with inl s' => iter_pos n' s' | inr r => inr r end
  | xI n' =>
      match f s with
      | inl s0 =>
          match iter_pos n' s0 with inl s' => iter_pos n' s' | inr r => inr r end
      | inr r => inr r
      end
  end.
End loops.

(** The bound of every unbounded source loop: no loop over 64-bit state that
    terminates needs more rounds. *)
Definition loop_fuel : positive := 2 ^ 64.

(** ** Automation *)

Create HintDb rusty.

(** Reduce a match on a computation whose value is known. *)
Ltac outcome_inv :=
  repeat match goal with
  | H : Ret _ = Ret _ |- _ => injection H as H
  | H : Panic _ = Ret _ |- _ => discriminate H
  | H : Ret _ = Panic _ |- _ => discriminate H
  | H : Some _ = None |- _ => discriminate H
  | H : None = Some _ |- _ => discriminate H
  | H : Ok _ = Err _ |- _ => discriminate H
  | H : Err _ = Ok _ |- _ => discriminate H
  | H : Ok _ = Ok _ |- _ => injection H as H
  | H : (_, _) = (_, _) |- _ => injection H as H
  end; subst.

(** Boolean integer tests to propositions, everywhere. *)
Ltac bool_to_prop :=
  repeat match goal with
  | H : (_ && _) = true |- _ => apply andb_true_iff in H as [? ?]
  | H : (_ || _) = false |- _ => apply orb_false_iff in H as [? ?]
  | H : (_ && _) = false |- _ => apply andb_false_iff in H
  | H : (_ || _) = true |- _ => apply orb_true_iff in H
  | H : negb _ = true |- _ => apply negb_true_iff in H
  | H : negb _ = false |- _ => apply negb_false_iff in H
  | H : (_ <=? _)%Z = true |- _ => apply Z.leb_le in H
  | H : (_ <=? _)%Z = false |- _ => apply Z.leb_gt in H
  | H : (_ <? _)%Z = true |- _ => apply Z.ltb_lt in H
  | H : (_ <? _)%Z = false |- _ => apply Z.ltb_ge in H
  | H : (_ =? _)%Z = true |- _ => apply Z.eqb_eq in H
  | H : (_ =? _)%Z = false |- _ => apply Z.eqb_neq in H
  end.

(** Case split on the first boolean or option scrutinee of the goal. *)
Ltac case_test :=
  match goal with
  | |- context [if ?b then _ else _] => destruct b eqn:?
  | |- context [match ?o with Some _ => _ | None => _ end] => destruct o eqn:?
  end.

Ltac ulia := unfold u64, u64_max, u64_lim in *; lia.

(** ** Lemmas on outcomes *)

Lemma bind_Ret {A B} (a : A) (f : A → outcome B) : (Ret a ≫= f) = f a.
Proof. done. Qed.

Lemma bind_inv {A B} (m : outcome A) (f : A → outcome B) b :
  (m ≫= f) = Ret b → ∃ a, m = Ret a ∧ f a = Ret b.
Proof. destruct m as [a|e]; [|done]. by exists a. Qed.

(** ** Lemmas on machine integers *)

Lemma arith64_exact p z msg : u64 z → arith64 p z msg = Ret z.
Proof.
  intros [H1 H2]. unfold arith64.
  by rewrite (proj2 (Z.leb_le 0 z) H1), (proj2 (Z.ltb_lt z _) H2).
Qed.

Lemma add64_exact p a b : u64 (a + b) → add64 p a b = Ret (a + b).
Proof. apply arith64_exact. Qed.

Lemma sub64_exact p a b : u64 (a - b) → sub64 p a b = Ret (a - b).
Proof. apply arith64_exact. Qed.

Lemma mul64_exact p a b : u64 (a * b) → mul64 p a b = Ret (a * b).
Proof. apply arith64_exact. Qed.

Lemma checked_add64_exact a b : a + b < u64_lim → checked_add64 a b = Some (a + b).
Proof. intros H. unfold checked_add64. by rewrite (proj2 (Z.ltb_lt _ _) H). Qed.

(** The least multiple of [n] that is not below [a]. *)
Definition align_up (a n : Z) : Z := a + (- a) `mod` n.

Lemma align_up_aligned a n : 0 < n → align_up a n `mod` n = 0.
Proof.
  intros. unfold align_up.
  rewrite Zplus_mod_idemp_r. by replace (a + - a) with 0 by lia.
Qed.

Lemma align_up_bounds a n : 0 < n → a ≤ align_up a n < a + n.
Proof. intros. unfold align_up. pose proof (Z.mod_pos_bound (- a) n). lia. Qed.

Lemma align_up_id a n : 0 < n → a `mod` n = 0 → align_up a n = a.
Proof.
  intros Hn Ha. unfold align_up. rewrite Z_mod_zero_opp_full by done. lia.
Qed.

Lemma align_up_eq a n :
  0 < n → align_up a n = if a `mod` n =? 0 then a else a + (n - a `mod` n).
Proof.
  intros Hn. destruct (a `mod` n =? 0) eqn:E; bool_to_prop.
  - by apply align_up_id.
  - unfold align_up. by rewrite Z_mod_nz_opp_full by done.
Qed.

Lemma next_multiple_of_exact p a n :
  0 < n → 0 ≤ a → a + n ≤ u64_lim → next_multiple_of p a n = Ret (align_up a n).
Proof.
  intros Hn Ha Hlim. pose proof (Z.mod_pos_bound a n Hn).
  unfold next_multiple_of. rewrite align_up_eq by done.
  destruct (a `mod` n =? 0) eqn:E; [done|]. bool_to_prop.
  apply add64_exact. ulia.
Qed.

Lemma checked_next_multiple_of_exact a n :
  0 < n → a + n ≤ u64_lim → checked_next_multiple_of a n = Some (align_up a n).
Proof.
  intros Hn Hlim. pose proof (Z.mod_pos_bound a n Hn).
  unfold checked_next_multiple_of. rewrite align_up_eq by done.
  destruct (a `mod` n =? 0) eqn:E; [done|]. bool_to_prop.
  apply checked_add64_exact. lia.
Qed.

(** Rounding up is monotone, so the largest multiple below a multiple stays. *)
Lemma align_up_le a b n : 0 < n → b `mod` n = 0 → a ≤ b → align_up a n ≤ b.
Proof.
  intros Hn Hb Hab.
  pose proof (align_up_aligned a n Hn) as Ha. pose proof (align_up_bounds a n Hn).
  apply Z.mod_divide in Ha as [x Hx]; [|lia].
  apply Z.mod_divide in Hb as [y Hy]; [|lia].
  rewrite Hx, Hy in *. apply Z.mul_le_mono_nonneg_r; [lia|].
  assert ((x - 1) * n < y * n) by lia.
  assert (x - 1 < y) by (eapply Z.mul_lt_mono_pos_r; eauto). lia.
Qed.

#[export] Hint Resolve align_up_aligned : rusty.

(** ** Lemmas on vectors *)
Section vec_lemmas.
Context {A : Type}.
Implicit Types l : list A.

Lemma vec_pop_Some l x l' : vec_pop l = Some (x, l') ↔ l = l' ++ [x].
Proof.
  unfold vec_pop. split.
  - destruct (last l) as [y|] eqn:E; [|done]. intros [= -> <-].
    apply last_Some in E as [l0 ->].
    rewrite length_app, Nat.add_comm. simpl. by rewrite take_app_length.
  - intros ->. rewrite last_snoc, length_app, Nat.add_comm. simpl.
    by rewrite take_app_length.
Qed.

Lemma vec_pop_None l : vec_pop l = None ↔ l = [].
Proof.
  unfold vec_pop. split.
  - destruct (last l) eqn:E; [done|]. intros _. by apply last_None.
  - by intros ->.
Qed.

Lemma swap_remove_Permutation pos l x l' :
  swap_remove pos l = Some (x, l') → l ≡ₚ x :: l'.
Proof.
  unfold swap_remove. intros H. destruct (l !! pos) as [y|] eqn:Hy; [|done].
  destruct (last l) as [z|] eqn:Hz; [|done]. injection H as -> <-.
  apply last_Some in Hz as [k ->].
  rewrite length_app, Nat.add_comm. simpl.
  destruct (decide (pos = length k)) as [->|Hne].
  - rewrite insert_app_r_alt, Nat.sub_diag by done. simpl.
    rewrite take_app_length.
    rewrite lookup_app_r, Nat.sub_diag in Hy by done.
    injection Hy as ->. solve_Permutation.
  - assert (pos < length k)%nat.
    { apply lookup_lt_Some in Hy. rewrite length_app in Hy. simpl in Hy. lia. }
    rewrite insert_app_l by done.
    rewrite <- (length_insert k pos z), take_app_length.
    rewrite lookup_app_l in Hy by done.
    rewrite (insert_take_drop k) by done.
    rewrite <- (take_drop_middle k pos x) at 1 by done. solve_Permutation.
Qed.

Lemma swap_remove_Some pos l :
  (pos < length l)%nat → is_Some (swap_remove pos l).
Proof.
  intros H. unfold swap_remove.
  destruct (lookup_lt_is_Some_2 l pos H) as [x ->].
  destruct (last l) eqn:E; [by eexists|].
  apply last_None in E. subst. simpl in H. lia.
Qed.
End vec_lemmas.

Lemma position_Some x l i :
  position x l = Some i → l !! i = Some x.
Proof.
  revert i. induction l as [|y l IH]; intros i; simpl; [done|].
  destruct (y =? x) eqn:E; bool_to_prop; subst.
  - by intros [= <-].
  - intros (j & Hj & ->)%fmap_Some. simpl. by apply IH.
Qed.

Lemma position_None x l : position x l = None ↔ x ∉ l.
Proof.
  induction l as [|y l IH]; simpl.
  { split; [intros _; apply not_elem_of_nil|done]. }
  destruct (y =? x) eqn:E; bool_to_prop; subst.
  - split; [done|]. intros H. destruct H. apply list_elem_of_here.
  - rewrite fmap_None, IH, not_elem_of_cons.
    split; [intros; split; [congruence|done]|by intros [_ ?]].
Qed.

(** ** Lemmas on loops *)
Section loop_lemmas.
Context {S R : Type} (f : S → S + R).
Context (Inv : S → Prop) (m : S → Z) (Post : R → Prop).

(** After at most [n] rounds the loop has left, or the measure has dropped
    by [n]. *)
Lemma iter_pos_measure n s :
  (∀ s, Inv s → match f s with
                | inl s' => Inv s' ∧ m s' < m s
                | inr r => Post r
                end) →
  Inv s →
  match iter_pos f n s with
  | inl s' => Inv s' ∧ m s' ≤ m s - Zpos n
  | inr r => Post r
  end.
Proof.
  intros Hf. revert s. induction n as [n IH|n IH|]; intros s Hs; simpl.
  - pose proof (Hf s Hs) as H0. destruct (f s) as [s0|r]; [|done].
    destruct H0 as [Hs0 ?]. pose proof (IH s0 Hs0) as H1.
    destruct (iter_pos f n s0) as [s1|r]; [|done]. destruct H1 as [Hs1 ?].
    pose proof (IH s1 Hs1) as H2.
    destruct (iter_pos f n s1) as [s2|r]; [|done]. destruct H2. split; [done|lia].
  - pose proof (IH s Hs) as H1.
    destruct (iter_pos f n s) as [s1|r]; [|done]. destruct H1 as [Hs1 ?].
    pose proof (IH s1 Hs1) as H2.
    destruct (iter_pos f n s1) as [s2|r]; [|done]. destruct H2. split; [done|lia].
  - pose proof (Hf s Hs) as H0. destruct (f s); [|done]. destruct H0. split; [done|lia].
Qed.

(** A loop whose measure stays nonnegative and starts below the bound leaves,
    with its postcondition. *)
Lemma iter_pos_total n s :
  (∀ s, Inv s → match f s with
                | inl s' => Inv s' ∧ m s' < m s
                | inr r => Post r
                end) →
  (∀ s, Inv s → 0 ≤ m s) →
  Inv s → m s < Zpos n →
  ∃ r, iter_pos f n s = inr r ∧ Post r.
Proof.
  intros Hf Hm Hs Hn. pose proof (iter_pos_measure n s Hf Hs) as H.
  destruct (iter_pos f n s) as [s'|r]; [|by eauto].
  destruct H as [Hs' ?]. specialize (Hm s' Hs'). lia.
Qed.
End loop_lemmas.
