(* ===== verification/Frames.v ===== *)
(** * Physical frames, the memory map and the frame-allocator interface

    What [memory/bump.rs] and [memory/buddy.rs] share: the bootloader's
    memory regions, runs of 4 KiB frames as lists of base addresses, the
    [PhysAddr]/[PhysFrame] constructors of the [x86_64] crate (an interface
    with the laws its documentation states) and the promise that a
    [FrameAllocator] makes to its clients ([memory::map_heap],
    [memory::map_mmio_window]). *)
From S2P Require Import Prelude.

#[local] Open Scope Z_scope.

(** ** Constants *)

Definition FRAME_SIZE : Z := 4096.

(** First address ever handed out: the zero page is firmware land. *)
Definition MIN_ADDR : Z := 0x1000.

(** Physical addresses have 52 bits. *)
Definition phys_lim : Z := 2 ^ 52.

(** ** The bootloader memory map

    Of [bootloader_api]'s [MemoryRegion] the kernel reads [start], [end] and
    compares [kind] with [Usable]; the other kinds are indistinguishable. *)
Inductive MemoryRegionKind := Usable | OtherKind (tag : Z).

#[export] Instance MemoryRegionKind_eq_dec : EqDecision MemoryRegionKind.
Proof. solve_decision. Defined.

Record MemoryRegion := mkRegion {
  r_start : Z;
  r_end : Z;
  r_kind : MemoryRegionKind
}.

Definition is_usable (r : MemoryRegion) : bool :=
  bool_decide (r_kind r = Usable).

(** ** The [x86_64] crate's address types, as an interface *)
Class PhysFrames := {
  PhysAddr_new : Z → outcome Z;
  containing_address : Z → Z;
  PhysAddr_new_ok a : 0 ≤ a < phys_lim → PhysAddr_new a = Ret a;
  containing_address_aligned a :
    a `mod` FRAME_SIZE = 0 → containing_address a = a
}.

(** [PhysFrame::containing_address(PhysAddr::new(addr))] *)
Definition phys_frame `{PhysFrames} (addr : Z) : outcome Z :=
  a ← PhysAddr_new addr; Ret (containing_address a).

(** A model of the crate that satisfies the laws. *)
#[export] Instance x86_phys_frames : PhysFrames.
Proof.
  refine {|
    PhysAddr_new a := if (0 <=? a) && (a <? phys_lim) then Ret a
                      else Panic "PhysAddr: invalid address";
    containing_address a := a - a `mod` FRAME_SIZE |}.
  - intros a [H1 H2].
    by rewrite (proj2 (Z.leb_le _ _) H1), (proj2 (Z.ltb_lt _ _) H2).
  - intros a ->. lia.
Defined.

(** ** Runs of frames *)

(** The whole frames of [lo, hi), in address order. *)
Definition frames_between (lo hi : Z) : list Z :=
  (λ i, lo + FRAME_SIZE * i) <$> seqZ 0 ((hi - lo) `div` FRAME_SIZE).

(** Where the allocators start inside a region, and the frames they may use. *)
Definition region_lo (r : MemoryRegion) : Z :=
  Z.max (align_up (r_start r) FRAME_SIZE) MIN_ADDR.

Definition region_frames_from (next : Z) (r : MemoryRegion) : list Z :=
  if is_usable r then frames_between (Z.max (region_lo r) next) (r_end r) else [].

Definition region_frames (r : MemoryRegion) : list Z := region_frames_from 0 r.

(** The frames still ahead of a cursor [(idx, next)] on the map. *)
Definition frames_ahead (rs : list MemoryRegion) (next : Z) : list Z :=
  match rs with
  | [] => []
  | r :: rs' => region_frames_from next r ++ (rs' ≫= region_frames)
  end.

(** The map describes physical memory. *)
Definition region_ok (r : MemoryRegion) : Prop :=
  0 ≤ r_start r ≤ phys_lim ∧ 0 ≤ r_end r ≤ phys_lim.

(** ** The promise of a frame allocator

    [pool] is a ghost view: the frames the allocator can still hand out. *)
Class FrameAllocator (S : Type) := {
  alloc_frame : S → outcome (option Z * S);
  pool : S → list Z;
  alloc_inv : S → Prop;
  alloc_frame_spec s :
    alloc_inv s →
    ∃ o s', alloc_frame s = Ret (o, s') ∧ alloc_inv s' ∧
      match o with
      | Some f => pool s ≡ₚ f :: pool s'
      | None => pool s = [] ∧ pool s' = []
      end
}.

(** Linear arithmetic over addresses, with the constants unfolded. *)
Ltac alia := unfold phys_lim, MIN_ADDR, FRAME_SIZE, u64, u64_max, u64_lim in *; lia.

(** ** Lemmas *)

Lemma FRAME_SIZE_pos : 0 < FRAME_SIZE.
Proof. done. Qed.
#[export] Hint Resolve FRAME_SIZE_pos : rusty.

Lemma phys_frame_ok `{PhysFrames} a :
  0 ≤ a < phys_lim → a `mod` FRAME_SIZE = 0 → phys_frame a = Ret a.
Proof.
  intros. unfold phys_frame. rewrite PhysAddr_new_ok by done. simpl.
  by rewrite containing_address_aligned.
Qed.

Lemma frames_between_nil lo hi : hi < lo + FRAME_SIZE → frames_between lo hi = [].
Proof.
  intros H. unfold frames_between. rewrite seqZ_nil; [done|].
  assert ((hi - lo) `div` FRAME_SIZE < 1); [|lia].
  apply Z.div_lt_upper_bound; unfold FRAME_SIZE in *; lia.
Qed.

Lemma frames_between_app lo mid hi :
  lo ≤ mid → (mid - lo) `mod` FRAME_SIZE = 0 → mid ≤ hi →
  frames_between lo hi = frames_between lo mid ++ frames_between mid hi.
Proof.
  intros Hlm Hmod Hmh. unfold frames_between.
  apply Z.mod_divide in Hmod as [k Hk]; [|done].
  assert (hi - lo = k * FRAME_SIZE + (hi - mid)) as -> by lia.
  rewrite Z.div_add_l by done. rewrite Hk, Z.div_mul by done.
  assert (0 ≤ k) by (unfold FRAME_SIZE in *; lia).
  rewrite seqZ_app; [|done|apply Z.div_pos; unfold FRAME_SIZE in *; lia].
  rewrite fmap_app. f_equal.
  rewrite (Z.add_comm 0 k), <- fmap_add_seqZ, <- list_fmap_compose.
  apply list_fmap_ext. intros ? ? _. simpl. lia.
Qed.

Lemma frames_between_cons lo hi :
  lo + FRAME_SIZE ≤ hi →
  frames_between lo hi = lo :: frames_between (lo + FRAME_SIZE) hi.
Proof.
  intros H. rewrite (frames_between_app lo (lo + FRAME_SIZE) hi);
    [|unfold FRAME_SIZE; lia| |done].
  - unfold frames_between at 1.
    replace (lo + FRAME_SIZE - lo) with FRAME_SIZE by lia.
    rewrite Z.div_same by done. change (seqZ 0 1) with [0].
    cbn [fmap list_fmap app]. f_equal. lia.
  - by replace (lo + FRAME_SIZE - lo) with FRAME_SIZE by lia.
Qed.

Lemma elem_of_frames_between x lo hi :
  x ∈ frames_between lo hi ↔
  lo ≤ x ∧ x + FRAME_SIZE ≤ hi ∧ (x - lo) `mod` FRAME_SIZE = 0.
Proof.
  unfold frames_between. rewrite list_elem_of_fmap. setoid_rewrite elem_of_seqZ.
  split.
  - intros (i & -> & Hi).
    assert (i + 1 ≤ (hi - lo) `div` FRAME_SIZE) as Hd by lia.
    apply (Z.mul_le_mono_nonneg_l _ _ FRAME_SIZE) in Hd; [|done].
    pose proof (Z.mul_div_le (hi - lo) FRAME_SIZE FRAME_SIZE_pos).
    split_and!; [unfold FRAME_SIZE in *; lia|unfold FRAME_SIZE in *; lia|].
    replace (lo + FRAME_SIZE * i - lo) with (i * FRAME_SIZE) by lia.
    by apply Z.mod_mul.
  - intros (Hl & Hh & Hm). apply Z.mod_divide in Hm as [k Hk]; [|done].
    exists k. split; [lia|]. split; [unfold FRAME_SIZE in *; lia|].
    assert (k + 1 ≤ (hi - lo) `div` FRAME_SIZE); [|lia].
    apply Z.div_le_lower_bound; [done|]. unfold FRAME_SIZE in *; lia.
Qed.

Lemma NoDup_frames_between lo hi : NoDup (frames_between lo hi).
Proof.
  unfold frames_between. apply NoDup_fmap_2, NoDup_seqZ.
  intros i j. unfold FRAME_SIZE. lia.
Qed.

Lemma length_frames_between lo hi :
  length (frames_between lo hi) = Z.to_nat ((hi - lo) `div` FRAME_SIZE).
Proof. unfold frames_between. by rewrite length_fmap, length_seqZ. Qed.

(** Rounding the end of an aligned run down to a frame loses nothing. *)
Lemma frames_between_align_down lo hi :
  lo `mod` FRAME_SIZE = 0 →
  frames_between lo (hi - hi `mod` FRAME_SIZE) = frames_between lo hi.
Proof.
  intros Hlo. unfold frames_between. do 2 f_equal.
  apply Z.mod_divide in Hlo as [k ->]; [|done].
  pose proof (Z.div_mod hi FRAME_SIZE ltac:(done)).
  replace (hi - hi `mod` FRAME_SIZE - k * FRAME_SIZE)
    with ((hi `div` FRAME_SIZE - k) * FRAME_SIZE) by lia.
  replace (hi - k * FRAME_SIZE) with (hi + (- k) * FRAME_SIZE) by lia.
  rewrite Z.div_mul, Z.div_add by done. lia.
Qed.

Lemma max_mod a b n : a `mod` n = 0 → b `mod` n = 0 → Z.max a b `mod` n = 0.
Proof. intros. by destruct (Z.max_spec a b) as [[_ ->]|[_ ->]]. Qed.

Lemma region_lo_aligned r : region_lo r `mod` FRAME_SIZE = 0.
Proof. apply max_mod; [by apply align_up_aligned|done]. Qed.
#[export] Hint Resolve region_lo_aligned max_mod : rusty.

Lemma region_lo_nonneg r : MIN_ADDR ≤ region_lo r.
Proof. unfold region_lo. lia. Qed.

(** Every frame ahead of a cursor is a frame of physical memory. *)
Definition frame_ok (f : Z) : Prop :=
  f `mod` FRAME_SIZE = 0 ∧ MIN_ADDR ≤ f ∧ f + FRAME_SIZE ≤ phys_lim.

Lemma region_frames_from_ok next r :
  region_ok r → next `mod` FRAME_SIZE = 0 →
  Forall frame_ok (region_frames_from next r).
Proof.
  intros [_ Hr] Hnext. apply Forall_forall. intros f.
  unfold region_frames_from. destruct (is_usable r); [|set_solver].
  intros (Hlo & Hhi & Hm)%elem_of_frames_between.
  pose proof (region_lo_nonneg r). split_and!; [|lia|lia].
  replace f with (f - Z.max (region_lo r) next + Z.max (region_lo r) next) by lia.
  rewrite Z.add_mod, Hm, max_mod by (done || apply region_lo_aligned). done.
Qed.

Lemma frames_ahead_ok rs next :
  Forall region_ok rs → next `mod` FRAME_SIZE = 0 →
  Forall frame_ok (frames_ahead rs next).
Proof.
  intros Hrs Hnext. destruct rs as [|r rs]; simpl; [constructor|].
  apply Forall_cons in Hrs as [Hr Hrs]. apply Forall_app. split.
  - by apply region_frames_from_ok.
  - induction Hrs; simpl; [constructor|]. apply Forall_app. split; [|done].
    by apply region_frames_from_ok.
Qed.

Lemma frames_ahead_cons r rs next :
  frames_ahead (r :: rs) next = region_frames_from next r ++ frames_ahead rs 0.
Proof. simpl. f_equal. destruct rs; simpl; [done|]. done. Qed.

(** ** Disjoint memory maps *)

(** Two usable regions of a sane map do not overlap. *)
Definition regions_apart (r r' : MemoryRegion) : Prop :=
  is_usable r = true → is_usable r' = true →
  r_end r ≤ r_start r' ∨ r_end r' ≤ r_start r.

Definition map_ok (rs : list MemoryRegion) : Prop :=
  Forall region_ok rs ∧ ForallOrdPairs regions_apart rs.

Lemma elem_of_region_frames f next r :
  f ∈ region_frames_from next r → is_usable r = true ∧ r_start r ≤ f ∧ f + FRAME_SIZE ≤ r_end r.
Proof.
  unfold region_frames_from. destruct (is_usable r); [|set_solver].
  intros (Hlo & Hhi & _)%elem_of_frames_between.
  pose proof (align_up_bounds (r_start r) FRAME_SIZE FRAME_SIZE_pos).
  unfold region_lo in Hlo. split_and!; [done|lia|done].
Qed.

Lemma regions_apart_frames f next next' r r' :
  regions_apart r r' → f ∈ region_frames_from next r → f ∉ region_frames_from next' r'.
Proof.
  intros Ha (U & H1 & H2)%elem_of_region_frames (U' & H3 & H4)%elem_of_region_frames.
  destruct (Ha U U'); unfold FRAME_SIZE in *; lia.
Qed.

Lemma NoDup_region_frames_from next r : NoDup (region_frames_from next r).
Proof.
  unfold region_frames_from. destruct (is_usable r); [|constructor].
  apply NoDup_frames_between.
Qed.

Lemma NoDup_map_frames rs next :
  ForallOrdPairs regions_apart rs → NoDup (frames_ahead rs next).
Proof.
  intros Hrs. revert next. induction Hrs as [|r rs Hr Hrs IH]; intros next; [constructor|].
  rewrite frames_ahead_cons. apply NoDup_app.
  split_and!; [apply NoDup_region_frames_from| |apply IH].
  intros f Hf Hin. clear IH Hrs.
  assert (f ∈ rs ≫= region_frames) as (r' & Hf' & Hr')%list_elem_of_bind.
  { by destruct rs. }
  rewrite Forall_forall in Hr.
  by eapply regions_apart_frames; [apply Hr, Hr'| |apply Hf'].
Qed.

Lemma ForallOrdPairs_drop {A} (R : relation A) n l :
  ForallOrdPairs R l → ForallOrdPairs R (drop n l).
Proof. intros H. revert n. induction H; intros [|n]; simpl; eauto using ForallOrdPairs. Qed.

(** ** The cursor *)

(** The cursor step shared by [bump.rs] and the bump mode of [buddy.rs]: a
    region either yields its next frame or has none left. *)
Lemma region_step region next :
  region_ok region → 0 ≤ next →
  is_usable region = true →
  ∃ aligned, checked_next_multiple_of (r_start region) 4096 = Some aligned ∧
    Z.max (Z.max aligned next) 0x1000 = Z.max (region_lo region) next ∧
    ((r_end region < Z.max (region_lo region) next + 4096 ∧
      region_frames_from next region = []) ∨
     (Z.max (region_lo region) next + 4096 ≤ r_end region ∧
      region_frames_from next region =
        Z.max (region_lo region) next ::
        region_frames_from (Z.max (region_lo region) next + 4096) region)).
Proof.
  intros [Hs He] Hn Hu. exists (align_up (r_start region) FRAME_SIZE).
  split. { apply checked_next_multiple_of_exact; [done|]. alia. }
  split. { unfold region_lo, MIN_ADDR. lia. }
  unfold region_frames_from. rewrite Hu.
  destruct (decide (r_end region < Z.max (region_lo region) next + 4096)).
  - left. split; [done|]. by apply frames_between_nil.
  - right. split; [lia|]. rewrite frames_between_cons by (unfold FRAME_SIZE; lia).
    f_equal. f_equal. unfold FRAME_SIZE. lia.
Qed.

Lemma region_frames_from_unusable next r :
  is_usable r = false → region_frames_from next r = [].
Proof. intros H. unfold region_frames_from. by rewrite H. Qed.

Lemma cursor_bounds r next :
  region_ok r → 0 ≤ next ≤ phys_lim → next `mod` FRAME_SIZE = 0 →
  MIN_ADDR ≤ Z.max (region_lo r) next ∧
  Z.max (region_lo r) next ≤ phys_lim + FRAME_SIZE ∧
  Z.max (region_lo r) next `mod` FRAME_SIZE = 0.
Proof.
  intros [Hs He] Hn Hm.
  pose proof (align_up_bounds (r_start r) FRAME_SIZE FRAME_SIZE_pos).
  split_and!; [unfold region_lo; alia..|].
  apply max_mod; [apply region_lo_aligned|done].
Qed.

Lemma aligned_next a : a `mod` FRAME_SIZE = 0 → (a + FRAME_SIZE) `mod` FRAME_SIZE = 0.
Proof. intros H. by rewrite Z.add_mod, H by done. Qed.

(** Check a concrete memory map. *)
Ltac solve_map_ok :=
  split;
  [ repeat (apply Forall_cons; split; [split; simpl; alia|]); by apply Forall_nil
  | repeat (apply FOP_cons;
      [repeat (apply Forall_cons; split;
        [intros U U'; first [discriminate U|discriminate U'|simpl; lia]|]);
       by apply Forall_nil|]);
    apply FOP_nil ].
