(* ===== verification/BumpAlloc.v ===== *)
(** * The bring-up frame allocator ([kernel/src/memory/bump.rs])

    A cursor [(region_idx, next_addr)] walks the memory map and hands out
    the frames of the usable regions in map order. *)
From S2P Require Import Prelude Frames.

#[local] Open Scope Z_scope.

Module Bump.

Record BootFrameAllocator := mkBump {
  regions : list MemoryRegion;
  region_idx : nat;
  next_addr : Z
}.

Definition bump_new (rs : list MemoryRegion) : BootFrameAllocator := mkBump rs 0 0.

Definition advance (s : BootFrameAllocator) : BootFrameAllocator :=
  mkBump (regions s) (S (region_idx s)) 0.

Section alloc.
Context `{PhysFrames}.

(** The [loop] of [allocate_frame]: [rs] is the map from [region_idx] on, so
    [regions.get(region_idx)] is its head and [advance] drops it. *)
Fixpoint alloc_loop (rs : list MemoryRegion) (s : BootFrameAllocator)
    : outcome (option Z * BootFrameAllocator) :=
  match rs with
  | [] => Ret (None, s)
  | region :: rs' =>
      if negb (is_usable region) then alloc_loop rs' (advance s)
      else match checked_next_multiple_of (r_start region) 4096 with
      | None => alloc_loop rs' (advance s)
      | Some aligned =>
          let addr := Z.max (Z.max aligned (next_addr s)) 0x1000 in
          match checked_add64 addr 4096 with
          | None => Ret (None, s)
          | Some frame_end =>
              if r_end region <? frame_end then alloc_loop rs' (advance s)
              else
                f ← phys_frame addr;
                Ret (Some f, mkBump (regions s) (region_idx s) frame_end)
          end
      end
  end.

Definition bump_allocate_frame (s : BootFrameAllocator)
    : outcome (option Z * BootFrameAllocator) :=
  alloc_loop (drop (region_idx s) (regions s)) s.

(** [n] allocations in a row: the frames handed out, in order. *)
Fixpoint drain (n : nat) (s : BootFrameAllocator) : outcome (list Z * BootFrameAllocator) :=
  match n with
  | O => Ret ([], s)
  | S n' =>
      '(o, s1) ← bump_allocate_frame s;
      match o with
      | None => Ret ([], s1)
      | Some f => '(fs, s2) ← drain n' s1; Ret (f :: fs, s2)
      end
  end.
End alloc.

(** ** Ghost view and invariant *)

Definition bump_pool (s : BootFrameAllocator) : list Z :=
  frames_ahead (drop (region_idx s) (regions s)) (next_addr s).

Definition bump_inv (s : BootFrameAllocator) : Prop :=
  Forall region_ok (regions s) ∧ 0 ≤ next_addr s ≤ phys_lim ∧ next_addr s `mod` FRAME_SIZE = 0.

(** ** Lemmas *)

Section alloc_lemmas.
Context `{PhysFrames}.

Lemma alloc_loop_spec rs s :
  drop (region_idx s) (regions s) = rs → bump_inv s →
  ∃ o s', alloc_loop rs s = Ret (o, s') ∧ bump_inv s' ∧ regions s' = regions s ∧
    match o with
    | Some f => bump_pool s = f :: bump_pool s'
    | None => bump_pool s = [] ∧ bump_pool s' = []
    end.
Proof.
  revert s. induction rs as [|r rs IH]; intros s Hdrop (Hrs & Hn & Hm).
  { exists None, s. unfold bump_pool. by rewrite Hdrop. }
  assert (Hdrop' : drop (region_idx (advance s)) (regions (advance s)) = rs).
  { simpl. by rewrite <- Nat.add_1_r, <- drop_drop, Hdrop. }
  assert (Hadv : region_frames_from (next_addr s) r = [] →
                 bump_pool s = bump_pool (advance s)).
  { intros E. unfold bump_pool. by rewrite Hdrop, Hdrop', frames_ahead_cons, E. }
  destruct (IH (advance s) Hdrop') as (o & s' & Hl & Hinv & Hreg & Ho); [done|].
  assert (Hok : region_ok r).
  { apply (Forall_drop _ (region_idx s)) in Hrs. rewrite Hdrop in Hrs.
    by apply Forall_cons in Hrs as [? _]. }
  simpl. destruct (is_usable r) eqn:Hu; simpl.
  2: { exists o, s'. rewrite Hadv by (by apply region_frames_from_unusable). done. }
  destruct (region_step r (next_addr s) Hok (proj1 Hn) Hu)
    as (al & -> & Hmax & Hcase). rewrite Hmax. set (a := Z.max (region_lo r) _) in *.
  destruct (cursor_bounds r (next_addr s) Hok Hn Hm) as (Ha1 & Ha2 & Hamod). fold a in Ha1, Ha2, Hamod.
  rewrite checked_add64_exact by alia.
  destruct Hcase as [[E Ep]|[E Ep]].
  - rewrite (proj2 (Z.ltb_lt _ _) E). exists o, s'. by rewrite Hadv.
  - rewrite (proj2 (Z.ltb_ge _ _) E). destruct Hok as [_ Hend].
    rewrite phys_frame_ok by (done || alia). simpl.
    do 2 eexists. split; [done|]. split_and!; simpl; [|done|].
    + split_and!; [done|simpl; alia|simpl; alia|]. by apply aligned_next.
    + unfold bump_pool. simpl. by rewrite Hdrop, !frames_ahead_cons, Ep.
Qed.

Lemma drain_spec n s :
  bump_inv s →
  ∃ s', drain n s = Ret (take n (bump_pool s), s') ∧ bump_inv s' ∧
        bump_pool s' = drop n (bump_pool s).
Proof.
  revert s. induction n as [|n IH]; intros s Hs; simpl; [by eauto|].
  destruct (alloc_loop_spec _ s eq_refl Hs) as (o & s1 & E & Hs1 & _ & Ho).
  unfold bump_allocate_frame. rewrite E. simpl. destruct o as [f|].
  - destruct (IH s1 Hs1) as (s2 & -> & ? & ?). rewrite Ho. simpl. eauto.
  - destruct Ho as [-> Ho]. exists s1. rewrite Ho. by destruct n.
Qed.

Lemma bump_new_inv rs : Forall region_ok rs → bump_inv (bump_new rs).
Proof. intros Hrs. split_and!; unfold bump_new; simpl; [done|alia|alia|done]. Qed.
End alloc_lemmas.

(** [BootFrameAllocator] keeps the promise of the [FrameAllocator] trait. *)
#[export] Instance bump_FrameAllocator `{PhysFrames} : FrameAllocator BootFrameAllocator.
Proof.
  refine {| alloc_frame := bump_allocate_frame; pool := bump_pool; alloc_inv := bump_inv |}.
  intros s Hs. destruct (alloc_loop_spec _ s eq_refl Hs) as (o & s' & E & Hs' & _ & Ho).
  exists o, s'. split_and!; [done|done|]. destruct o; [by rewrite Ho|done].
Defined.
(** ** Properties *)

(** C36.  The bring-up allocator drains the map in order: from a fresh cursor
    over a sane map, [n] requests return exactly the first [n] usable frames
    (aligned, above the zero page, region by region), never panic, and never
    return a frame twice. *)
Theorem bump_drains_in_map_order `{PhysFrames} rs n :
  map_ok rs →
  ∃ s', drain n (bump_new rs) = Ret (take n (rs ≫= region_frames), s') ∧
    NoDup (take n (rs ≫= region_frames)) ∧
    Forall frame_ok (take n (rs ≫= region_frames)).
Proof.
  intros [Hrs Hap]. destruct (drain_spec n (bump_new rs) (bump_new_inv rs Hrs)) as (s' & E & _).
  unfold bump_pool, bump_new in E. simpl in E. rewrite drop_0 in E.
  assert (Hf : frames_ahead rs 0 = rs ≫= region_frames) by by destruct rs.
  rewrite Hf in E. exists s'. split; [done|]. rewrite <- Hf. split.
  - eapply sublist_NoDup; [apply NoDup_map_frames, Hap|apply sublist_take].
  - by apply Forall_take, frames_ahead_ok.
Qed.

Lemma bump_drains_in_map_order_witness :
  ∃ s', drain 3 (bump_new [mkRegion 0 0x2800 Usable; mkRegion 0x4000 0x6000 Usable])
        = Ret ([0x1000; 0x4000; 0x5000], s').
Proof.
  destruct (bump_drains_in_map_order
    [mkRegion 0 0x2800 Usable; mkRegion 0x4000 0x6000 Usable] 3) as (s' & E & _).
  - solve_map_ok.
  - exists s'. exact E.
Defined.

End Bump.
