(* ===== verification/BuddyAlloc.v ===== *)
(** * The buddy frame allocator ([kernel/src/memory/buddy.rs])

    Two modes: before [activate] a cursor hands out frames as the bump
    allocator does; [activate] carves what the cursor has not consumed into
    thirteen free lists of power-of-two blocks, and from then on requests
    split blocks and frees merge them with their buddies. *)
From S2P Require Import Prelude Frames BumpAlloc.

#[local] Open Scope Z_scope.

Module Buddy.

Definition BUDDY_MAX_ORDER : nat := 12.
Definition BUDDY_ORDERS : nat := S BUDDY_MAX_ORDER.

(** [1u64 << (order + 12)] *)
Definition block_size (order : nat) : Z := Z.shiftl 1 (Z.of_nat order + 12).

Record BuddyFrameAllocator := mkBuddy {
  regions : list MemoryRegion;
  region_idx : nat;
  next_addr : Z;
  active : bool;
  free_lists : list (list Z);
  allocated : Z
}.

Definition with_cursor (s : BuddyFrameAllocator) (i : nat) (a : Z) : BuddyFrameAllocator :=
  mkBuddy (regions s) i a (active s) (free_lists s) (allocated s).
Definition with_lists (s : BuddyFrameAllocator) (fls : list (list Z)) : BuddyFrameAllocator :=
  mkBuddy (regions s) (region_idx s) (next_addr s) (active s) fls (allocated s).
Definition with_allocated (s : BuddyFrameAllocator) (n : Z) : BuddyFrameAllocator :=
  mkBuddy (regions s) (region_idx s) (next_addr s) (active s) (free_lists s) n.

Definition new (rs : list MemoryRegion) : BuddyFrameAllocator :=
  mkBuddy rs 0 0 false (replicate BUDDY_ORDERS []) 0.

(** [self.free_lists[order].push(addr)] *)
Definition push_block (fls : list (list Z)) (order : nat) (addr : Z) : list (list Z) :=
  <[order := (fls !!! order) ++ [addr]]> fls.

(** ** [activate] *)

(** The inner [loop]: the largest order, from [order] down, whose block is
    aligned at [start] and fits in [remaining]. *)
Fixpoint pick_order (start remaining : Z) (order : nat) : nat :=
  let size := block_size order in
  if (size <=? remaining) && (start `mod` size =? 0) then order
  else match order with
  | O => O
  | S o => pick_order start remaining o
  end.

Section ops.
Context (p : profile).

(** One round of [while start + FRAME_SIZE <= end]. *)
Definition carve_body (end_ : Z) (st : Z * list (list Z))
    : (Z * list (list Z)) + outcome (list (list Z)) :=
  let '(start, fls) := st in
  match add64 p start FRAME_SIZE with
  | Panic e => inr (Panic e)
  | Ret frame_end =>
      if frame_end <=? end_ then
        match
          (remaining ← sub64 p end_ start;
           let order := pick_order start remaining BUDDY_MAX_ORDER in
           start' ← add64 p start (block_size order);
           Ret (start', push_block fls order start))
        with
        | Ret st' => inl st'
        | Panic e => inr (Panic e)
        end
      else inr (Ret fls)
  end.

Definition carve (start end_ : Z) (fls : list (list Z)) : outcome (list (list Z)) :=
  match iter_pos (carve_body end_) loop_fuel (start, fls) with
  | inr r => r
  | inl _ => Panic "loop bound exceeded"
  end.

(** The [for (i, r) in self.regions.iter().enumerate()] of [activate], with
    the cursor [(idx, next)]. *)
Fixpoint carve_regions (idx : nat) (next : Z) (i : nat) (rs : list MemoryRegion)
    (fls : list (list Z)) : outcome (list (list Z)) :=
  match rs with
  | [] => Ret fls
  | r :: rs' =>
      if negb (is_usable r) then carve_regions idx next (S i) rs' fls
      else if r_end r <=? r_start r then carve_regions idx next (S i) rs' fls
      else
        s0 ← next_multiple_of p (r_start r) FRAME_SIZE;
        let start := Z.max s0 MIN_ADDR in
        let end_ := Z.land (r_end r) (Z.lnot (FRAME_SIZE - 1)) in
        if (i =? idx)%nat then
          na ← next_multiple_of p next FRAME_SIZE;
          fls' ← carve (Z.max start na) end_ fls;
          carve_regions idx next (S i) rs' fls'
        else if (i <? idx)%nat then carve_regions idx next (S i) rs' fls
        else
          fls' ← carve start end_ fls;
          carve_regions idx next (S i) rs' fls'
  end.

Definition activate (s : BuddyFrameAllocator) : outcome BuddyFrameAllocator :=
  _ ← assert_ (negb (active s)) "buddy activate called twice";
  fls ← carve_regions (region_idx s) (next_addr s) 0 (regions s) (free_lists s);
  Ret (mkBuddy (regions s) (length (regions s)) u64_max true fls (allocated s)).

(** ** Bump mode *)

(** The [loop] of [bump_one]; [rs] is the map from [region_idx] on. *)
Fixpoint bump_loop (rs : list MemoryRegion) (s : BuddyFrameAllocator)
    : option Z * BuddyFrameAllocator :=
  match rs with
  | [] => (None, s)
  | region :: rs' =>
      let skip := with_cursor s (S (region_idx s)) 0 in
      if negb (is_usable region) then bump_loop rs' skip
      else match checked_next_multiple_of (r_start region) FRAME_SIZE with
      | None => bump_loop rs' skip
      | Some aligned =>
          let addr := Z.max (Z.max aligned (next_addr s)) MIN_ADDR in
          match checked_add64 addr FRAME_SIZE with
          | None => (None, s)
          | Some frame_end =>
              if r_end region <? frame_end then bump_loop rs' skip
              else (Some addr, with_cursor s (region_idx s) frame_end)
          end
      end
  end.

Definition bump_one (s : BuddyFrameAllocator) : option Z * BuddyFrameAllocator :=
  bump_loop (drop (region_idx s) (regions s)) s.

(** ** Split and merge *)

(** [take_block(order)]; [n] is [BUDDY_ORDERS - order], the orders left, so
    [n = 0] is the [order > BUDDY_MAX_ORDER] return. *)
Fixpoint take_block_aux (n order : nat) (fls : list (list Z))
    : outcome (option Z * list (list Z)) :=
  match n with
  | O => Ret (None, fls)
  | S n' =>
      match vec_pop (fls !!! order) with
      | Some (addr, l) => Ret (Some addr, <[order := l]> fls)
      | None =>
          '(o, fls1) ← take_block_aux n' (S order) fls;
          match o with
          | None => Ret (None, fls1)
          | Some higher =>
              high ← add64 p higher (block_size order);
              Ret (Some higher, push_block fls1 order high)
          end
      end
  end.

Definition take_block (order : nat) (fls : list (list Z))
    : outcome (option Z * list (list Z)) :=
  take_block_aux (BUDDY_ORDERS - order) order fls.

(** The merge [loop] of [deallocate_frame]; [n] is [BUDDY_MAX_ORDER - order],
    so [n = 0] is the [order == BUDDY_MAX_ORDER] break. *)
Fixpoint merge_aux (n order : nat) (addr : Z) (fls : list (list Z)) : list (list Z) :=
  match n with
  | O => push_block fls order addr
  | S n' =>
      let buddy := Z.lxor addr (block_size order) in
      match position buddy (fls !!! order) with
      | Some pos =>
          match swap_remove pos (fls !!! order) with
          | Some (_, l) => merge_aux n' (S order) (Z.min addr buddy) (<[order := l]> fls)
          | None => fls
          end
      | None => push_block fls order addr
      end
  end.

(** ** The allocator's interface *)
Context `{PhysFrames}.

Definition allocate_frame (s : BuddyFrameAllocator)
    : outcome (option Z * BuddyFrameAllocator) :=
  '(o, s1) ←
    (if active s then
       '(o, fls) ← take_block 0 (free_lists s); Ret (o, with_lists s fls)
     else Ret (bump_one s));
  match o with
  | None => Ret (None, s1)
  | Some addr =>
      _ ← debug_assert p (addr `mod` FRAME_SIZE =? 0) "assertion failed";
      _ ← debug_assert p (MIN_ADDR <=? addr) "buddy handed out the zero page";
      n ← add64 p (allocated s1) 1;
      f ← phys_frame addr;
      Ret (Some f, with_allocated s1 n)
  end.

Definition deallocate_frame (s : BuddyFrameAllocator) (frame : Z)
    : outcome BuddyFrameAllocator :=
  _ ← assert_ (active s) "buddy free before activate";
  _ ← assert_ (frame `mod` FRAME_SIZE =? 0) "buddy free of unaligned frame";
  _ ← assert_ (MIN_ADDR <=? frame) "buddy free of the zero page";
  let fls := merge_aux BUDDY_MAX_ORDER 0 frame (free_lists s) in
  Ret (with_allocated (with_lists s fls) (saturating_sub64 (allocated s) 1)).

(** The [for] of [free_frames], from order [o] with the running sum [n]. *)
Fixpoint count_frames (o : nat) (fls : list (list Z)) (n : Z) : outcome Z :=
  match fls with
  | [] => Ret n
  | l :: fls' =>
      k ← mul64 p (Z.of_nat (length l)) (Z.shiftl 1 (Z.of_nat o));
      n' ← add64 p n k;
      count_frames (S o) fls' n'
  end.

Definition free_frames (s : BuddyFrameAllocator) : outcome Z :=
  count_frames 0 (free_lists s) 0.

Definition allocated_frames (s : BuddyFrameAllocator) : Z := allocated s.

(** [memory::self_test_reclaim] under [alloc-buddy]. *)
Definition self_test_reclaim (s : BuddyFrameAllocator) : outcome BuddyFrameAllocator :=
  before ← free_frames s;
  '(o, s1) ← allocate_frame s;
  frame ← expect o "buddy self-test: no frame to take";
  mid ← free_frames s1;
  mid1 ← add64 p mid 1;
  _ ← assert_ (before =? mid1) "buddy self-test: allocate didn't consume a frame";
  s2 ← deallocate_frame s1 frame;
  after ← free_frames s2;
  _ ← assert_ (before =? after) "buddy self-test: free didn't return the frame";
  Ret s2.
End ops.

(** ** Ghost view *)

(** The frames of a block, of a free list, of all free lists. *)
Definition block_frames (order : nat) (addr : Z) : list Z :=
  frames_between addr (addr + block_size order).

Fixpoint lists_frames (order : nat) (fls : list (list Z)) : list Z :=
  match fls with
  | [] => []
  | l :: fls' => (l ≫= block_frames order) ++ lists_frames (S order) fls'
  end.

Definition buddy_pool (s : BuddyFrameAllocator) : list Z :=
  if active s then lists_frames 0 (free_lists s)
  else frames_ahead (drop (region_idx s) (regions s)) (next_addr s).

(** A block is aligned to its size, above the zero page, within memory. *)
Definition block_ok (order : nat) (addr : Z) : Prop :=
  addr `mod` block_size order = 0 ∧ MIN_ADDR ≤ addr ∧
  addr + block_size order ≤ phys_lim.

Definition lists_ok (fls : list (list Z)) : Prop :=
  length fls = BUDDY_ORDERS ∧
  ∀ o, (o < BUDDY_ORDERS)%nat → Forall (block_ok o) (fls !!! o).

(** No two buddies below the top order are both free. *)
Definition coalesced (fls : list (list Z)) : Prop :=
  ∀ o a, (o < BUDDY_MAX_ORDER)%nat → a ∈ fls !!! o →
    Z.lxor a (block_size o) ∉ fls !!! o.

Definition buddy_inv (s : BuddyFrameAllocator) : Prop :=
  Forall region_ok (regions s) ∧
  (if active s then lists_ok (free_lists s)
   else free_lists s = replicate BUDDY_ORDERS [] ∧
        0 ≤ next_addr s ≤ phys_lim ∧ next_addr s `mod` FRAME_SIZE = 0) ∧
  NoDup (buddy_pool s) ∧
  0 ≤ allocated s ∧ allocated s + Z.of_nat (length (buddy_pool s)) < u64_lim - 1.

(** ** Block arithmetic *)

Lemma block_size_pow o : block_size o = 2 ^ (Z.of_nat o + 12).
Proof. unfold block_size. rewrite Z.shiftl_mul_pow2 by lia. lia. Qed.

Lemma block_size_S o : block_size (S o) = 2 * block_size o.
Proof.
  rewrite !block_size_pow. rewrite Nat2Z.inj_succ.
  replace (Z.succ (Z.of_nat o) + 12) with (Z.succ (Z.of_nat o + 12)) by lia.
  by rewrite Z.pow_succ_r by lia.
Qed.

Lemma block_size_frames o : block_size o = 2 ^ Z.of_nat o * FRAME_SIZE.
Proof. rewrite block_size_pow, Z.pow_add_r by lia. done. Qed.

Lemma block_size_ge o : FRAME_SIZE ≤ block_size o.
Proof.
  rewrite block_size_frames. pose proof (Z.pow_pos_nonneg 2 (Z.of_nat o)). alia.
Qed.

Lemma block_size_mod o : block_size o `mod` FRAME_SIZE = 0.
Proof. rewrite block_size_frames. by apply Z.mod_mul. Qed.

Lemma block_size_le o o' : (o ≤ o')%nat → block_size o ≤ block_size o'.
Proof. intros. rewrite !block_size_pow. apply Z.pow_le_mono_r; lia. Qed.

Lemma block_size_bound o : (o < BUDDY_ORDERS)%nat → block_size o ≤ 2 ^ 24.
Proof.
  unfold BUDDY_ORDERS, BUDDY_MAX_ORDER. intros.
  change (2 ^ 24) with (block_size 12). apply block_size_le. lia.
Qed.

Lemma block_aligned_frame o a : a `mod` block_size o = 0 → a `mod` FRAME_SIZE = 0.
Proof.
  intros H. pose proof (block_size_ge o).
  apply Z.mod_divide in H as [k ->]; [|alia].
  rewrite block_size_frames, Z.mul_assoc. by apply Z.mod_mul.
Qed.

Lemma block_aligned_le o o' a :
  (o ≤ o')%nat → a `mod` block_size o' = 0 → a `mod` block_size o = 0.
Proof.
  intros Ho. induction Ho as [|o' Ho IH]; [done|]. intros Ha. apply IH.
  pose proof (block_size_ge o'). rewrite block_size_S in Ha.
  apply Z.mod_divide in Ha as [k ->]; [|alia].
  replace (k * (2 * block_size o')) with (k * 2 * block_size o') by lia.
  apply Z.mod_mul. alia.
Qed.

(** Flipping the size bit of an aligned block moves it by its size, towards
    the half of the enclosing block it does not occupy. *)
Lemma lxor_pow2 k a :
  0 ≤ k → a `mod` 2 ^ k = 0 →
  (a `mod` (2 * 2 ^ k) = 0 ∧ Z.lxor a (2 ^ k) = a + 2 ^ k) ∨
  ((a - 2 ^ k) `mod` (2 * 2 ^ k) = 0 ∧ Z.lxor a (2 ^ k) = a - 2 ^ k).
Proof.
  intros Hk Ha. pose proof (Z.pow_pos_nonneg 2 k ltac:(lia) Hk) as Hp.
  apply Z.mod_divide in Ha as [q ->]; [|lia].
  assert (Hx : ∀ x, Z.lxor (x * 2 ^ k) (2 ^ k) = Z.lxor x 1 * 2 ^ k).
  { intros x. rewrite <- !Z.shiftl_mul_pow2, Z.shiftl_lxor by done.
    by rewrite (Z.shiftl_mul_pow2 1), Z.mul_1_l by done. }
  assert (Heven : ∀ m, Z.lxor (2 * m) 1 = 2 * m + 1).
  { intros m. rewrite <- Z.add_nocarry_lxor; [done|].
    change 1 with (Z.ones 1). rewrite Z.land_ones by lia.
    rewrite Z.mul_comm. by apply Z.mod_mul. }
  rewrite Hx. destruct (Z.Even_or_Odd q) as [[m ->]|[m ->]].
  - left. rewrite Heven. split; [|lia].
    replace (2 * m * 2 ^ k) with (m * (2 * 2 ^ k)) by lia. apply Z.mod_mul. lia.
  - right. rewrite <- Heven at 2.
    rewrite Z.lxor_assoc, Z.lxor_nilpotent, Z.lxor_0_r. split; [|lia].
    replace ((2 * m + 1) * 2 ^ k - 2 ^ k) with (m * (2 * 2 ^ k)) by lia.
    apply Z.mod_mul. lia.
Qed.

Lemma buddy_cases o a :
  a `mod` block_size o = 0 →
  (a `mod` block_size (S o) = 0 ∧ Z.lxor a (block_size o) = a + block_size o) ∨
  ((a - block_size o) `mod` block_size (S o) = 0 ∧
   Z.lxor a (block_size o) = a - block_size o).
Proof.
  rewrite block_size_S, !block_size_pow. apply lxor_pow2. lia.
Qed.

Lemma block_frames_split o a :
  block_frames (S o) a = block_frames o a ++ block_frames o (a + block_size o).
Proof.
  unfold block_frames. rewrite block_size_S. pose proof (block_size_ge o).
  rewrite (frames_between_app a (a + block_size o)); [|alia| |alia].
  - do 2 f_equal. lia.
  - replace (a + block_size o - a) with (block_size o) by lia. apply block_size_mod.
Qed.

Lemma block_frames_0 a : block_frames 0 a = [a].
Proof.
  unfold block_frames. change (block_size 0) with FRAME_SIZE.
  rewrite frames_between_cons by lia. by rewrite frames_between_nil by alia.
Qed.

(** A block and its free buddy are the halves of the merged block. *)
Lemma block_frames_merge o a :
  a `mod` block_size o = 0 →
  block_frames (S o) (Z.min a (Z.lxor a (block_size o))) ≡ₚ
  block_frames o a ++ block_frames o (Z.lxor a (block_size o)).
Proof.
  intros Ha. pose proof (block_size_ge o). rewrite block_frames_split.
  destruct (buddy_cases o a Ha) as [[_ ->]|[_ ->]].
  - rewrite Z.min_l by alia. done.
  - rewrite Z.min_r by alia. rewrite Permutation_app_comm.
    by replace (a - block_size o + block_size o) with a by lia.
Qed.

Lemma block_ok_merge o a :
  block_ok o a → block_ok o (Z.lxor a (block_size o)) →
  block_ok (S o) (Z.min a (Z.lxor a (block_size o))).
Proof.
  intros (Ha & Hl & Hh) (_ & Hl' & Hh'). pose proof (block_size_ge o).
  split_and!; [|lia|].
  - destruct (buddy_cases o a Ha) as [[? E]|[? E]]; rewrite E in *.
    + by rewrite Z.min_l by alia.
    + by rewrite Z.min_r by alia.
  - rewrite block_size_S.
    destruct (buddy_cases o a Ha) as [[? E]|[? E]]; rewrite E in *; alia.
Qed.

Lemma block_ok_split o a :
  block_ok (S o) a → block_ok o a ∧ block_ok o (a + block_size o).
Proof.
  intros (Ha & Hl & Hh). rewrite block_size_S in Hh. pose proof (block_size_ge o).
  assert (Ha' : a `mod` block_size o = 0) by (eapply (block_aligned_le _ (S o)); eauto).
  split; (split_and!; [|alia|alia]); [done|].
  rewrite <- Z.add_mod_idemp_r, Z.mod_same, Z.add_0_r by alia. done.
Qed.

Lemma block_ok_half o a : block_ok (S o) a → u64 (a + block_size o).
Proof.
  intros H. destruct (block_ok_split o a H) as [_ (_ & ? & ?)].
  pose proof (block_size_ge o). alia.
Qed.

Lemma block_frames_ok o a : block_ok o a → Forall frame_ok (block_frames o a).
Proof.
  intros (Ha & Hl & Hh). apply Forall_forall.
  intros f (H1 & H2 & H3)%elem_of_frames_between. split_and!; [|lia|lia].
  apply block_aligned_frame in Ha.
  replace f with (f - a + a) by lia. by rewrite Z.add_mod, H3, Ha by done.
Qed.

(** ** Free lists as a pool of frames *)

Lemma lists_frames_insert fls o i l l' :
  fls !! i = Some l →
  lists_frames o (<[i := l']> fls) ++ (l ≫= block_frames (o + i)) ≡ₚ
  lists_frames o fls ++ (l' ≫= block_frames (o + i)).
Proof.
  revert o i. induction fls as [|l0 fls IH]; intros o [|i] Hi; simplify_eq/=.
  - rewrite Nat.add_0_r. solve_Permutation.
  - rewrite <- !app_assoc, <- Nat.add_succ_comm.
    apply Permutation_app_head. by apply IH.
Qed.

Lemma lookup_total_lt {A} `{Inhabited A} (l : list A) i :
  (i < length l)%nat → l !! i = Some (l !!! i).
Proof. intros Hi. by apply list_lookup_lookup_total_lt. Qed.

Lemma lookup_total_insert_cases {A} `{Inhabited A} (l : list A) i j x :
  (i < length l)%nat →
  <[i := x]> l !!! j = if decide (i = j) then x else l !!! j.
Proof.
  intros Hi. case_decide; subst.
  - by apply list_lookup_total_insert_eq.
  - by apply list_lookup_total_insert_ne.
Qed.

(** Replacing the list of order [o] exchanges the frames of the two lists. *)
Lemma lists_frames_replace fls o l' :
  (o < length fls)%nat →
  lists_frames 0 (<[o := l']> fls) ++ ((fls !!! o) ≫= block_frames o) ≡ₚ
  lists_frames 0 fls ++ (l' ≫= block_frames o).
Proof. intros Ho. by apply (lists_frames_insert fls 0 o), lookup_total_lt. Qed.

Lemma push_block_frames fls o a :
  (o < length fls)%nat →
  lists_frames 0 (push_block fls o a) ≡ₚ block_frames o a ++ lists_frames 0 fls.
Proof.
  intros Ho. apply (Permutation_app_inv_r ((fls !!! o) ≫= block_frames o)).
  unfold push_block. rewrite lists_frames_replace by done.
  rewrite bind_app. simpl. rewrite app_nil_r. solve_Permutation.
Qed.

Lemma remove_block_frames fls o a l :
  (o < length fls)%nat → fls !!! o ≡ₚ a :: l →
  lists_frames 0 fls ≡ₚ block_frames o a ++ lists_frames 0 (<[o := l]> fls).
Proof.
  intros Ho Hl. apply (Permutation_app_inv_r (l ≫= block_frames o)).
  rewrite <- lists_frames_replace by done. rewrite Hl. simpl. solve_Permutation.
Qed.

Lemma lists_ok_insert fls o l :
  lists_ok fls → Forall (block_ok o) l → lists_ok (<[o := l]> fls).
Proof.
  intros [Hlen Hok] Hl. split; [by rewrite length_insert|].
  intros o' Ho'. destruct (decide (o < length fls)%nat).
  - rewrite lookup_total_insert_cases by done. case_decide; subst; [done|by apply Hok].
  - rewrite list_insert_ge by lia. by apply Hok.
Qed.

Lemma lists_ok_push fls o a :
  lists_ok fls → (o < BUDDY_ORDERS)%nat → block_ok o a → lists_ok (push_block fls o a).
Proof.
  intros Hok Ho Ha. apply lists_ok_insert; [done|].
  apply Forall_app. split; [by apply Hok|by constructor].
Qed.

Lemma lists_ok_remove fls o a l :
  lists_ok fls → (o < BUDDY_ORDERS)%nat → fls !!! o ≡ₚ a :: l →
  block_ok o a ∧ lists_ok (<[o := l]> fls).
Proof.
  intros Hok Ho Hl. pose proof (proj2 Hok o Ho) as Hb. rewrite Hl in Hb.
  apply Forall_cons in Hb as [? ?]. split; [done|by apply lists_ok_insert].
Qed.

Lemma lists_ok_empty : lists_ok (replicate BUDDY_ORDERS []).
Proof.
  split; [done|]. intros o Ho. by rewrite lookup_total_replicate_2.
Qed.

Lemma lists_frames_empty n o : lists_frames o (replicate n []) = [].
Proof. revert o. induction n; intros o; simpl; auto. Qed.

Lemma lists_frames_ok fls o :
  (∀ i l, fls !! i = Some l → Forall (block_ok (o + i)) l) →
  Forall frame_ok (lists_frames o fls).
Proof.
  revert o. induction fls as [|l fls IH]; intros o Hok; simpl; [constructor|].
  apply Forall_app. split.
  - specialize (Hok 0%nat l eq_refl). rewrite Nat.add_0_r in Hok.
    apply Forall_forall. intros f (a & Hf & Ha)%list_elem_of_bind.
    rewrite Forall_forall in Hok. specialize (Hok a Ha).
    apply block_frames_ok in Hok. rewrite Forall_forall in Hok. by apply Hok.
  - apply IH. intros i l' Hi. rewrite Nat.add_succ_comm. by apply Hok.
Qed.

Lemma lists_ok_frames fls : lists_ok fls → Forall frame_ok (lists_frames 0 fls).
Proof.
  intros [Hlen Hok]. apply lists_frames_ok. intros i l Hi. simpl.
  rewrite <- (list_lookup_total_correct _ _ _ Hi). apply Hok.
  apply lookup_lt_Some in Hi. lia.
Qed.

(** No free frame means that every free list is empty. *)
Lemma lists_frames_nil fls o :
  lists_frames o fls = [] ↔ Forall (λ l, l = []) fls.
Proof.
  revert o. induction fls as [|l fls IH]; intros o; simpl; [done|].
  rewrite app_nil, Forall_cons, IH. split; intros [H1 H2]; (split; [|done]).
  - destruct l as [|a l]; [done|]. simpl in H1. apply app_nil in H1 as [H1 _].
    pose proof (block_size_ge o). unfold block_frames in H1.
    by rewrite frames_between_cons in H1 by alia.
  - by rewrite H1.
Qed.

(** ** Splitting *)

Lemma push_block_lookup fls o j a :
  (o < length fls)%nat →
  push_block fls o a !!! j = if decide (o = j) then (fls !!! o) ++ [a] else fls !!! j.
Proof. intros. unfold push_block. by apply lookup_total_insert_cases. Qed.

Lemma length_push_block fls o a : length (push_block fls o a) = length fls.
Proof. apply length_insert. Qed.

Section split_merge.
Context (p : profile).

(** Either every list from [order] up is empty and nothing changes, or a
    block of exactly [order] leaves the pool. *)
Lemma take_block_aux_spec n order fls :
  lists_ok fls → (n + order = BUDDY_ORDERS)%nat →
  (take_block_aux p n order fls = Ret (None, fls) ∧
   ∀ o, (order ≤ o < BUDDY_ORDERS)%nat → fls !!! o = []) ∨
  (∃ a fls', take_block_aux p n order fls = Ret (Some a, fls') ∧
    lists_ok fls' ∧ block_ok order a ∧
    lists_frames 0 fls ≡ₚ block_frames order a ++ lists_frames 0 fls').
Proof.
  revert order. induction n as [|n IH]; intros order Hok Hn; simpl.
  { left. split; [done|]. intros; lia. }
  pose proof Hok as [Hlen _]. assert (Ho : (order < BUDDY_ORDERS)%nat) by lia.
  destruct (vec_pop (fls !!! order)) as [[a l]|] eqn:Hpop.
  - right. apply vec_pop_Some in Hpop as Hl.
    assert (Hp : fls !!! order ≡ₚ a :: l) by (rewrite Hl; solve_Permutation).
    destruct (lists_ok_remove fls order a l Hok Ho Hp).
    do 2 eexists. split; [done|]. split_and!; [done|done|].
    apply remove_block_frames; [lia|done].
  - apply vec_pop_None in Hpop.
    destruct (IH (S order) Hok ltac:(lia)) as [[-> Hnone]|(a & fls1 & -> & Hok1 & Ha & Hp)].
    + left. split; [done|]. intros o Ho'.
      destruct (decide (o = order)) as [->|]; [done|]. apply Hnone. lia.
    + right. simpl. destruct (block_ok_split order a Ha) as [Ha0 Ha1].
      rewrite add64_exact by (by apply block_ok_half). simpl.
      do 2 eexists. split; [done|].
      split_and!; [by apply lists_ok_push|done|].
      rewrite push_block_frames by (destruct Hok1; lia).
      rewrite Hp, block_frames_split. solve_Permutation.
Qed.

Lemma take_block_aux_low n order fls o fls' :
  take_block_aux p n order fls = Ret (o, fls') →
  length fls' = length fls ∧ ∀ j, (j < order)%nat → fls' !!! j = fls !!! j.
Proof.
  revert order o fls'. induction n as [|n IH]; intros order o fls' H; simpl in H.
  { by simplify_eq. }
  destruct (vec_pop (fls !!! order)) as [[a l]|].
  { simplify_eq. split; [apply length_insert|]. intros j Hj.
    by rewrite list_lookup_total_insert_ne by lia. }
  destruct (take_block_aux p n (S order) fls) as [[o1 fls1]|] eqn:E; [|done].
  destruct (IH _ _ _ E) as [Hlen Hj]. simpl in H. destruct o1 as [a|]; simplify_eq.
  - destruct (add64 p a (block_size order)); simplify_eq/=.
    split; [by rewrite length_push_block|]. intros j Hlt.
    unfold push_block. rewrite list_lookup_total_insert_ne by lia. apply Hj. lia.
  - split; [done|]. intros j Hlt. apply Hj. lia.
Qed.

Lemma insert_lookup_total_id (fls : list (list Z)) o :
  <[o := fls !!! o]> fls = fls.
Proof.
  destruct (decide (o < length fls)%nat).
  - by apply list_insert_id, lookup_total_lt.
  - by apply list_insert_ge; lia.
Qed.

(** Freeing the block just taken undoes every split. *)
Lemma take_merge_aux n order fls a fls' :
  lists_ok fls → coalesced fls → (S n + order = BUDDY_ORDERS)%nat →
  take_block_aux p (S n) order fls = Ret (Some a, fls') →
  merge_aux n order a fls' = fls.
Proof.
  revert order fls a fls'.
  induction n as [|n IH]; intros order fls a fls' Hok Hco Hn Ht;
    simpl in Ht; (destruct (vec_pop (fls !!! order)) as [[x l]|] eqn:Hpop; [|]).
  - injection Ht as <- <-. apply vec_pop_Some in Hpop. simpl.
    unfold push_block. rewrite list_lookup_total_insert_eq by (destruct Hok; lia).
    by rewrite list_insert_insert_eq, <- Hpop, insert_lookup_total_id.
  - done.
  - injection Ht as <- <-. apply vec_pop_Some in Hpop. simpl.
    rewrite list_lookup_total_insert_eq by (destruct Hok; lia).
    assert (position (Z.lxor x (block_size order)) l = None) as ->.
    { apply position_None. intros Hin.
      apply (Hco order x); [unfold BUDDY_ORDERS in Hn; lia| |]; rewrite Hpop; set_solver. }
    unfold push_block. rewrite list_lookup_total_insert_eq by (destruct Hok; lia).
    by rewrite list_insert_insert_eq, <- Hpop, insert_lookup_total_id.
  - apply vec_pop_None in Hpop.
    destruct (take_block_aux_spec (S n) (S order) fls Hok ltac:(lia))
      as [[E _]|(x & fls1 & E & Hok1 & Hx & _)];
      simpl in E; rewrite E in Ht; simpl in Ht; [done|].
    rewrite add64_exact in Ht by (by apply block_ok_half).
    injection Ht as <- <-.
    destruct (take_block_aux_low (S n) (S order) fls _ _ E) as [Hlen Hlow].
    specialize (IH (S order) fls x fls1 Hok Hco ltac:(lia) E).
    simpl. rewrite push_block_lookup by (rewrite Hlen; destruct Hok; lia).
    rewrite decide_True by done.
    rewrite (Hlow order), Hpop by lia. simpl.
    destruct (buddy_cases order x) as [[_ Eb]|[Eb _]].
    { by destruct (block_ok_split order x Hx) as [(? & _) _]. }
    + rewrite Eb, Z.eqb_refl. simpl.
      rewrite Z.min_l by (pose proof (block_size_ge order); alia).
      unfold push_block. rewrite list_insert_insert_eq.
      replace [] with (fls1 !!! order) by (rewrite Hlow by lia; done).
      by rewrite insert_lookup_total_id.
    + exfalso. destruct Hx as (Hx & _). pose proof (block_size_ge order).
      rewrite block_size_S in *. apply Z.mod_divide in Hx as [u Hu]; [|alia].
      apply Z.mod_divide in Eb as [v Hv]; [|alia].
      assert (block_size order * (1 - 2 * (u - v)) = 0) as [?|?]%Z.mul_eq_0 by lia; alia.
Qed.

(** ** Merging *)

Lemma merge_aux_spec n order a fls :
  lists_ok fls → (n + order = BUDDY_MAX_ORDER)%nat → block_ok order a →
  lists_ok (merge_aux n order a fls) ∧
  lists_frames 0 (merge_aux n order a fls) ≡ₚ block_frames order a ++ lists_frames 0 fls.
Proof.
  revert order a fls. induction n as [|n IH]; intros order a fls Hok Hn Ha; simpl.
  { pose proof Hok as [Hlen _]. unfold BUDDY_ORDERS in *. split.
    - apply lists_ok_push; [done|unfold BUDDY_ORDERS; lia|done].
    - apply push_block_frames. lia. }
  pose proof Hok as [Hlen _]. assert (Ho : (order < BUDDY_ORDERS)%nat)
    by (unfold BUDDY_ORDERS in *; lia).
  destruct (position _ _) as [pos|] eqn:Hpos.
  2: { split; [by apply lists_ok_push|]. apply push_block_frames. lia. }
  apply position_Some in Hpos as Hl.
  destruct (swap_remove_Some pos (fls !!! order)) as [[b l] Hs].
  { by eapply lookup_lt_Some. }
  rewrite Hs. pose proof (swap_remove_Permutation _ _ _ _ Hs) as Hp.
  assert (b = Z.lxor a (block_size order)) as ->.
  { unfold swap_remove in Hs. rewrite Hl in Hs. by destruct (last _); simplify_eq. }
  destruct (lists_ok_remove fls order _ l Hok Ho Hp) as [Hb Hok'].
  destruct (IH (S order) (Z.min a (Z.lxor a (block_size order))) (<[order := l]> fls))
    as [IH1 IH2]; [done|lia|by apply block_ok_merge|].
  split; [done|]. rewrite IH2.
  rewrite (remove_block_frames fls order _ l) by (lia || done).
  rewrite block_frames_merge by apply Ha. solve_Permutation.
Qed.
End split_merge.

End Buddy.
