(* ===== verification/BuddySpec.v ===== *)
(** * Correctness of the buddy frame allocator

    Lemmas on the whole operations of [BuddyAlloc.Buddy] (activation, the bump
    cursor, allocation, release, the frame count), the allocator as an
    instance of [FrameAllocator], and the transition system of an allocator
    and the frames its clients own. *)
From S2P Require Import Prelude Frames BumpAlloc BuddyAlloc.

#[local] Open Scope Z_scope.

Module BuddySpec.
Import Buddy.

(** ** The system: the allocator and the frames handed out *)

Section system.
Context (p : profile) `{PhysFrames}.

(** [owned] are the frames handed out and not returned.  A client may free
    only a frame it owns: the contract of [unsafe fn deallocate_frame]. *)
Inductive step : BuddyFrameAllocator * list Z → BuddyFrameAllocator * list Z → Prop :=
| step_alloc s owned f s' :
    allocate_frame p s = Ret (Some f, s') → step (s, owned) (s', f :: owned)
| step_exhausted s owned s' :
    allocate_frame p s = Ret (None, s') → step (s, owned) (s', owned)
| step_activate s owned s' :
    activate p s = Ret s' → step (s, owned) (s', owned)
| step_free s owned owned' f s' :
    owned ≡ₚ f :: owned' →
    deallocate_frame s f = Ret s' → step (s, owned) (s', owned').

Definition reachable (rs : list MemoryRegion) (st : BuddyFrameAllocator * list Z) : Prop :=
  rtc step (new rs, []) st.
End system.

(** ** Coalescing *)

Lemma coalesced_shrink fls o l :
  coalesced fls → (o < length fls)%nat → l ⊆ fls !!! o → coalesced (<[o := l]> fls).
Proof.
  intros Hco Hlt Hl o' a Ho' Ha.
  rewrite lookup_total_insert_cases in * by done.
  case_decide; subst; [|by apply Hco].
  intros Hin. apply (Hco o' a Ho'); [by apply Hl|by apply Hl].
Qed.

Lemma lxor_size_ne o a : Z.lxor a (block_size o) ≠ a.
Proof.
  intros E. pose proof (block_size_ge o).
  assert (block_size o = 0); [|alia].
  rewrite <- (Z.lxor_0_l (block_size o)), <- (Z.lxor_nilpotent a).
  by rewrite Z.lxor_assoc, E, Z.lxor_nilpotent.
Qed.

Lemma coalesced_push fls o a :
  coalesced fls → (o < length fls)%nat →
  ((o < BUDDY_MAX_ORDER)%nat → Z.lxor a (block_size o) ∉ fls !!! o) →
  coalesced (push_block fls o a).
Proof.
  intros Hco Hlt Hb o' x Ho' Hx.
  rewrite push_block_lookup in * by done. case_decide; subst; [|by apply Hco].
  specialize (Hb Ho'). pose proof (lxor_size_ne o' a).
  rewrite elem_of_app, list_elem_of_singleton in *. intros [Hin|Hin].
  - destruct Hx as [Hx| ->]; [|done]. by apply (Hco o' x).
  - destruct Hx as [Hx| ->]; [|done]. apply Hb. rewrite <- Hin.
    by rewrite Z.lxor_assoc, Z.lxor_nilpotent, Z.lxor_0_r.
Qed.

Lemma merge_aux_coalesced n order a fls :
  length fls = BUDDY_ORDERS → (n + order = BUDDY_MAX_ORDER)%nat →
  coalesced fls → coalesced (merge_aux n order a fls).
Proof.
  revert order a fls. induction n as [|n IH]; intros order a fls Hlen Hn Hco; simpl.
  { apply coalesced_push; [done|unfold BUDDY_ORDERS in *; lia|lia]. }
  assert (order < length fls)%nat by (unfold BUDDY_ORDERS in *; lia).
  destruct (position _ _) as [pos|] eqn:Hpos.
  2: { apply position_None in Hpos. by apply coalesced_push. }
  destruct (swap_remove _ _) as [[b l]|] eqn:Hs; [|done].
  apply IH; [by rewrite length_insert|lia|]. apply coalesced_shrink; [done..|].
  rewrite (swap_remove_Permutation _ _ _ _ Hs). set_solver.
Qed.

Lemma take_block_aux_coalesced p n order fls o fls' :
  lists_ok fls → (n + order = BUDDY_ORDERS)%nat →
  coalesced fls → take_block_aux p n order fls = Ret (o, fls') → coalesced fls'.
Proof.
  revert order o fls'. induction n as [|n IH]; intros order o fls' Hok Hn Hco Ht;
    simpl in Ht; [by simplify_eq|].
  destruct Hok as [Hlen Hok].
  destruct (vec_pop (fls !!! order)) as [[a l]|] eqn:Hpop.
  { simplify_eq. apply vec_pop_Some in Hpop.
    apply coalesced_shrink; [done|lia|]. rewrite Hpop. set_solver. }
  apply vec_pop_None in Hpop.
  destruct (take_block_aux p n (S order) fls) as [[o1 fls1]|] eqn:E; [|done].
  destruct (take_block_aux_low p _ _ _ _ _ E) as [Hlen1 Hlow].
  specialize (IH (S order) o1 fls1 (conj Hlen Hok) ltac:(lia) Hco E).
  simpl in Ht. destruct o1 as [a|]; [|by simplify_eq].
  destruct (add64 p a (block_size order)) as [h|]; simplify_eq/=.
  apply coalesced_push; [done|lia|]. intros _. rewrite Hlow, Hpop by lia. set_solver.
Qed.

(** ** Activation *)

Lemma pick_order_spec start remaining order :
  FRAME_SIZE ≤ remaining → start `mod` FRAME_SIZE = 0 →
  (pick_order start remaining order ≤ order)%nat ∧
  block_size (pick_order start remaining order) ≤ remaining ∧
  start `mod` block_size (pick_order start remaining order) = 0.
Proof.
  intros Hr Hs. induction order as [|o IH]; cbn [pick_order].
  - destruct ((_ <=? _) && _) eqn:E; bool_to_prop; [done|].
    by change (block_size 0) with FRAME_SIZE.
  - destruct ((_ <=? _) && _) eqn:E; bool_to_prop; [done|].
    destruct IH as (? & ? & ?). split_and!; [lia|done|done].
Qed.

Lemma block_frames_carve o start end_ :
  block_size o ≤ end_ - start →
  frames_between start end_ = block_frames o start ++ frames_between (start + block_size o) end_.
Proof.
  intros Hle. pose proof (block_size_ge o). unfold block_frames.
  apply frames_between_app; [alia| |lia].
  replace (start + block_size o - start) with (block_size o) by lia. apply block_size_mod.
Qed.

Lemma carve_spec p start end_ fls :
  lists_ok fls → MIN_ADDR ≤ start ≤ 2 * phys_lim → start `mod` FRAME_SIZE = 0 →
  0 ≤ end_ ≤ phys_lim →
  ∃ fls', carve p start end_ fls = Ret fls' ∧ lists_ok fls' ∧
    lists_frames 0 fls' ≡ₚ lists_frames 0 fls ++ frames_between start end_.
Proof.
  intros Hok Hs Hm He. unfold carve.
  set (Inv := λ st : Z * list (list Z),
    lists_ok st.2 ∧ MIN_ADDR ≤ st.1 ≤ 2 * phys_lim ∧ st.1 `mod` FRAME_SIZE = 0 ∧
    lists_frames 0 fls ++ frames_between start end_ ≡ₚ
    lists_frames 0 st.2 ++ frames_between st.1 end_).
  destruct (iter_pos_total (carve_body p end_) Inv (λ st, 2 * phys_lim - st.1)
    (λ r, ∃ fls', r = Ret fls' ∧ lists_ok fls' ∧
      lists_frames 0 fls' ≡ₚ lists_frames 0 fls ++ frames_between start end_)
    loop_fuel (start, fls)) as (r & -> & fls' & -> & ? & ?).
  - intros [s l] (Hl & Hs' & Hms & Hp). cbn [fst snd carve_body] in *.
    rewrite add64_exact by alia. destruct (s + FRAME_SIZE <=? end_) eqn:E; bool_to_prop.
    2: { exists l. split_and!; [done|done|].
         rewrite Hp, frames_between_nil, app_nil_r by lia. done. }
    rewrite sub64_exact by alia. cbn [mbind outcome_bind].
    destruct (pick_order_spec s (end_ - s) BUDDY_MAX_ORDER) as (Ho & Hb & Hal);
      [alia|done|].
    set (o := pick_order _ _ _) in *. pose proof (block_size_ge o).
    rewrite add64_exact by alia. split; [|simpl; alia].
    split_and!; simpl; [|alia|alia| |].
    + apply lists_ok_push; [done|unfold BUDDY_ORDERS; lia|]. split_and!; [done|lia|lia].
    + by rewrite Z.add_mod, Hms, block_size_mod by done.
    + rewrite Hp, push_block_frames by (destruct Hl as [-> _]; unfold BUDDY_ORDERS; lia).
      rewrite (block_frames_carve o s end_) by lia. solve_Permutation.
  - intros [s l] (_ & ? & _). simpl in *. lia.
  - split_and!; simpl; [done|lia|lia|done|done].
  - simpl. unfold loop_fuel. alia.
  - eauto.
Qed.

Lemma land_frame_mask a : Z.land a (Z.lnot (FRAME_SIZE - 1)) = a - a `mod` FRAME_SIZE.
Proof.
  change (FRAME_SIZE - 1) with (Z.ones 12). rewrite <- Z.ldiff_land, Z.ldiff_ones_r by lia.
  rewrite Z.shiftl_mul_pow2, Z.shiftr_div_pow2 by lia.
  change (2 ^ 12) with FRAME_SIZE. pose proof (Z.div_mod a FRAME_SIZE ltac:(done)). lia.
Qed.

Lemma region_frames_from_empty next r :
  r_end r ≤ r_start r → region_frames_from next r = [].
Proof.
  intros Hle. destruct (region_frames_from next r) as [|f l] eqn:E; [done|].
  destruct (elem_of_region_frames f next r) as (_ & ? & ?).
  { rewrite E. set_solver. }
  alia.
Qed.

(** What the [for] of [activate] collects from the regions from [i] on. *)
Definition still_ahead (idx i : nat) (next : Z) (rs : list MemoryRegion) : list Z :=
  if decide (i ≤ idx)%nat then frames_ahead (drop (idx - i) rs) next
  else rs ≫= region_frames.

Lemma frames_ahead_0 rs : frames_ahead rs 0 = rs ≫= region_frames.
Proof. by destruct rs. Qed.

Lemma still_ahead_cons idx i next r rs :
  still_ahead idx i next (r :: rs) =
  (if (i =? idx)%nat then region_frames_from next r
   else if (i <? idx)%nat then [] else region_frames r) ++ still_ahead idx (S i) next rs.
Proof.
  unfold still_ahead. destruct (i =? idx)%nat eqn:E1.
  - apply Nat.eqb_eq in E1 as ->. rewrite decide_True, decide_False, Nat.sub_diag by lia. done.
  - apply Nat.eqb_neq in E1. destruct (i <? idx)%nat eqn:E2.
    + apply Nat.ltb_lt in E2. rewrite !decide_True by lia.
      by replace (idx - i)%nat with (S (idx - S i)) by lia.
    + apply Nat.ltb_ge in E2. by rewrite !decide_False by lia.
Qed.

(** Carving one region from a cursor adds exactly its remaining frames. *)
Lemma carve_region p r nx fls :
  region_ok r → is_usable r = true → 0 ≤ nx ≤ phys_lim → nx `mod` FRAME_SIZE = 0 →
  lists_ok fls →
  ∃ fls', carve p (Z.max (Z.max (align_up (r_start r) FRAME_SIZE) MIN_ADDR) nx)
            (Z.land (r_end r) (Z.lnot (FRAME_SIZE - 1))) fls = Ret fls' ∧
    lists_ok fls' ∧
    lists_frames 0 fls' ≡ₚ lists_frames 0 fls ++ region_frames_from nx r.
Proof.
  intros [Hr1 Hr2] Hu Hn Hm Hok. fold (region_lo r).
  pose proof (Z.mod_pos_bound (r_end r) FRAME_SIZE FRAME_SIZE_pos).
  pose proof (Z.mod_le (r_end r) FRAME_SIZE (proj1 Hr2) FRAME_SIZE_pos).
  pose proof (align_up_bounds (r_start r) FRAME_SIZE FRAME_SIZE_pos).
  assert (Hml : Z.max (region_lo r) nx `mod` FRAME_SIZE = 0)
    by (apply max_mod; [apply region_lo_aligned|done]).
  rewrite land_frame_mask.
  destruct (carve_spec p (Z.max (region_lo r) nx) (r_end r - r_end r `mod` FRAME_SIZE) fls)
    as (fls' & ? & ? & Hp); [done|unfold region_lo; alia|done|alia|].
  exists fls'. split_and!; [done|done|]. rewrite Hp. unfold region_frames_from.
  by rewrite Hu, frames_between_align_down.
Qed.

Lemma region_no_frames r next :
  is_usable r = false ∨ r_end r ≤ r_start r → region_frames_from next r = [].
Proof. intros [?|?]; [by apply region_frames_from_unusable|by apply region_frames_from_empty]. Qed.

Lemma still_ahead_skip idx i next r rs :
  (∀ nx, region_frames_from nx r = []) →
  still_ahead idx i next (r :: rs) = still_ahead idx (S i) next rs.
Proof.
  intros E. rewrite still_ahead_cons. unfold region_frames. rewrite !E.
  by repeat case_match.
Qed.

Lemma carve_regions_spec p idx next i rs fls :
  Forall region_ok rs → 0 ≤ next ≤ phys_lim → next `mod` FRAME_SIZE = 0 → lists_ok fls →
  ∃ fls', carve_regions p idx next i rs fls = Ret fls' ∧ lists_ok fls' ∧
    lists_frames 0 fls' ≡ₚ lists_frames 0 fls ++ still_ahead idx i next rs.
Proof.
  intros Hrs Hn Hm. revert i fls. induction Hrs as [|r rs Hr Hrs IH]; intros i fls Hok.
  { exists fls. split_and!; [done|done|]. unfold still_ahead.
    by rewrite drop_nil; case_decide; rewrite app_nil_r. }
  simpl. destruct (is_usable r) eqn:Hu; simpl.
  2: { rewrite still_ahead_skip by (intros; apply region_no_frames; by left). by apply IH. }
  destruct (r_end r <=? r_start r) eqn:Hle; bool_to_prop.
  { rewrite still_ahead_skip by (intros; apply region_no_frames; by right). by apply IH. }
  assert (Hgo : ∀ fls1 fr, lists_ok fls1 → lists_frames 0 fls1 ≡ₚ lists_frames 0 fls ++ fr →
    ∃ fls', carve_regions p idx next (S i) rs fls1 = Ret fls' ∧ lists_ok fls' ∧
      lists_frames 0 fls' ≡ₚ lists_frames 0 fls ++ fr ++ still_ahead idx (S i) next rs).
  { intros fls1 fr Hok1 Hp1. destruct (IH (S i) fls1 Hok1) as (fls' & ? & ? & Hp).
    exists fls'. split_and!; [done|done|]. rewrite Hp, Hp1. by rewrite app_assoc. }
  rewrite (next_multiple_of_exact p (r_start r)) by (destruct Hr; alia).
  rewrite bind_Ret, still_ahead_cons.
  destruct (i =? idx)%nat; [|destruct (i <? idx)%nat].
  - assert (next_multiple_of p next FRAME_SIZE = Ret next) as ->.
    { rewrite next_multiple_of_exact, align_up_id by (done || alia). done. }
    destruct (carve_region p r next fls) as (fls1 & E & ? & ?); [done..|].
    rewrite bind_Ret, E, bind_Ret. by apply Hgo.
  - apply Hgo; [done|]. by rewrite app_nil_r.
  - destruct (carve_region p r 0 fls) as (fls1 & E & ? & ?); [done|done|alia|done|done|].
    rewrite Z.max_l in E by alia. rewrite E, bind_Ret. by apply Hgo.
Qed.

(** ** Whole operations *)

Lemma pool_frames_ok s : buddy_inv s → Forall frame_ok (buddy_pool s).
Proof.
  intros (Hrs & Hmode & _). unfold buddy_pool. destruct (active s).
  - by apply lists_ok_frames.
  - destruct Hmode as (_ & _ & Hm). apply frames_ahead_ok; [by apply Forall_drop|done].
Qed.

Lemma activate_spec p s :
  buddy_inv s → active s = false →
  ∃ s', activate p s = Ret s' ∧ buddy_inv s' ∧ active s' = true ∧
    allocated s' = allocated s ∧ buddy_pool s' ≡ₚ buddy_pool s.
Proof.
  intros (Hrs & Hmode & Hnd & Ha) Hact. unfold activate. rewrite Hact in *. simpl.
  destruct Hmode as (Hfl & Hn & Hm).
  destruct (carve_regions_spec p (region_idx s) (next_addr s) 0 (regions s)
    (free_lists s)) as (fls & -> & Hok & Hp); [done|done|done| |].
  { rewrite Hfl. apply lists_ok_empty. }
  rewrite bind_Ret. eexists. split; [done|]. set (s' := mkBuddy _ _ _ _ _ _).
  assert (Hpool : buddy_pool s' ≡ₚ buddy_pool s).
  { unfold buddy_pool at 1. simpl. rewrite Hp, Hfl, lists_frames_empty.
    unfold still_ahead, buddy_pool. by rewrite decide_True, Nat.sub_0_r, Hact by lia. }
  split_and!; [|done|done|done].
  split_and!; simpl; [done|done|by rewrite Hpool|lia|rewrite Hpool; lia].
Qed.

(** The bump cursor yields the frames ahead in map order. *)
Lemma bump_loop_spec rs s :
  drop (region_idx s) (regions s) = rs →
  Forall region_ok (regions s) → 0 ≤ next_addr s ≤ phys_lim →
  next_addr s `mod` FRAME_SIZE = 0 →
  ∃ o i a, bump_loop rs s = (o, with_cursor s i a) ∧ 0 ≤ a ≤ phys_lim ∧
    a `mod` FRAME_SIZE = 0 ∧
    frames_ahead rs (next_addr s) =
      option_list o ++ frames_ahead (drop i (regions s)) a ∧
    (o = None → frames_ahead (drop i (regions s)) a = []).
Proof.
  revert s. induction rs as [|r rs IH]; intros s Hdrop Hrs Hn Hm.
  { exists None, (region_idx s), (next_addr s). destruct s; simpl in *. by rewrite Hdrop. }
  set (skip := with_cursor s (S (region_idx s)) 0).
  assert (Hdrop' : drop (region_idx skip) (regions skip) = rs).
  { simpl. by rewrite <- Nat.add_1_r, <- drop_drop, Hdrop. }
  assert (Hok : region_ok r).
  { apply (Forall_drop _ (region_idx s)) in Hrs. rewrite Hdrop in Hrs.
    by apply Forall_cons in Hrs as [? _]. }
  destruct (IH skip) as (o & i & a & Hl & Ha & Ham & Ho & Hnone); [done|done|simpl; alia|done|].
  assert (Hskip : region_frames_from (next_addr s) r = [] →
    ∃ o i a, bump_loop rs skip = (o, with_cursor s i a) ∧ 0 ≤ a ≤ phys_lim ∧
      a `mod` FRAME_SIZE = 0 ∧
      frames_ahead (r :: rs) (next_addr s) =
        option_list o ++ frames_ahead (drop i (regions s)) a ∧
      (o = None → frames_ahead (drop i (regions s)) a = [])).
  { intros E. exists o, i, a. split_and!; [done|lia|lia|done| |done].
    by rewrite frames_ahead_cons, E. }
  simpl bump_loop. fold skip.
  destruct (is_usable r) eqn:Hu; simpl; [|by apply Hskip, region_frames_from_unusable].
  destruct (region_step r (next_addr s) Hok (proj1 Hn) Hu) as (al & Hal & Hmax & Hcase).
  change FRAME_SIZE with 4096. rewrite Hal. change MIN_ADDR with 0x1000. rewrite Hmax.
  pose proof (cursor_bounds r (next_addr s) Hok Hn Hm) as (Hb1 & Hb2 & Hb3).
  rewrite checked_add64_exact by alia.
  destruct Hcase as [[E Ep]|[E Ep]].
  - rewrite (proj2 (Z.ltb_lt _ _) E). by apply Hskip.
  - rewrite (proj2 (Z.ltb_ge _ _) E). do 3 eexists. split; [done|].
    destruct Hok. split_and!; [alia|alia|by apply aligned_next| |done].
    simpl. by rewrite Hdrop, Ep.
Qed.
(** ** Allocation and release *)

Section interface.
Context (p : profile) `{PhysFrames}.

(** A valid frame survives the debug assertions and the address check. *)
Lemma hand_out s1 f :
  frame_ok f → u64 (allocated s1 + 1) →
  (_ ← debug_assert p (f `mod` FRAME_SIZE =? 0) "assertion failed";
   _ ← debug_assert p (MIN_ADDR <=? f) "buddy handed out the zero page";
   n ← add64 p (allocated s1) 1;
   f ← phys_frame f;
   Ret (Some f, with_allocated s1 n)) =
  Ret (Some f, with_allocated s1 (allocated s1 + 1)).
Proof.
  intros (Hm & Hlo & Hhi) Hu. unfold debug_assert.
  rewrite Hm, (proj2 (Z.leb_le _ _) Hlo).
  rewrite (add64_exact p _ _ Hu), phys_frame_ok by (done || alia).
  by destruct p.
Qed.

Lemma lists_empty_frames fls :
  lists_ok fls → (∀ o, (0 ≤ o < BUDDY_ORDERS)%nat → fls !!! o = []) →
  lists_frames 0 fls = [].
Proof.
  intros [Hlen _] He. apply lists_frames_nil, Forall_lookup. intros i l Hi.
  rewrite <- (list_lookup_total_correct _ _ _ Hi). apply He.
  apply lookup_lt_Some in Hi. lia.
Qed.

(** What an allocation leaves, in either mode. *)
Definition allocated_from (s : BuddyFrameAllocator) (o : option Z) (s' : BuddyFrameAllocator) :=
  buddy_inv s' ∧ active s' = active s ∧ regions s' = regions s ∧
  match o with
  | Some f => buddy_pool s ≡ₚ f :: buddy_pool s' ∧ allocated s' = allocated s + 1
  | None => buddy_pool s = [] ∧ buddy_pool s' = [] ∧ allocated s' = allocated s
  end.

Lemma allocate_active s :
  buddy_inv s → active s = true →
  ∃ o s', allocate_frame p s = Ret (o, s') ∧ allocated_from s o s' ∧
    (o = None → s' = s).
Proof.
  intros Hinv Hact. pose proof (pool_frames_ok s Hinv) as Hfok.
  destruct Hinv as (Hrs & Hmode & Hnd & Ha & Hlim).
  destruct s as [rs i a act fls al]. simpl in Hact. subst act.
  unfold buddy_pool in *. simpl in *.
  unfold allocate_frame, take_block. cbn [active free_lists]. rewrite Nat.sub_0_r.
  destruct (take_block_aux_spec p BUDDY_ORDERS 0 fls Hmode ltac:(done))
    as [[E He]|(f & fls' & E & Hok & Hb & Hp)]; rewrite E, !bind_Ret.
  - assert (lists_frames 0 fls = []) by by apply lists_empty_frames.
    do 2 eexists. split; [done|]. by split_and!.
  - rewrite block_frames_0 in Hp. simpl in Hp. rewrite Hp in Hfok, Hnd.
    apply Permutation_length in Hp as Hl. simpl in Hl.
    apply Forall_cons in Hfok as [Hf _]. apply NoDup_cons in Hnd as [Hni Hnd].
    rewrite hand_out by (done || (simpl; alia)).
    do 2 eexists. split; [done|]. split; [|done].
    split_and!; try done. split_and!; simpl; try done; unfold buddy_pool; simpl; lia.
Qed.

Lemma allocate_bump s :
  buddy_inv s → active s = false →
  ∃ o s', allocate_frame p s = Ret (o, s') ∧ allocated_from s o s'.
Proof.
  intros Hinv Hact. pose proof (pool_frames_ok s Hinv) as Hfok.
  destruct Hinv as (Hrs & Hmode & Hnd & Ha & Hlim).
  unfold allocate_frame. rewrite Hact in *. destruct Hmode as (Hfl & Hn & Hm).
  destruct (bump_loop_spec _ s eq_refl Hrs Hn Hm) as (o & i & a & E & Ha1 & Ha2 & Hp & Hno).
  destruct s as [rs i0 a0 act fls al]. simpl in *. subst act.
  unfold buddy_pool in *. simpl in *. unfold bump_one. simpl. rewrite E.
  rewrite Hp in *. destruct o as [f|]; simpl in *.
  - apply Forall_cons in Hfok as [Hf _]. apply NoDup_cons in Hnd as [Hni Hnd].
    rewrite hand_out by (done || (simpl; alia)).
    do 2 eexists. split; [done|]. split_and!; try done; [|unfold buddy_pool; simpl; by rewrite Hp].
    split_and!; simpl; try done; unfold buddy_pool; simpl; try done; lia.
  - rewrite (Hno eq_refl) in *.
    do 2 eexists. split; [done|].
    split_and!; unfold buddy_pool; simpl; try done; [|by apply Hno].
    split_and!; simpl; try done; unfold buddy_pool; simpl; rewrite Hno; try done; lia.
Qed.

Lemma allocate_spec s :
  buddy_inv s → ∃ o s', allocate_frame p s = Ret (o, s') ∧ allocated_from s o s'.
Proof.
  intros Hinv. destruct (active s) eqn:Hact; [|by apply allocate_bump].
  destruct (allocate_active s Hinv Hact) as (o & s' & ? & ? & _). eauto.
Qed.

Lemma deallocate_spec s f :
  buddy_inv s → active s = true → frame_ok f → f ∉ buddy_pool s → 0 < allocated s →
  ∃ s', deallocate_frame s f = Ret s' ∧ buddy_inv s' ∧ active s' = true ∧
    regions s' = regions s ∧ buddy_pool s' ≡ₚ f :: buddy_pool s ∧
    allocated s' = allocated s - 1.
Proof.
  intros (Hrs & Hmode & Hnd & Ha & Hlim) Hact (Hm & Hlo & Hhi) Hnew Hpos.
  unfold deallocate_frame. rewrite Hact in *. rewrite Hm, (proj2 (Z.leb_le _ _) Hlo).
  cbn [assert_ Z.eqb]. rewrite !bind_Ret.
  destruct (merge_aux_spec BUDDY_MAX_ORDER 0 f (free_lists s)) as [Hok Hp]; [done|done| |].
  { split_and!; [done|done|]. by change (block_size 0) with FRAME_SIZE. }
  rewrite block_frames_0 in Hp. eexists. split; [done|].
  assert (Hpool : buddy_pool s = lists_frames 0 (free_lists s))
    by (unfold buddy_pool; by rewrite Hact).
  rewrite Hpool in *. apply Permutation_length in Hp as Hl. simpl in Hl.
  unfold buddy_inv, buddy_pool, saturating_sub64. simpl. rewrite Hact.
  split_and!; try done; try lia. rewrite Hp. simpl. by constructor.
Qed.
End interface.

(** [BuddyFrameAllocator] keeps the promise of the [FrameAllocator] trait. *)
#[export] Instance buddy_FrameAllocator (p : profile) `{PhysFrames} :
  FrameAllocator BuddyFrameAllocator.
Proof.
  refine {| alloc_frame := allocate_frame p; pool := buddy_pool;
            alloc_inv := buddy_inv |}.
  intros s Hs. destruct (allocate_spec p s Hs) as (o & s' & E & Hs' & _ & _ & Ho).
  exists o, s'. split_and!; [done|done|]. destruct o; [by destruct Ho|].
  by destruct Ho as (? & ? & _).
Defined.

Lemma block_ok_frame f : block_ok 0 f → frame_ok f.
Proof.
  intros Hb. apply block_frames_ok in Hb. rewrite block_frames_0 in Hb.
  by apply Forall_cons in Hb as [? _].
Qed.

(** ** Counting *)

Lemma length_block_frames o a : Z.of_nat (length (block_frames o a)) = 2 ^ Z.of_nat o.
Proof.
  unfold block_frames. rewrite length_frames_between.
  replace (a + block_size o - a) with (block_size o) by lia.
  rewrite block_size_frames, Z.div_mul by done.
  pose proof (Z.pow_pos_nonneg 2 (Z.of_nat o)). lia.
Qed.

Lemma length_list_frames o l :
  Z.of_nat (length (l ≫= block_frames o)) = Z.of_nat (length l) * 2 ^ Z.of_nat o.
Proof.
  induction l as [|a l IH]; [done|].
  rewrite bind_cons, length_app, Nat2Z.inj_add, IH, length_block_frames. simpl. lia.
Qed.

Lemma count_frames_spec p o fls n :
  0 ≤ n → n + Z.of_nat (length (lists_frames o fls)) < u64_lim →
  count_frames p o fls n = Ret (n + Z.of_nat (length (lists_frames o fls))).
Proof.
  revert o n. induction fls as [|l fls IH]; intros o n Hn Hlim; simpl.
  { by rewrite Z.add_0_r. }
  simpl in Hlim. rewrite length_app, Nat2Z.inj_add, length_list_frames in *.
  rewrite Z.shiftl_mul_pow2, Z.mul_1_l by lia.
  assert (0 ≤ Z.of_nat (length l) * 2 ^ Z.of_nat o).
  { apply Z.mul_nonneg_nonneg; [lia|]. apply Z.pow_nonneg. lia. }
  rewrite mul64_exact, bind_Ret, add64_exact, bind_Ret by ulia.
  rewrite IH by lia. f_equal. lia.
Qed.

Lemma free_frames_spec p s :
  buddy_inv s → active s = true →
  free_frames p s = Ret (Z.of_nat (length (buddy_pool s))).
Proof.
  intros (_ & _ & _ & Ha & Hlim) Hact. unfold free_frames, buddy_pool in *.
  rewrite Hact in *. rewrite count_frames_spec by lia. done.
Qed.

(** ** The free lists survive a round trip unchanged *)

Lemma alloc_free_same p `{PhysFrames} s f s1 :
  buddy_inv s → active s = true → coalesced (free_lists s) →
  allocate_frame p s = Ret (Some f, s1) → deallocate_frame s1 f = Ret s.
Proof.
  intros Hinv Hact Hco Ha.
  destruct (allocate_active p s Hinv Hact) as (o & s1' & E & Hfrom & _).
  rewrite E in Ha. injection Ha as -> ->.
  pose proof (pool_frames_ok s Hinv) as Hfok.
  destruct Hfrom as (_ & _ & _ & Hp & _). rewrite Hp in Hfok.
  apply Forall_cons in Hfok as [Hf _].
  destruct Hinv as (_ & Hmode & _ & Hal & Hlim). rewrite Hact in Hmode.
  destruct s as [rs i a act fls al]. simpl in *. subst act.
  unfold allocate_frame, take_block in E. cbn [active free_lists] in E.
  rewrite Nat.sub_0_r in E.
  destruct (take_block_aux_spec p BUDDY_ORDERS 0 fls Hmode ltac:(done))
    as [[Et _]|(f' & fls' & Et & _ & Hb & _)]; rewrite Et, !bind_Ret in E; [done|].
  pose proof (block_ok_frame f' Hb) as Hf'. rewrite hand_out in E by (done || (simpl; alia)).
  injection E as -> <-.
  destruct Hf as (Hm & Hlo & _). unfold deallocate_frame.
  cbn [active with_lists with_allocated free_lists allocated].
  rewrite Hm, (proj2 (Z.leb_le _ _) Hlo). cbn [assert_ Z.eqb]. rewrite !bind_Ret.
  change BUDDY_ORDERS with (S BUDDY_MAX_ORDER) in Et.
  rewrite (take_merge_aux p BUDDY_MAX_ORDER 0 fls f fls' Hmode Hco) by done.
  unfold with_allocated, with_lists, saturating_sub64. simpl. do 2 f_equal. lia.
Qed.

(** ** The system invariant *)

(** Every frame of the map is either owned by a client or in the pool, once. *)
Definition sys_inv (rs : list MemoryRegion) (st : BuddyFrameAllocator * list Z) : Prop :=
  buddy_inv st.1 ∧ regions st.1 = rs ∧
  st.2 ++ buddy_pool st.1 ≡ₚ frames_ahead rs 0 ∧
  allocated st.1 = Z.of_nat (length st.2).

(** A list of distinct frames is no longer than physical memory. *)
Lemma frames_length l :
  NoDup l → Forall frame_ok l → Z.of_nat (length l) ≤ phys_lim.
Proof.
  intros Hnd Hok.
  assert (length l ≤ length (seqZ 0 phys_lim))%nat as Hle.
  { apply submseteq_length, NoDup_submseteq; [done|]. intros f Hf.
    rewrite Forall_forall in Hok. destruct (Hok f Hf) as (_ & ? & ?).
    apply elem_of_seqZ. alia. }
  rewrite length_seqZ in Hle. alia.
Qed.

Lemma new_inv rs : map_ok rs → buddy_inv (new rs).
Proof.
  intros [Hrs Hap]. assert (NoDup (frames_ahead rs 0)) by by apply NoDup_map_frames.
  pose proof (frames_length _ H (frames_ahead_ok rs 0 Hrs ltac:(done))).
  unfold new, buddy_inv, buddy_pool. simpl. rewrite drop_0.
  split_and!; try done; alia.
Qed.

Lemma sys_inv_init rs : map_ok rs → sys_inv rs (new rs, []).
Proof.
  intros Hrs. split_and!; [by apply new_inv|done| |done]. unfold buddy_pool. simpl. by rewrite drop_0.
Qed.

Section sys.
Context (p : profile) `{PhysFrames}.

Lemma map_frames_distinct rs : map_ok rs → NoDup (frames_ahead rs 0).
Proof. intros [_ Hap]. by apply NoDup_map_frames. Qed.

(** An owned frame is a frame of the map that the pool does not hold. *)
Lemma owned_frame rs s owned owned' f :
  map_ok rs → sys_inv rs (s, owned) → owned ≡ₚ f :: owned' →
  frame_ok f ∧ (f ∉ buddy_pool s) ∧ 0 < allocated s.
Proof.
  intros Hrs (_ & _ & Hp & Hal) Ho. simpl in *.
  pose proof (map_frames_distinct rs Hrs) as Hnd.
  pose proof (frames_ahead_ok rs 0 (proj1 Hrs) ltac:(done)) as Hok.
  rewrite <- Hp, Ho in Hnd, Hok. simpl in *.
  apply NoDup_cons in Hnd as [Hni _]. apply Forall_cons in Hok as [Hf _].
  split_and!; [done|set_solver|]. apply Permutation_length in Ho. simpl in Ho. lia.
Qed.

Lemma sys_inv_step rs st st' :
  map_ok rs → sys_inv rs st → step p st st' → sys_inv rs st'.
Proof.
  intros Hrs Hst Hstep. pose proof Hst as (Hinv & Hreg & Hp & Hal).
  destruct Hstep as [s owned f s' E|s owned s' E|s owned s' E|s owned owned' f s' Ho E];
    simpl in *.
  - destruct (allocate_spec p s Hinv) as (o & s1 & E1 & Hfrom).
    rewrite E in E1. injection E1 as <- <-. destruct Hfrom as (? & _ & ? & Hpool & ?).
    split_and!; simpl; [done|congruence| |lia]. rewrite <- Hp, Hpool. solve_Permutation.
  - destruct (allocate_spec p s Hinv) as (o & s1 & E1 & Hfrom).
    rewrite E in E1. injection E1 as <- <-. destruct Hfrom as (? & _ & ? & Hpool & Hpool' & ?).
    split_and!; simpl; [done|congruence| |congruence]. by rewrite <- Hp, Hpool, Hpool'.
  - destruct (active s) eqn:Hact; [unfold activate in E; rewrite Hact in E; done|].
    destruct (activate_spec p s Hinv Hact) as (s1 & E1 & ? & _ & ? & Hpool).
    assert (regions s1 = regions s) as Hr.
    { clear -E1. unfold activate in E1. apply bind_inv in E1 as (? & _ & E1).
      apply bind_inv in E1 as (? & _ & E1). by simplify_eq. }
    rewrite E in E1. injection E1 as <-.
    split_and!; simpl; [done|congruence| |congruence]. by rewrite Hpool.
  - destruct (owned_frame rs s owned owned' f Hrs Hst Ho) as (Hf & Hn & Hpos).
    assert (active s = true) as Hact.
    { destruct (active s) eqn:Hact; [done|]. unfold deallocate_frame in E.
      by rewrite Hact in E. }
    destruct (deallocate_spec s f Hinv Hact Hf Hn Hpos) as (s1 & E1 & ? & _ & ? & Hpool & ?).
    rewrite E in E1. injection E1 as <-. apply Permutation_length in Ho as Hl. simpl in Hl.
    split_and!; simpl; [done|congruence| |lia]. rewrite <- Hp, Hpool, Ho. solve_Permutation.
Qed.

Lemma reachable_inv rs st : map_ok rs → reachable p rs st → sys_inv rs st.
Proof.
  intros Hrs Hr. unfold reachable in Hr.
  apply (rtc_ind_r (sys_inv rs) (new rs, [])) with (1 := sys_inv_init rs Hrs) (3 := Hr).
  eauto using sys_inv_step.
Qed.
End sys.

(** ** Properties *)

Section properties.
Context (p : profile) `{PhysFrames}.

(** A request and the free of its frame, from any active state. *)
Lemma alloc_then_free s :
  buddy_inv s → active s = true → buddy_pool s ≠ [] →
  ∃ f s1 s2, allocate_frame p s = Ret (Some f, s1) ∧
    buddy_inv s1 ∧ active s1 = true ∧ buddy_pool s ≡ₚ f :: buddy_pool s1 ∧
    allocated s1 = allocated s + 1 ∧
    deallocate_frame s1 f = Ret s2 ∧ buddy_inv s2 ∧ active s2 = true ∧
    buddy_pool s2 ≡ₚ buddy_pool s ∧ allocated s2 = allocated s ∧
    (coalesced (free_lists s) → s2 = s).
Proof.
  intros Hinv Hact Hne.
  destruct (allocate_active p s Hinv Hact) as (o & s1 & E & Hfrom & _).
  pose proof (pool_frames_ok s Hinv) as Hfok. pose proof Hinv as (_ & _ & Hnd & Hal & Hlim).
  destruct Hfrom as (Hinv1 & Hact1 & _ & Ho). rewrite Hact in Hact1.
  destruct o as [f|]; [|by destruct Ho]. destruct Ho as [Hp Hal1].
  rewrite Hp in Hfok, Hnd.
  apply Forall_cons in Hfok as [Hf _]. apply NoDup_cons in Hnd as [Hni _].
  destruct (deallocate_spec s1 f Hinv1 Hact1 Hf Hni ltac:(lia))
    as (s2 & E2 & Hinv2 & Hact2 & _ & Hp2 & Hal2).
  exists f, s1, s2. split_and!; try done; [by rewrite Hp2, Hp|lia|].
  intros Hco. pose proof (alloc_free_same p s f s1 Hinv Hact Hco E) as E3.
  rewrite E2 in E3. by injection E3.
Qed.

(** C1.  No frame is lost and none is handed out twice: in every state that
    allocations, exhausted requests, the one activation and frees of owned
    frames can reach from a fresh allocator, the frames owned by clients and
    the frames in the pool together are exactly the usable frames of the
    memory map, all distinct; every owned frame is 4 KiB-aligned, above the
    zero page and inside physical memory, and the [allocated] ledger counts
    the owned frames. *)
Theorem buddy_conservation rs s owned :
  map_ok rs → reachable p rs (s, owned) →
  owned ++ buddy_pool s ≡ₚ frames_ahead rs 0 ∧ NoDup (owned ++ buddy_pool s) ∧
  Forall frame_ok owned ∧ allocated_frames s = Z.of_nat (length owned).
Proof.
  intros Hrs Hr. destruct (reachable_inv p rs _ Hrs Hr) as (_ & _ & Hp & Hal). simpl in *.
  pose proof (frames_ahead_ok rs 0 (proj1 Hrs) ltac:(done)) as Hok.
  split_and!; [done|rewrite Hp; by apply map_frames_distinct| |done].
  rewrite <- Hp, Forall_app in Hok. by destruct Hok.
Qed.

(** C9.  What each operation does in a reachable state, its refusals
    included: a request always returns, with a frame unless the pool is empty;
    the first activation succeeds and any later one panics; an owned frame can
    be freed once the allocator is active, and a free before that panics. *)
Theorem buddy_progress rs s owned :
  map_ok rs → reachable p rs (s, owned) →
  (∃ o s', allocate_frame p s = Ret (o, s') ∧ (o = None ↔ buddy_pool s = [])) ∧
  (if active s then activate p s = Panic "buddy activate called twice"
   else ∃ s', activate p s = Ret s' ∧ active s' = true) ∧
  (∀ f, f ∈ owned →
    if active s then ∃ s', deallocate_frame s f = Ret s'
    else deallocate_frame s f = Panic "buddy free before activate").
Proof.
  intros Hrs Hr. pose proof (reachable_inv p rs _ Hrs Hr) as Hst.
  pose proof Hst as (Hinv & _). simpl in Hinv. split_and!.
  - destruct (allocate_spec p s Hinv) as (o & s' & E & _ & _ & _ & Ho).
    exists o, s'. split; [done|]. destruct o as [f|]; [|by destruct Ho as [-> _]].
    destruct Ho as [Ho _]. split; [done|]. intros E0. rewrite E0 in Ho.
    by apply Permutation_nil_cons in Ho.
  - destruct (active s) eqn:Ha; [unfold activate; by rewrite Ha|].
    destruct (activate_spec p s Hinv Ha) as (s' & ? & _ & ? & _). eauto.
  - intros f (owned' & Ho)%elem_of_Permutation.
    destruct (active s) eqn:Ha; [|unfold deallocate_frame; by rewrite Ha].
    destruct (owned_frame rs s owned owned' f Hrs Hst Ho) as (? & ? & ?).
    destruct (deallocate_spec s f) as (s' & ? & _); eauto.
Qed.

(** C22.  Freeing the frame just allocated from an active allocator gives the
    pool and the ledger back; when no two free buddies were left unmerged
    before, it undoes every split exactly: the allocator is in the very same
    state again, free-list order included. *)
Theorem buddy_alloc_free_roundtrip s :
  buddy_inv s → active s = true → buddy_pool s ≠ [] →
  ∃ f s1 s2, allocate_frame p s = Ret (Some f, s1) ∧ f ∈ buddy_pool s ∧
    deallocate_frame s1 f = Ret s2 ∧ buddy_inv s2 ∧
    buddy_pool s2 ≡ₚ buddy_pool s ∧ allocated s2 = allocated s ∧
    (coalesced (free_lists s) → s2 = s).
Proof.
  intros Hinv Hact Hne.
  destruct (alloc_then_free s Hinv Hact Hne) as (f & s1 & s2 & ? & _ & _ & Hp & _ & ? & ? & _ & ? & ? & ?).
  exists f, s1, s2. split_and!; [done| |done..]. rewrite Hp. left.
Qed.

(** C21.  Fragmentation heals: once no two buddies are both free, no allocation
    or free ever leaves a pair of free buddies below the top order unmerged. *)
Theorem buddy_stays_coalesced s :
  buddy_inv s → active s = true → coalesced (free_lists s) →
  (∀ o s', allocate_frame p s = Ret (o, s') → coalesced (free_lists s')) ∧
  (∀ f s', deallocate_frame s f = Ret s' → coalesced (free_lists s')).
Proof.
  intros (_ & Hmode & _) Hact Hco. rewrite Hact in Hmode. split.
  - intros o s' E. unfold allocate_frame, take_block in E. rewrite Hact in E.
    apply bind_inv in E as ([o1 s1] & E1 & E).
    apply bind_inv in E1 as ([o2 fls] & E2 & E1). injection E1 as <- <-.
    apply take_block_aux_coalesced in E2; [|done|done|done].
    destruct o2 as [a|]; [|by injection E as <- <-].
    repeat (apply bind_inv in E as (? & _ & E)). by injection E as <- <-.
  - intros f s' E. unfold deallocate_frame in E.
    pose proof (merge_aux_coalesced BUDDY_MAX_ORDER 0 f (free_lists s)
      (proj1 Hmode) ltac:(done) Hco) as Hm.
    revert E Hm. generalize (merge_aux BUDDY_MAX_ORDER 0 f (free_lists s)).
    intros fls E Hm. repeat (apply bind_inv in E as (? & _ & E)). by injection E as <-.
Qed.

(** C23.  Activation hands over exactly what the bring-up cursor has not
    consumed: the carved free lists hold each frame ahead of the cursor once
    and none behind it, in blocks aligned to their size, and [free_frames]
    then counts them. *)
Theorem buddy_activate_exact s :
  buddy_inv s → active s = false →
  ∃ s', activate p s = Ret s' ∧ lists_ok (free_lists s') ∧
    lists_frames 0 (free_lists s') ≡ₚ
      frames_ahead (drop (region_idx s) (regions s)) (next_addr s) ∧
    NoDup (lists_frames 0 (free_lists s')) ∧
    free_frames p s' = Ret (Z.of_nat (length (buddy_pool s))).
Proof.
  intros Hinv Hact. destruct (activate_spec p s Hinv Hact) as (s' & E & Hinv' & Hact' & _ & Hp).
  exists s'. pose proof (free_frames_spec p s' Hinv' Hact') as Hc.
  destruct Hinv' as (_ & Hmode & Hnd & _). rewrite Hact' in Hmode.
  rewrite Hp in Hc. unfold buddy_pool in *. rewrite Hact, Hact' in *. by split_and!.
Qed.

(** The whole self-test, with the invariant. *)
Lemma self_test_reclaim_spec s :
  buddy_inv s → active s = true → buddy_pool s ≠ [] →
  ∃ s', self_test_reclaim p s = Ret s' ∧ buddy_inv s' ∧ active s' = true ∧ buddy_pool s' ≡ₚ buddy_pool s ∧
    allocated s' = allocated s ∧ (coalesced (free_lists s) → s' = s).
Proof.
  intros Hinv Hact Hne. unfold self_test_reclaim.
  destruct (alloc_then_free s Hinv Hact Hne)
    as (f & s1 & s2 & E & Hinv1 & Hact1 & Hp & Hal1 & E2 & Hinv2 & Hact2 & Hp2 & Hal2 & Hs).
  rewrite (free_frames_spec p s Hinv Hact), bind_Ret, E, bind_Ret. cbn [expect].
  rewrite bind_Ret, (free_frames_spec p s1 Hinv1 Hact1), bind_Ret.
  pose proof Hinv as (_ & _ & _ & Hal & Hlim).
  apply Permutation_length in Hp as Hl, Hp2 as Hl2. simpl in Hl, Hl2.
  rewrite add64_exact, bind_Ret by ulia. rewrite (proj2 (Z.eqb_eq _ _)) by lia.
  cbn [assert_]. rewrite bind_Ret, E2, bind_Ret, (free_frames_spec p s2 Hinv2 Hact2), bind_Ret.
  rewrite (proj2 (Z.eqb_eq _ _)) by lia. cbn [assert_]. rewrite bind_Ret.
  by exists s2.
Qed.

(** The boot-time reclaim self-test passes whenever a frame is free: no
    assertion fires, the pool and the ledger come back, and from a coalesced
    allocator the state is untouched. *)
Theorem self_test_reclaim_passes s :
  buddy_inv s → active s = true → buddy_pool s ≠ [] →
  ∃ s', self_test_reclaim p s = Ret s' ∧ buddy_pool s' ≡ₚ buddy_pool s ∧
    allocated s' = allocated s ∧ (coalesced (free_lists s) → s' = s).
Proof.
  intros Hinv Hact Hne.
  destruct (self_test_reclaim_spec s Hinv Hact Hne) as (s' & E & _ & _ & Hp & Ha & Hs). eauto.
Qed.

(** The bump cursor inside a buddy allocator. *)
Definition cursor (s : BuddyFrameAllocator) : Bump.BootFrameAllocator :=
  Bump.mkBump (regions s) (region_idx s) (next_addr s).

(** C35.  The bring-up mode of the buddy allocator and the bump allocator are
    the same machine: on every memory map and cursor, garbage included,
    [bump_one] picks the frame that [BootFrameAllocator::allocate_frame]
    hands out and leaves the same cursor. *)
Theorem bump_one_is_bump_allocator s :
  Bump.bump_allocate_frame (cursor s) =
  match bump_one s with
  | (None, s1) => Ret (None, cursor s1)
  | (Some a, s1) => f ← phys_frame a; Ret (Some f, cursor s1)
  end.
Proof.
  unfold Bump.bump_allocate_frame, bump_one. simpl.
  generalize (drop (region_idx s) (regions s)) as rs. intros rs. revert s.
  induction rs as [|r rs IH]; intros s; simpl; [done|].
  pose proof (IH (with_cursor s (S (region_idx s)) 0)) as IHs. unfold cursor in IHs at 1.
  destruct (is_usable r); simpl; [|done].
  change FRAME_SIZE with 4096. change MIN_ADDR with 0x1000.
  destruct (checked_next_multiple_of _ _); [|done].
  destruct (checked_add64 _ _); [|done]. by destruct (_ <? _).
Qed.
End properties.

(** ** A region inside the last page *)

(** [r_start.next_multiple_of(FRAME_SIZE)] does not fit [u64]. *)
Definition last_page (r : MemoryRegion) : Prop :=
  is_usable r = true ∧ u64_lim - FRAME_SIZE < r_start r < r_end r ∧ r_end r < u64_lim.

Lemma last_page_rounds r :
  last_page r →
  next_multiple_of Dev (r_start r) FRAME_SIZE = Panic "attempt to add with overflow" ∧
  checked_next_multiple_of (r_start r) FRAME_SIZE = None.
Proof.
  intros (_ & Hs & He). pose proof (Z.mod_pos_bound (r_start r) FRAME_SIZE FRAME_SIZE_pos).
  assert (Hmod : r_start r `mod` FRAME_SIZE = r_start r - (u64_lim - FRAME_SIZE)).
  { symmetry. apply (Z.mod_unique _ _ (2 ^ 52 - 1)); [left; alia|].
    unfold u64_lim, FRAME_SIZE. lia. }
  assert (Hnz : r_start r `mod` FRAME_SIZE ≠ 0) by alia.
  unfold next_multiple_of, checked_next_multiple_of. rewrite (proj2 (Z.eqb_neq _ _) Hnz).
  unfold add64, arith64, checked_add64. rewrite (proj2 (Z.ltb_ge _ u64_lim)) by alia.
  by rewrite andb_false_r.
Qed.

Lemma carve_regions_app p idx next i rs1 rs2 fls :
  carve_regions p idx next i (rs1 ++ rs2) fls =
  fls1 ← carve_regions p idx next i rs1 fls;
  carve_regions p idx next (i + length rs1)%nat rs2 fls1.
Proof.
  revert i fls. induction rs1 as [|r rs IH]; intros i fls; simpl.
  { by rewrite Nat.add_0_r. }
  rewrite <- Nat.add_succ_comm.
  destruct (is_usable r), (r_end r <=? r_start r); simpl; try apply IH.
  destruct (next_multiple_of p (r_start r) FRAME_SIZE) as [s0|?]; [|done]. rewrite !bind_Ret.
  destruct (i =? idx)%nat.
  - destruct (next_multiple_of p next FRAME_SIZE) as [na|?]; [|done]. rewrite !bind_Ret.
    destruct (carve p _ _ fls); [|done]. rewrite !bind_Ret. apply IH.
  - destruct (i <? idx)%nat; [apply IH|].
    destruct (carve p _ _ fls); [|done]. rewrite !bind_Ret. apply IH.
Qed.

(** The frame the cursor finds does not depend on where the list of regions
    starts in the map. *)
Lemma bump_loop_frame rs s t :
  next_addr s = next_addr t → fst (bump_loop rs s) = fst (bump_loop rs t).
Proof.
  revert s t. induction rs as [|r rs IH]; intros s t E; simpl; [done|]. rewrite E.
  destruct (is_usable r); simpl; [|by apply IH].
  destruct (checked_next_multiple_of _ _); [|by apply IH].
  destruct (checked_add64 _ _); [|done]. destruct (_ <? _); [by apply IH|done].
Qed.

Lemma bump_loop_last_page r post s :
  last_page r →
  bump_loop (r :: post) s = bump_loop post (with_cursor s (S (region_idx s)) 0).
Proof.
  intros Hr. simpl. rewrite (proj2 (last_page_rounds r Hr)). by destruct (is_usable r).
Qed.

Lemma bump_loop_drops pre r post s :
  last_page r → (pre = [] → next_addr s = 0) →
  fst (bump_loop (pre ++ r :: post) s) = fst (bump_loop (pre ++ post) s).
Proof.
  intros Hr. revert s. induction pre as [|q pre IH]; intros s Hs.
  { cbn [app]. rewrite bump_loop_last_page by done. apply bump_loop_frame. simpl. by rewrite Hs. }
  simpl. destruct (is_usable q); simpl; [|by apply IH].
  destruct (checked_next_multiple_of _ _); [|by apply IH].
  destruct (checked_add64 _ _); [|done]. destruct (_ <? _); [by apply IH|done].
Qed.

(** C37.  [activate] rounds region starts with the unchecked
    [next_multiple_of] where the bring-up cursor uses the checked one.  On
    any memory map whose regions before it are ordinary, a usable region
    inside the last page of the 64-bit space makes activation panic under
    overflow checks, wherever the cursor stands; [bump_one] passes over it:
    at that region the cursor moves on to the next one, and a fresh cursor
    finds the frame it would find without the region in the map. *)
Theorem activate_overflow_panics pre r post :
  Forall region_ok pre → last_page r →
  (∀ idx next n, 0 ≤ next ≤ phys_lim → next `mod` FRAME_SIZE = 0 →
    activate Dev (mkBuddy (pre ++ r :: post) idx next false (replicate BUDDY_ORDERS []) n)
    = Panic "attempt to add with overflow") ∧
  (∀ s, regions s = pre ++ r :: post → region_idx s = length pre →
    bump_one s = bump_one (with_cursor s (S (region_idx s)) 0)) ∧
  fst (bump_one (new (pre ++ r :: post))) = fst (bump_one (new (pre ++ post))).
Proof.
  intros Hpre Hr. split_and!.
  - intros idx next n Hn Hm. unfold activate. cbn [active negb assert_ regions region_idx
      next_addr free_lists]. rewrite bind_Ret, carve_regions_app.
    destruct (carve_regions_spec Dev idx next 0 pre (replicate BUDDY_ORDERS []) Hpre Hn Hm
      lists_ok_empty) as (fls & -> & _). rewrite bind_Ret. cbn [carve_regions].
    rewrite (proj1 (last_page_rounds r Hr)). destruct Hr as (-> & Hs & He). cbn [negb].
    by rewrite (proj2 (Z.leb_gt _ _)) by lia.
  - intros s Es Ei. unfold bump_one. cbn [with_cursor regions region_idx].
    rewrite Ei, Es. rewrite drop_app_length.
    rewrite (bump_loop_last_page r post s Hr), Ei. f_equal.
    rewrite <- Nat.add_1_r, <- drop_drop, drop_app_length. done.
  - unfold bump_one, new. cbn [regions region_idx]. rewrite !drop_0.
    rewrite bump_loop_drops by done. by apply bump_loop_frame.
Qed.

(** ** Witnesses: a small map, two allocations around activation, one free *)

Definition demo_map : list MemoryRegion :=
  [mkRegion 0 0x5000 Usable; mkRegion 0x5000 0x8000 (OtherKind 1);
   mkRegion 0x8000 0xA800 Usable].

Definition demo_fresh : BuddyFrameAllocator := new demo_map.
Definition demo_bumped : BuddyFrameAllocator :=
  mkBuddy demo_map 0 0x2000 false (replicate 13 []) 1.
Definition demo_active : BuddyFrameAllocator :=
  mkBuddy demo_map 3 u64_max true
    ([[0x4000]; [0x2000; 0x8000]] ++ replicate 11 []) 1.
Definition demo_split : BuddyFrameAllocator :=
  mkBuddy demo_map 3 u64_max true
    ([[]; [0x2000; 0x8000]] ++ replicate 11 []) 2.
Definition demo_freed : BuddyFrameAllocator :=
  mkBuddy demo_map 3 u64_max true
    ([[0x1000]; [0x2000; 0x8000]] ++ replicate 11 []) 1.

Lemma demo_map_ok : map_ok demo_map.
Proof. solve_map_ok. Qed.

Lemma demo_bumped_reachable : reachable Dev demo_map (demo_bumped, [0x1000]).
Proof. apply rtc_once, step_alloc. reflexivity. Qed.

Lemma demo_active_reachable : reachable Dev demo_map (demo_active, [0x1000]).
Proof.
  eapply rtc_r; [apply demo_bumped_reachable|]. apply step_activate. reflexivity.
Qed.

Lemma demo_freed_reachable : reachable Dev demo_map (demo_freed, [0x4000]).
Proof.
  eapply rtc_r; [eapply rtc_r; [apply demo_active_reachable|]|].
  - apply (step_alloc _ demo_active [0x1000] 0x4000 demo_split). reflexivity.
  - eapply (step_free _ demo_split [0x4000; 0x1000] [0x4000] 0x1000); [|reflexivity].
    solve_Permutation.
Qed.

Lemma demo_inv s owned : reachable Dev demo_map (s, owned) → buddy_inv s.
Proof. intros Hr. by destruct (reachable_inv Dev demo_map _ demo_map_ok Hr). Qed.

Lemma demo_active_coalesced : coalesced (free_lists demo_active).
Proof.
  intros o a Ho. do 12 (destruct o as [|o]; [vm_compute; set_solver|]).
  unfold BUDDY_MAX_ORDER in Ho. lia.
Qed.

Lemma buddy_conservation_witness :
  NoDup ([0x4000] ++ buddy_pool demo_freed) ∧ allocated_frames demo_freed = 1.
Proof.
  destruct (buddy_conservation Dev demo_map demo_freed [0x4000] demo_map_ok
    demo_freed_reachable) as (_ & ? & _ & ?). done.
Defined.

Lemma buddy_progress_witness :
  (∃ s', activate Dev demo_bumped = Ret s' ∧ active s' = true) ∧
  ∃ s', deallocate_frame demo_freed 0x4000 = Ret s'.
Proof.
  destruct (buddy_progress Dev demo_map demo_bumped _ demo_map_ok demo_bumped_reachable)
    as (_ & Ha & _).
  destruct (buddy_progress Dev demo_map demo_freed _ demo_map_ok demo_freed_reachable)
    as (_ & _ & Hf).
  split; [exact Ha|apply (Hf 0x4000); set_solver].
Defined.

Lemma buddy_alloc_free_roundtrip_witness :
  ∃ f s1, allocate_frame Dev demo_active = Ret (Some f, s1) ∧
    deallocate_frame s1 f = Ret demo_active.
Proof.
  destruct (buddy_alloc_free_roundtrip Dev demo_active)
    as (f & s1 & s2 & E1 & _ & E2 & _ & _ & _ & Hs); [|done|done|].
  { by eapply demo_inv, demo_active_reachable. }
  exists f, s1. split; [done|]. by rewrite E2, (Hs demo_active_coalesced).
Defined.

Lemma buddy_stays_coalesced_witness : coalesced (free_lists demo_split).
Proof.
  destruct (buddy_stays_coalesced Dev demo_active) as [Ha _].
  - by eapply demo_inv, demo_active_reachable.
  - done.
  - apply demo_active_coalesced.
  - by apply (Ha (Some 0x4000) demo_split).
Defined.

Lemma buddy_activate_exact_witness :
  ∃ s', activate Dev demo_bumped = Ret s' ∧ free_frames Dev s' = Ret 5.
Proof.
  destruct (buddy_activate_exact Dev demo_bumped) as (s' & ? & _ & _ & _ & ?); [|done|eauto].
  by eapply demo_inv, demo_bumped_reachable.
Defined.

Lemma self_test_reclaim_passes_witness :
  ∃ s', self_test_reclaim Dev demo_active = Ret s' ∧ s' = demo_active.
Proof.
  destruct (self_test_reclaim_passes Dev demo_active) as (s' & ? & _ & _ & Hco);
    [by eapply demo_inv, demo_active_reachable|done|done|].
  exists s'. split; [done|]. apply Hco, demo_active_coalesced.
Defined.

Definition top_region : MemoryRegion := mkRegion 0xFFFFFFFFFFFFF800 0xFFFFFFFFFFFFFF00 Usable.

Lemma activate_overflow_panics_witness :
  activate Dev (new (demo_map ++ [top_region])) = Panic "attempt to add with overflow" ∧
  fst (bump_one (new ([top_region] ++ demo_map))) = Some 0x1000.
Proof.
  destruct (activate_overflow_panics demo_map top_region []) as [Ha _].
  { repeat constructor; simpl; alia. }
  { split; [done|simpl; alia]. }
  destruct (activate_overflow_panics [] top_region demo_map) as (_ & _ & Hb);
    [done|split; [done|simpl; alia]|].
  split; [by apply Ha; [alia|]|exact Hb].
Defined.

End BuddySpec.
