(* ===== verification/Machine.v ===== *)
(** * A model of the processor for the kernel's naked assembly

    The two [naked_asm!] routines of the kernel ([task::context_switch] and
    [preempt::lapic_preempt_stub]) and the entry shim [task::task_trampoline]
    use twenty-odd x86-64 instructions.  This file gives those instructions a
    semantics over 64-bit registers and byte-addressed little-endian memory,
    with interrupt delivery and [iretq], and proves the facts about runs of
    pushes, pops and copies that the routines are made of. *)
From S2P Require Import Prelude.

#[local] Open Scope Z_scope.

(** ** Virtual addresses *)

(** The two halves of the canonical address space. *)
Definition canonical (z : Z) : Prop := z < 2 ^ 47 ∨ u64_lim - 2 ^ 47 ≤ z.

(** The [x86_64] crate's [VirtAddr::new] and [VirtAddr + u64], as an interface:
    they accept canonical addresses as they are; [new] panics on any other. *)
Class VirtAddrs := {
  VirtAddr_new : Z → outcome Z;
  VirtAddr_add : Z → Z → outcome Z;
  VirtAddr_new_ok z : u64 z → canonical z → VirtAddr_new z = Ret z;
  VirtAddr_new_bad z : u64 z → ¬ canonical z → ∃ msg, VirtAddr_new z = Panic msg;
  VirtAddr_add_ok z k :
    0 ≤ z → 0 ≤ k → z + k < u64_lim → z + k < 2 ^ 47 ∨ u64_lim - 2 ^ 47 ≤ z →
    VirtAddr_add z k = Ret (z + k)
}.

(** A model of it: a panic on any other address. *)
Definition checked_virt (z : Z) : outcome Z :=
  if (z <? 2 ^ 47) || (u64_lim - 2 ^ 47 <=? z) then Ret z
  else Panic "virtual address must be sign extended in bits 48 to 64".

Lemma checked_virt_ok z : canonical z → checked_virt z = Ret z.
Proof.
  unfold checked_virt. intros [H|H].
  - by rewrite (proj2 (Z.ltb_lt _ _) H).
  - by rewrite (proj2 (Z.leb_le _ _) H), orb_true_r.
Qed.

#[export] Instance x86_virt_addrs : VirtAddrs.
Proof.
  refine {| VirtAddr_new := checked_virt;
    VirtAddr_add z k := z' ← add64 Dev z k; checked_virt z' |}.
  - intros z _. apply checked_virt_ok.
  - intros z _ Hc. unfold canonical in Hc. unfold checked_virt.
    rewrite (proj2 (Z.ltb_ge _ _)), (proj2 (Z.leb_gt _ _)) by lia. by eexists.
  - intros z k Hz Hk Hlim Hc. rewrite add64_exact, bind_Ret by ulia.
    apply checked_virt_ok. unfold canonical. lia.
Defined.

(** ** Registers and memory *)

Inductive reg :=
| rax | rbx | rcx | rdx | rsi | rdi | rbp | rsp
| r8 | r9 | r10 | r11 | r12 | r13 | r14 | r15.

#[export] Instance reg_eq_dec : EqDecision reg.
Proof. solve_decision. Defined.

Definition memory := Z → Z.

(** [n] bytes at [a], little-endian; addresses wrap at [2^64]. *)
Fixpoint load (n : nat) (m : memory) (a : Z) : Z :=
  match n with
  | O => 0
  | S n' => m (wrap64 a) + 256 * load n' m (a + 1)
  end.

Definition store1 (m : memory) (a v : Z) : memory :=
  λ x, if x =? wrap64 a then v `mod` 256 else m x.

Fixpoint store (n : nat) (m : memory) (a v : Z) : memory :=
  match n with
  | O => m
  | S n' => store n' (store1 m a v) (a + 1) (v `div` 256)
  end.

Record cpu := mkCpu {
  regs : reg → Z;
  rip : Z;
  cs : Z;
  ss : Z;
  rflags : Z;
  mem : memory
}.

Definition set_reg (s : cpu) (r : reg) (v : Z) : cpu :=
  mkCpu (λ x, if decide (x = r) then wrap64 v else regs s x)
    (rip s) (cs s) (ss s) (rflags s) (mem s).
Definition set_mem (s : cpu) (m : memory) : cpu :=
  mkCpu (regs s) (rip s) (cs s) (ss s) (rflags s) m.
Definition set_rip (s : cpu) (a : Z) : cpu :=
  mkCpu (regs s) a (cs s) (ss s) (rflags s) (mem s).

(** The carry (bit 0) and zero (bit 6) flags, and the interrupt flag (bit 9). *)
Definition CF (s : cpu) : bool := Z.testbit (rflags s) 0.
Definition ZF (s : cpu) : bool := Z.testbit (rflags s) 6.
Definition put_bit (z i : Z) (b : bool) : Z :=
  if b then Z.setbit z i else Z.clearbit z i.
Definition set_rflags (s : cpu) (z : Z) : cpu :=
  mkCpu (regs s) (rip s) (cs s) (ss s) z (mem s).
Definition set_cmp (s : cpu) (zf cf : bool) : cpu :=
  set_rflags s (put_bit (put_bit (rflags s) 6 zf) 0 cf).

Definition push (s : cpu) (v : Z) : cpu :=
  let s1 := set_reg s rsp (regs s rsp - 8) in
  set_mem s1 (store 8 (mem s1) (regs s1 rsp) v).
Definition top (s : cpu) : Z := load 8 (mem s) (regs s rsp).
Definition drop_word (s : cpu) : cpu := set_reg s rsp (regs s rsp + 8).

(** ** Interrupt delivery

    [ThreeWords] is the ring-0 frame the source comments describe (rip, cs,
    rflags); [FiveWords] is what the architecture specifies for 64-bit mode:
    the stack pointer is first aligned down to 16, then ss, rsp, rflags, cs
    and rip are pushed whatever the privilege level, and [iretq] pops all
    five.  An interrupt gate clears IF. *)
Inductive irq_convention := ThreeWords | FiveWords.

Definition irq_push_stack (c : irq_convention) (s : cpu) : cpu :=
  match c with
  | ThreeWords => s
  | FiveWords =>
      let sp := regs s rsp in
      push (push (set_reg s rsp (sp - sp `mod` 16)) (ss s)) sp
  end.

Definition irq_entry (c : irq_convention) (s : cpu) : cpu :=
  let s3 := push (push (push (irq_push_stack c s) (rflags s)) (cs s)) (rip s) in
  set_rflags s3 (Z.clearbit (rflags s) 9).

Definition iretq (c : irq_convention) (s : cpu) : cpu :=
  let new_rip := top s in
  let s1 := drop_word s in
  let new_cs := top s1 in
  let s2 := drop_word s1 in
  let new_flags := top s2 in
  let s3 := drop_word s2 in
  match c with
  | ThreeWords => mkCpu (regs s3) new_rip new_cs (ss s) new_flags (mem s)
  | FiveWords =>
      let s4 := drop_word s3 in
      mkCpu (regs (set_reg s3 rsp (top s3))) new_rip new_cs (top s4) new_flags (mem s)
  end.

(** ** Instructions *)

Inductive instr :=
| Push (r : reg)
| Pop (r : reg)
| MovLoad (d b : reg) (off : Z)          (* mov d, [b + off] *)
| MovStore (b : reg) (off : Z) (s : reg) (* mov [b + off], s *)
| MovLoadAbs (d : reg) (a : Z)           (* mov d, [rip + sym] *)
| MovStoreAbs (a : Z) (s : reg)          (* mov [rip + sym], s *)
| MovImm (d : reg) (v : Z)
| MovzxByte (d : reg) (a : Z)            (* movzx d32, byte ptr [rip + sym] *)
| LeaAbs (d : reg) (a : Z)
| Lea (d b : reg) (off : Z)
| Add (d s : reg)
| ImulImm (d s : reg) (v : Z)
| LockInc (a : Z)                        (* lock inc qword ptr [rip + sym] *)
| CmpByte (a v : Z)                      (* cmp byte ptr [rip + sym], v *)
| Cmp32 (r : reg) (v : Z)
| Bt32 (r i : reg)
| Test (r r' : reg)
| MovDword (b : reg) (v : Z)             (* mov dword ptr [b], v *)
| Je (l : nat) | Jae (l : nat) | Jnc (l : nat) | Jz (l : nat)
| Label (l : nat)
| Iretq
| Retq
| Jmp (a : Z).

Definition low32 (z : Z) : Z := z `mod` 2 ^ 32.

(** Straight-line instructions. *)
Definition exec1 (i : instr) (s : cpu) : cpu :=
  match i with
  | Push r => push s (regs s r)
  | Pop r => set_reg (drop_word s) r (top s)
  | MovLoad d b off => set_reg s d (load 8 (mem s) (regs s b + off))
  | MovStore b off r => set_mem s (store 8 (mem s) (regs s b + off) (regs s r))
  | MovLoadAbs d a => set_reg s d (load 8 (mem s) a)
  | MovStoreAbs a r => set_mem s (store 8 (mem s) a (regs s r))
  | MovImm d v => set_reg s d v
  | MovzxByte d a => set_reg s d (load 1 (mem s) a)
  | LeaAbs d a => set_reg s d a
  | Lea d b off => set_reg s d (regs s b + off)
  | Add d r => set_reg s d (regs s d + regs s r)
  | ImulImm d r v => set_reg s d (regs s r * v)
  | LockInc a => set_mem s (store 8 (mem s) a (load 8 (mem s) a + 1))
  | CmpByte a v => set_cmp s (load 1 (mem s) a =? v) (load 1 (mem s) a <? v)
  | Cmp32 r v => set_cmp s (low32 (regs s r) =? v) (low32 (regs s r) <? v)
  | Bt32 r i =>
      set_cmp s (ZF s) (Z.testbit (low32 (regs s r)) (low32 (regs s i) `mod` 32))
  | Test r r' => set_cmp s (Z.land (regs s r) (regs s r') =? 0) false
  | MovDword b v => set_mem s (store 4 (mem s) (regs s b) v)
  | _ => s
  end.

(** Run a routine from its first instruction.  Jumps go forward to a numeric
    label: while [skip] holds a label, instructions are passed over up to it.
    The routine ends with [iretq], [ret] or a [jmp] out of it. *)
Fixpoint run (c : irq_convention) (skip : option nat) (code : list instr) (s : cpu)
    : option cpu :=
  match code with
  | [] => None
  | i :: code' =>
      match skip with
      | Some l =>
          match i with
          | Label l' => run c (if (l =? l')%nat then None else skip) code' s
          | _ => run c skip code' s
          end
      | None =>
          match i with
          | Label _ => run c None code' s
          | Je l | Jz l => run c (if ZF s then Some l else None) code' s
          | Jae l | Jnc l => run c (if CF s then None else Some l) code' s
          | Iretq => Some (iretq c s)
          | Retq => Some (set_rip (drop_word s) (top s))
          | Jmp a => Some (set_rip s a)
          | _ => run c None code' (exec1 i s)
          end
      end
  end.

(** Executing a straight-line prefix. *)
Definition exec_list (code : list instr) (s : cpu) : cpu :=
  fold_left (λ s i, exec1 i s) code s.

Definition straight (i : instr) : bool :=
  match i with
  | Je _ | Jae _ | Jnc _ | Jz _ | Label _ | Iretq | Retq | Jmp _ => false
  | _ => true
  end.

Lemma run_straight c code code' s :
  forallb straight code = true →
  run c None (code ++ code') s = run c None code' (exec_list code s).
Proof.
  revert s. induction code as [|i code IH]; intros s Hs; simpl; [done|].
  simpl in Hs. apply andb_true_iff in Hs as [Hi Hs].
  destruct i; try discriminate Hi; simpl; by apply IH.
Qed.

Lemma run_step c i code s :
  straight i = true → run c None (i :: code) s = run c None code (exec1 i s).
Proof. by destruct i. Qed.

Lemma run_je c l code s :
  run c None (Je l :: code) s = run c (if ZF s then Some l else None) code s.
Proof. reflexivity. Qed.

Lemma run_jz c l code s :
  run c None (Jz l :: code) s = run c (if ZF s then Some l else None) code s.
Proof. reflexivity. Qed.

Lemma run_jae c l code s :
  run c None (Jae l :: code) s = run c (if CF s then None else Some l) code s.
Proof. reflexivity. Qed.

Lemma run_jnc c l code s :
  run c None (Jnc l :: code) s = run c (if CF s then None else Some l) code s.
Proof. reflexivity. Qed.

(** ** Memory lemmas *)

(** [m'] agrees with [m] outside the byte range [lo, hi). *)
Definition same_outside (lo hi : Z) (m m' : memory) : Prop :=
  ∀ x, ¬ (lo ≤ x < hi) → m' x = m x.

Lemma same_outside_refl lo hi m : same_outside lo hi m m.
Proof. done. Qed.

Lemma same_outside_trans lo hi m1 m2 m3 :
  same_outside lo hi m1 m2 → same_outside lo hi m2 m3 → same_outside lo hi m1 m3.
Proof. intros H1 H2 x Hx. by rewrite H2, H1. Qed.

Lemma same_outside_mono lo hi lo' hi' m m' :
  same_outside lo hi m m' → lo' ≤ lo → hi ≤ hi' → same_outside lo' hi' m m'.
Proof. intros H H1 H2 x Hx. apply H. lia. Qed.

#[export] Instance same_outside_pre lo hi : PreOrder (same_outside lo hi).
Proof.
  split; [exact (same_outside_refl lo hi)|exact (same_outside_trans lo hi)].
Qed.

Lemma wrap64_id z : u64 z → wrap64 z = z.
Proof. intros [? ?]. by apply Z.mod_small. Qed.

Lemma wrap64_u64 z : u64 (wrap64 z).
Proof. apply Z.mod_pos_bound. reflexivity. Qed.

#[export] Hint Resolve wrap64_u64 : rusty.

Lemma store_same_outside n m a v :
  0 ≤ a → a + Z.of_nat n ≤ u64_lim → same_outside a (a + Z.of_nat n) m (store n m a v).
Proof.
  revert m a v. induction n as [|n IH]; intros m a v Ha Hn x Hx; simpl; [done|].
  rewrite (IH _ (a + 1)) by lia. unfold store1.
  rewrite wrap64_id by ulia. rewrite (proj2 (Z.eqb_neq _ _)); [done|]. lia.
Qed.

Lemma load_ext n m m' a :
  (∀ x, a ≤ x < a + Z.of_nat n → m' (wrap64 x) = m (wrap64 x)) →
  load n m' a = load n m a.
Proof.
  revert a. induction n as [|n IH]; intros a H; simpl; [done|].
  rewrite H by lia. rewrite (IH (a + 1)); [done|]. intros x Hx. apply H. lia.
Qed.

(** Reading outside the range that changed. *)
Lemma load_outside n lo hi m m' a :
  same_outside lo hi m m' → 0 ≤ a → a + Z.of_nat n ≤ u64_lim →
  a + Z.of_nat n ≤ lo ∨ hi ≤ a → load n m' a = load n m a.
Proof.
  intros H Ha Hn Hd. apply load_ext. intros x Hx. apply H.
  rewrite wrap64_id by ulia. lia.
Qed.

Lemma load_store_other n k m a b v :
  0 ≤ a → a + Z.of_nat n ≤ u64_lim → 0 ≤ b → b + Z.of_nat k ≤ u64_lim →
  b + Z.of_nat k ≤ a ∨ a + Z.of_nat n ≤ b → load k (store n m a v) b = load k m b.
Proof.
  intros. eapply load_outside; [by apply store_same_outside|lia..].
Qed.

(** Reading back what was stored. *)
Lemma load_store_same n m a v :
  0 ≤ a → a + Z.of_nat n ≤ u64_lim →
  load n (store n m a v) a = v `mod` 256 ^ Z.of_nat n.
Proof.
  revert m a v. induction n as [|n IH]; intros m a v Ha Hn.
  { simpl. by rewrite Z.mod_1_r. }
  simpl load. simpl store. rewrite IH by lia.
  assert (store n (store1 m a v) (a + 1) (v `div` 256) (wrap64 a) = v `mod` 256) as ->.
  { rewrite wrap64_id by ulia.
    rewrite (store_same_outside n _ (a + 1)) by lia.
    unfold store1. by rewrite wrap64_id, Z.eqb_refl by ulia. }
  rewrite Nat2Z.inj_succ, Z.pow_succ_r by lia.
  rewrite Z.rem_mul_r by lia. done.
Qed.

Lemma load8_store_same m a v :
  0 ≤ a → a + 8 ≤ u64_lim → load 8 (store 8 m a v) a = wrap64 v.
Proof. intros. by apply (load_store_same 8). Qed.

#[global] Arguments load : simpl never.
#[global] Arguments store : simpl never.

(** ** Runs of pushes, pops and copies *)

Lemma regs_set_same s r v : regs (set_reg s r v) r = wrap64 v.
Proof. simpl. by rewrite decide_True. Qed.

Lemma regs_set_other s r r' v : r' ≠ r → regs (set_reg s r v) r' = regs s r'.
Proof. intros. simpl. by rewrite decide_False. Qed.

(** Stated once: comparing states field by field must not unfold [store]. *)
Lemma regs_mov_store s b off r : regs (exec1 (MovStore b off r) s) = regs s.
Proof. unfold exec1, set_mem. reflexivity. Qed.

Lemma mem_set_reg s r v : mem (set_reg s r v) = mem s.
Proof. unfold set_reg. reflexivity. Qed.

Lemma mem_set_mem s m : mem (set_mem s m) = m.
Proof. unfold set_mem. reflexivity. Qed.

Lemma regs_set_mem s m : regs (set_mem s m) = regs s.
Proof. unfold set_mem. reflexivity. Qed.

Lemma ss_set_mem s m : ss (set_mem s m) = ss s.
Proof. unfold set_mem. reflexivity. Qed.

Lemma exec_lock_inc a s :
  exec_list [LockInc a] s = set_mem s (store 8 (mem s) a (load 8 (mem s) a + 1)).
Proof. reflexivity. Qed.

Lemma set_rflags_fields s z :
  regs (set_rflags s z) = regs s ∧ mem (set_rflags s z) = mem s ∧
  rip (set_rflags s z) = rip s ∧ cs (set_rflags s z) = cs s ∧ ss (set_rflags s z) = ss s.
Proof. unfold set_rflags. by repeat split. Qed.

Lemma mem_mkCpu a b c d e m : mem (mkCpu a b c d e m) = m.
Proof. reflexivity. Qed.

(** Everything but the general registers and memory is kept. *)
Definition same_control (s s' : cpu) : Prop :=
  rip s' = rip s ∧ cs s' = cs s ∧ ss s' = ss s ∧ rflags s' = rflags s.

#[export] Instance same_control_pre : PreOrder same_control.
Proof.
  split; [by intros s|]. intros s1 s2 s3 (?&?&?&?) (?&?&?&?).
  repeat split; congruence.
Qed.

Lemma exec_pushes rs s :
  let n := 8 * Z.of_nat (length rs) in
  let s' := exec_list (Push <$> rs) s in
  rsp ∉ rs → n ≤ regs s rsp < u64_lim →
  regs s' rsp = regs s rsp - n ∧
  (∀ r, r ≠ rsp → regs s' r = regs s r) ∧ same_control s s' ∧
  same_outside (regs s rsp - n) (regs s rsp) (mem s) (mem s') ∧
  (∀ i r, rs !! i = Some r →
     load 8 (mem s') (regs s rsp - 8 * (Z.of_nat i + 1)) = wrap64 (regs s r)).
Proof.
  revert s. induction rs as [|r0 rs IH]; intros s n s' Hrsp Hn.
  { subst s' n. simpl. repeat split; try done; lia. }
  apply not_elem_of_cons in Hrsp as [Hr0 Hrsp].
  set (s1 := push s (regs s r0)).
  assert (regs s1 rsp = regs s rsp - 8) as Hsp1.
  { subst s1 n. simpl in *. apply wrap64_id. ulia. }
  assert (∀ r, r ≠ rsp → regs s1 r = regs s r) as Hr1.
  { intros r Hr. subst s1. unfold push. simpl. by rewrite decide_False. }
  assert (mem s1 = store 8 (mem s) (regs s rsp - 8) (regs s r0)) as Hm1.
  { subst s1 n. unfold push. simpl in *. by rewrite wrap64_id by ulia. }
  subst n. rewrite length_cons, Nat2Z.inj_succ in *.
  destruct (IH s1 Hrsp) as (Hsp & Hreg & Hc & Hout & Hld); [lia|].
  change s' with (exec_list (Push <$> rs) s1).
  rewrite Hsp1 in *. split_and!.
  - lia.
  - intros r Hr. rewrite Hreg by done. by apply Hr1.
  - exact Hc.
  - etrans; [|eapply same_outside_mono; [exact Hout|lia..]].
    rewrite Hm1. eapply same_outside_mono; [apply store_same_outside|..]; lia.
  - intros [|i] r Hi; simpl in Hi.
    + injection Hi as <-. erewrite load_outside; [|exact Hout|lia..].
      rewrite Hm1. replace (_ - 8 * _) with (regs s rsp - 8) by lia.
      apply load8_store_same; lia.
    + assert (r ≠ rsp) by (intros ->; apply Hrsp; by eapply list_elem_of_lookup_2).
      rewrite <- (Hr1 r), <- (Hld i r Hi) by done. f_equal. lia.
Qed.

Lemma exec_pops rs s :
  let n := 8 * Z.of_nat (length rs) in
  let s' := exec_list (Pop <$> rs) s in
  NoDup rs → rsp ∉ rs → 0 ≤ regs s rsp → regs s rsp + n < u64_lim →
  regs s' rsp = regs s rsp + n ∧
  (∀ r, r ≠ rsp → r ∉ rs → regs s' r = regs s r) ∧ same_control s s' ∧
  mem s' = mem s ∧
  (∀ i r, rs !! i = Some r →
     regs s' r = wrap64 (load 8 (mem s) (regs s rsp + 8 * Z.of_nat i))).
Proof.
  revert s. induction rs as [|r0 rs IH]; intros s n s' Hnd Hrsp H0 Hn.
  { subst s' n. simpl. repeat split; try done; lia. }
  apply not_elem_of_cons in Hrsp as [Hr0 Hrsp].
  apply NoDup_cons in Hnd as [Hnew Hnd].
  set (s1 := exec1 (Pop r0) s).
  assert (regs s1 rsp = regs s rsp + 8) as Hsp1.
  { subst s1 n. simpl in *. rewrite decide_False by done. apply wrap64_id. ulia. }
  assert (∀ r, r ≠ rsp → r ≠ r0 → regs s1 r = regs s r) as Hr1.
  { intros r Hr Hr'. subst s1. simpl. by rewrite !decide_False. }
  subst n. rewrite length_cons, Nat2Z.inj_succ in *.
  destruct (IH s1 Hnd Hrsp) as (Hsp & Hreg & Hc & Hm & Hld); [lia..|].
  change s' with (exec_list (Pop <$> rs) s1).
  rewrite Hsp1 in *. split_and!.
  - lia.
  - intros r Hr [? ?]%not_elem_of_cons. rewrite Hreg by done. by apply Hr1.
  - exact Hc.
  - exact Hm.
  - intros [|i] r Hi; simpl in Hi.
    + injection Hi as <-. rewrite Hreg by done. subst s1. simpl.
      rewrite decide_True by done. unfold top. by rewrite Z.add_0_r.
    + rewrite (Hld i r Hi). change (mem s1) with (mem s). do 2 f_equal. lia.
Qed.

(** Copies through [rax] into the words at [rdi], from the word at [rsp + off],
    the address [rsp + off] or an immediate. *)
Inductive stash_src := SrcMem (off : Z) | SrcLea (off : Z) | SrcImm (v : Z).

Definition stash_load (x : stash_src) : instr :=
  match x with
  | SrcMem off => MovLoad rax rsp off
  | SrcLea off => Lea rax rsp off
  | SrcImm v => MovImm rax v
  end.

Definition stash_val (x : stash_src) (s : cpu) : Z :=
  match x with
  | SrcMem off => load 8 (mem s) (regs s rsp + off)
  | SrcLea off => regs s rsp + off
  | SrcImm v => v
  end.

Fixpoint stash_code (k : Z) (xs : list stash_src) : list instr :=
  match xs with
  | [] => []
  | x :: xs' => stash_load x :: MovStore rdi (8 * k) rax :: stash_code (k + 1) xs'
  end.

(** Every source word lies outside the destination [lo, hi). *)
Definition src_apart (lo hi : Z) (s : cpu) (x : stash_src) : Prop :=
  match x with
  | SrcMem off =>
      let a := regs s rsp + off in 0 ≤ a ∧ a + 8 ≤ u64_lim ∧ (a + 8 ≤ lo ∨ hi ≤ a)
  | _ => True
  end.

Lemma stash_val_same lo hi x s s' :
  src_apart lo hi s x → regs s' rsp = regs s rsp →
  same_outside lo hi (mem s) (mem s') → stash_val x s' = stash_val x s.
Proof.
  destruct x; simpl; intros Hx Hr Hm; rewrite ?Hr; [|done..].
  destruct Hx as (?&?&?). eapply load_outside; [exact Hm|lia..].
Qed.

Lemma exec_stash xs : ∀ k hi s,
  let lo := regs s rdi in
  let n := Z.of_nat (length xs) in
  let s' := exec_list (stash_code k xs) s in
  0 ≤ k → 0 ≤ lo → lo + 8 * (k + n) ≤ hi → hi ≤ u64_lim → Forall (src_apart lo hi s) xs →
  (∀ r, r ≠ rax → regs s' r = regs s r) ∧ same_control s s' ∧
  same_outside (lo + 8 * k) (lo + 8 * (k + n)) (mem s) (mem s') ∧
  (∀ i x, xs !! i = Some x →
     load 8 (mem s') (lo + 8 * (k + Z.of_nat i)) = wrap64 (stash_val x s)).
Proof.
  induction xs as [|x xs IH]; intros k hi s lo n s' Hk Hlo Hhi Hlim Hsrc.
  { subst s'. simpl. repeat split; done. }
  apply Forall_cons in Hsrc as [Hx Hsrc].
  subst n. rewrite length_cons, Nat2Z.inj_succ in *.
  set (s1 := exec1 (MovStore rdi (8 * k) rax) (exec1 (stash_load x) s)).
  assert (∀ r, r ≠ rax → regs s1 r = regs s r) as Hr1.
  { intros r Hr. subst s1. destruct x; simpl; by rewrite decide_False. }
  assert (mem s1 = store 8 (mem s) (lo + 8 * k) (wrap64 (stash_val x s))) as Hm1.
  { subst s1 lo. destruct x; simpl; done. }
  assert (same_outside (lo + 8 * k) (lo + 8 * k + 8) (mem s) (mem s1)) as Ho1.
  { rewrite Hm1. apply (store_same_outside 8); lia. }
  assert (same_control s s1) as Hc1 by (subst s1; destruct x; done).
  assert (regs s1 rdi = lo) as Hdi by (by apply Hr1).
  assert (regs s1 rsp = regs s rsp) as Hsp by (by apply Hr1).
  destruct (IH (k + 1) hi s1) as (Hreg & Hc & Hout & Hld); rewrite ?Hdi; try lia.
  { eapply Forall_impl; [exact Hsrc|]. intros [] H; simpl in *; by rewrite ?Hsp. }
  change s' with (exec_list (stash_code (k + 1) xs) s1). rewrite Hdi in *.
  split_and!.
  - intros r Hr. rewrite Hreg by done. by apply Hr1.
  - by etrans.
  - etrans; (eapply same_outside_mono; [eassumption|lia..]).
  - intros [|i] y Hi; simpl in Hi.
    + injection Hi as <-. erewrite load_outside; [|exact Hout|lia..].
      replace (k + Z.of_nat 0) with k by lia. rewrite Hm1, load8_store_same by lia.
      apply wrap64_id, wrap64_u64.
    + replace (k + Z.of_nat (S i)) with (k + 1 + Z.of_nat i) by lia.
      rewrite (Hld i y Hi). f_equal. eapply stash_val_same.
      * eapply Forall_lookup_1; [exact Hsrc|done].
      * done.
      * eapply same_outside_mono; [exact Ho1|lia..].
Qed.
