(* ===== verification/ContextSwitch.v ===== *)
(** * The cooperative context switch

    [task::context_switch], the bootstrap frame of [task::init_task_context]
    and the entry shim [task::task_trampoline], on the processor model of
    Machine.  A suspended side is described by [suspended]: its [Context]
    holds the stack pointer below six callee-saved words and a return address.
    The theorems show that switching away and back restores a side exactly,
    and that the first switch into a fresh task enters the trampoline with
    the stack parity the ABI requires. *)
From S2P Require Import Prelude Machine.

#[local] Open Scope Z_scope.

Module Switch.

(** ** Translation *)

(** [struct Context]: one field, at offset 0. *)
Record Context := mkContext { ctx_rsp : Z }.

Definition Context_empty : Context := mkContext 0.

Definition context_switch : list instr :=
  [Push rbp; Push rbx; Push r12; Push r13; Push r14; Push r15;
   MovStore rdi 0x00 rsp;
   MovLoad rsp rsi 0x00;
   Pop r15; Pop r14; Pop r13; Pop r12; Pop rbx; Pop rbp;
   Retq].

(** The writes [slots.add(i).write(v)], in order. *)
Fixpoint write_words (m : memory) (a : Z) (vs : list Z) : memory :=
  match vs with
  | [] => m
  | v :: vs' => write_words (store 8 m a v) (a + 8) vs'
  end.

(** [task_trampoline] is the address of the entry shim. *)
Definition init_task_context (p : profile) (task_trampoline : Z) (m : memory) (top : Z)
    : outcome (Context * memory) :=
  _ ← assert_ (top `mod` 16 =? 0) "task stack top must be 16-byte aligned";
  sp ← sub64 p top 64;
  _ ← assert_ (sp `mod` 16 =? 0)
        "bootstrap frame must start 16-aligned to resume at 8 (mod 16)";
  resumed ← add64 p sp 56;
  _ ← assert_ (resumed `mod` 16 =? 8) "resumed rsp would break the ABI parity";
  Ret (mkContext sp, write_words m sp [0; 0; 0; 0; 0; 0; task_trampoline; 0]).

(** [slot] is the address of [TRAMPOLINE_ENTRY_RSP], [body] that of
    [task_trampoline_body]. *)
Definition task_trampoline (slot body : Z) : list instr :=
  [MovStoreAbs slot rsp; Jmp body].

(** ** What a suspended side looks like in memory *)

Definition saved_regs : list reg := [rbp; rbx; r12; r13; r14; r15].

Definition suspended (m : memory) (ctx sp : Z) (g : reg → Z) (ret : Z) : Prop :=
  load 8 m ctx = sp - 48 ∧
  (∀ i r, saved_regs !! i = Some r → load 8 m (sp - 8 * (Z.of_nat i + 1)) = g r) ∧
  load 8 m sp = ret.

(** A stack frame of a suspended side and its [Context], as address ranges. *)
Definition side_ok (ctx sp : Z) : Prop :=
  0 ≤ ctx ∧ ctx + 8 ≤ u64_lim ∧ 48 ≤ sp ∧ sp + 8 < u64_lim ∧
  (ctx + 8 ≤ sp - 48 ∨ sp + 8 ≤ ctx).

(** The byte ranges [a, a+n) and [b, b+k) do not meet. *)
Definition ranges_apart (a n b k : Z) : Prop := a + n ≤ b ∨ b + k ≤ a.

(** Two sides share no byte. *)
Definition sides_apart (ctx sp ctx' sp' : Z) : Prop :=
  ranges_apart (sp - 48) 56 (sp' - 48) 56 ∧ ranges_apart (sp - 48) 56 ctx' 8 ∧
  ranges_apart ctx 8 (sp' - 48) 56 ∧ ranges_apart ctx 8 ctx' 8.

Definition word_regs (s : cpu) : Prop := ∀ r, u64 (regs s r).

(** Memory agrees on a range of bytes. *)
Definition same_on (a n : Z) (m m' : memory) : Prop :=
  ∀ x, a ≤ x < a + n → m' x = m x.

Lemma same_on_load m m' a n b :
  same_on a n m m' → a ≤ b → b + 8 ≤ a + n → 0 ≤ b → b + 8 ≤ u64_lim →
  load 8 m' b = load 8 m b.
Proof.
  intros H ? ? ? ?. apply load_ext. intros x Hx.
  rewrite wrap64_id by ulia. apply H. lia.
Qed.

Lemma suspended_frame m m' ctx sp g ret :
  side_ok ctx sp → same_on (sp - 48) 56 m m' → same_on ctx 8 m m' →
  suspended m ctx sp g ret → suspended m' ctx sp g ret.
Proof.
  intros (?&?&?&?&?) Hs Hc (Hctx & Hsaved & Hret). split_and!.
  - rewrite <- Hctx. eapply same_on_load; [exact Hc|lia..].
  - intros i r Hi. rewrite <- (Hsaved i r Hi).
    assert (i < 6)%nat by (by apply lookup_lt_Some in Hi).
    eapply same_on_load; [exact Hs|lia..].
  - rewrite <- Hret. eapply same_on_load; [exact Hs|lia..].
Qed.

(** ** One switch *)

(** The state between saving the old side and loading the new one. *)
Definition saved (s : cpu) : cpu :=
  exec1 (MovStore rdi 0x00 rsp) (exec_list (Push <$> saved_regs) s).

Lemma regs_saved s : regs (saved s) = regs (exec_list (Push <$> saved_regs) s).
Proof. unfold saved. apply regs_mov_store. Qed.

Lemma switch_split c s :
  run c None context_switch s =
    let s2 := exec1 (MovLoad rsp rsi 0x00) (saved s) in
    let s3 := exec_list (Pop <$> rev saved_regs) s2 in
    Some (set_rip (drop_word s3) (top s3)).
Proof.
  change context_switch with ((Push <$> saved_regs) ++
    MovStore rdi 0x00 rsp :: MovLoad rsp rsi 0x00 :: (Pop <$> rev saved_regs) ++ [Retq]).
  reflexivity.
Qed.

Lemma switch_saves s :
  side_ok (regs s rdi) (regs s rsp) → word_regs s → u64 (top s) →
  suspended (mem (saved s)) (regs s rdi) (regs s rsp) (regs s) (top s) ∧
  (∀ r, r ≠ rsp → regs (saved s) r = regs s r) ∧
  (∀ a n, 0 ≤ a → a + n ≤ u64_lim →
     ranges_apart a n (regs s rsp - 48) 56 → ranges_apart a n (regs s rdi) 8 →
     same_on a n (mem s) (mem (saved s))).
Proof.
  intros (H1&H2&H3&H4&H5) Hw Htop.
  destruct (exec_pushes saved_regs s) as (Hsp & Hreg & _ & Hout & Hld).
  { apply (bool_decide_unpack _). by vm_compute. }
  { simpl. ulia. }
  set (s1 := exec_list (Push <$> saved_regs) s) in *.
  simpl Z.of_nat in *.
  assert (mem (saved s) = store 8 (mem s1) (regs s rdi) (regs s rsp - 48)) as Hm.
  { unfold saved, exec1. fold s1. cbn [mem set_mem]. rewrite Hsp, (Hreg rdi) by done.
    f_equal; lia. }
  assert (same_outside (regs s rdi) (regs s rdi + 8) (mem s1) (mem (saved s))) as Ho.
  { rewrite Hm. apply (store_same_outside 8); lia. }
  split_and!.
  - unfold suspended. split_and!.
    + rewrite Hm, load8_store_same by lia. apply wrap64_id. ulia.
    + intros i r Hi. assert (i < 6)%nat by (by apply lookup_lt_Some in Hi).
      erewrite load_outside; [|exact Ho|lia..].
      rewrite (Hld i r Hi). by apply wrap64_id.
    + unfold top. erewrite load_outside; [|exact Ho|lia..].
      eapply load_outside; [exact Hout|lia..].
  - intros r Hr. rewrite regs_saved. by apply Hreg.
  - intros a n Ha Hn Hs Hc x Hx. unfold ranges_apart in *.
    rewrite Ho by lia. apply Hout. lia.
Qed.

Lemma switch_resumes c s sp g ret :
  suspended (mem (saved s)) (regs (saved s) rsi) sp g ret →
  48 ≤ sp → sp + 8 < u64_lim → (∀ r, u64 (g r)) →
  ∃ s', run c None context_switch s = Some s' ∧
    rip s' = ret ∧ regs s' rsp = sp + 8 ∧
    (∀ r, r ∈ saved_regs → regs s' r = g r) ∧ mem s' = mem (saved s).
Proof.
  intros (H1 & H2 & H3) Hsp Hlim Hg. rewrite switch_split.
  generalize dependent (saved s). intros t H1 H2 H3.
  set (s2 := exec1 (MovLoad rsp rsi 0x00) t).
  assert (regs s2 rsp = sp - 48) as Hsp2.
  { subst s2. unfold exec1. rewrite regs_set_same, Z.add_0_r, H1.
    apply wrap64_id. ulia. }
  assert (mem s2 = mem t) as Hm2 by done.
  destruct (exec_pops (rev saved_regs) s2) as (Hr & _ & _ & Hm & Hld).
  { apply (bool_decide_unpack _). by vm_compute. }
  { apply (bool_decide_unpack _). by vm_compute. }
  { lia. }
  { change (length (rev saved_regs)) with 6%nat. ulia. }
  cbn zeta. set (s3 := exec_list _ s2) in *.
  rewrite Hsp2 in *. change (length (rev saved_regs)) with 6%nat in Hr.
  replace (sp - 48 + _) with sp in Hr by lia.
  eexists; split; [reflexivity|]. unfold set_rip. cbn [rip regs mem]. unfold drop_word. split_and!.
  - unfold top. rewrite Hr, Hm, Hm2. done.
  - rewrite regs_set_same, Hr. apply wrap64_id. ulia.
  - intros r Hin. apply list_elem_of_lookup in Hin as [i Hi].
    assert (i < 6)%nat by (by apply lookup_lt_Some in Hi).
    assert (r ≠ rsp) by (intros ->; by do 6 (destruct i; [done|])).
    rewrite regs_set_other by done.
    rewrite (Hld (5 - i)%nat r).
    + rewrite Hm2. replace (sp - 48 + _) with (sp - 8 * (Z.of_nat i + 1)) by lia.
      rewrite (H2 i r Hi). by apply wrap64_id.
    + by do 6 (destruct i; [exact Hi|]).
  - exact Hm.
Qed.

(** ** The bootstrap frame *)

Lemma write_words_spec vs : ∀ m a,
  0 ≤ a → a + 8 * Z.of_nat (length vs) ≤ u64_lim →
  same_outside a (a + 8 * Z.of_nat (length vs)) m (write_words m a vs) ∧
  (∀ i v, vs !! i = Some v →
     load 8 (write_words m a vs) (a + 8 * Z.of_nat i) = wrap64 v).
Proof.
  induction vs as [|v vs IH]; intros m a Ha Hn; [done|].
  rewrite length_cons, Nat2Z.inj_succ in *. cbn [write_words].
  destruct (IH (store 8 m a v) (a + 8)) as [Ho Hl]; [lia..|].
  split.
  - etrans; [eapply same_outside_mono; [apply (store_same_outside 8)|..]
            |eapply same_outside_mono; [exact Ho|..]]; lia.
  - intros [|i] w Hi; simpl in Hi.
    + injection Hi as <-. rewrite Z.add_0_r.
      erewrite load_outside; [|exact Ho|lia..]. apply load8_store_same; lia.
    + rewrite <- (Hl i w Hi). f_equal. lia.
Qed.

Lemma init_task_context_spec p tramp m tp :
  64 ≤ tp → tp < u64_lim → tp `mod` 16 = 0 → u64 tramp →
  ∃ m', init_task_context p tramp m tp = Ret (mkContext (tp - 64), m') ∧
    same_outside (tp - 64) tp m m' ∧ load 8 m' (tp - 16) = tramp ∧
    ∀ i, (i < 6)%nat → load 8 m' (tp - 64 + 8 * Z.of_nat i) = 0.
Proof.
  intros H1 H2 H3 Ht. unfold init_task_context.
  assert ((tp - 64) `mod` 16 = 0) as E1.
  { replace (tp - 64) with (tp + (-4) * 16) by lia. by rewrite Z_mod_plus_full. }
  assert ((tp - 64 + 56) `mod` 16 = 8) as E2.
  { replace (tp - 64 + 56) with ((tp - 64) + 56) by lia.
    by rewrite <- Zplus_mod_idemp_l, E1. }
  rewrite H3, sub64_exact by ulia. cbn [assert_ Z.eqb]. rewrite !bind_Ret, E1.
  cbn [assert_ Z.eqb]. rewrite bind_Ret, add64_exact by ulia. rewrite bind_Ret, E2.
  cbn [assert_ Z.eqb Pos.eqb]. rewrite bind_Ret. eexists; split; [reflexivity|].
  destruct (write_words_spec [0; 0; 0; 0; 0; 0; tramp; 0] m (tp - 64)) as [Ho Hl];
    [lia| |].
  { simpl. lia. }
  split_and!.
  - eapply same_outside_mono; [exact Ho|lia|]. simpl. lia.
  - etrans; [|apply (wrap64_id tramp Ht)]. rewrite <- (Hl 6%nat tramp) by done.
    f_equal. lia.
  - intros i Hi. rewrite (Hl i 0); [done|].
    by do 6 (destruct i; [done|]); lia.
Qed.

(** The frame it builds is that of a side suspended just before the trampoline,
    all callee-saved registers zero. *)
Lemma bootstrap_suspended p tramp m tp ctx m' ctxa m2 :
  64 ≤ tp → tp < u64_lim → tp `mod` 16 = 0 → u64 tramp →
  init_task_context p tramp m tp = Ret (ctx, m') →
  same_on (tp - 64) 64 m' m2 → load 8 m2 ctxa = ctx_rsp ctx →
  suspended m2 ctxa (tp - 16) (λ _, 0) tramp.
Proof.
  intros H1 H2 H3 H4 Hinit Hon Hctx.
  destruct (init_task_context_spec p tramp m tp) as (m0 & E & _ & Ht & Hz); [done..|].
  rewrite E in Hinit. injection Hinit as <- <-. split_and!.
  - rewrite Hctx. simpl. lia.
  - intros i r Hi. assert (i < 6)%nat by (by apply lookup_lt_Some in Hi).
    erewrite same_on_load; [|exact Hon|lia..].
    rewrite <- (Hz (5 - i)%nat) by lia. f_equal. lia.
  - rewrite <- Ht. eapply same_on_load; [exact Hon|lia..].
Qed.

(** ** Theorems *)

(** Switching away from a side and later back to it restores that side
    exactly: execution continues at its return address with its stack pointer
    just above it and all six callee-saved registers as they were, whatever ran
    in between, provided that code left the suspended side's stack frame and
    [Context] alone. *)
Theorem switch_round_trip c s1 :
  side_ok (regs s1 rdi) (regs s1 rsp) → word_regs s1 → u64 (top s1) →
  ∀ s2,
  regs s2 rsi = regs s1 rdi →
  side_ok (regs s2 rdi) (regs s2 rsp) → word_regs s2 → u64 (top s2) →
  sides_apart (regs s1 rdi) (regs s1 rsp) (regs s2 rdi) (regs s2 rsp) →
  same_on (regs s1 rsp - 48) 56 (mem (saved s1)) (mem s2) →
  same_on (regs s1 rdi) 8 (mem (saved s1)) (mem s2) →
  ∃ s2', run c None context_switch s2 = Some s2' ∧
    rip s2' = top s1 ∧ regs s2' rsp = regs s1 rsp + 8 ∧
    (∀ r, r ∈ saved_regs → regs s2' r = regs s1 r) ∧
    suspended (mem s2') (regs s2 rdi) (regs s2 rsp) (regs s2) (top s2).
Proof.
  intros Hok Hw Ht s2 Hrsi Hok2 Hw2 Ht2 (A1 & A2 & A3 & A4) Hs Hc.
  destruct (switch_saves s1 Hok Hw Ht) as (Hsus & _ & _).
  destruct (switch_saves s2 Hok2 Hw2 Ht2) as (Hsus2 & Hr2 & Hkeep).
  destruct Hok as (?&?&?&?&?).
  destruct (switch_resumes c s2 (regs s1 rsp) (regs s1) (top s1)) as (s' & E & ?&?&?& Hm).
  - rewrite Hr2, Hrsi by done.
    eapply suspended_frame; [done| | |eapply suspended_frame; [done|done|done|exact Hsus]].
    + apply Hkeep; [lia..|done|done].
    + apply Hkeep; [lia..|done|done].
  - done.
  - done.
  - exact Hw.
  - exists s'. rewrite Hm. done.
Qed.

(** C27.  The first switch into a fresh task: it lands in [task_trampoline] on the
    task's own stack with the six callee-saved registers zero, and the shim
    records an entry stack pointer that is 8 modulo 16 and jumps to the
    trampoline body. *)
Theorem first_switch_enters_trampoline p c tramp slot body m tp ctx m' s :
  64 ≤ tp → tp < u64_lim → tp `mod` 16 = 0 → u64 tramp →
  init_task_context p tramp m tp = Ret (ctx, m') →
  side_ok (regs s rdi) (regs s rsp) → word_regs s → u64 (top s) →
  same_on (tp - 64) 64 m' (mem s) → load 8 (mem s) (regs s rsi) = ctx_rsp ctx →
  ranges_apart (tp - 64) 64 (regs s rsp - 48) 56 →
  ranges_apart (tp - 64) 64 (regs s rdi) 8 →
  regs s rsi + 8 ≤ u64_lim →
  ranges_apart (regs s rsi) 8 (regs s rsp - 48) 56 →
  ranges_apart (regs s rsi) 8 (regs s rdi) 8 →
  0 ≤ slot → slot + 8 ≤ u64_lim →
  ∃ s' s'',
    run c None context_switch s = Some s' ∧ rip s' = tramp ∧ regs s' rsp = tp - 8 ∧
    (∀ r, r ∈ saved_regs → regs s' r = 0) ∧
    run c None (task_trampoline slot body) s' = Some s'' ∧
    rip s'' = body ∧ regs s'' rsp = tp - 8 ∧
    load 8 (mem s'') slot = tp - 8 ∧ (tp - 8) `mod` 16 = 8.
Proof.
  intros H1 H2 H3 H4 Hinit Hok Hw Ht Hon Hctx A1 A2 Hsi A3 A4 Hsl Hsl'.
  destruct (switch_saves s Hok Hw Ht) as (_ & Hr & Hkeep).
  pose proof (Hw rsi) as [? ?].
  destruct (switch_resumes c s (tp - 16) (λ _, 0) tramp) as (s' & E & Hrip & Hsp & Hz & _).
  - rewrite Hr by done. eapply bootstrap_suspended; [done..|eapply Hinit| |].
    + intros x Hx. rewrite (Hkeep (tp - 64) 64) by (lia || done). by apply Hon.
    + rewrite <- Hctx. eapply same_on_load; [apply (Hkeep (regs s rsi) 8); [lia|lia|done..]|lia..].
  - lia.
  - lia.
  - intros _. ulia.
  - replace (tp - 16 + 8) with (tp - 8) in Hsp by lia.
    exists s'. eexists. split_and!; try done.
    + simpl. unfold set_mem. cbn [mem]. rewrite load8_store_same by lia.
      rewrite Hsp. apply wrap64_id. ulia.
    + replace (tp - 8) with (8 + tp + (-1) * 16) by lia.
      rewrite Z_mod_plus_full. by rewrite <- Zplus_mod_idemp_r, H3.
Qed.

(** ** Witnesses *)

Definition demo_regs (sp di si base : Z) (r : reg) : Z :=
  match r with
  | rsp => sp | rdi => di | rsi => si
  | rbp => base + 1 | rbx => base + 2 | r12 => base + 3 | r13 => base + 4
  | r14 => base + 5 | r15 => base + 6
  | _ => 0
  end.

(** The driver about to switch to a task, and the task about to switch back. *)
Definition demo_driver : cpu :=
  mkCpu (demo_regs 0x1000 0x5000 0x6000 100) 0x400 8 16 0x202
    (store 8 (λ _, 0) 0x1000 0x401).
Definition demo_task : cpu :=
  mkCpu (demo_regs 0x2000 0x6000 0x5000 200) 0x700 8 16 0x202 (mem (saved demo_driver)).

(** Decide a concrete side condition. *)
Ltac demo_side :=
  match goal with
  | |- same_on _ _ _ _ => idtac
  | |- word_regs _ => intros []; by vm_compute
  | |- side_ok _ _ => unfold side_ok; vm_compute; intuition congruence
  | |- sides_apart _ _ _ _ =>
      unfold sides_apart, ranges_apart; vm_compute; intuition congruence
  | |- ranges_apart _ _ _ _ => unfold ranges_apart; vm_compute; intuition congruence
  | |- ex _ => idtac
  | |- _ => by vm_compute
  end.

Lemma switch_round_trip_witness :
  ∃ s2', run FiveWords None context_switch demo_task = Some s2' ∧
    rip s2' = top demo_driver ∧ regs s2' rsp = regs demo_driver rsp + 8.
Proof.
  destruct (switch_round_trip FiveWords demo_driver) with (s2 := demo_task)
    as (s2' & ? & ? & ? & _).
  all: demo_side.
  1-2: unfold demo_task; rewrite mem_mkCpu; by intros.
  exists s2'. split_and!; assumption.
Defined.

(** A fresh task with its stack top at 0x3000 and its [Context] at 0x6000. *)
Definition demo_spawned : memory :=
  match init_task_context Dev 0x9000 (λ _, 0) 0x3000 with
  | Ret (_, m) => m
  | Panic _ => λ _, 0
  end.
Definition demo_first : cpu :=
  mkCpu (demo_regs 0x1000 0x5000 0x6000 100) 0x400 8 16 0x202
    (store 8 (store 8 demo_spawned 0x6000 (0x3000 - 64)) 0x1000 0x401).

Lemma first_switch_enters_trampoline_witness :
  ∃ s' s'', run FiveWords None context_switch demo_first = Some s' ∧
    run FiveWords None (task_trampoline 0x7000 0xA000) s' = Some s'' ∧
    rip s'' = 0xA000 ∧ load 8 (mem s'') 0x7000 = 0x3000 - 8.
Proof.
  destruct (first_switch_enters_trampoline Dev FiveWords 0x9000 0x7000 0xA000
      (λ _, 0) 0x3000 (mkContext (0x3000 - 64)) demo_spawned demo_first)
    as (s' & s'' & ? & ? & ? & ? & ? & ? & ? & ? & ?).
  all: demo_side.
  { intros x Hx. unfold demo_first. rewrite mem_mkCpu.
    rewrite (store_same_outside 8 _ 0x1000); [|done..|lia].
    apply (store_same_outside 8); [done..|lia]. }
  exists s', s''. split_and!; assumption.
Defined.

End Switch.
