(* ===== verification/Coroutine.v ===== *)
(** * The context switch as a coroutine machine

    [context_switch] is meant to make stacks into coroutines: a side that
    switches away stays parked until someone switches to it, and then goes on
    as if the call had returned.  Here that is the abstract machine whose state
    is the [Context] in use and the map of parked frames; the steps are those of
    the kernel ([co_step]: ordinary code, the spawn of [init_task_context], the
    switch itself, the drop of a finished task), and the theorem is that the
    concrete memory implements the abstract map after any sequence of them. *)
From stdpp Require Import gmap.
From S2P Require Import Prelude Machine ContextSwitch.

#[local] Open Scope Z_scope.

Module Coroutine.
Import Switch.

(** ** Abstract state *)

(** A parked side: stack pointer at the return address, registers to restore. *)
Record Frame := mkFrame { f_sp : Z; f_ret : Z; f_regs : reg → Z }.

(** The stack of a side. *)
Record Home := mkHome { lo : Z; hi : Z }.

Definition in_home (h : Home) (sp : Z) : Prop := lo h + 48 ≤ sp ∧ sp + 8 ≤ hi h.

(** Sides are named by the address of their [Context]. *)
Record Co := mkCo {
  co_cur : Z;
  co_parked : gmap Z Frame;
  co_homes : gmap Z Home;
  co_cpu : cpu
}.

(** Stacks and [Context]s are in the address space and pairwise disjoint. *)
Record homes_ok (hs : gmap Z Home) : Prop := {
  ho_range : ∀ c h, hs !! c = Some h →
    0 ≤ c ∧ c + 8 ≤ u64_lim ∧ 0 ≤ lo h ∧ lo h ≤ hi h ∧ hi h < u64_lim;
  ho_word : ∀ c h c' h', hs !! c = Some h → hs !! c' = Some h' →
    ranges_apart c 8 (lo h') (hi h' - lo h');
  ho_sep : ∀ c h c' h', c ≠ c' → hs !! c = Some h → hs !! c' = Some h' →
    ranges_apart (lo h) (hi h - lo h) (lo h') (hi h' - lo h') ∧ ranges_apart c 8 c' 8
}.

(** The frame [context_switch] leaves of the side it is called on. *)
Definition frame_of (s : cpu) : Frame := mkFrame (regs s rsp) (top s) (regs s).

(** The frame [init_task_context] plants for a stack with top [tp]. *)
Definition boot_frame (tramp tp : Z) : Frame := mkFrame (tp - 16) tramp (λ _, 0).

(** What the caller of [context_switch] sees when [f] is resumed. *)
Definition resumed (f : Frame) (s : cpu) : Prop :=
  rip s = f_ret f ∧ regs s rsp = f_sp f + 8 ∧ ∀ r, r ∈ saved_regs → regs s r = f_regs f r.

(** A side about to call [context_switch(cur, j)]: arguments in [rdi] and [rsi],
    a return address on its own stack with room for six words below. *)
Definition calling (st : Co) (j : Z) : Prop :=
  regs (co_cpu st) rdi = co_cur st ∧ regs (co_cpu st) rsi = j ∧ u64 (top (co_cpu st)) ∧
  ∃ h, co_homes st !! co_cur st = Some h ∧ in_home h (regs (co_cpu st) rsp).

Definition switched (st : Co) (j : Z) (s' : cpu) : Co :=
  mkCo j (<[co_cur st := frame_of (co_cpu st)]> (delete j (co_parked st))) (co_homes st) s'.

Section steps.
Context (p : profile) (conv : irq_convention) (tramp : Z).

Inductive co_step : Co → Co → Prop :=
| co_work st s' :
    (** Any code that leaves parked frames and [Context]s alone. *)
    word_regs s' →
    (∀ c f, co_parked st !! c = Some f →
       same_on (f_sp f - 48) 56 (mem (co_cpu st)) (mem s') ∧
       same_on c 8 (mem (co_cpu st)) (mem s')) →
    co_step st (mkCo (co_cur st) (co_parked st) (co_homes st) s')
| co_spawn st c h ctx m' :
    co_homes st !! c = None → homes_ok (<[c := h]> (co_homes st)) →
    lo h + 64 ≤ hi h → hi h `mod` 16 = 0 →
    init_task_context p tramp (mem (co_cpu st)) (hi h) = Ret (ctx, m') →
    co_step st (mkCo (co_cur st) (<[c := boot_frame tramp (hi h)]> (co_parked st))
                  (<[c := h]> (co_homes st))
                  (set_mem (co_cpu st) (store 8 m' c (ctx_rsp ctx))))
| co_switch st j s' :
    calling st j → is_Some (co_parked st !! j) →
    run conv None context_switch (co_cpu st) = Some s' →
    co_step st (switched st j s')
| co_drop st c :
    c ≠ co_cur st →
    co_step st (mkCo (co_cur st) (delete c (co_parked st)) (delete c (co_homes st)) (co_cpu st)).

(** One side, nobody parked. *)
Definition co_init (st : Co) : Prop :=
  word_regs (co_cpu st) ∧ homes_ok (co_homes st) ∧ is_Some (co_homes st !! co_cur st) ∧
  co_parked st = ∅.

(** ** The simulation relation *)

Record parked_ok (st : Co) (c : Z) (f : Frame) : Prop := {
  pk_home : ∃ h, co_homes st !! c = Some h ∧ in_home h (f_sp f);
  pk_mem : suspended (mem (co_cpu st)) c (f_sp f) (f_regs f) (f_ret f);
  pk_regs : ∀ r, u64 (f_regs f r)
}.

Record co_inv (st : Co) : Prop := {
  ci_regs : word_regs (co_cpu st);
  ci_homes : homes_ok (co_homes st);
  ci_cur : is_Some (co_homes st !! co_cur st);
  ci_out : co_parked st !! co_cur st = None;
  ci_parked : ∀ c f, co_parked st !! c = Some f → parked_ok st c f
}.

Lemma home_side hs c h sp : homes_ok hs → hs !! c = Some h → in_home h sp → side_ok c sp.
Proof.
  intros Ho Hc [H1 H2]. destruct (ho_range _ Ho c h Hc) as (? & ? & ? & ? & ?).
  pose proof (ho_word _ Ho c h c h Hc Hc). unfold side_ok, ranges_apart in *. lia.
Qed.

Lemma homes_apart hs c h sp c' h' sp' :
  homes_ok hs → c ≠ c' → hs !! c = Some h → hs !! c' = Some h' →
  in_home h sp → in_home h' sp' → sides_apart c sp c' sp'.
Proof.
  intros Ho Hne Hc Hc' [H1 H2] [H3 H4]. destruct (ho_sep _ Ho c h c' h' Hne Hc Hc').
  pose proof (ho_word _ Ho c h c' h' Hc Hc'). pose proof (ho_word _ Ho c' h' c h Hc' Hc).
  unfold sides_apart, ranges_apart in *. lia.
Qed.

Lemma homes_ok_delete c hs : homes_ok hs → homes_ok (delete c hs).
Proof.
  intros [H1 H2 H3]. constructor.
  - intros d h Hd. apply lookup_delete_Some in Hd as [_ Hd]. by apply H1.
  - intros d h d' h' Hd Hd'. apply lookup_delete_Some in Hd as [_ Hd], Hd' as [_ Hd'].
    by apply (H2 d h d' h').
  - intros d h d' h' Hne Hd Hd'. apply lookup_delete_Some in Hd as [_ Hd], Hd' as [_ Hd'].
    by apply (H3 d h d' h').
Qed.

(** A parked side survives a change of memory elsewhere. *)
Lemma parked_frame st st' c f :
  homes_ok (co_homes st) → parked_ok st c f → co_homes st' !! c = co_homes st !! c →
  same_on (f_sp f - 48) 56 (mem (co_cpu st)) (mem (co_cpu st')) →
  same_on c 8 (mem (co_cpu st)) (mem (co_cpu st')) → parked_ok st' c f.
Proof.
  intros Ho [(h & Hh & Hin) Hm Hr] Heq H1 H2. constructor; [|by eapply suspended_frame; [eapply home_side|..]|done].
  exists h. by rewrite Heq.
Qed.

(** ** Registers stay words *)

Lemma set_reg_words s r v : word_regs s → word_regs (set_reg s r v).
Proof. intros H x. cbn. case_decide; [apply wrap64_u64|apply H]. Qed.

Lemma exec1_words i s : word_regs s → word_regs (exec1 i s).
Proof.
  intros H. destruct i; try exact H; cbn [exec1 push drop_word]; try apply set_reg_words; try exact H.
  by apply set_reg_words.
Qed.

Lemma exec_list_words code s : word_regs s → word_regs (exec_list code s).
Proof.
  revert s. induction code as [|i code IH]; intros s H; [done|].
  apply IH. by apply exec1_words.
Qed.

Lemma switch_words s s' :
  run conv None context_switch s = Some s' → word_regs s → word_regs s'.
Proof.
  intros E H. rewrite switch_split in E. cbn zeta in E.
  assert (word_regs (exec_list (Pop <$> rev saved_regs) (exec1 (MovLoad rsp rsi 0x00) (saved s)))) as H3
    by (apply exec_list_words, exec1_words; unfold saved; by apply exec1_words, exec_list_words).
  revert E H3. generalize (exec_list (Pop <$> rev saved_regs) (exec1 (MovLoad rsp rsi 0x00) (saved s))).
  intros s3 [= <-] H3. exact (set_reg_words s3 rsp _ H3).
Qed.

(** ** Preservation *)

(** The switch itself: it returns into [f], and everyone else stays parked. *)
Lemma switch_sim st j f :
  co_inv st → calling st j → co_parked st !! j = Some f →
  ∃ s', run conv None context_switch (co_cpu st) = Some s' ∧ resumed f s' ∧
    co_inv (switched st j s').
Proof.
  intros [Hw Ho Hcur Hout Hpk] (Hdi & Hsi & Htop & h & Hh & Hin) Hj.
  assert (j ≠ co_cur st) as Hne by congruence.
  pose proof (home_side _ _ _ _ Ho Hh Hin) as Hside. rewrite <- Hdi in Hside at 1.
  destruct (switch_saves (co_cpu st) Hside Hw Htop) as (Hsus & Hregs & Hkeep).
  assert (∀ c g, co_parked st !! c = Some g → c ≠ co_cur st →
    same_on (f_sp g - 48) 56 (mem (co_cpu st)) (mem (saved (co_cpu st))) ∧
    same_on c 8 (mem (co_cpu st)) (mem (saved (co_cpu st)))) as Hsame.
  { intros c g Hc Hcne. destruct (Hpk c g Hc) as [(hc & Hhc & Hinc) _ _].
    pose proof (home_side _ _ _ _ Ho Hhc Hinc) as (? & ? & ? & ? & _).
    destruct (homes_apart _ _ _ _ _ _ _ Ho Hcne Hhc Hh Hinc Hin) as (A1 & A2 & A3 & A4).
    rewrite <- Hdi in A2, A4. split; apply Hkeep; done || lia. }
  destruct (Hpk j f Hj) as [(hj & Hhj & Hinj) Hmj Hrj].
  pose proof (home_side _ _ _ _ Ho Hhj Hinj) as Hsj. pose proof Hsj as (_ & _ & ? & ? & _).
  destruct (Hsame j f Hj Hne) as [Hs1 Hs2].
  destruct (switch_resumes conv (co_cpu st) (f_sp f) (f_regs f) (f_ret f))
    as (s' & E & Hrip & Hrsp & Hcs & Hm'); [|done..|].
  { rewrite Hregs, Hsi by done. by eapply suspended_frame. }
  exists s'. split; [done|]. split; [by split_and!|]. constructor; cbn [switched co_cpu co_homes co_cur co_parked].
  - by eapply switch_words.
  - done.
  - by eexists.
  - rewrite lookup_insert_ne by done. apply lookup_delete_eq.
  - intros c g Hc. apply lookup_insert_Some in Hc as [[<- <-]|[Hcne Hc]].
    + constructor; [by exists h| |exact Hw]. cbn. rewrite Hm'. by rewrite <- Hdi.
    + apply lookup_delete_Some in Hc as [_ Hc].
      destruct (Hsame c g Hc (not_eq_sym Hcne)).
      eapply (parked_frame st); [done|by apply Hpk|done|cbn [switched co_cpu]; by rewrite Hm'..].
Qed.

Lemma spawn_sim st c h ctx m' :
  u64 tramp → co_inv st → co_homes st !! c = None → homes_ok (<[c := h]> (co_homes st)) →
  lo h + 64 ≤ hi h → hi h `mod` 16 = 0 →
  init_task_context p tramp (mem (co_cpu st)) (hi h) = Ret (ctx, m') →
  co_inv (mkCo (co_cur st) (<[c := boot_frame tramp (hi h)]> (co_parked st))
            (<[c := h]> (co_homes st)) (set_mem (co_cpu st) (store 8 m' c (ctx_rsp ctx)))).
Proof.
  intros Hu [Hw Ho [hc Hcur] Hout Hpk] Hnew Ho' Hroom Hal E.
  assert (<[c := h]> (co_homes st) !! c = Some h) as Hc by apply lookup_insert_eq.
  destruct (ho_range _ Ho' c h Hc) as (R1 & R2 & R3 & R4 & R5).
  pose proof (ho_word _ Ho' c h c h Hc Hc) as Hself. unfold ranges_apart in Hself.
  destruct (init_task_context_spec p tramp (mem (co_cpu st)) (hi h)) as (m0 & E0 & Hm0 & _);
    [lia|lia|done|done|]. rewrite E0 in E. injection E as <- <-. cbn [ctx_rsp].
  pose proof (store_same_outside 8 m0 c (hi h - 64) R1 R2) as Hst. change (Z.of_nat 8) with 8 in Hst.
  assert (c ≠ co_cur st) as Hne by congruence.
  constructor; cbn [co_cpu co_homes co_cur co_parked].
  - exact Hw.
  - done.
  - rewrite lookup_insert_ne by done. by exists hc.
  - by rewrite lookup_insert_ne.
  - intros d f Hd. apply lookup_insert_Some in Hd as [[<- <-]|[Hdne Hd]].
    + constructor; [exists h; split; [done|]; unfold in_home; cbn; lia| |intros r; cbn; ulia].
      cbn [boot_frame f_sp f_regs f_ret co_cpu set_mem mem].
      eapply bootstrap_suspended; [|exact R5|exact Hal|exact Hu|exact E0| |].
      * lia.
      * intros x Hx. apply Hst. lia.
      * cbn [ctx_rsp]. rewrite load8_store_same by lia. apply wrap64_id. ulia.
    + destruct (Hpk d f Hd) as [(hd & Hhd & Hind) _ _].
      assert (<[c := h]> (co_homes st) !! d = Some hd) as Hhd' by (by rewrite lookup_insert_ne).
      destruct (ho_sep _ Ho' c h d hd Hdne Hc Hhd') as [S1 S2].
      pose proof (ho_word _ Ho' c h d hd Hc Hhd'). pose proof (ho_word _ Ho' d hd c h Hhd' Hc).
      unfold in_home, ranges_apart in *.
      eapply (parked_frame st); [done|by apply Hpk|by apply lookup_insert_ne|..];
        intros x Hx; cbn [set_mem mem co_cpu]; (rewrite Hst by lia); apply Hm0; lia.
Qed.

Lemma co_step_inv st st' : u64 tramp → co_step st st' → co_inv st → co_inv st'.
Proof.
  intros Hu Hstep Hinv.
  destruct Hstep as [st s' Hw Hsame|st c h ctx m' Hnew Ho Hroom Hal E|st j s' Hcall [f Hj] E|st c Hne].
  - destruct Hinv as [_ Ho Hcur Hout Hpk]. constructor; try done.
    intros c f Hc. destruct (Hsame c f Hc). eapply (parked_frame st); try done. by apply Hpk.
  - by apply spawn_sim.
  - destruct (switch_sim st j f Hinv Hcall Hj) as (s1 & E1 & _ & H1).
    rewrite E in E1. by injection E1 as <-.
  - destruct Hinv as [Hw Ho Hcur Hout Hpk].
    constructor; cbn [co_cpu co_homes co_cur co_parked]; [done|by apply homes_ok_delete| | |].
    + by rewrite lookup_delete_ne.
    + by rewrite lookup_delete_ne.
    + intros d f Hd. apply lookup_delete_Some in Hd as [Hdne Hd].
      destruct (Hpk d f Hd) as [(h & Hh & Hin) Hm Hr]. constructor; [|done|done].
      exists h. cbn. by rewrite lookup_delete_ne.
Qed.

Lemma co_reach_inv st0 st : u64 tramp → co_init st0 → rtc co_step st0 st → co_inv st.
Proof.
  intros Hu (Hw & Ho & Hcur & Hp) H. assert (co_inv st0) as H0.
  { constructor; try done; rewrite Hp; [apply lookup_empty|]. intros c f Hc. done. }
  clear Hw Ho Hcur Hp. induction H as [|st1 st2 st3 Hs _ IH]; [done|].
  apply IH. by eapply co_step_inv.
Qed.

(** C4.  The context switch implements coroutines: after any sequence of ordinary
    code, spawns, switches and drops, a call [context_switch(cur, j)] to any
    parked side [j] terminates and continues exactly where [j] was parked (its
    return address, its stack pointer above it, its six callee-saved registers;
    for a spawned side the trampoline and zeros), while the caller becomes a
    parked side that a later switch can resume in the same way. *)
Theorem coroutines_resume st0 st j f :
  u64 tramp → co_init st0 → rtc co_step st0 st →
  co_parked st !! j = Some f → calling st j →
  ∃ s', run conv None context_switch (co_cpu st) = Some s' ∧ resumed f s' ∧
    rtc co_step st0 (switched st j s') ∧
    co_parked (switched st j s') !! co_cur st = Some (frame_of (co_cpu st)).
Proof.
  intros Hu Hi Hr Hj Hcall. pose proof (co_reach_inv st0 st Hu Hi Hr) as Hinv.
  destruct (switch_sim st j f Hinv Hcall Hj) as (s' & E & Hres & _).
  exists s'. split_and!; [done|apply Hres..| |apply lookup_insert_eq].
  eapply rtc_r; [exact Hr|]. apply co_switch; [done|by eexists|done].
Qed.

End steps.

(** ** Witness: the scheduler spawns a task and switches to it *)

Definition boot_home : Home := mkHome 0x800 0x1800.
Definition task_home : Home := mkHome 0x2000 0x3000.

Definition boot_homes : gmap Z Home := {[ 0x5000 := boot_home ]}.
Definition both_homes : gmap Z Home := <[0x6000 := task_home]> boot_homes.

Definition boot_side : cpu :=
  mkCpu (demo_regs 0x1000 0x5000 0x6000 100) 0x400 8 16 0x202 (store 8 (λ _, 0) 0x1000 0x401).
Definition boot_co : Co := mkCo 0x5000 ∅ boot_homes boot_side.

Definition task_mem : memory :=
  match init_task_context Dev 0x9000 (mem boot_side) 0x3000 with Ret (_, m) => m | Panic _ => λ _, 0 end.
Definition spawned_co : Co :=
  mkCo 0x5000 (<[0x6000 := boot_frame 0x9000 0x3000]> ∅) both_homes
    (set_mem boot_side (store 8 task_mem 0x6000 (0x3000 - 64))).

Lemma two_homes : homes_ok both_homes.
Proof.
  assert (∀ c h, both_homes !! c = Some h →
    c = 0x6000 ∧ h = task_home ∨ c = 0x5000 ∧ h = boot_home) as H.
  { unfold both_homes, boot_homes. intros c h [[<- <-]|[_ Hc]]%lookup_insert_Some; [by left|].
    apply lookup_singleton_Some in Hc as [<- <-]. by right. }
  constructor.
  - intros c h [[-> ->]|[-> ->]]%H; cbn; unfold u64_lim; lia.
  - intros c h c' h' [[-> ->]|[-> ->]]%H [[-> ->]|[-> ->]]%H; unfold ranges_apart; cbn; lia.
  - intros c h c' h' Hne [[-> ->]|[-> ->]]%H [[-> ->]|[-> ->]]%H; try done;
      unfold ranges_apart; cbn; lia.
Qed.

Lemma boot_homes_ok : homes_ok boot_homes.
Proof.
  rewrite <- (delete_insert_id boot_homes 0x6000 task_home) by done.
  apply homes_ok_delete, two_homes.
Qed.

Lemma boot_words : word_regs boot_side.
Proof. intros []; by vm_compute. Qed.

Lemma coroutines_resume_witness :
  ∃ s', run FiveWords None context_switch (co_cpu spawned_co) = Some s' ∧
    resumed (boot_frame 0x9000 0x3000) s'.
Proof.
  destruct (coroutines_resume Dev FiveWords 0x9000 boot_co spawned_co 0x6000 (boot_frame 0x9000 0x3000))
    as (s' & E & Hres & _).
  - by vm_compute.
  - split; [exact boot_words|]. split; [exact boot_homes_ok|]. split; [|reflexivity].
    exists boot_home. reflexivity.
  - apply rtc_once.
    apply (co_spawn Dev FiveWords 0x9000 boot_co 0x6000 task_home (mkContext (0x3000 - 64)) task_mem).
    + reflexivity.
    + exact two_homes.
    + cbn. lia.
    + reflexivity.
    + reflexivity.
  - reflexivity.
  - split; [reflexivity|]. split; [reflexivity|]. split; [by vm_compute|].
    exists boot_home. split; [reflexivity|]. split; by vm_compute.
  - exists s'. split; [exact E|exact Hres].
Defined.

End Coroutine.
