(* ===== verification/Preempt.v ===== *)
(** * The preemption table and the timer stub

    [preempt.rs]: the frame template, the static slot table the driver fills,
    and the naked LAPIC stub that stashes an interrupted task's frame in it.
    The static variables are the record [Statics]; the Rust functions are state
    transformers on it.  The stub is translated instruction by instruction and
    proved, on the processor model of Machine, to refine the one-line effect
    [stub_effect] on [Statics] while resuming the interrupted code exactly. *)
From S2P Require Import Prelude Machine.

#[local] Open Scope Z_scope.

Module Preempt.

(** ** Frames *)

Definition PREEMPT_MAGIC : Z := 0x505245454D505434.

Definition MAX_TASKS : nat := 7.
Definition SPILL_WORDS : Z := 15.
Definition HW_WORDS : Z := 3.
Definition DOWN_WORDS : Z := 2.

Record FullFrame := mkFrame {
  f_r15 : Z; f_r14 : Z; f_r13 : Z; f_r12 : Z; f_r11 : Z; f_r10 : Z; f_r9 : Z; f_r8 : Z;
  f_rdi : Z; f_rsi : Z; f_rbp : Z; f_rbx : Z; f_rdx : Z; f_rcx : Z; f_rax : Z;
  f_rsp : Z;
  f_rip : Z; f_cs : Z; f_rflags : Z;
  f_magic : Z
}.

#[export] Instance FullFrame_eq_dec : EqDecision FullFrame.
Proof. solve_decision. Defined.

(** [size_of::<FullFrame>()]: [repr(C)], twenty [u64] fields. *)
Definition FRAME_STRIDE : Z := 20 * 8.

(** The layout lock, a compile-time assertion: spilled registers, the stack pointer
    and magic, and the three hardware words fill a frame exactly. *)
Definition frame_layout : bool := FRAME_STRIDE =? (SPILL_WORDS + DOWN_WORDS + HW_WORDS) * 8.

Definition ZERO : FullFrame :=
  mkFrame 0 0 0 0 0 0 0 0 0 0 0 0 0 0 0 0 0 0 0 0.

Definition fresh (p : profile) (entry cs stack_top : Z) : outcome FullFrame :=
  _ ← assert_ (stack_top `mod` 16 =? 0)
        "fresh preempt frame needs a 16-aligned stack top";
  sp ← sub64 p stack_top 8;
  Ret (mkFrame 0 0 0 0 0 0 0 0 0 0 0 0 0 0 0 sp entry cs 0x202 PREEMPT_MAGIC).

Definition valid_for (f : FullFrame) (bottom top : Z) : bool :=
  if negb (f_magic f =? PREEMPT_MAGIC) then false
  else if (f_rsp f <? bottom) || (top <? f_rsp f) then false
  else
    let sign := Z.land (Z.shiftr (f_rsp f) 47) 1 in
    if (sign =? 0) && negb (Z.shiftr (f_rsp f) 48 =? 0) then false
    else if (sign =? 1) && negb (Z.shiftr (f_rsp f) 48 =? 0xFFFF) then false
    else true.

(** ** The static variables *)

Record Statics := mkStatics {
  PREEMPTIBLE : Z;                  (* AtomicU8 *)
  TASK_FRAMES : list FullFrame;     (* MAX_TASKS of them *)
  SLOT_BOUNDS : list (Z * Z);
  PREEMPT_SWITCHES : Z;
  CURRENT_IDX : Z;                  (* AtomicU8 *)
  SLOT_USED : Z;                    (* AtomicU8 *)
  EOI_BASE : Z;
  APIC_TICKS : Z                    (* idt::APIC_TICKS *)
}.

Definition statics_init : Statics :=
  mkStatics 0 (replicate MAX_TASKS ZERO) (replicate MAX_TASKS (0, 0)) 0
    (Z.of_nat MAX_TASKS) 0 0 0.

Definition with_frames (st : Statics) (fs : list FullFrame) (used : Z) : Statics :=
  mkStatics (PREEMPTIBLE st) fs (SLOT_BOUNDS st) (PREEMPT_SWITCHES st)
    (CURRENT_IDX st) used (EOI_BASE st) (APIC_TICKS st).

Definition set_preemptible (on : bool) (st : Statics) : Statics :=
  mkStatics (if on then 1 else 0) (TASK_FRAMES st) (SLOT_BOUNDS st)
    (PREEMPT_SWITCHES st) (CURRENT_IDX st) (SLOT_USED st) (EOI_BASE st) (APIC_TICKS st).

(** [SLOT_USED & (1 << idx) != 0] *)
Definition slot_bit (st : Statics) (idx : nat) : bool :=
  negb (Z.land (SLOT_USED st) (Z.shiftl 1 (Z.of_nat idx)) =? 0).

(** The frame store into the table, and the two atomic updates of the bitmap:
    the stores of [register_task] and [unregister_task], one definition each,
    since a timer interrupt can land between them. *)
Definition put_frame (idx : nat) (frame : FullFrame) (st : Statics) : Statics :=
  with_frames st (<[idx := frame]> (TASK_FRAMES st)) (SLOT_USED st).

Definition mark_used (idx : nat) (st : Statics) : Statics :=
  with_frames st (TASK_FRAMES st) (Z.lor (SLOT_USED st) (Z.shiftl 1 (Z.of_nat idx))).

Definition mark_free (idx : nat) (st : Statics) : Statics :=
  with_frames st (TASK_FRAMES st) (Z.land (SLOT_USED st) (255 - Z.shiftl 1 (Z.of_nat idx))).

Definition register_checks (idx : nat) (st : Statics) : outcome unit :=
  _ ← assert_ (idx <? MAX_TASKS)%nat "preempt: task slot overflow";
  assert_ (negb (slot_bit st idx))
    "preempt: slot registered twice - slot accounting is broken".

Definition register_task (idx : nat) (frame : FullFrame) (st : Statics)
    : outcome Statics :=
  _ ← register_checks idx st;
  Ret (mark_used idx (put_frame idx frame st)).

Definition set_slot_bounds (idx : nat) (bottom top : Z) (st : Statics)
    : outcome Statics :=
  _ ← assert_ (idx <? MAX_TASKS)%nat "preempt: bounds slot overflow";
  _ ← assert_ (bottom <? top) "preempt: empty stack window for slot";
  Ret (mkStatics (PREEMPTIBLE st) (TASK_FRAMES st)
         (<[idx := (bottom, top)]> (SLOT_BOUNDS st)) (PREEMPT_SWITCHES st)
         (CURRENT_IDX st) (SLOT_USED st) (EOI_BASE st) (APIC_TICKS st)).

Definition slot_bounds (idx : nat) (st : Statics) : option (Z * Z) :=
  if (MAX_TASKS <=? idx)%nat then None
  else
    match SLOT_BOUNDS st !! idx with
    | Some b => if negb (b.1 =? 0) then Some b else None
    | None => None
    end.

Definition snapshot (idx : nat) (st : Statics) : outcome FullFrame :=
  _ ← assert_ (idx <? MAX_TASKS)%nat "preempt: snapshot slot out of range";
  expect (TASK_FRAMES st !! idx) "preempt: snapshot slot out of range".

Definition frame_ok (idx : nat) (st : Statics) : outcome bool :=
  match slot_bounds idx st with
  | Some (bottom, top) =>
      f ← snapshot idx st;
      Ret (valid_for f bottom top)
  | None => Ret false
  end.

Definition release_checks (idx : nat) (st : Statics) : outcome unit :=
  _ ← assert_ (idx <? MAX_TASKS)%nat "preempt: task slot overflow on release";
  assert_ (slot_bit st idx) "preempt: releasing slot that was never registered".

Definition unregister_task (idx : nat) (st : Statics) : outcome Statics :=
  _ ← release_checks idx st;
  Ret (mark_free idx (put_frame idx ZERO st)).

(** [CURRENT_IDX.store(idx as u8)] *)
Definition set_current (idx : Z) (st : Statics) : Statics :=
  mkStatics (PREEMPTIBLE st) (TASK_FRAMES st) (SLOT_BOUNDS st)
    (PREEMPT_SWITCHES st) (idx `mod` 256) (SLOT_USED st) (EOI_BASE st) (APIC_TICKS st).

Definition current_idx (st : Statics) : Z := CURRENT_IDX st.

Definition set_eoi_base (addr : Z) (st : Statics) : Statics :=
  mkStatics (PREEMPTIBLE st) (TASK_FRAMES st) (SLOT_BOUNDS st)
    (PREEMPT_SWITCHES st) (CURRENT_IDX st) (SLOT_USED st) addr (APIC_TICKS st).

(** ** The stub *)

(** The addresses the linker gives the [sym] operands. *)
Record Layout := mkLayout {
  fence : Z; cur_idx : Z; slot_used : Z; frames : Z; eoi_base : Z;
  apic_ticks : Z; switches : Z
}.

Definition lapic_preempt_stub (L : Layout) : list instr :=
  [Push r15; Push r14; Push r13; Push r12;
   Push r11; Push r10; Push r9; Push r8;
   Push rdi; Push rsi; Push rbp; Push rbx;
   Push rdx; Push rcx; Push rax;
   LockInc (apic_ticks L);
   CmpByte (fence L) 0;
   Je 2;
   MovzxByte rax (cur_idx L);
   Cmp32 rax (Z.of_nat MAX_TASKS);
   Jae 2;
   MovzxByte rcx (slot_used L);
   Bt32 rcx rax;
   Jnc 2;
   LockInc (switches L);
   ImulImm rax rax FRAME_STRIDE;
   LeaAbs rdi (frames L);
   Add rdi rax;
   MovLoad rax rsp 0x70; MovStore rdi 0x00 rax;
   MovLoad rax rsp 0x68; MovStore rdi 0x08 rax;
   MovLoad rax rsp 0x60; MovStore rdi 0x10 rax;
   MovLoad rax rsp 0x58; MovStore rdi 0x18 rax;
   MovLoad rax rsp 0x50; MovStore rdi 0x20 rax;
   MovLoad rax rsp 0x48; MovStore rdi 0x28 rax;
   MovLoad rax rsp 0x40; MovStore rdi 0x30 rax;
   MovLoad rax rsp 0x38; MovStore rdi 0x38 rax;
   MovLoad rax rsp 0x30; MovStore rdi 0x40 rax;
   MovLoad rax rsp 0x28; MovStore rdi 0x48 rax;
   MovLoad rax rsp 0x20; MovStore rdi 0x50 rax;
   MovLoad rax rsp 0x18; MovStore rdi 0x58 rax;
   MovLoad rax rsp 0x10; MovStore rdi 0x60 rax;
   MovLoad rax rsp 0x08; MovStore rdi 0x68 rax;
   MovLoad rax rsp 0x00; MovStore rdi 0x70 rax;
   Lea rax rsp 0x90; MovStore rdi 0x78 rax;
   MovLoad rax rsp 0x78; MovStore rdi 0x80 rax;
   MovLoad rax rsp 0x80; MovStore rdi 0x88 rax;
   MovLoad rax rsp 0x88; MovStore rdi 0x90 rax;
   MovImm rax PREEMPT_MAGIC; MovStore rdi 0x98 rax;
   Label 2;
   MovLoadAbs rax (eoi_base L);
   Test rax rax;
   Jz 3;
   MovDword rax 0;
   Label 3;
   Pop rax; Pop rcx; Pop rdx; Pop rbx;
   Pop rbp; Pop rsi; Pop rdi; Pop r8;
   Pop r9; Pop r10; Pop r11; Pop r12;
   Pop r13; Pop r14; Pop r15;
   Iretq].

End Preempt.
