(* ===== verification/PreemptStub.v ===== *)
(** * The timer stub refines its effect on the static table

    [stub_effect] says what one timer interrupt does to the static variables of
    [preempt.rs].  This file proves that the stub, run from interrupt delivery
    to [iretq] on the processor model, resumes the interrupted code with every
    register and flag as it was, performs exactly [stub_effect] on the static
    variables as they sit in memory, and writes nothing else but the dead stack
    below the interrupted stack pointer and the EOI register. *)
From S2P Require Import Prelude Machine Preempt.

#[local] Open Scope Z_scope.

Module Stub.
Import Preempt.

(** ** Specification *)

(** The stash is taken when the fence is up and the current index names an
    occupied slot. *)
Definition yanks (st : Statics) : bool :=
  negb (PREEMPTIBLE st =? 0) && (CURRENT_IDX st <? Z.of_nat MAX_TASKS) &&
  Z.testbit (SLOT_USED st) (CURRENT_IDX st).

Definition stub_effect (f : FullFrame) (st : Statics) : Statics :=
  let y := yanks st in
  mkStatics (PREEMPTIBLE st)
    (if y then <[Z.to_nat (CURRENT_IDX st) := f]> (TASK_FRAMES st) else TASK_FRAMES st)
    (SLOT_BOUNDS st)
    (if y then wrap64 (PREEMPT_SWITCHES st + 1) else PREEMPT_SWITCHES st)
    (CURRENT_IDX st) (SLOT_USED st) (EOI_BASE st) (wrap64 (APIC_TICKS st + 1)).

(** The frame the stub records for an interrupted state: its registers, and as
    stack pointer the address above the three words rip, cs, rflags. *)
Definition captured (c : irq_convention) (s : cpu) : FullFrame :=
  let g := regs s in
  mkFrame (g r15) (g r14) (g r13) (g r12) (g r11) (g r10) (g r9) (g r8)
    (g rdi) (g rsi) (g rbp) (g rbx) (g rdx) (g rcx) (g rax)
    (regs (irq_entry c s) rsp + 24) (rip s) (cs s) (rflags s) PREEMPT_MAGIC.

(** The static variables as memory holds them. *)
Definition frame_at (m : memory) (a : Z) : FullFrame :=
  let w i := load 8 m (a + 8 * i) in
  mkFrame (w 0) (w 1) (w 2) (w 3) (w 4) (w 5) (w 6) (w 7) (w 8) (w 9) (w 10) (w 11)
    (w 12) (w 13) (w 14) (w 15) (w 16) (w 17) (w 18) (w 19).

Definition slot_addr (L : Layout) (i : nat) : Z := frames L + FRAME_STRIDE * Z.of_nat i.

Definition statics_at (L : Layout) (bounds : list (Z * Z)) (m : memory) : Statics :=
  mkStatics (load 1 m (fence L))
    ((λ i, frame_at m (slot_addr L i)) <$> seq 0 MAX_TASKS) bounds
    (load 8 m (switches L)) (load 1 m (cur_idx L)) (load 1 m (slot_used L))
    (load 8 m (eoi_base L)) (load 8 m (apic_ticks L)).

(** Address ranges that share no byte and do not wrap. *)
Fixpoint pairwise_apart (l : list (Z * Z)) : Prop :=
  match l with
  | [] => True
  | (a, n) :: l' =>
      0 ≤ a ∧ 0 ≤ n ∧ a + n ≤ u64_lim ∧
      Forall (λ '(b, k), a + n ≤ b ∨ b + k ≤ a) l' ∧ pairwise_apart l'
  end.

(** The ranges the stub touches: the statics, the stack below the interrupted
    stack pointer, and the EOI register. *)
Definition stack_need : Z := 176.
Definition areas (L : Layout) (sp eoi : Z) : list (Z * Z) :=
  [(fence L, 1); (cur_idx L, 1); (slot_used L, 1);
   (frames L, FRAME_STRIDE * Z.of_nat MAX_TASKS);
   (eoi_base L, 8); (apic_ticks L, 8); (switches L, 8);
   (sp - stack_need, stack_need)] ++
  (if eoi =? 0 then [] else [(eoi, 4)]).

Definition in_areas (l : list (Z * Z)) (x : Z) : Prop :=
  Exists (λ '(a, n), a ≤ x < a + n) l.

Lemma in_areas_lookup l i a n x : l !! i = Some (a, n) → a ≤ x < a + n → in_areas l x.
Proof.
  intros Hi Hx. apply Exists_exists. exists (a, n). split; [|done].
  by eapply list_elem_of_lookup_2.
Qed.

(** The interrupted state holds machine words. *)
Definition cpu_ok (s : cpu) : Prop :=
  (∀ r, u64 (regs s r)) ∧ u64 (rip s) ∧ u64 (cs s) ∧ u64 (ss s) ∧ u64 (rflags s) ∧
  (∀ a, 0 ≤ mem s a < 256).

(** ** Ranges *)

Lemma pairwise_lookup l i j a n b k :
  pairwise_apart l → l !! i = Some (a, n) → l !! j = Some (b, k) → i ≠ j →
  a + n ≤ b ∨ b + k ≤ a.
Proof.
  revert i j. induction l as [|[x y] l IH]; intros i j Hp Hi Hj Hij; [done|].
  destruct Hp as (_ & _ & _ & Hf & Hp).
  destruct i as [|i], j as [|j]; simpl in Hi, Hj; simplify_eq.
  - rewrite Forall_lookup in Hf. by apply (Hf j (b, k)).
  - rewrite Forall_lookup in Hf. specialize (Hf i (a, n) Hi). simpl in Hf. lia.
  - apply (IH i j); auto.
Qed.

Lemma pairwise_range l i a n :
  pairwise_apart l → l !! i = Some (a, n) → 0 ≤ a ∧ 0 ≤ n ∧ a + n ≤ u64_lim.
Proof.
  revert i. induction l as [|[x y] l IH]; intros i Hp Hi; [done|].
  destruct Hp as (? & ? & ? & _ & Hp). destruct i as [|i]; simpl in Hi.
  - by simplify_eq.
  - by apply (IH i).
Qed.

Section ranges.
Context (l : list (Z * Z)) (Hap : pairwise_apart l).

(** A cell of one area is unchanged when only another area was written. *)
Lemma load_area_kept i j a n b k k' m m' x :
  l !! i = Some (a, n) → l !! j = Some (b, k) → i ≠ j →
  same_outside b (b + k) m m' → a ≤ x → x + Z.of_nat k' ≤ a + n →
  load k' m' x = load k' m x.
Proof.
  intros Hi Hj Hij Hm Hx Hk.
  destruct (pairwise_range _ _ _ _ Hap Hi) as (? & ? & ?).
  pose proof (pairwise_lookup _ _ _ _ _ _ _ Hap Hi Hj Hij).
  eapply load_outside; [exact Hm|lia..].
Qed.
End ranges.

(** ** Interrupt delivery and return *)

(** The hardware frame of interrupted state [s] sits at [a]. *)
Definition hw_frame (c : irq_convention) (m : memory) (a : Z) (s : cpu) : Prop :=
  load 8 m a = rip s ∧ load 8 m (a + 8) = cs s ∧ load 8 m (a + 16) = rflags s ∧
  match c with
  | ThreeWords => regs s rsp = a + 24
  | FiveWords =>
      a + 40 ≤ regs s rsp ∧ load 8 m (a + 24) = regs s rsp ∧ load 8 m (a + 32) = ss s
  end.

Lemma push_spec s v :
  8 ≤ regs s rsp < u64_lim →
  regs (push s v) rsp = regs s rsp - 8 ∧
  (∀ r, r ≠ rsp → regs (push s v) r = regs s r) ∧
  mem (push s v) = store 8 (mem s) (regs s rsp - 8) v ∧ same_control s (push s v).
Proof.
  intros H. unfold push. cbn [regs mem set_mem]. rewrite !regs_set_same.
  rewrite wrap64_id by ulia. split_and!; try done.
  intros r Hr. by apply regs_set_other.
Qed.

(** Three pushes below [sp]. *)
Lemma hw_push_spec s0 x y z :
  let sp := regs s0 rsp in
  let s' := push (push (push s0 x) y) z in
  24 ≤ sp < u64_lim →
  regs s' rsp = sp - 24 ∧ (∀ r, r ≠ rsp → regs s' r = regs s0 r) ∧
  same_outside (sp - 24) sp (mem s0) (mem s') ∧ same_control s0 s' ∧
  load 8 (mem s') (sp - 24) = wrap64 z ∧ load 8 (mem s') (sp - 16) = wrap64 y ∧
  load 8 (mem s') (sp - 8) = wrap64 x.
Proof.
  intros sp s' H.
  destruct (push_spec s0 x) as (A1 & A2 & A3 & A4); [subst sp; lia|].
  destruct (push_spec (push s0 x) y) as (B1 & B2 & B3 & B4); [subst sp; lia|].
  destruct (push_spec (push (push s0 x) y) z) as (C1 & C2 & C3 & C4); [subst sp; lia|].
  subst s'. fold sp in A1, A3. rewrite A1 in *. rewrite B1 in *.
  replace (sp - 8 - 8) with (sp - 16) in * by lia.
  replace (sp - 16 - 8) with (sp - 24) in * by lia.
  rewrite C3, B3, A3. split_and!.
  - done.
  - intros r Hr. by rewrite C2, B2, A2.
  - etrans; [|eapply same_outside_mono; [apply (store_same_outside 8)|..]; lia].
    etrans; eapply same_outside_mono; try (apply (store_same_outside 8)); lia.
  - by repeat (etrans; [eassumption|]).
  - apply load8_store_same; lia.
  - rewrite load_store_other by lia. apply load8_store_same; lia.
  - rewrite !load_store_other by lia. apply load8_store_same; lia.
Qed.

Lemma irq_entry_spec c s :
  let s0 := irq_entry c s in
  let sp := regs s rsp in
  cpu_ok s → stack_need ≤ sp →
  sp - 56 ≤ regs s0 rsp ∧ regs s0 rsp + 24 ≤ sp ∧
  (∀ r, r ≠ rsp → regs s0 r = regs s r) ∧ ss s0 = ss s ∧
  same_outside (sp - 56) sp (mem s) (mem s0) ∧ hw_frame c (mem s0) (regs s0 rsp) s.
Proof.
  intros s0 sp (Hr & Hrip & Hcs & Hss & Hfl & _) Hsp.
  pose proof (Hr rsp) as [_ Hlim]. fold sp in Hlim. unfold stack_need in Hsp.
  subst s0. unfold irq_entry, irq_push_stack. 
  match goal with |- context [set_rflags ?x ?z] =>
    destruct (set_rflags_fields x z) as (-> & -> & _ & _ & ->) end.
  destruct c.
  - destruct (hw_push_spec s (rflags s) (cs s) (rip s)) as (A & B & C & (D & E & F & G) & H1 & H2 & H3);
      [fold sp; lia|].
    fold sp in A, C, H1, H2, H3. set (s' := push _ _) in *. clearbody s'. rewrite A. unfold hw_frame.
    replace (sp - 24 + 8) with (sp - 16) by lia. replace (sp - 24 + 16) with (sp - 8) by lia.
    rewrite H1, H2, H3, !wrap64_id by done. split_and!; try done; try lia.
    eapply same_outside_mono; [exact C|lia..].
  - pose proof (Z.mod_pos_bound sp 16 ltac:(lia)) as Hmod. fold sp.
    set (a := sp - sp `mod` 16). set (sa := set_reg s rsp a).
    assert (regs sa rsp = a) as Ha by (subst sa; rewrite regs_set_same; apply wrap64_id; ulia).
    destruct (push_spec sa (ss s)) as (A1 & A2 & A3 & A4); [lia|].
    destruct (push_spec (push sa (ss s)) sp) as (B1 & B2 & B3 & B4); [lia|].
    set (sb := push (push sa (ss s)) sp) in *.
    assert (ss sb = ss s) as Hsb by (destruct A4 as (_&_&A4&_), B4 as (_&_&B4&_); by rewrite B4, A4).
    clearbody sb. rewrite Ha in *. rewrite A1 in *. replace (a - 8 - 8) with (a - 16) in * by lia.
    destruct (hw_push_spec sb (rflags s) (cs s) (rip s))
      as (A & B & C & (D & E & F & G) & H1 & H2 & H3); rewrite ?B1 in *; [lia|].
    replace (a - 16 - 24) with (a - 40) in * by lia.
    replace (a - 16 - 16) with (a - 32) in * by lia.
    replace (a - 16 - 8) with (a - 24) in * by lia.
    set (s' := push _ _) in *. clearbody s'. rewrite A. unfold hw_frame.
    replace (a - 40 + 8) with (a - 32) by lia. replace (a - 40 + 16) with (a - 24) by lia.
    replace (a - 40 + 24) with (a - 16) by lia. replace (a - 40 + 32) with (a - 8) by lia.
    rewrite H1, H2, H3, !wrap64_id by done.
    assert (same_outside (a - 16) a (mem s) (mem sb)) as Ho.
    { rewrite B3, A3. unfold sa. rewrite mem_set_reg.
      etrans; eapply same_outside_mono; try (apply (store_same_outside 8)); lia. }
    split_and!; try done; try lia; try congruence.
    + intros r Hne. rewrite B, B2, A2 by done. subst sa. by apply regs_set_other.
    + etrans; eapply same_outside_mono; [exact Ho|lia|lia|exact C|lia|lia].
    + erewrite load_outside; [|exact C|lia..]. rewrite B3.
      rewrite load8_store_same by lia. by apply wrap64_id.
    + erewrite load_outside; [|exact C|lia..]. rewrite B3, A3.
      rewrite load_store_other by lia. rewrite load8_store_same by lia. by apply wrap64_id.
Qed.

Lemma irq_entry_five s :
  (∀ r, u64 (regs s r)) → stack_need ≤ regs s rsp →
  regs (irq_entry FiveWords s) rsp = regs s rsp - regs s rsp `mod` 16 - 40.
Proof.
  intros Hr Hsp. pose proof (Hr rsp) as [_ Hlim]. unfold stack_need in Hsp.
  pose proof (Z.mod_pos_bound (regs s rsp) 16 ltac:(lia)).
  unfold irq_entry, irq_push_stack.
  match goal with |- context [set_rflags ?x ?z] =>
    destruct (set_rflags_fields x z) as (-> & _) end.
  set (sa := set_reg s rsp (regs s rsp - regs s rsp `mod` 16)).
  assert (regs sa rsp = regs s rsp - regs s rsp `mod` 16) as Ha
    by (unfold sa; rewrite regs_set_same; apply wrap64_id; ulia).
  clearbody sa.
  destruct (push_spec sa (ss s)) as (A & _); [lia|].
  destruct (push_spec (push sa (ss s)) (regs s rsp)) as (B & _); [lia|].
  destruct (hw_push_spec (push (push sa (ss s)) (regs s rsp)) (rflags s) (cs s) (rip s))
    as (C & _); lia.
Qed.

Lemma iretq_spec c t s :
  hw_frame c (mem t) (regs t rsp) s → cpu_ok s → 0 ≤ regs t rsp →
  regs t rsp + 24 ≤ regs s rsp → ss t = ss s →
  (∀ r, r ≠ rsp → regs t r = regs s r) →
  let s' := iretq c t in
  (∀ r, regs s' r = regs s r) ∧ same_control s s' ∧ mem s' = mem t.
Proof.
  intros (H1 & H2 & H3 & H4) (Hr & _) H0 Hlim Hss Hreg s'.
  pose proof (Hr rsp) as [_ ?].
  set (a := regs t rsp) in *.
  assert (regs (drop_word t) rsp = a + 8) as E1.
  { unfold drop_word. rewrite regs_set_same. apply wrap64_id. ulia. }
  assert (regs (drop_word (drop_word t)) rsp = a + 16) as E2.
  { unfold drop_word at 1. rewrite regs_set_same, E1. rewrite wrap64_id; ulia. }
  set (s3 := drop_word (drop_word (drop_word t))).
  assert (regs s3 rsp = a + 24) as E3.
  { unfold s3, drop_word at 1. rewrite regs_set_same, E2. rewrite wrap64_id; ulia. }
  assert (∀ r, r ≠ rsp → regs s3 r = regs s r) as Hs3.
  { intros r Hne. unfold s3, drop_word. rewrite !regs_set_other by done. by apply Hreg. }
  assert (top t = rip s ∧ top (drop_word t) = cs s ∧
    top (drop_word (drop_word t)) = rflags s ∧ top s3 = load 8 (mem t) (a + 24))
    as (T1 & T2 & T3 & T4).
  { unfold top. rewrite E1, E2, E3. by split_and!. }
  subst s'. unfold iretq. fold s3. destruct c; cbn [regs rip cs ss rflags mem].
  - rewrite T1, T2, T3. repeat split; try done.
    intros r. destruct (decide (r = rsp)) as [->|]; [congruence|by apply Hs3].
  - destruct H4 as (H40 & H4 & H5).
    assert (regs (drop_word s3) rsp = a + 32) as E4.
    { unfold drop_word. rewrite regs_set_same, E3, wrap64_id; ulia. }
    assert (top (drop_word s3) = ss s) as T5 by (unfold top; by rewrite E4).
    rewrite T1, T2, T3, T4, T5, H4. repeat split; try done.
    intros r. destruct (decide (r = rsp)) as [->|].
    + by rewrite regs_set_same, wrap64_id.
    + rewrite regs_set_other by done. by apply Hs3.
Qed.

(** ** The stub in pieces *)

Definition spill : list reg :=
  [r15; r14; r13; r12; r11; r10; r9; r8; rdi; rsi; rbp; rbx; rdx; rcx; rax].

Definition gate_code (L : Layout) : list instr :=
  [CmpByte (fence L) 0; Je 2;
   MovzxByte rax (cur_idx L); Cmp32 rax (Z.of_nat MAX_TASKS); Jae 2;
   MovzxByte rcx (slot_used L); Bt32 rcx rax; Jnc 2].

Definition slot_code (L : Layout) : list instr :=
  [ImulImm rax rax FRAME_STRIDE; LeaAbs rdi (frames L); Add rdi rax].

Definition stash_srcs : list stash_src :=
  [SrcMem 0x70; SrcMem 0x68; SrcMem 0x60; SrcMem 0x58; SrcMem 0x50; SrcMem 0x48;
   SrcMem 0x40; SrcMem 0x38; SrcMem 0x30; SrcMem 0x28; SrcMem 0x20; SrcMem 0x18;
   SrcMem 0x10; SrcMem 0x08; SrcMem 0x00; SrcLea 0x90; SrcMem 0x78; SrcMem 0x80;
   SrcMem 0x88; SrcImm PREEMPT_MAGIC].

Definition yank_code (L : Layout) : list instr :=
  LockInc (switches L) :: slot_code L ++ stash_code 0 stash_srcs.

Definition eoi_code (L : Layout) : list instr :=
  [MovLoadAbs rax (eoi_base L); Test rax rax; Jz 3; MovDword rax 0; Label 3].

Definition restore_code : list instr := (Pop <$> rev spill) ++ [Iretq].

Lemma stub_split L :
  lapic_preempt_stub L =
    (Push <$> spill) ++ [LockInc (apic_ticks L)] ++ gate_code L ++ yank_code L ++
    Label 2 :: eoi_code L ++ restore_code.
Proof. reflexivity. Qed.

Lemma ZF_set_cmp s z c : ZF (set_cmp s z c) = z.
Proof.
  unfold ZF, set_cmp, set_rflags, put_bit. cbn [rflags].
  destruct c; rewrite ?Z.setbit_neq, ?Z.clearbit_neq by lia;
    destruct z; [apply Z.setbit_eq|apply Z.clearbit_eq|apply Z.setbit_eq|apply Z.clearbit_eq]; lia.
Qed.

Lemma CF_set_cmp s z c : CF (set_cmp s z c) = c.
Proof.
  unfold CF, set_cmp, set_rflags, put_bit. cbn [rflags].
  destruct c; [apply Z.setbit_eq|apply Z.clearbit_eq]; lia.
Qed.

Lemma set_cmp_fields s z c :
  regs (set_cmp s z c) = regs s ∧ mem (set_cmp s z c) = mem s ∧ ss (set_cmp s z c) = ss s.
Proof. unfold set_cmp, set_rflags. by repeat split. Qed.

(** [t'] differs from [t] in scratch registers, flags and memory only. *)
Definition scratch (t t' : cpu) : Prop :=
  (∀ r, r ∉ [rax; rcx; rdi] → regs t' r = regs t r) ∧ ss t' = ss t.

#[export] Instance scratch_pre : PreOrder scratch.
Proof.
  split; [by intros t|]. intros t1 t2 t3 [H1 E1] [H2 E2].
  split; [|congruence]. intros r Hr. by rewrite H2, H1.
Qed.

Lemma scratch_set_reg t r v : r ∈ [rax; rcx; rdi] → scratch t (set_reg t r v).
Proof.
  intros Hin. split; [|done]. intros r' Hr. apply regs_set_other. by intros ->.
Qed.

Lemma scratch_set_cmp t z c : scratch t (set_cmp t z c).
Proof. split; [|done]. intros r _. by destruct (set_cmp_fields t z c) as (-> & _). Qed.

Lemma scratch_set_mem t m : scratch t (set_mem t m).
Proof. by split. Qed.

Definition yanks_mem (L : Layout) (m : memory) : bool :=
  negb (load 1 m (fence L) =? 0) &&
  (load 1 m (cur_idx L) <? Z.of_nat MAX_TASKS) &&
  Z.testbit (load 1 m (slot_used L)) (load 1 m (cur_idx L)).

Lemma load_bytes n m a : (∀ x, 0 ≤ m x < 256) → 0 ≤ load n m a < 256 ^ Z.of_nat n.
Proof.
  intros H. revert a. induction n as [|n IH]; intros a; [done|].
  change (load (S n) m a) with (m (wrap64 a) + 256 * load n m (a + 1)).
  rewrite Nat2Z.inj_succ, Z.pow_succ_r by lia.
  specialize (H (wrap64 a)). specialize (IH (a + 1)). lia.
Qed.

Lemma low32_id z : 0 ≤ z < 256 → low32 z = z.
Proof. intros. apply Z.mod_small. lia. Qed.

Ltac reg_in := apply (bool_decide_unpack _); by vm_compute.

(** Loading a byte and comparing, as one step on scratch state. *)
Lemma movzx_step t t0 r a :
  scratch t0 t → r ∈ [rax; rcx; rdi] → 0 ≤ load 1 (mem t) a < 256 →
  let t' := exec1 (MovzxByte r a) t in
  scratch t0 t' ∧ mem t' = mem t ∧ regs t' r = load 1 (mem t) a ∧
  (∀ r', r' ≠ r → regs t' r' = regs t r').
Proof.
  intros Hs Hr Hb. cbn [exec1].
  rewrite mem_set_reg, regs_set_same. split_and!.
  - etrans; [exact Hs|by apply scratch_set_reg].
  - done.
  - apply wrap64_id. ulia.
  - intros r' Hne. by apply regs_set_other.
Qed.

Lemma set_cmp_step t t0 z c :
  scratch t0 t →
  let t' := set_cmp t z c in
  scratch t0 t' ∧ mem t' = mem t ∧ regs t' = regs t.
Proof.
  intros Hs. cbn zeta. destruct (set_cmp_fields t z c) as (-> & -> & _).
  split_and!; [|done..]. etrans; [exact Hs|apply scratch_set_cmp].
Qed.

(** The occupancy test, with the index in [rax]. *)
Lemma gate_bit_spec c L t0 t rest :
  0 ≤ load 1 (mem t) (slot_used L) < 256 → scratch t0 t → 0 ≤ regs t rax < 7 →
  ∃ t', run c None ([MovzxByte rcx (slot_used L); Bt32 rcx rax; Jnc 2] ++ rest) t =
          run c (if Z.testbit (load 1 (mem t) (slot_used L)) (regs t rax)
                 then None else Some 2%nat) rest t' ∧
    mem t' = mem t ∧ scratch t0 t' ∧ regs t' rax = regs t rax.
Proof.
  intros Hb Hs Hr.
  destruct (movzx_step t t0 rcx (slot_used L)) as (S1 & M1 & R1 & R1'); [done|reg_in|done|].
  cbn [app]. rewrite 2!run_step, run_jnc by done.
  set (t1 := exec1 (MovzxByte rcx _) t) in *. clearbody t1.
  cbn [exec1]. rewrite R1, (R1' rax), !low32_id, CF_set_cmp by (done || lia).
  rewrite (Z.mod_small (regs t rax)) by lia.
  match goal with |- context [set_cmp t1 ?x ?y] =>
    destruct (set_cmp_step t1 t0 x y S1) as (S2 & M2 & R2); set (t2 := set_cmp t1 x y) in * end.
  clearbody t2. exists t2. rewrite M2, R2, (R1' rax) by done.
  by destruct (Z.testbit _ _).
Qed.

(** The three tests. *)
Lemma gate_spec c L t rest :
  0 ≤ load 1 (mem t) (cur_idx L) < 256 → 0 ≤ load 1 (mem t) (slot_used L) < 256 →
  ∃ t', run c None (gate_code L ++ rest) t =
          run c (if yanks_mem L (mem t) then None else Some 2%nat) rest t' ∧
    mem t' = mem t ∧ scratch t t' ∧
    (yanks_mem L (mem t) = true → regs t' rax = load 1 (mem t) (cur_idx L)).
Proof.
  intros Hc Hb. unfold yanks_mem.
  unfold gate_code. cbn [app]. rewrite run_step, run_je by done.
  cbn [exec1]. rewrite ZF_set_cmp.
  match goal with |- context [set_cmp t ?x ?y] =>
    destruct (set_cmp_step t t x y) as (S1 & M1 & R1); [done|];
    set (t1 := set_cmp t x y) in * end.
  clearbody t1. destruct (load 1 (mem t) (fence L) =? 0); [by exists t1|].
  destruct (movzx_step t1 t rax (cur_idx L)) as (S2 & M2 & R2 & _);
    [done|reg_in|by rewrite M1|].
  rewrite M1 in *. rewrite 2!run_step, run_jae by done.
  set (t2 := exec1 (MovzxByte rax _) t1) in *. clearbody t2.
  cbn [exec1]. rewrite R2, low32_id, CF_set_cmp by done.
  match goal with |- context [set_cmp t2 ?x ?y] =>
    destruct (set_cmp_step t2 t x y S2) as (S3 & M3 & R3); set (t3 := set_cmp t2 x y) in * end.
  clearbody t3. cbn [negb andb]. rewrite M2 in M3. rewrite <- R3 in R2.
  destruct (load 1 (mem t) (cur_idx L) <? Z.of_nat MAX_TASKS) eqn:Hlt; [|by exists t3].
  apply Z.ltb_lt in Hlt. change (Z.of_nat MAX_TASKS) with 7 in Hlt.
  destruct (gate_bit_spec c L t t3 rest) as (t4 & E & M4 & S4 & R4);
    [by rewrite M3|done|lia|].
  rewrite M3, R2 in E. exists t4. split; [exact E|].
  split_and!; [congruence|done|]. intros _. congruence.
Qed.

(** ** How memory writes show in the static variables *)
Section statics.
Context (L : Layout) (sp eoi : Z) (Hap : pairwise_apart (areas L sp eoi)).
Context (bounds : list (Z * Z)).

Lemma area_range i a n :
  areas L sp eoi !! i = Some (a, n) → 0 ≤ a ∧ 0 ≤ n ∧ a + n ≤ u64_lim.
Proof. by apply pairwise_range. Qed.

Lemma area_eoi : eoi ≠ 0 → areas L sp eoi !! 8%nat = Some (eoi, 4).
Proof. intros H. unfold areas. by rewrite (proj2 (Z.eqb_neq eoi 0) H). Qed.

Lemma frame_at_ext m m' a :
  (∀ i, 0 ≤ i < 20 → load 8 m' (a + 8 * i) = load 8 m (a + 8 * i)) →
  frame_at m' a = frame_at m a.
Proof. intros H. unfold frame_at. rewrite !H by lia. done. Qed.

Lemma frames_kept j b k m m' :
  areas L sp eoi !! j = Some (b, k) → j ≠ 3%nat → same_outside b (b + k) m m' →
  (λ i, frame_at m' (slot_addr L i)) <$> seq 0 MAX_TASKS =
  (λ i, frame_at m (slot_addr L i)) <$> seq 0 MAX_TASKS.
Proof.
  intros Hj Hne Hm. apply list_fmap_ext. intros i x Hx.
  apply lookup_seq in Hx as [-> Hi]. unfold MAX_TASKS in Hi.
  apply frame_at_ext. intros w Hw. unfold slot_addr, FRAME_STRIDE.
  eapply (load_area_kept _ Hap 3 j); [reflexivity|exact Hj|done|exact Hm|lia|].
  unfold FRAME_STRIDE, MAX_TASKS. lia.
Qed.

(** A write to area [j] leaves the cells of every other area. *)
Lemma cells_kept j b k m m' :
  areas L sp eoi !! j = Some (b, k) → same_outside b (b + k) m m' →
  (j ≠ 0%nat → load 1 m' (fence L) = load 1 m (fence L)) ∧
  (j ≠ 1%nat → load 1 m' (cur_idx L) = load 1 m (cur_idx L)) ∧
  (j ≠ 2%nat → load 1 m' (slot_used L) = load 1 m (slot_used L)) ∧
  (j ≠ 4%nat → load 8 m' (eoi_base L) = load 8 m (eoi_base L)) ∧
  (j ≠ 5%nat → load 8 m' (apic_ticks L) = load 8 m (apic_ticks L)) ∧
  (j ≠ 6%nat → load 8 m' (switches L) = load 8 m (switches L)).
Proof.
  intros Hj Hm. split_and!; intros Hne.
  - eapply (load_area_kept _ Hap 0 j); [reflexivity|exact Hj|done|exact Hm|lia|lia].
  - eapply (load_area_kept _ Hap 1 j); [reflexivity|exact Hj|done|exact Hm|lia|lia].
  - eapply (load_area_kept _ Hap 2 j); [reflexivity|exact Hj|done|exact Hm|lia|lia].
  - eapply (load_area_kept _ Hap 4 j); [reflexivity|exact Hj|done|exact Hm|lia|lia].
  - eapply (load_area_kept _ Hap 5 j); [reflexivity|exact Hj|done|exact Hm|lia|lia].
  - eapply (load_area_kept _ Hap 6 j); [reflexivity|exact Hj|done|exact Hm|lia|lia].
Qed.

Definition set_ticks (st : Statics) (v : Z) : Statics :=
  mkStatics (PREEMPTIBLE st) (TASK_FRAMES st) (SLOT_BOUNDS st) (PREEMPT_SWITCHES st)
    (CURRENT_IDX st) (SLOT_USED st) (EOI_BASE st) v.
Definition set_switches (st : Statics) (v : Z) : Statics :=
  mkStatics (PREEMPTIBLE st) (TASK_FRAMES st) (SLOT_BOUNDS st) v
    (CURRENT_IDX st) (SLOT_USED st) (EOI_BASE st) (APIC_TICKS st).

Lemma statics_kept j b k m m' :
  areas L sp eoi !! j = Some (b, k) → (7 ≤ j)%nat → same_outside b (b + k) m m' →
  statics_at L bounds m' = statics_at L bounds m.
Proof.
  intros Hj Hge Hm. destruct (cells_kept j b k m m' Hj Hm) as (H0 & H1 & H2 & H4 & H5 & H6).
  unfold statics_at.
  rewrite H0, H1, H2, H4, H5, H6, (frames_kept j b k m m') by (done || lia). done.
Qed.

Lemma statics_ticks m v :
  statics_at L bounds (store 8 m (apic_ticks L) v) =
    set_ticks (statics_at L bounds m) (wrap64 v).
Proof.
  destruct (area_range 5 (apic_ticks L) 8 eq_refl) as (Hlo & _ & Hhi).
  assert (same_outside (apic_ticks L) (apic_ticks L + 8) m (store 8 m (apic_ticks L) v))
    as Hm by (by apply (store_same_outside 8)).
  destruct (cells_kept 5 _ 8 m _ eq_refl Hm) as (H0 & H1 & H2 & H4 & _ & H6).
  unfold statics_at, set_ticks. cbn.
  rewrite H0, H1, H2, H4, H6, load8_store_same by done.
  f_equal. by apply (frames_kept 5 (apic_ticks L) 8).
Qed.

Lemma statics_switches m v :
  statics_at L bounds (store 8 m (switches L) v) =
    set_switches (statics_at L bounds m) (wrap64 v).
Proof.
  destruct (area_range 6 (switches L) 8 eq_refl) as (Hlo & _ & Hhi).
  assert (same_outside (switches L) (switches L + 8) m (store 8 m (switches L) v))
    as Hm by (by apply (store_same_outside 8)).
  destruct (cells_kept 6 _ 8 m _ eq_refl Hm) as (H0 & H1 & H2 & H4 & H5 & _).
  unfold statics_at, set_switches. cbn.
  rewrite H0, H1, H2, H4, H5, load8_store_same by done.
  f_equal. by apply (frames_kept 6 (switches L) 8).
Qed.

Lemma statics_slot idx m m' :
  (idx < MAX_TASKS)%nat →
  same_outside (slot_addr L idx) (slot_addr L idx + FRAME_STRIDE) m m' →
  statics_at L bounds m' =
    let st := statics_at L bounds m in
    with_frames st (<[idx := frame_at m' (slot_addr L idx)]> (TASK_FRAMES st)) (SLOT_USED st).
Proof.
  intros Hidx Hm. unfold MAX_TASKS in Hidx.
  destruct (area_range 3 _ _ eq_refl) as (Hlo & _ & Hhi).
  unfold FRAME_STRIDE, MAX_TASKS in Hhi.
  assert (same_outside (frames L) (frames L + FRAME_STRIDE * Z.of_nat MAX_TASKS) m m') as Hm'.
  { unfold slot_addr, FRAME_STRIDE, MAX_TASKS in *.
    eapply same_outside_mono; [exact Hm|lia..]. }
  destruct (cells_kept 3 _ _ m m' eq_refl Hm') as (H0 & H1 & H2 & H4 & H5 & H6).
  unfold statics_at, with_frames. cbn -[seq MAX_TASKS].
  rewrite H0, H1, H2, H4, H5, H6 by done. f_equal.
  apply list_eq. intros i. destruct (decide (i = idx)) as [->|Hne].
  - rewrite list_lookup_insert_eq by (by rewrite length_fmap, length_seq).
    rewrite list_lookup_fmap, lookup_seq_lt by done. done.
  - rewrite list_lookup_insert_ne, !list_lookup_fmap by done.
    destruct (seq 0 MAX_TASKS !! i) as [j|] eqn:Hj; [|done]. simpl. f_equal.
    apply lookup_seq in Hj as [-> Hi]. unfold MAX_TASKS in Hi. apply frame_at_ext.
    intros w Hw. unfold slot_addr, FRAME_STRIDE in *.
    eapply load_outside; [exact Hm|lia..].
Qed.

(** ** The words the stub must not lose *)

Definition resumable (c : irq_convention) (m : memory) (a : Z) (s : cpu) : Prop :=
  hw_frame c m (a + 120) s ∧
  ∀ i r, spill !! i = Some r → load 8 m (a + 112 - 8 * Z.of_nat i) = regs s r.

Lemma resumable_kept c a s j b k m m' :
  areas L sp eoi !! j = Some (b, k) → j ≠ 7%nat → same_outside b (b + k) m m' →
  regs s rsp = sp → sp - stack_need ≤ a → a + 144 ≤ sp →
  resumable c m a s → resumable c m' a s.
Proof.
  intros Hj Hne Hm Hsp Hlo Hhi [(H1 & H2 & H3 & H4) H5].
  assert (∀ x, a ≤ x → x + 8 ≤ sp → load 8 m' x = load 8 m x) as Hkeep.
  { intros x Hx1 Hx2.
    eapply (load_area_kept _ Hap 7 j); [reflexivity|exact Hj|done|exact Hm|lia|lia]. }
  split.
  - unfold hw_frame. rewrite !(Hkeep (a + 120 + _)), (Hkeep (a + 120)) by lia.
    split_and!; [done..|]. destruct c; [done|]. destruct H4 as (H4 & H6 & H7).
    by rewrite !Hkeep by lia.
  - intros i r Hi. assert (i < 15)%nat by (by apply lookup_lt_Some in Hi).
    rewrite Hkeep by lia. by apply H5.
Qed.

(** The general registers popped back from the spill, and the return. *)
Lemma restore_spec c t s a :
  resumable c (mem t) a s → regs t rsp = a → ss t = ss s → cpu_ok s →
  0 ≤ a → a + 144 ≤ regs s rsp →
  ∃ s', run c None restore_code t = Some s' ∧
    (∀ r, regs s' r = regs s r) ∧ same_control s s' ∧ mem s' = mem t.
Proof.
  intros [Hhw Hsp] Ha Hss Hok H0 Hlim. pose proof Hok as (Hr & _).
  pose proof (Hr rsp) as [_ ?].
  destruct (exec_pops (rev spill) t) as (Hrsp & _ & Hctl & Hm & Hld).
  { reg_in. } { reg_in. } { lia. }
  { change (length (rev spill)) with 15%nat. ulia. }
  unfold restore_code. rewrite run_straight by done.
  set (t1 := exec_list _ t) in *. clearbody t1.
  change (length (rev spill)) with 15%nat in Hrsp.
  exists (iretq c t1). split; [done|]. rewrite <- Hm. apply iretq_spec; try done.
  - rewrite Hm, Hrsp, Ha. by replace (a + 8 * Z.of_nat 15) with (a + 120) by lia.
  - lia.
  - lia.
  - destruct Hctl as (_ & _ & -> & _). done.
  - intros r Hne. assert (r ∈ spill) as Hin by (destruct r; try done; reg_in).
    apply list_elem_of_lookup in Hin as [i Hi].
    assert (i < 15)%nat by (by apply lookup_lt_Some in Hi).
    rewrite (Hld (14 - i)%nat r), Ha.
    + replace (a + 8 * Z.of_nat (14 - i)) with (a + 112 - 8 * Z.of_nat i) by lia.
      rewrite (Hsp i r Hi). by apply wrap64_id.
    + by do 15 (destruct i; [exact Hi|]).
Qed.

(** The EOI write, then the restore. *)
Lemma tail_spec c t s a :
  resumable c (mem t) a s → regs t rsp = a → ss t = ss s → cpu_ok s →
  regs s rsp = sp → sp - stack_need ≤ a → a + 144 ≤ sp →
  load 8 (mem t) (eoi_base L) = eoi → u64 eoi →
  ∃ s', run c None (eoi_code L ++ restore_code) t = Some s' ∧
    (∀ r, regs s' r = regs s r) ∧ same_control s s' ∧
    mem s' = (if eoi =? 0 then mem t else store 4 (mem t) eoi 0).
Proof.
  intros Hres Ha Hss Hok Hsp Hlo Hhi Hld Heoi.
  destruct (area_range 7 _ _ eq_refl) as (Hstk & _ & _).
  unfold eoi_code. cbn [app]. rewrite run_step by done. cbn [exec1]. rewrite Hld.
  set (t1 := set_reg t rax eoi).
  assert (regs t1 rax = eoi) as R1 by (unfold t1; by rewrite regs_set_same, wrap64_id).
  assert (regs t1 rsp = a) as Sp1 by (unfold t1; by rewrite regs_set_other).
  assert (mem t1 = mem t) as M1 by apply mem_set_reg.
  assert (ss t1 = ss s) as Ss1 by done. clearbody t1.
  rewrite run_step, run_jz by done. cbn [exec1]. rewrite ZF_set_cmp, R1, Z.land_diag.
  destruct (set_cmp_fields t1 (eoi =? 0) false) as (R2 & M2 & Ss2).
  set (t2 := set_cmp t1 _ _) in *. clearbody t2.
  destruct (eoi =? 0) eqn:E0.
  - change (run c (Some 3%nat) _ t2) with (run c None restore_code t2).
    destruct (restore_spec c t2 s a) as (s' & E & HR & HC & HM);
      [by rewrite M2, M1|congruence|congruence|done|lia|lia|].
    exists s'. rewrite HM, M2, M1. done.
  - apply Z.eqb_neq in E0. pose proof (area_eoi E0) as A8.
    destruct (area_range 8 _ _ A8) as (? & _ & ?).
    rewrite run_step by done. cbn [exec1].
    set (t3 := set_mem t2 _).
    assert (mem t3 = store 4 (mem t) eoi 0) as M3
      by (unfold t3; rewrite mem_set_mem, R2, R1; congruence).
    assert (regs t3 rsp = a) as Sp3 by (unfold t3; rewrite regs_set_mem; congruence).
    assert (ss t3 = ss t2) as Ss3 by done. clearbody t3.
    change (run c None (Label 3 :: _) t3) with (run c None restore_code t3).
    destruct (restore_spec c t3 s a) as (s' & E & HR & HC & HM);
      [|done|congruence|done|lia|lia|].
    { rewrite M3. apply (resumable_kept c a s 8 eoi 4 (mem t)); try done.
      by apply (store_same_outside 4). }
    exists s'. rewrite HM, M3. done.
Qed.

(** ** The stash *)

Lemma frame_at_words m a v0 v1 v2 v3 v4 v5 v6 v7 v8 v9 v10 v11 v12 v13 v14 v15 v16 v17
    v18 v19 :
  (∀ i v, [v0; v1; v2; v3; v4; v5; v6; v7; v8; v9; v10; v11; v12; v13; v14; v15; v16; v17;
           v18; v19] !! i = Some v → load 8 m (a + 8 * Z.of_nat i) = v) →
  frame_at m a = mkFrame v0 v1 v2 v3 v4 v5 v6 v7 v8 v9 v10 v11 v12 v13 v14 v15 v16 v17 v18 v19.
Proof.
  intros H. unfold frame_at.
  rewrite <- (H 0%nat v0), <- (H 1%nat v1), <- (H 2%nat v2), <- (H 3%nat v3),
    <- (H 4%nat v4), <- (H 5%nat v5), <- (H 6%nat v6), <- (H 7%nat v7),
    <- (H 8%nat v8), <- (H 9%nat v9), <- (H 10%nat v10), <- (H 11%nat v11),
    <- (H 12%nat v12), <- (H 13%nat v13), <- (H 14%nat v14), <- (H 15%nat v15),
    <- (H 16%nat v16), <- (H 17%nat v17), <- (H 18%nat v18), <- (H 19%nat v19) by done.
  done.
Qed.

(** The words of the captured frame, in slot order. *)
Definition captured_words (c : irq_convention) (s : cpu) : list Z :=
  (regs s <$> spill) ++
  [regs (irq_entry c s) rsp + 24; rip s; cs s; rflags s; PREEMPT_MAGIC].

Lemma stash_words c s t a i x :
  resumable c (mem t) a s → regs t rsp = a → regs (irq_entry c s) rsp = a + 120 →
  cpu_ok s → 0 ≤ a → a + 144 ≤ regs s rsp → stash_srcs !! i = Some x →
  captured_words c s !! i = Some (wrap64 (stash_val x t)).
Proof.
  intros [(H1 & H2 & H3 & _) Hsp] Ha Hs0 (Hr & Hrip & Hcs & _ & Hfl & _) H0 Hlim Hi.
  pose proof (Hr rsp) as [_ ?].
  assert (i < 20)%nat as Hlt by (by apply lookup_lt_Some in Hi).
  destruct (decide (i < 15)%nat) as [Hlo|Hge].
  - assert (x = SrcMem (112 - 8 * Z.of_nat i)) as ->.
    { do 15 (destruct i; [by injection Hi as <-|]). lia. }
    destruct (lookup_lt_is_Some_2 spill i Hlo) as [r Hir].
    unfold captured_words. rewrite lookup_app_l by (by rewrite length_fmap).
    rewrite list_lookup_fmap, Hir. simpl. f_equal.
    replace (regs t rsp + (112 - 8 * Z.of_nat i)) with (a + 112 - 8 * Z.of_nat i) by lia.
    rewrite (Hsp i r Hir). by rewrite wrap64_id.
  - assert (i = 15 ∨ i = 16 ∨ i = 17 ∨ i = 18 ∨ i = 19)%nat as [->|[->|[->|[->| ->]]]] by lia;
      injection Hi as <-; unfold captured_words; rewrite Hs0; cbn -[wrap64];
      rewrite ?Ha; f_equal.
    + rewrite wrap64_id by ulia. lia.
    + rewrite H1. by rewrite wrap64_id.
    + replace (a + 128) with (a + 120 + 8) by lia. rewrite H2. by rewrite wrap64_id.
    + replace (a + 136) with (a + 120 + 16) by lia. rewrite H3. by rewrite wrap64_id.
Qed.

Lemma slot_code_spec t idx :
  regs t rax = Z.of_nat idx → (idx < MAX_TASKS)%nat →
  let t' := exec_list (slot_code L) t in
  regs t' rdi = slot_addr L idx ∧ regs t' rsp = regs t rsp ∧ scratch t t' ∧ mem t' = mem t.
Proof.
  intros Hrax Hidx t'. unfold MAX_TASKS in Hidx.
  destruct (area_range 3 _ _ eq_refl) as (Hlo & _ & Hhi).
  unfold FRAME_STRIDE, MAX_TASKS in Hhi.
  subst t'. unfold slot_code, exec_list. cbn [fold_left exec1].
  set (t1 := set_reg t rax (regs t rax * FRAME_STRIDE)).
  assert (regs t1 rax = FRAME_STRIDE * Z.of_nat idx) as E1.
  { unfold t1. rewrite regs_set_same, Hrax. unfold FRAME_STRIDE. rewrite wrap64_id; ulia. }
  set (t2 := set_reg t1 rdi (frames L)).
  assert (regs t2 rdi = frames L) as E2
    by (unfold t2; rewrite regs_set_same; apply wrap64_id; ulia).
  assert (regs t2 rax = regs t1 rax) as E3 by (unfold t2; by rewrite regs_set_other).
  split_and!.
  - rewrite regs_set_same, E2, E3, E1. apply wrap64_id. unfold slot_addr, FRAME_STRIDE. ulia.
  - unfold t2, t1. by rewrite !regs_set_other.
  - etrans; [apply (scratch_set_reg t rax); reg_in|].
    etrans; [apply (scratch_set_reg _ rdi); reg_in|]. apply scratch_set_reg. reg_in.
  - unfold t2, t1. by rewrite !mem_set_reg.
Qed.

(** The sources lie in the stack window, away from the table. *)
Lemma stash_sources t a idx :
  regs t rsp = a → (idx < MAX_TASKS)%nat → sp - stack_need ≤ a → a + 144 ≤ sp →
  Forall (src_apart (slot_addr L idx) (slot_addr L idx + FRAME_STRIDE) t) stash_srcs.
Proof.
  intros Ha Hidx Hlo Hhi. unfold MAX_TASKS in Hidx.
  destruct (area_range 7 _ _ eq_refl) as (H0 & _ & Hlim).
  pose proof (pairwise_lookup _ 3 7 _ _ _ _ Hap eq_refl eq_refl ltac:(done)) as Hd.
  unfold slot_addr, FRAME_STRIDE, MAX_TASKS, stack_need in *.
  unfold stash_srcs. rewrite !Forall_cons. split_and!; simpl; rewrite ?Ha; auto; lia.
Qed.

Lemma yank_spec c t s a idx :
  regs t rax = Z.of_nat idx → (idx < MAX_TASKS)%nat → regs t rsp = a →
  resumable c (mem t) a s → regs (irq_entry c s) rsp = a + 120 → cpu_ok s →
  regs s rsp = sp → sp - stack_need ≤ a → a + 144 ≤ sp →
  let t' := exec_list (yank_code L) t in
  let st := set_switches (statics_at L bounds (mem t))
              (wrap64 (load 8 (mem t) (switches L) + 1)) in
  scratch t t' ∧ resumable c (mem t') a s ∧
  statics_at L bounds (mem t') =
    with_frames st (<[idx := captured c s]> (TASK_FRAMES st)) (SLOT_USED st) ∧
  (∀ x, ¬ in_areas (areas L sp eoi) x → mem t' x = mem t x).
Proof.
  intros Hrax Hidx Ha Hres Hs0 Hok Hsp Hlo Hhi t' st.
  destruct (area_range 7 _ _ eq_refl) as (Hstk & _ & _).
  destruct (area_range 6 (switches L) 8 eq_refl) as (Hsw & _ & Hsw').
  set (m1 := store 8 (mem t) (switches L) (load 8 (mem t) (switches L) + 1)).
  assert (same_outside (switches L) (switches L + 8) (mem t) m1) as Ho1
    by (by apply (store_same_outside 8)).
  set (t1 := set_mem t m1).
  destruct (slot_code_spec t1 idx) as (Rdi & Rsp & Sc & M2); [done..|].
  set (t2 := exec_list (slot_code L) t1) in *.
  assert (t' = exec_list (stash_code 0 stash_srcs) t2) as Et'.
  { unfold t', yank_code, t2, t1, m1, exec_list. cbn [fold_left exec1].
    apply fold_left_app. }
  clearbody t'. subst t'.
  unfold t1 in M2, Rsp. rewrite mem_set_mem in M2. rewrite regs_set_mem, Ha in Rsp.
  assert (scratch t t2) as Sc2 by (etrans; [apply scratch_set_mem|exact Sc]).
  clearbody t2. clear Sc.
  assert (resumable c (mem t2) a s) as Hres2.
  { rewrite M2. by apply (resumable_kept c a s 6 (switches L) 8 (mem t)). }
  pose proof (stash_sources t2 a idx Rsp Hidx Hlo Hhi) as Hsrc.
  destruct (area_range 3 _ _ eq_refl) as (Hf0 & _ & Hf1).
  assert (0 ≤ slot_addr L idx ∧ frames L ≤ slot_addr L idx ∧
    slot_addr L idx + FRAME_STRIDE ≤ frames L + FRAME_STRIDE * Z.of_nat MAX_TASKS)
    as (Hd0 & Hd1 & Hd2) by (unfold slot_addr, FRAME_STRIDE, MAX_TASKS in *; lia).
  destruct (exec_stash stash_srcs 0 (slot_addr L idx + FRAME_STRIDE) t2)
    as (Hreg & (_ & _ & Hss & _) & Hout & Hld); rewrite ?Rdi in *;
    [done|done|done|lia|done|].
  set (t' := exec_list _ t2) in *. clearbody t'. rewrite Z.mul_0_r, Z.add_0_r in Hout.
  change (8 * (0 + Z.of_nat (length stash_srcs))) with FRAME_STRIDE in Hout.
  split_and!.
  - etrans; [exact Sc2|]. split; [|done]. intros r Hr. apply Hreg.
    intros ->. apply Hr. reg_in.
  - eapply (resumable_kept c a s 3); [reflexivity|done| |done..|exact Hres2].
    eapply same_outside_mono; [exact Hout|lia|lia].
  - rewrite (statics_slot idx (mem t2) (mem t') Hidx Hout). subst st.
    rewrite M2. unfold m1. rewrite statics_switches. cbn zeta.
    assert (frame_at (mem t') (slot_addr L idx) = captured c s) as ->; [|done].
    apply frame_at_words. intros i v Hi.
    change (captured_words c s !! i = Some v) in Hi.
    assert (i < 20)%nat as Hlt by (by apply lookup_lt_Some in Hi).
    destruct (lookup_lt_is_Some_2 stash_srcs i Hlt) as [x Hx].
    rewrite (stash_words c s t2 a i x) in Hi by (done || lia).
    injection Hi as <-. by apply Hld.
  - intros x Hx. rewrite Hout, M2, Ho1; [done|..]; intros Hin; apply Hx.
    + by apply (in_areas_lookup _ 6 (switches L) 8).
    + apply (in_areas_lookup _ 3 (frames L) (FRAME_STRIDE * Z.of_nat MAX_TASKS)); [done|lia].
Qed.

(** Delivery, the spill and the tick. *)
Lemma stub_entry_spec c s :
  cpu_ok s → regs s rsp = sp →
  let st := statics_at L bounds (mem s) in
  ∃ t a, run c None (lapic_preempt_stub L) (irq_entry c s) =
      run c None (gate_code L ++ yank_code L ++ Label 2 :: eoi_code L ++ restore_code) t ∧
    regs t rsp = a ∧ sp - stack_need ≤ a ∧ a + 144 ≤ sp ∧
    regs (irq_entry c s) rsp = a + 120 ∧ ss t = ss s ∧ resumable c (mem t) a s ∧
    statics_at L bounds (mem t) = set_ticks st (wrap64 (APIC_TICKS st + 1)) ∧
    (∀ x, ¬ in_areas (areas L sp eoi) x → mem t x = mem s x).
Proof.
  intros Hok Hsp st. pose proof Hok as (Hr & _). pose proof (Hr rsp) as [_ Hlim].
  destruct (area_range 7 _ _ eq_refl) as (Hstk & _ & _).
  destruct (area_range 5 (apic_ticks L) 8 eq_refl) as (Ht0 & _ & Ht1).
  destruct (irq_entry_spec c s) as (A1 & A2 & A3 & A4 & A5 & A6); [done|lia|].
  rewrite Hsp in *. set (s0 := irq_entry c s) in *. clearbody s0.
  unfold stack_need in *.
  destruct (exec_pushes spill s0) as (B1 & B2 & (_ & _ & B3 & _) & B4 & B5).
  { reg_in. } { change (length spill) with 15%nat. ulia. }
  change (8 * Z.of_nat (length spill)) with 120 in *.
  rewrite stub_split, run_straight, run_straight by done.
  set (s1 := exec_list (Push <$> spill) s0) in *. clearbody s1.
  rewrite exec_lock_inc. set (m := store 8 (mem s1) _ _). set (t := set_mem s1 m).
  assert (same_outside (sp - stack_need) (sp - stack_need + stack_need) (mem s) (mem s1)) as Ho.
  { unfold stack_need. etrans; eapply same_outside_mono; [exact A5|lia|lia|exact B4|lia|lia]. }
  assert (statics_at L bounds (mem s1) = st) as Hs1 by (by apply (statics_kept 7 _ _ _ _ eq_refl)).
  exists t, (regs s0 rsp - 120). assert (mem t = m) as Hm by apply mem_set_mem.
  assert (regs t = regs s1) as Hrt by apply regs_set_mem.
  assert (ss t = ss s1) as Hsst by apply ss_set_mem. clearbody t.
  rewrite Hm, Hrt. split_and!; try lia; try congruence; try reflexivity.
  - apply (resumable_kept c _ s 5 (apic_ticks L) 8 (mem s1)); try done; try lia.
    { by apply (store_same_outside 8). }
    { unfold stack_need. lia. }
    split.
    + replace (regs s0 rsp - 120 + 120) with (regs s0 rsp) by lia.
      destruct A6 as (H1 & H2 & H3 & H4). unfold hw_frame.
      rewrite !(load_outside 8 (regs s0 rsp - 120) (regs s0 rsp) (mem s0) (mem s1)) by (done || lia).
      split_and!; try done. destruct c; [done|]. destruct H4 as (H4 & H5 & H6).
      by rewrite !(load_outside 8 (regs s0 rsp - 120) (regs s0 rsp) (mem s0) (mem s1))
        by (done || lia).
    + intros i r Hi. assert (r ≠ rsp) by (intros ->; by do 15 (destruct i; [done|])).
      rewrite <- (A3 r), <- (wrap64_id (regs s0 r)) by (done || by rewrite A3).
      rewrite <- (B5 i r Hi). f_equal. lia.
  - unfold m. rewrite statics_ticks, Hs1. do 2 f_equal.
    by rewrite <- Hs1.
  - intros x Hx. unfold m.
    rewrite (store_same_outside 8 (mem s1)); [|done|lia|].
    + apply Ho. intros Hin. apply Hx. by apply (in_areas_lookup _ 7 (sp - stack_need) stack_need).
    + intros Hin. apply Hx. by apply (in_areas_lookup _ 5 (apic_ticks L) 8).
Qed.

(** From label 2 on, when nothing but the scratch state moved so far. *)
Lemma gate_yank_spec c t s a rest :
  regs t rsp = a → resumable c (mem t) a s → regs (irq_entry c s) rsp = a + 120 →
  cpu_ok s → regs s rsp = sp → sp - stack_need ≤ a → a + 144 ≤ sp →
  0 ≤ load 1 (mem t) (cur_idx L) < 256 → 0 ≤ load 1 (mem t) (slot_used L) < 256 →
  let st := statics_at L bounds (mem t) in
  ∃ t', run c None (gate_code L ++ yank_code L ++ Label 2 :: rest) t = run c None rest t' ∧
    scratch t t' ∧ resumable c (mem t') a s ∧
    set_ticks (stub_effect (captured c s) st) (APIC_TICKS st) = statics_at L bounds (mem t') ∧
    (∀ x, ¬ in_areas (areas L sp eoi) x → mem t' x = mem t x).
Proof.
  intros Ha Hres Hs0 Hok Hsp Hlo Hhi Hc Hu st.
  destruct (gate_spec c L t (yank_code L ++ Label 2 :: rest)) as (t1 & E & M1 & S1 & R1);
    [done..|].
  change (yanks_mem L (mem t)) with (yanks st) in *. rewrite E.
  assert (regs t1 rsp = a) as Ha1 by (rewrite (proj1 S1 rsp); [done|reg_in]).
  unfold stub_effect. destruct (yanks st) eqn:Hy.
  - specialize (R1 eq_refl).
    assert (load 1 (mem t) (cur_idx L) < Z.of_nat MAX_TASKS) as Hidx.
    { unfold yanks in Hy. bool_to_prop. done. }
    change (Z.of_nat MAX_TASKS) with 7 in Hidx.
    set (idx := Z.to_nat (load 1 (mem t) (cur_idx L))).
    destruct (yank_spec c t1 s a idx) as (S2 & Hres2 & Hst2 & Hk2); try done;
      [unfold idx; lia|unfold idx, MAX_TASKS; lia|by rewrite M1|].
    rewrite run_straight by done. set (t2 := exec_list (yank_code L) t1) in *.
    clearbody t2. exists t2. rewrite M1 in Hst2, Hk2.
    split_and!; [done|by etrans|done| |done].
    rewrite Hst2. done.
  - exists t1. rewrite M1. by split_and!.
Qed.

End statics.

(** ** The refinement *)

(** Delivery, stub and [iretq] as one step. *)
Lemma stub_refines c L bounds s :
  let sp := regs s rsp in
  let st := statics_at L bounds (mem s) in
  cpu_ok s → pairwise_apart (areas L sp (EOI_BASE st)) →
  ∃ s', run c None (lapic_preempt_stub L) (irq_entry c s) = Some s' ∧
    (∀ r, regs s' r = regs s r) ∧ same_control s s' ∧
    statics_at L bounds (mem s') = stub_effect (captured c s) st ∧
    (EOI_BASE st ≠ 0 → load 4 (mem s') (EOI_BASE st) = 0) ∧
    (∀ x, ¬ in_areas (areas L sp (EOI_BASE st)) x → mem s' x = mem s x).
Proof.
  intros sp st Hok Hap. set (eoi := EOI_BASE st) in *.
  pose proof Hok as (_ & _ & _ & _ & _ & Hb).
  destruct (area_range L sp eoi Hap 7 _ _ eq_refl) as (Hstk & _ & _).
  destruct (stub_entry_spec L sp eoi Hap bounds c s)
    as (t & a & E & Ha & Hlo & Hhi & Hs0 & Hss & Hres & Hst & Hk); [done..|]. rewrite E. clear E.
  set (st1 := statics_at L bounds (mem t)) in *.
  assert (load 1 (mem t) (cur_idx L) = CURRENT_IDX st ∧ load 1 (mem t) (slot_used L) = SLOT_USED st)
    as [Ec Eu] by (split; [change (CURRENT_IDX st1 = CURRENT_IDX st)|change (SLOT_USED st1 = SLOT_USED st)]; by rewrite Hst).
  destruct (gate_yank_spec L sp eoi Hap bounds c t s a (eoi_code L ++ restore_code))
    as (t2 & E & S2 & Hres2 & Hst2 & Hk2); try done.
  { rewrite Ec. apply (load_bytes 1), Hb. } { rewrite Eu. apply (load_bytes 1), Hb. }
  rewrite E. clear E. fold st1 in Hst2. rewrite Hst in Hst2.
  assert (stub_effect (captured c s) st = statics_at L bounds (mem t2)) as Heff
    by (rewrite <- Hst2; done).
  assert (load 8 (mem t2) (eoi_base L) = eoi) as Heoi.
  { change (EOI_BASE (statics_at L bounds (mem t2)) = eoi). by rewrite <- Heff. }
  destruct (tail_spec L sp eoi Hap c t2 s a) as (s' & E & HR & HC & HM); try done.
  { by rewrite (proj1 S2 rsp) by reg_in. } { by rewrite (proj2 S2). }
  { apply (load_bytes 8), Hb. }
  exists s'. rewrite HM, Heff. split_and!; try done.
  - destruct (eoi =? 0) eqn:E0; [done|]. apply Z.eqb_neq in E0.
    pose proof (area_eoi L sp eoi E0) as A8. destruct (area_range L sp eoi Hap 8 _ _ A8) as (? & _ & ?).
    apply (statics_kept L sp eoi Hap bounds 8 eoi 4); [done|lia|]. by apply (store_same_outside 4).
  - intros E0. rewrite (proj2 (Z.eqb_neq eoi 0) E0).
    destruct (area_range L sp eoi Hap 8 _ _ (area_eoi L sp eoi E0)) as (? & _ & ?).
    by rewrite (load_store_same 4).
  - intros x Hx. rewrite <- Hk, <- Hk2 by done.
    destruct (eoi =? 0) eqn:E0; [done|]. apply Z.eqb_neq in E0.
    pose proof (area_eoi L sp eoi E0) as A8. destruct (area_range L sp eoi Hap 8 _ _ A8) as (? & _ & ?).
    apply (store_same_outside 4); [done..|]. intros Hin. apply Hx.
    by eapply in_areas_lookup.
Qed.

(** C2.  One timer interrupt, from delivery through the stub to [iretq], under
    either hardware frame format: the stub terminates; every general register,
    rip, cs, ss and rflags are restored exactly; the static table changes by
    [stub_effect] (the tick counter always advances; the exact interrupted frame
    is stashed and the switch counter advances iff the fence is up and the
    current index names an occupied slot); the EOI register is written iff its
    address is published; and no other byte of memory changes but the dead stack
    below the interrupted stack pointer. *)
Theorem lapic_preempt_stub_refines c L bounds s :
  let sp := regs s rsp in
  let st := statics_at L bounds (mem s) in
  cpu_ok s → pairwise_apart (areas L sp (EOI_BASE st)) →
  ∃ s', run c None (lapic_preempt_stub L) (irq_entry c s) = Some s' ∧
    (∀ r, regs s' r = regs s r) ∧ same_control s s' ∧
    statics_at L bounds (mem s') = stub_effect (captured c s) st ∧
    (EOI_BASE st ≠ 0 → load 4 (mem s') (EOI_BASE st) = 0) ∧
    (∀ x, ¬ in_areas (areas L sp (EOI_BASE st)) x → mem s' x = mem s x).
Proof. exact (stub_refines c L bounds s). Qed.

(** The frame that a yank leaves in the table, as memory holds it. *)
Lemma stashed_frame f L bounds m m' :
  let st := statics_at L bounds m in
  (∀ x, 0 ≤ m x < 256) → yanks st = true → statics_at L bounds m' = stub_effect f st →
  frame_at m' (slot_addr L (Z.to_nat (CURRENT_IDX st))) = f.
Proof.
  intros st Hb Hy E. apply (f_equal TASK_FRAMES) in E. cbn [TASK_FRAMES stub_effect] in E.
  rewrite Hy in E. unfold yanks in Hy. apply andb_true_iff in Hy as [Hy _].
  apply andb_true_iff in Hy as [_ Hc]. apply Z.ltb_lt in Hc.
  pose proof (load_bytes 1 m (cur_idx L) Hb) as Hl. change (load 1 m (cur_idx L)) with (CURRENT_IDX st) in Hl.
  set (i := Z.to_nat (CURRENT_IDX st)) in *. assert (i < MAX_TASKS)%nat as Hi by lia.
  apply (f_equal (λ l, l !! i)) in E. cbv beta in E.
  rewrite list_lookup_insert_eq in E
    by (unfold st, statics_at; cbn [TASK_FRAMES]; by rewrite length_fmap, length_seq).
  change (TASK_FRAMES (statics_at L bounds m'))
    with ((λ i, frame_at m' (slot_addr L i)) <$> seq 0 MAX_TASKS) in E.
  rewrite list_lookup_fmap, lookup_seq_lt in E by done. by injection E.
Qed.

Lemma captured_rsp c s :
  cpu_ok s → stack_need ≤ regs s rsp →
  f_rsp (captured c s) =
    match c with ThreeWords => regs s rsp | FiveWords => regs s rsp - regs s rsp `mod` 16 - 16 end.
Proof.
  intros Hok Hsp. destruct c; cbn [captured f_rsp].
  - destruct (irq_entry_spec ThreeWords s Hok Hsp) as (_ & _ & _ & _ & _ & (_ & _ & _ & H3)). lia.
  - rewrite irq_entry_five; [lia|apply Hok|done].
Qed.

(** C38.  After the stub has run for an interrupt that yanks a task, the word at
    offset 0x78 of the current slot in memory, [FullFrame.rsp], is the
    interrupted stack pointer when the processor pushes three words; with the
    five-word frame of 64-bit mode it is the aligned stack pointer less 16,
    which is never the stack pointer that the task resumes with.  The word after
    it is the interrupted instruction pointer in either case. *)
Theorem stashed_rsp c L bounds s :
  let sp := regs s rsp in
  let st := statics_at L bounds (mem s) in
  let slot := slot_addr L (Z.to_nat (CURRENT_IDX st)) in
  cpu_ok s → pairwise_apart (areas L sp (EOI_BASE st)) → yanks st = true →
  ∃ s', run c None (lapic_preempt_stub L) (irq_entry c s) = Some s' ∧ regs s' rsp = sp ∧
    load 8 (mem s') (slot + 0x78) =
      match c with ThreeWords => sp | FiveWords => sp - sp `mod` 16 - 16 end ∧
    (c = FiveWords → load 8 (mem s') (slot + 0x78) ≠ regs s' rsp) ∧
    load 8 (mem s') (slot + 0x80) = rip s.
Proof.
  intros sp st slot Hok Hap Hy. destruct (stub_refines c L bounds s Hok Hap) as (s' & E & HR & _ & Hst & _).
  apply stashed_frame in Hst; [|apply Hok|done].
  destruct (area_range L sp (EOI_BASE st) Hap 7 _ _ eq_refl) as (Hstk & _ & _).
  pose proof (captured_rsp c s Hok ltac:(unfold stack_need in *; lia)) as Hc. rewrite <- Hst in Hc.
  apply (f_equal f_rip) in Hst. cbn [frame_at f_rsp f_rip captured] in Hc, Hst.
  exists s'. split_and!; [done|apply HR|exact Hc| |exact Hst].
  intros ->. assert (load 8 (mem s') (slot + 0x78) = sp - sp `mod` 16 - 16) as -> by exact Hc.
  rewrite HR. fold sp. pose proof (Z.mod_pos_bound sp 16 ltac:(lia)). lia.
Qed.

(** ** Witness: a yank of slot 2 under the five-word frame *)

Definition demo_mem : memory := λ x,
  if x =? 0x100 then 1 else if x =? 0x101 then 2 else if x =? 0x102 then 4
  else if x =? 0x801 then 0xB0 else 0.
Definition demo_layout : Layout := mkLayout 0x100 0x101 0x102 0x200 0x800 0x810 0x820.
Definition demo_cpu : cpu :=
  mkCpu (λ r, if decide (r = rsp) then 0x9005 else 77) 0x1234 8 16 0x202 demo_mem.

Lemma demo_cpu_ok : cpu_ok demo_cpu.
Proof.
  split_and!; try done.
  - intros []; by vm_compute.
  - intros a. unfold demo_cpu, demo_mem. cbn [mem]. by repeat case_match.
Qed.

Lemma demo_apart :
  pairwise_apart (areas demo_layout (regs demo_cpu rsp)
    (EOI_BASE (statics_at demo_layout [] (mem demo_cpu)))).
Proof.
  change (EOI_BASE _) with 0xB000. change (regs demo_cpu rsp) with 0x9005.
  cbn. rewrite !Forall_cons, !Forall_nil. unfold FRAME_STRIDE, MAX_TASKS, stack_need, u64_lim. lia.
Qed.

Lemma lapic_preempt_stub_refines_witness :
  ∃ s', run FiveWords None (lapic_preempt_stub demo_layout) (irq_entry FiveWords demo_cpu)
          = Some s' ∧
    statics_at demo_layout [] (mem s') =
      stub_effect (captured FiveWords demo_cpu) (statics_at demo_layout [] demo_mem) ∧
    yanks (statics_at demo_layout [] demo_mem) = true.
Proof.
  destruct (lapic_preempt_stub_refines FiveWords demo_layout [] demo_cpu)
    as (s' & E & _ & _ & Hst & _).
  - exact demo_cpu_ok.
  - exact demo_apart.
  - exists s'. split; [exact E|]. split; [exact Hst|by vm_compute].
Defined.

Lemma stashed_rsp_witness :
  ∃ s', run FiveWords None (lapic_preempt_stub demo_layout) (irq_entry FiveWords demo_cpu)
          = Some s' ∧ regs s' rsp = 0x9005 ∧ load 8 (mem s') (slot_addr demo_layout 2 + 0x78) = 0x8FF0.
Proof.
  destruct (stashed_rsp FiveWords demo_layout [] demo_cpu) as (s' & E & Hr & H & _).
  - exact demo_cpu_ok.
  - exact demo_apart.
  - by vm_compute.
  - exists s'. split; [exact E|]. split; [exact Hr|exact H].
Defined.

End Stub.
