(* ===== verification/PreemptTable.v ===== *)
(** * The slot table of the preempter

    What [valid_for] decides, and the invariant of the slot table under every
    operation of [preempt.rs] interleaved with timer interrupts (through the
    effect [Stub.stub_effect] that the stub was proved to have): a slot whose
    occupancy bit is clear holds the invalid template.  First with each operation
    as one step, the view the schedulers use, and then store by store, with
    interrupts between and inside the stores of one operation. *)
From S2P Require Import Prelude Machine Preempt PreemptStub.

#[local] Open Scope Z_scope.

Module Table.
Import Preempt Stub.

(** ** Frame validation *)

Lemma canonical_test z :
  u64 z →
  (let sign := Z.land (Z.shiftr z 47) 1 in
   negb ((sign =? 0) && negb (Z.shiftr z 48 =? 0)) &&
   negb ((sign =? 1) && negb (Z.shiftr z 48 =? 0xFFFF))) = true ↔ canonical z.
Proof.
  intros [H0 H1]. unfold u64_lim in *. cbn zeta.
  rewrite (Z.land_ones (Z.shiftr z 47) 1 ltac:(lia) : Z.land (Z.shiftr z 47) 1 = _).
  rewrite !Z.shiftr_div_pow2 by lia. unfold canonical, u64_lim.
  assert (z `div` 2 ^ 47 = 2 * (z `div` 2 ^ 48) + (z `div` 2 ^ 47) `mod` 2 ^ 1) as E.
  { replace (z `div` 2 ^ 48) with ((z `div` 2 ^ 47) `div` 2 ^ 1)
      by (rewrite Z.div_div by lia; done).
    apply Z.div_mod. done. }
  pose proof (Z.mod_pos_bound (z `div` 2 ^ 47) (2 ^ 1) ltac:(lia)) as Hm.
  pose proof (Z.div_mod z (2 ^ 47) ltac:(lia)) as Hd.
  pose proof (Z.mod_pos_bound z (2 ^ 47) ltac:(lia)) as Hr.
  set (q := z `div` 2 ^ 47) in *. set (s := q `mod` 2 ^ 1) in *.
  set (h := z `div` 2 ^ 48) in *.
  destruct (s =? 0) eqn:E0; destruct (h =? 0) eqn:E1; destruct (s =? 1) eqn:E2;
    destruct (h =? 0xFFFF) eqn:E3; simpl; bool_to_prop; split; intros; try done; lia.
Qed.

Lemma valid_for_bools f bottom tp :
  valid_for f bottom tp =
    (f_magic f =? PREEMPT_MAGIC) && (bottom <=? f_rsp f) && (f_rsp f <=? tp) &&
    (let sign := Z.land (Z.shiftr (f_rsp f) 47) 1 in
     negb ((sign =? 0) && negb (Z.shiftr (f_rsp f) 48 =? 0)) &&
     negb ((sign =? 1) && negb (Z.shiftr (f_rsp f) 48 =? 0xFFFF))).
Proof.
  unfold valid_for. rewrite (Z.leb_antisym (f_rsp f) bottom), (Z.leb_antisym tp).
  destruct (f_magic f =? PREEMPT_MAGIC), (f_rsp f <? bottom), (tp <? f_rsp f);
    cbn [negb andb orb]; try reflexivity.
  cbn zeta. do 2 match goal with
    | |- (if ?b then _ else _) = _ => destruct b; [by rewrite ?andb_false_r|] end.
  reflexivity.
Qed.

(** [valid_for] accepts exactly the frames that carry the magic word and a
    canonical stack pointer inside the inclusive window. *)
Theorem valid_for_iff f bottom tp :
  u64 (f_rsp f) →
  valid_for f bottom tp = true ↔
  f_magic f = PREEMPT_MAGIC ∧ bottom ≤ f_rsp f ≤ tp ∧ canonical (f_rsp f).
Proof.
  intros Hu. rewrite <- (canonical_test _ Hu), valid_for_bools.
  rewrite !(andb_true_iff (_ && _)), (andb_true_iff (_ =? _)), Z.eqb_eq, !Z.leb_le.
  tauto.
Qed.

Lemma fresh_valid p entry cs tp bottom :
  tp `mod` 16 = 0 → bottom + 8 ≤ tp → 0 ≤ bottom → tp < u64_lim → canonical (tp - 8) →
  ∃ f, fresh p entry cs tp = Ret f ∧ f_rsp f = tp - 8 ∧ f_rip f = entry ∧
    valid_for f bottom tp = true.
Proof.
  intros H1 H2 H3 H4 H5. unfold fresh. rewrite H1, sub64_exact by ulia.
  cbn [assert_ Z.eqb]. rewrite !bind_Ret. eexists; split_and!; [done..|].
  rewrite valid_for_bools. cbn [f_magic f_rsp]. rewrite Z.eqb_refl.
  rewrite (proj2 (Z.leb_le bottom (tp - 8))), (proj2 (Z.leb_le (tp - 8) tp)) by lia.
  apply canonical_test; [ulia|done].
Qed.

(** ** The occupancy bitmap, by computation over its 128 values and 7 slots *)

Definition bit_of (u : Z) (i : nat) : bool :=
  negb (Z.land u (Z.shiftl 1 (Z.of_nat i)) =? 0).
Definition set_bit (u : Z) (i : nat) : Z := Z.lor u (Z.shiftl 1 (Z.of_nat i)).
Definition clear_bit (u : Z) (i : nat) : Z := Z.land u (255 - Z.shiftl 1 (Z.of_nat i)).

Definition in_bitmap (u : Z) : bool := (0 <=? u) && (u <? 128).

Definition bitmap_facts (u : Z) (i j : nat) : bool :=
  in_bitmap (set_bit u i) && in_bitmap (clear_bit u i) &&
  eqb (bit_of (set_bit u i) j) ((i =? j)%nat || bit_of u j) &&
  eqb (bit_of (clear_bit u i) j) (negb (i =? j)%nat && bit_of u j) &&
  (bit_of u i || (clear_bit (set_bit u i) i =? u)) &&
  eqb (Z.testbit u (Z.of_nat j)) (bit_of u j).

Lemma bitmap_checked :
  forallb (λ u, forallb (λ i, forallb (λ j, bitmap_facts (Z.of_nat u) i j)
    (seq 0 MAX_TASKS)) (seq 0 MAX_TASKS)) (seq 0 128) = true.
Proof. by vm_compute. Qed.

Lemma bitmap_spec u i j :
  in_bitmap u = true → (i < MAX_TASKS)%nat → (j < MAX_TASKS)%nat →
  bitmap_facts u i j = true.
Proof.
  intros Hu Hi Hj. unfold in_bitmap in Hu. bool_to_prop.
  pose proof bitmap_checked as Hc. rewrite forallb_forall in Hc.
  specialize (Hc (Z.to_nat u)). rewrite forallb_forall in Hc.
  rewrite <- (Z2Nat.id u) by lia.
  pose proof (Hc ltac:(apply in_seq; lia) i ltac:(apply in_seq; lia)) as Hc'.
  rewrite forallb_forall in Hc'. apply Hc', in_seq. lia.
Qed.

Lemma bitmap_set u i j :
  in_bitmap u = true → (i < MAX_TASKS)%nat → (j < MAX_TASKS)%nat →
  in_bitmap (set_bit u i) = true ∧ bit_of (set_bit u i) j = ((i =? j)%nat || bit_of u j).
Proof.
  intros. pose proof (bitmap_spec u i j) as H2. unfold bitmap_facts in H2.
  rewrite !andb_true_iff, !eqb_true_iff in H2. by destruct H2 as (((((? & _) & ?) & _) & _) & _).
Qed.

Lemma bitmap_clear u i j :
  in_bitmap u = true → (i < MAX_TASKS)%nat → (j < MAX_TASKS)%nat →
  in_bitmap (clear_bit u i) = true ∧
  bit_of (clear_bit u i) j = (negb (i =? j)%nat && bit_of u j).
Proof.
  intros. pose proof (bitmap_spec u i j) as H2. unfold bitmap_facts in H2.
  rewrite !andb_true_iff, !eqb_true_iff in H2. by destruct H2 as (((((_ & ?) & _) & ?) & _) & _).
Qed.

Lemma bitmap_set_clear u i :
  in_bitmap u = true → (i < MAX_TASKS)%nat → bit_of u i = false →
  clear_bit (set_bit u i) i = u.
Proof.
  intros ? ? Hb. pose proof (bitmap_spec u i i) as H2. unfold bitmap_facts in H2.
  rewrite Hb, !andb_true_iff in H2. destruct H2 as ((_ & H3) & _); [done..|].
  by apply Z.eqb_eq.
Qed.

Lemma bitmap_testbit u j :
  in_bitmap u = true → (j < MAX_TASKS)%nat → Z.testbit u (Z.of_nat j) = bit_of u j.
Proof.
  intros. pose proof (bitmap_spec u j j) as H2. unfold bitmap_facts in H2.
  rewrite !andb_true_iff, !eqb_true_iff in H2. by destruct H2 as (_ & ?).
Qed.

(** ** The table invariant *)

Record table_wf (st : Statics) : Prop := {
  tw_frames : length (TASK_FRAMES st) = MAX_TASKS;
  tw_bounds : length (SLOT_BOUNDS st) = MAX_TASKS;
  tw_used : in_bitmap (SLOT_USED st) = true;
  tw_current : 0 ≤ CURRENT_IDX st < 256;
  tw_free : ∀ i, (i < MAX_TASKS)%nat → slot_bit st i = false → TASK_FRAMES st !! i = Some ZERO
}.

(** Everything that happens to the table: the driver's calls that return, and a
    timer interrupt with any frame. *)
Inductive table_step (st : Statics) : Statics → Prop :=
| step_register idx f st' : register_task idx f st = Ret st' → table_step st st'
| step_bounds idx b t st' : set_slot_bounds idx b t st = Ret st' → table_step st st'
| step_unregister idx st' : unregister_task idx st = Ret st' → table_step st st'
| step_current idx : table_step st (set_current idx st)
| step_fence on : table_step st (set_preemptible on st)
| step_eoi a : table_step st (set_eoi_base a st)
| step_timer f : table_step st (stub_effect f st).

Definition table_reachable : Statics → Prop := rtc table_step statics_init.

Lemma register_task_inv idx f st st' :
  register_task idx f st = Ret st' →
  (idx < MAX_TASKS)%nat ∧ slot_bit st idx = false ∧
  st' = with_frames st (<[idx := f]> (TASK_FRAMES st)) (set_bit (SLOT_USED st) idx).
Proof.
  unfold register_task, register_checks, assert_. destruct (idx <? MAX_TASKS)%nat eqn:E1; [|done].
  destruct (slot_bit st idx) eqn:E2; [done|]. cbn. intros [= <-].
  by apply Nat.ltb_lt in E1.
Qed.

Lemma unregister_task_inv idx st st' :
  unregister_task idx st = Ret st' →
  (idx < MAX_TASKS)%nat ∧ slot_bit st idx = true ∧
  st' = with_frames st (<[idx := ZERO]> (TASK_FRAMES st)) (clear_bit (SLOT_USED st) idx).
Proof.
  unfold unregister_task, release_checks, assert_. destruct (idx <? MAX_TASKS)%nat eqn:E1; [|done].
  destruct (slot_bit st idx) eqn:E2; [|done]. cbn. intros [= <-].
  by apply Nat.ltb_lt in E1.
Qed.

Lemma set_slot_bounds_inv idx b t st st' :
  set_slot_bounds idx b t st = Ret st' →
  (idx < MAX_TASKS)%nat ∧ b < t ∧ SLOT_BOUNDS st' = <[idx := (b, t)]> (SLOT_BOUNDS st) ∧
  TASK_FRAMES st' = TASK_FRAMES st ∧ SLOT_USED st' = SLOT_USED st ∧
  CURRENT_IDX st' = CURRENT_IDX st.
Proof.
  unfold set_slot_bounds, assert_. destruct (idx <? MAX_TASKS)%nat eqn:E1; [|done].
  destruct (b <? t) eqn:E2; [|done]. cbn. intros [= <-].
  apply Nat.ltb_lt in E1. apply Z.ltb_lt in E2. done.
Qed.

(** A yank goes to an occupied slot. *)
Lemma yanks_occupied st :
  table_wf st → yanks st = true →
  (Z.to_nat (CURRENT_IDX st) < MAX_TASKS)%nat ∧ slot_bit st (Z.to_nat (CURRENT_IDX st)) = true.
Proof.
  intros [_ _ Hu Hc _] Hy. unfold yanks in Hy. bool_to_prop.
  assert (Z.to_nat (CURRENT_IDX st) < MAX_TASKS)%nat as Hi by (unfold MAX_TASKS in *; lia).
  split; [done|]. change (bit_of (SLOT_USED st) (Z.to_nat (CURRENT_IDX st)) = true).
  rewrite <- bitmap_testbit, Z2Nat.id by (done || lia). done.
Qed.

Lemma table_step_wf st st' : table_step st st' → table_wf st → table_wf st'.
Proof.
  intros Hstep Hwf. pose proof Hwf as [Hf Hb Hu Hc Hfree].
  destruct Hstep as [idx f st' H|idx b t st' H|idx st' H|idx|on|a|f]; try by constructor.
  - apply register_task_inv in H as (Hi & Hn & ->). constructor; cbn; try done.
    + by rewrite length_insert.
    + by apply (bitmap_set _ idx idx).
    + intros i Hlt Hbit. destruct (bitmap_set (SLOT_USED st) idx i) as [_ Hs]; [done..|].
      change (bit_of (set_bit (SLOT_USED st) idx) i = false) in Hbit. rewrite Hs in Hbit.
      apply orb_false_iff in Hbit as [Hne Hbit]. apply Nat.eqb_neq in Hne.
      rewrite list_lookup_insert_ne by done. by apply Hfree.
  - apply set_slot_bounds_inv in H as (Hi & _ & E1 & E2 & E3 & E4).
    constructor; rewrite ?E1, ?E2, ?E3, ?E4; try done.
    + by rewrite length_insert.
    + intros i Hlt Hbit. apply Hfree; [done|]. unfold slot_bit in *. by rewrite E3 in Hbit.
  - apply unregister_task_inv in H as (Hi & Hn & ->). constructor; cbn; try done.
    + by rewrite length_insert.
    + by apply (bitmap_clear _ idx idx).
    + intros i Hlt Hbit. destruct (decide (i = idx)) as [->|Hne].
      { apply list_lookup_insert_eq. by rewrite Hf. }
      destruct (bitmap_clear (SLOT_USED st) idx i) as [_ Hs]; [done..|].
      change (bit_of (clear_bit (SLOT_USED st) idx) i = false) in Hbit. rewrite Hs in Hbit.
      rewrite (proj2 (Nat.eqb_neq idx i)) in Hbit by done.
      rewrite list_lookup_insert_ne by done. by apply Hfree.
  - constructor; try done. cbn. apply Z.mod_pos_bound. lia.
  - constructor; cbn; try done; destruct (yanks st) eqn:Hy; try done.
    + by rewrite length_insert.
    + intros i Hlt Hbit. destruct (yanks_occupied st Hwf Hy) as [_ Ho].
      rewrite list_lookup_insert_ne; [by apply Hfree|].
      intros Heq. subst i.
      change (slot_bit st (Z.to_nat (CURRENT_IDX st)) = false) in Hbit. congruence.
Qed.

Lemma table_reachable_wf st : table_reachable st → table_wf st.
Proof.
  revert st. apply rtc_ind_r.
  - constructor; try done. intros i Hi _.
    by do 7 (destruct i; [done|]); unfold MAX_TASKS in Hi; lia.
  - intros st st' _ Hstep. by apply table_step_wf.
Qed.

(** What the table answers for a slot outside it or holding the template. *)
Lemma empty_slot_answers st idx :
  ((idx < MAX_TASKS)%nat → TASK_FRAMES st !! idx = Some ZERO) →
  frame_ok idx st = Ret false ∧ ((idx < MAX_TASKS)%nat → snapshot idx st = Ret ZERO).
Proof.
  intros Hz. assert ((idx < MAX_TASKS)%nat → snapshot idx st = Ret ZERO) as Hsnap.
  { intros Hi. unfold snapshot. by rewrite (proj2 (Nat.ltb_lt _ _) Hi), Hz. }
  split; [|done]. unfold frame_ok, slot_bounds.
  destruct (MAX_TASKS <=? idx)%nat eqn:E; [done|]. apply Nat.leb_gt in E.
  destruct (SLOT_BOUNDS st !! idx) as [[b t]|]; [|done].
  destruct (negb _); [|done]. by rewrite Hsnap.
Qed.

(** ** The table store by store *)

(** Where the driver is: between two calls, or inside [register_task] or
    [unregister_task] after its asserts, with the frame store still to come
    ([written = false]) or done and the bitmap update to come. *)
Inductive Phase :=
| Idle
| Registering (idx : nat) (f : FullFrame) (written : bool)
| Releasing (idx : nat) (written : bool).

(** One store of the driver, or a timer interrupt at any point.  The two table
    calls are made with the fence down, as [preempt.rs] requires (the schedulers
    raise it inside a step only: [wl_fence] of their invariant); the store of
    a frame is twenty words long and may be interrupted with any of them
    written, so that the slot holds anything. *)
Inductive store_step : Statics * Phase → Statics * Phase → Prop :=
| ss_bounds st idx b t st' :
    set_slot_bounds idx b t st = Ret st' → store_step (st, Idle) (st', Idle)
| ss_current st idx : store_step (st, Idle) (set_current idx st, Idle)
| ss_fence st on : store_step (st, Idle) (set_preemptible on st, Idle)
| ss_eoi st a : store_step (st, Idle) (set_eoi_base a st, Idle)
| ss_register st idx f :
    PREEMPTIBLE st = 0 → register_checks idx st = Ret () →
    store_step (st, Idle) (st, Registering idx f false)
| ss_register_part st idx f g :
    store_step (st, Registering idx f false) (put_frame idx g st, Registering idx f false)
| ss_register_frame st idx f :
    store_step (st, Registering idx f false) (put_frame idx f st, Registering idx f true)
| ss_register_bit st idx f :
    store_step (st, Registering idx f true) (mark_used idx st, Idle)
| ss_release st idx :
    PREEMPTIBLE st = 0 → release_checks idx st = Ret () →
    store_step (st, Idle) (st, Releasing idx false)
| ss_release_part st idx g :
    store_step (st, Releasing idx false) (put_frame idx g st, Releasing idx false)
| ss_release_frame st idx :
    store_step (st, Releasing idx false) (put_frame idx ZERO st, Releasing idx true)
| ss_release_bit st idx :
    store_step (st, Releasing idx true) (mark_free idx st, Idle)
| ss_timer st ph f : store_step (st, ph) (stub_effect f st, ph).

Definition store_reachable : Statics * Phase → Prop := rtc store_step (statics_init, Idle).

(** A call that has begun is the state before it with the slot's frame
    overwritten: ticks under the lowered fence do not touch the table. *)
Definition begun (st : Statics) (idx : nat) (w : bool) (f : FullFrame)
    (checks : Statics → outcome unit) : Prop :=
  ∃ st0 g, table_reachable st0 ∧ PREEMPTIBLE st0 = 0 ∧ checks st0 = Ret () ∧
    st = put_frame idx g st0 ∧ (w = true → g = f).

Definition store_inv (x : Statics * Phase) : Prop :=
  match x.2 with
  | Idle => table_reachable x.1
  | Registering idx f w => begun x.1 idx w f (register_checks idx)
  | Releasing idx w => begun x.1 idx w ZERO (release_checks idx)
  end.

Lemma put_frame_same st idx :
  table_reachable st → (idx < MAX_TASKS)%nat → ∃ g, put_frame idx g st = st.
Proof.
  intros Hr Hi. apply table_reachable_wf in Hr as [Hf _ _ _ _].
  destruct (lookup_lt_is_Some_2 (TASK_FRAMES st) idx) as [g Hg]; [by rewrite Hf|].
  exists g. unfold put_frame. rewrite list_insert_id by done. by destruct st.
Qed.

Lemma put_frame_put idx f g st : put_frame idx f (put_frame idx g st) = put_frame idx f st.
Proof. unfold put_frame. cbn. by rewrite list_insert_insert_eq. Qed.

Lemma put_frame_tick idx f g st :
  PREEMPTIBLE st = 0 →
  stub_effect f (put_frame idx g st) = put_frame idx g (stub_effect f st).
Proof.
  intros Hp. unfold stub_effect, yanks, put_frame, with_frames. cbn. by rewrite Hp.
Qed.

Lemma checks_tick checks f st :
  (∃ idx, checks = register_checks idx ∨ checks = release_checks idx) →
  checks st = Ret () → checks (stub_effect f st) = Ret ().
Proof. by intros (idx & [-> | ->]). Qed.

Lemma begun_begin st idx f checks :
  table_reachable st → PREEMPTIBLE st = 0 → checks st = Ret () → (idx < MAX_TASKS)%nat →
  begun st idx false f checks.
Proof.
  intros Hr Hp Hc Hi. destruct (put_frame_same st idx Hr Hi) as [g E].
  exists st, g. by rewrite E.
Qed.

Lemma begun_write st idx w w' f g checks :
  begun st idx w f checks → (w' = true → g = f) → begun (put_frame idx g st) idx w' f checks.
Proof.
  intros (st0 & g0 & ? & ? & ? & -> & _) Hg. exists st0, g. by rewrite put_frame_put.
Qed.

Lemma begun_tick st idx w f checks fr :
  (∃ i, checks = register_checks i ∨ checks = release_checks i) →
  begun st idx w f checks → begun (stub_effect fr st) idx w f checks.
Proof.
  intros Hk (st0 & g & Hr & Hp & Hc & -> & Hg). exists (stub_effect fr st0), g.
  split_and!; [|done|by apply checks_tick|by rewrite put_frame_tick|done].
  eapply rtc_r; [done|apply step_timer].
Qed.

Lemma checks_lt idx st :
  register_checks idx st = Ret () ∨ release_checks idx st = Ret () → (idx < MAX_TASKS)%nat.
Proof.
  unfold register_checks, release_checks, assert_. intros H. apply Nat.ltb_lt.
  destruct (idx <? MAX_TASKS)%nat; [done|]. by destruct H.
Qed.

Lemma store_step_inv x y : store_step x y → store_inv x → store_inv y.
Proof.
  intros Hstep. destruct Hstep; unfold store_inv; cbn [fst snd]; intros Hx.
  - eapply rtc_r; [done|by eapply step_bounds].
  - eapply rtc_r; [done|apply step_current].
  - eapply rtc_r; [done|apply step_fence].
  - eapply rtc_r; [done|apply step_eoi].
  - apply begun_begin; eauto using checks_lt.
  - by eapply begun_write.
  - by eapply begun_write.
  - destruct Hx as (st0 & g & Hr & _ & Hc & -> & Hg). rewrite Hg by done.
    eapply rtc_r; [done|]. apply (step_register _ idx f). unfold register_task. by rewrite Hc.
  - apply begun_begin; eauto using checks_lt.
  - by eapply begun_write.
  - by eapply begun_write.
  - destruct Hx as (st0 & g & Hr & _ & Hc & -> & Hg). rewrite Hg by done.
    eapply rtc_r; [done|]. apply (step_unregister _ idx). unfold unregister_task. by rewrite Hc.
  - destruct ph; [eapply rtc_r; [done|apply step_timer]|eapply begun_tick; eauto..].
Qed.

Lemma store_reachable_inv x : store_reachable x → store_inv x.
Proof.
  revert x. apply rtc_ind_r; [constructor|]. intros x y _ Hs. by apply store_step_inv.
Qed.

(** A slot other than the one of a call in progress is as before the call. *)
Lemma begun_free st i w f checks idx :
  begun st i w f checks → idx ≠ i → (idx < MAX_TASKS)%nat → slot_bit st idx = false →
  TASK_FRAMES st !! idx = Some ZERO.
Proof.
  intros (st0 & g & Hr & _ & _ & -> & _) Hne Hi Hb. cbn.
  rewrite list_lookup_insert_ne by done.
  by apply (tw_free _ (table_reachable_wf st0 Hr)).
Qed.

Lemma store_free st ph idx :
  store_reachable (st, ph) → (∀ f w, ph ≠ Registering idx f w) →
  (idx < MAX_TASKS)%nat → slot_bit st idx = false → TASK_FRAMES st !! idx = Some ZERO.
Proof.
  intros Hr Hph Hi Hb. apply store_reachable_inv in Hr. destruct ph as [|i f w|i w]; cbn in Hr.
  - by apply (tw_free _ (table_reachable_wf st Hr)).
  - eapply begun_free; [done| |done|done]. intros ->. by destruct (Hph f w).
  - eapply begun_free; [done| |done|done]. intros ->.
    destruct Hr as (st0 & g & _ & _ & Hc & -> & _).
    unfold release_checks in Hc. destruct (i <? MAX_TASKS)%nat; [|done].
    cbn in Hc. change (slot_bit (put_frame i g st0) i) with (slot_bit st0 i) in Hb.
    by rewrite Hb in Hc.
Qed.

(** C15.  Register and release are two stores each, the frame and then the
    occupancy bit, made with the fence down, and timer interrupts land
    anywhere, between the two and inside the frame store included.  In every
    state so reached a slot that is not occupied holds the invalid template
    and never validates, unless it is the one being registered, and then the
    fence is down and no tick stashes anything; an index past the table is
    refused.  Between two calls the table is one that the calls reach when
    each of them is a single step. *)
Theorem free_slot_never_validates st ph :
  store_reachable (st, ph) →
  (∀ idx, ((MAX_TASKS ≤ idx)%nat ∨ slot_bit st idx = false) → (∀ f w, ph ≠ Registering idx f w) →
    frame_ok idx st = Ret false ∧ ((idx < MAX_TASKS)%nat → snapshot idx st = Ret ZERO)) ∧
  (ph ≠ Idle → ∀ f, TASK_FRAMES (stub_effect f st) = TASK_FRAMES st) ∧
  (ph = Idle → table_reachable st).
Proof.
  intros Hr. split_and!.
  - intros idx Hfree Hph. apply empty_slot_answers. intros Hi.
    apply (store_free st ph idx Hr Hph Hi). destruct Hfree; [lia|done].
  - intros Hne f. apply store_reachable_inv in Hr. unfold stub_effect, yanks. cbn.
    unfold store_inv in Hr. cbn [fst snd] in Hr.
    destruct ph; [done|destruct Hr as (st0 & g & _ & Hp & _ & -> & _); cbn; by rewrite Hp..].
  - intros ->. exact (store_reachable_inv _ Hr).
Qed.

(** Registering a task in a free slot and releasing it restores the whole
    static state. *)
Theorem register_unregister_roundtrip st idx f :
  table_reachable st → (idx < MAX_TASKS)%nat → slot_bit st idx = false →
  ∃ st1, register_task idx f st = Ret st1 ∧ slot_bit st1 idx = true ∧
    snapshot idx st1 = Ret f ∧ unregister_task idx st1 = Ret st.
Proof.
  intros Hr Hi Hb. apply table_reachable_wf in Hr as [Hf _ Hu _ Hz].
  destruct (bitmap_set (SLOT_USED st) idx idx) as [_ Hs]; [done..|].
  rewrite Nat.eqb_refl in Hs. cbn [orb] in Hs.
  eexists. split_and!.
  - unfold register_task, register_checks. by rewrite (proj2 (Nat.ltb_lt _ _) Hi), Hb.
  - exact Hs.
  - unfold snapshot. rewrite (proj2 (Nat.ltb_lt _ _) Hi). cbn -[MAX_TASKS].
    by rewrite list_lookup_insert_eq by (by rewrite Hf).
  - unfold unregister_task, release_checks. rewrite (proj2 (Nat.ltb_lt _ _) Hi).
    change (slot_bit (mark_used _ _) idx) with (bit_of (set_bit (SLOT_USED st) idx) idx).
    rewrite Hs. cbn [assert_]. rewrite !bind_Ret. unfold mark_free, mark_used, put_frame, with_frames.
    cbn [TASK_FRAMES SLOT_USED PREEMPTIBLE SLOT_BOUNDS PREEMPT_SWITCHES CURRENT_IDX EOI_BASE
         APIC_TICKS].
    rewrite list_insert_insert_eq, (list_insert_id (TASK_FRAMES st)) by (by apply Hz).
    change (Z.land (Z.lor _ _) _) with (clear_bit (set_bit (SLOT_USED st) idx) idx).
    rewrite bitmap_set_clear by done. by destruct st.
Qed.

(** Releasing a slot leaves its recorded stack window in place:
    [slot_bounds] still reports the freed task's stack. *)
Theorem released_slot_keeps_bounds idx b t st0 st st' :
  set_slot_bounds idx b t st0 = Ret st → b ≠ 0 → length (SLOT_BOUNDS st0) = MAX_TASKS →
  unregister_task idx st = Ret st' → slot_bounds idx st' = Some (b, t).
Proof.
  intros Hset Hb Hlen Hun.
  apply set_slot_bounds_inv in Hset as (Hi & _ & E & _).
  apply unregister_task_inv in Hun as (_ & _ & ->).
  unfold slot_bounds. cbn [with_frames SLOT_BOUNDS].
  rewrite (proj2 (Nat.leb_gt _ _) Hi), E, list_lookup_insert_eq by (by rewrite Hlen).
  cbn. by rewrite (proj2 (Z.eqb_neq b 0) Hb).
Qed.

(** ** Witnesses *)

(** Slot 0 registered with its window, the fence up, one yank, slot released. *)
Definition demo_frame : FullFrame :=
  mkFrame 1 2 3 4 5 6 7 8 9 10 11 12 13 14 15 0x8FF8 0x1234 8 0x202 PREEMPT_MAGIC.

Lemma valid_for_iff_witness : valid_for demo_frame 0x7000 0x9000 = true.
Proof.
  apply valid_for_iff; [by vm_compute|].
  split_and!; [done|by vm_compute|by vm_compute|left; by vm_compute].
Defined.

Definition demo_st1 : Statics :=
  with_frames statics_init (demo_frame :: replicate 6 ZERO) 1.
Definition demo_st2 : Statics :=
  mkStatics 0 (demo_frame :: replicate 6 ZERO) ((0x7000, 0x9000) :: replicate 6 (0, 0)) 0 7 1 0 0.
Definition demo_st3 : Statics :=
  mkStatics 0 (replicate 7 ZERO) ((0x7000, 0x9000) :: replicate 6 (0, 0)) 0 7 0 0 0.

Lemma demo_st3_reachable : table_reachable demo_st3.
Proof.
  apply rtc_l with demo_st1; [by apply (step_register _ 0 demo_frame)|].
  apply rtc_l with demo_st2; [by apply (step_bounds _ 0 0x7000 0x9000)|].
  apply rtc_once. by apply (step_unregister _ 0).
Qed.

(** Slot 0 released, then interrupted half-way through registering slot 1. *)
Definition demo_half : Statics := stub_effect ZERO (put_frame 1 demo_frame demo_st3).

Lemma demo_half_reachable : store_reachable (demo_half, Registering 1 demo_frame true).
Proof.
  eapply rtc_l; [by apply (ss_register _ 0 demo_frame)|].
  eapply rtc_l; [apply ss_register_frame|]. eapply rtc_l; [apply ss_register_bit|].
  eapply rtc_l; [by apply (ss_bounds _ 0 0x7000 0x9000 demo_st2)|].
  eapply rtc_l; [by apply (ss_release _ 0)|].
  eapply rtc_l; [apply ss_release_frame|]. eapply rtc_l; [apply ss_release_bit|].
  eapply rtc_l; [by apply (ss_register demo_st3 1 demo_frame)|].
  eapply rtc_l; [apply ss_register_frame|]. apply rtc_once, ss_timer.
Qed.

Lemma free_slot_never_validates_witness :
  frame_ok 0 demo_half = Ret false ∧ snapshot 0 demo_half = Ret ZERO.
Proof.
  destruct (free_slot_never_validates demo_half _ demo_half_reachable) as [Hf _].
  destruct (Hf 0%nat) as [H1 H2]; [by right|done|].
  split; [exact H1|]. apply H2. unfold MAX_TASKS. lia.
Defined.

Lemma register_unregister_roundtrip_witness :
  ∃ st1, register_task 3 demo_frame demo_st3 = Ret st1 ∧
    unregister_task 3 st1 = Ret demo_st3.
Proof.
  destruct (register_unregister_roundtrip demo_st3 3 demo_frame) as (st1 & H1 & _ & _ & H2);
    [exact demo_st3_reachable|unfold MAX_TASKS; lia|done|].
  by exists st1.
Defined.

Lemma released_slot_keeps_bounds_witness :
  slot_bit demo_st3 0 = false ∧ slot_bounds 0 demo_st3 = Some (0x7000, 0x9000).
Proof.
  split; [done|].
  by apply (released_slot_keeps_bounds 0 0x7000 0x9000 demo_st1 demo_st2 demo_st3).
Defined.

End Table.
