(* ===== verification/Task.v ===== *)
(** * Tasks, their stacks and the switch into a task

    [task.rs] up to the scheduler trait.  A [Box<Task>] is an address into the
    store [boxes]; the queue of a scheduler holds such addresses, and the slot
    table [TASK_PTRS] holds a second copy of them, through which the trampoline
    finds the task it runs on.  Dereferencing an address that has been dropped
    is a panic of the model, so the theorems that rule out panics rule it out.

    One switch into a task runs one iteration of the trampoline loop: the naked
    code around it was treated in ContextSwitch and PreemptStub, whose results
    enter here as the bootstrap entry stack pointer and as [Stub.stub_effect] for
    each timer interrupt. *)
From stdpp Require Import gmap.
From S2P Require Import Prelude Machine ContextSwitch Preempt PreemptStub PreemptTable.

#[local] Open Scope Z_scope.

Module Tasks.
Import Preempt Stub Switch.

(** ** Constants *)

(** [parse_stack_bytes], a [const fn] over the build-time string. *)
Definition parse_stack_bytes (s : list Z) : outcome Z :=
  parse_digits "stack_size must be digits" s 0.

(** [KERNEL_CONFIG_STACK_SIZE_BYTES] for the shipped [stack_size = 128K]. *)
Definition STACK_SIZE_BYTES : Z := 131072.
Definition STACK_CANARY : Z := 0xDEADBEEFCAFEF00D.
Definition STACK_ALIGN : Z := 16.
Definition STACK_ALLOC_BYTES : Z := STACK_SIZE_BYTES + STACK_ALIGN.
Definition CFS_DEFAULT_WEIGHT : Z := 1024.
Definition CFS_BASE_SLICE : Z := 100.

(** ** Data *)

Record TaskStack := mkStack {
  backing : Z;     (* start of the owned allocation *)
  stack_top : Z;
  stack_bottom : Z
}.

Inductive TaskState :=
| Ready
| Running
| Sleeping (until_tick : Z)
| Finished.

#[export] Instance TaskState_eq_dec : EqDecision TaskState.
Proof. solve_decision. Defined.

(** [step]: the verdict of the [k]-th call of the closure. *)
Record Task := mkTask {
  id : Z;
  name : string;
  state : TaskState;
  runs : Z;
  vruntime : Z;
  weight : Z;
  stack : TaskStack;
  ctx : Context;
  preempt : FullFrame;
  slot : nat;
  step : Z → bool
}.

Definition set_state (t : Task) (s : TaskState) : Task :=
  mkTask (id t) (name t) s (runs t) (vruntime t) (weight t) (stack t) (ctx t)
    (preempt t) (slot t) (step t).
Definition set_runs (t : Task) (n : Z) : Task :=
  mkTask (id t) (name t) (state t) n (vruntime t) (weight t) (stack t) (ctx t)
    (preempt t) (slot t) (step t).
Definition set_vruntime (t : Task) (v : Z) : Task :=
  mkTask (id t) (name t) (state t) (runs t) v (weight t) (stack t) (ctx t)
    (preempt t) (slot t) (step t).
Definition set_weight (t : Task) (v : Z) : Task :=
  mkTask (id t) (name t) (state t) (runs t) (vruntime t) v (stack t) (ctx t)
    (preempt t) (slot t) (step t).
Definition set_ctx (t : Task) (c : Context) : Task :=
  mkTask (id t) (name t) (state t) (runs t) (vruntime t) (weight t) (stack t) c
    (preempt t) (slot t) (step t).

(** What the kernel's task code reads and writes outside the scheduler object. *)
Record World := mkWorld {
  statics : Statics;
  task_ptrs : list (option nat);    (* TASK_PTRS, null as None *)
  boxes : gmap nat Task;            (* live Box<Task>s by address *)
  next_box : nat;                   (* an address not handed out yet *)
  wmem : memory;
  rsp0 : Z;                         (* TSS.privilege_stack_table[0] *)
  entry_rsp : Z                     (* TRAMPOLINE_ENTRY_RSP *)
}.

Definition set_statics (w : World) (st : Statics) : World :=
  mkWorld st (task_ptrs w) (boxes w) (next_box w) (wmem w) (rsp0 w) (entry_rsp w).
Definition set_ptrs (w : World) (l : list (option nat)) : World :=
  mkWorld (statics w) l (boxes w) (next_box w) (wmem w) (rsp0 w) (entry_rsp w).
Definition set_boxes (w : World) (b : gmap nat Task) : World :=
  mkWorld (statics w) (task_ptrs w) b (next_box w) (wmem w) (rsp0 w) (entry_rsp w).
Definition set_wmem (w : World) (m : memory) : World :=
  mkWorld (statics w) (task_ptrs w) (boxes w) (next_box w) m (rsp0 w) (entry_rsp w).

Definition world_init : World :=
  mkWorld statics_init (replicate MAX_TASKS None) ∅ 1 (λ _, 0) 0 0.

(** Access through a box or a raw task pointer. *)
Definition deref (a : nat) (w : World) : outcome Task :=
  expect (boxes w !! a) "use of a dropped task".
Definition put (a : nat) (t : Task) (w : World) : World :=
  set_boxes w (<[a := t]> (boxes w)).

(** ** Stacks *)

(** [vec![0u8; STACK_ALLOC_BYTES]] at the address [raw] the allocator returned. *)
Definition zero_fill (raw n : Z) (m : memory) : memory :=
  λ x, if (raw <=? x) && (x <? raw + n) then 0 else m x.

Definition TaskStack_new (p : profile) (raw : Z) (m0 : memory)
    : outcome (TaskStack * memory) :=
  let m := zero_fill raw STACK_ALLOC_BYTES m0 in
  bottom ← next_multiple_of p raw STACK_ALIGN;
  top ← add64 p bottom STACK_SIZE_BYTES;
  _ ← assert_ (bottom `mod` STACK_ALIGN =? 0) "stack bottom misaligned after align-up";
  _ ← assert_ (top `mod` STACK_ALIGN =? 0)
        "stack top misaligned - size not a multiple of 16?";
  fin ← add64 p raw STACK_ALLOC_BYTES;
  _ ← assert_ (top <=? fin) "aligned stack window escaped its backing allocation";
  Ret (mkStack raw top bottom, store 8 m bottom STACK_CANARY).

Definition canary_ok (s : TaskStack) (m : memory) : bool :=
  load 8 m (stack_bottom s) =? STACK_CANARY.

(** ** Slots *)

Definition task_at (idx : nat) (w : World) : outcome (option nat) :=
  if (MAX_TASKS <=? idx)%nat then Ret None
  else Ret (default None (task_ptrs w !! idx)).

Definition set_task_ptr (idx : nat) (a : nat) (w : World) : outcome World :=
  _ ← assert_ (idx <? MAX_TASKS)%nat "slot overflow in TASK_PTRS";
  Ret (set_ptrs w (<[idx := Some a]> (task_ptrs w))).

Definition clear_task_ptr (idx : nat) (w : World) : World :=
  if (idx <? MAX_TASKS)%nat then set_ptrs w (<[idx := None]> (task_ptrs w)) else w.

Definition current_task (w : World) : outcome nat :=
  let idx := Z.to_nat (current_idx (statics w)) in
  o ← task_at idx w;
  expect o "trampoline on stack of unregistered slot".

Fixpoint first_free (used : Z) (idxs : list nat) : option nat :=
  match idxs with
  | [] => None
  | idx :: l =>
      if Z.land used (Z.shiftl 1 (Z.of_nat idx)) =? 0 then Some idx
      else first_free used l
  end.

Definition alloc_slot (st : Statics) : outcome nat :=
  expect (first_free (SLOT_USED st) (seq 0 MAX_TASKS)) "preempt: task table full".

(** ** Spawning *)
Section tasks.

(** [p]: the Cargo profile; [tramp]: the address of [task_trampoline];
    [cs_reg]: the kernel code selector. *)
Context (p : profile) (tramp cs_reg : Z).

(** The common body of [Task::new] and [Task::sleeping]. *)
Definition Task_make (st0 : TaskState) (raw task_id : Z) (nm : string) (f : Z → bool)
    (w : World) : outcome (Task * World) :=
  '(stk, m1) ← TaskStack_new p raw (wmem w);
  '(c, m2) ← init_task_context p tramp m1 (stack_top stk);
  fr ← fresh p tramp cs_reg (stack_top stk);
  _ ← assert_ (valid_for fr (stack_bottom stk) (stack_top stk))
        "fresh preempt frame failed its own validation";
  sl ← alloc_slot (statics w);
  st1 ← register_task sl fr (statics w);
  st2 ← set_slot_bounds sl (stack_bottom stk) (stack_top stk) st1;
  Ret (mkTask task_id nm st0 0 0 CFS_DEFAULT_WEIGHT stk c fr sl f,
       set_wmem (set_statics w st2) m2).

Definition Task_new (raw task_id : Z) (nm : string) (f : Z → bool) (w : World)
    : outcome (Task * World) := Task_make Ready raw task_id nm f w.

Definition Task_sleeping (raw task_id : Z) (nm : string) (until_tick : Z) (f : Z → bool)
    (w : World) : outcome (Task * World) :=
  Task_make (Sleeping until_tick) raw task_id nm f w.

Definition with_weight (t : Task) (wt : Z) : outcome Task :=
  _ ← assert_ (0 <? wt) "task weight must be > 0";
  Ret (set_weight t wt).

(** [Box::new(task)] at a fresh address. *)
Definition box_new (t : Task) (w : World) : nat * World :=
  (next_box w,
   mkWorld (statics w) (task_ptrs w) (<[next_box w := t]> (boxes w)) (S (next_box w))
     (wmem w) (rsp0 w) (entry_rsp w)).

Definition box_drop (a : nat) (w : World) : World := set_boxes w (delete a (boxes w)).

(** ** Running a step *)

(** What the world does while a step runs: the timer interrupts that arrive
    before the fence is up, during the step and after it is down again, what the
    step writes to memory, and the stack pointer at which it yields. *)
Record StepEnv := mkEnv {
  irq_before : list FullFrame;
  irq_during : list FullFrame;
  irq_after : list FullFrame;
  step_mem : memory → memory;
  yield_rsp : Z
}.

(** The environment may react to which task (box) is running. *)
Definition Env := nat → StepEnv.

Definition irqs (fs : list FullFrame) (st : Statics) : Statics :=
  fold_left (λ st f, stub_effect f st) fs st.

(** One iteration of the loop of [task_trampoline_body]. *)
Definition trampoline_iter (env : StepEnv) (w : World) : outcome World :=
  a ← current_task w;
  t ← deref a w;
  if negb (canary_ok (stack t) (wmem w)) then
    Panic "sched FAILED: stack overflow (canary trashed)"
  else
    let st1 := set_preemptible true (irqs (irq_before env) (statics w)) in
    let st2 := irqs (irq_during env) st1 in
    let alive := step t (runs t) in
    n ← add64 p (runs t) 1;
    let t1 := set_state (set_runs t n) (if alive then Ready else Finished) in
    let st3 := irqs (irq_after env) (set_preemptible false st2) in
    let w1 := set_wmem (set_statics w st3) (step_mem env (wmem w)) in
    Ret (put a (set_ctx t1 (mkContext (yield_rsp env))) w1).

Definition set_rsp0 `{VirtAddrs} (top : Z) (w : World) : outcome World :=
  v ← VirtAddr_new top;
  Ret (mkWorld (statics w) (task_ptrs w) (boxes w) (next_box w) (wmem w) v (entry_rsp w)).

(** The landing of [context_switch]: on the first switch the bootstrap frame
    enters through the shim, which records the stack pointer, and the parity
    assert of [task_trampoline_body]; later switches resume the loop. *)
Definition enter_task (t : Task) (w : World) : outcome World :=
  if runs t =? 0 then
    let e := ctx_rsp (ctx t) + 56 in
    let w1 := mkWorld (statics w) (task_ptrs w) (boxes w) (next_box w) (wmem w) (rsp0 w) e in
    _ ← assert_ (e `mod` 16 =? 8) "ABI violation: task entered with rsp%16 (must be 8)";
    Ret w1
  else Ret w.

Definition switch_to_task `{VirtAddrs} (env : StepEnv) (a : nat) (w : World) : outcome World :=
  t ← deref a w;
  let w1 := set_statics w (set_current (Z.of_nat (slot t)) (statics w)) in
  w2 ← set_rsp0 (stack_top (stack t)) w1;
  w3 ← enter_task t w2;
  w4 ← trampoline_iter env w3;
  Ret (set_statics w4 (set_current (Z.of_nat MAX_TASKS) (statics w4))).

End tasks.

End Tasks.
