(* ===== verification/Sched.v ===== *)
(** * The two schedulers

    [RoundRobin] and [Cfs] of [task.rs], as translations over the world of
    Task, the trait they implement as the class [Scheduler], and the invariant
    that ties queue, boxes, slot table and stacks together.  [run_task] and
    [finish_task] are the parts of [schedule_once] the two policies share. *)
From Stdlib Require Import Sorted.
From stdpp Require Import gmap.
From S2P Require Import Prelude Machine ContextSwitch Preempt PreemptStub PreemptTable Task.

#[local] Open Scope Z_scope.

Module Sched.
Import Preempt Stub Switch Table Tasks.

(** ** Translation *)

Definition entry := (Z * string * Z)%type.     (* (id, name, runs) *)

(** The queue and ledger state of both schedulers. *)
Record RoundRobin := mkRR {
  rr_ready : list nat;
  rr_finished : list entry;
  rr_next_id : Z
}.

Record Cfs := mkCfs {
  cfs_ready : list nat;
  cfs_finished : list entry;
  cfs_next_id : Z
}.

Definition RoundRobin_new : RoundRobin := mkRR [] [] 1.
Definition Cfs_new : Cfs := mkCfs [] [] 1.

(** [sort_by_key(id)]: stable insertion. *)
Fixpoint insert_entry (e : entry) (l : list entry) : list entry :=
  match l with
  | [] => [e]
  | x :: l' => if e.1.1 <? x.1.1 then e :: l else x :: insert_entry e l'
  end.
Definition sort_entries (l : list entry) : list entry := fold_left (λ acc e, insert_entry e acc) l [].

Definition entry_of (t : Task) : entry := (id t, name t, runs t).

Definition ledger_of (q : list nat) (fin : list entry) (w : World) : list entry :=
  sort_entries (omap (λ a, entry_of <$> boxes w !! a) q ++ fin).

Lemma insert_entry_perm e l : insert_entry e l ≡ₚ e :: l.
Proof.
  induction l as [|x l IH]; simpl; [done|].
  destruct (e.1.1 <? x.1.1); [done|]. rewrite IH. by constructor.
Qed.

Lemma insert_entry_sorted e l :
  Sorted (λ x y, x.1.1 ≤ y.1.1) l → Sorted (λ x y, x.1.1 ≤ y.1.1) (insert_entry e l).
Proof.
  induction 1 as [|x l Hs IH Hhd]; simpl; [by repeat constructor|].
  destruct (e.1.1 <? x.1.1) eqn:E; bool_to_prop.
  - repeat constructor; try done. lia.
  - constructor; [done|]. destruct Hhd as [|y l Hxy]; simpl; [constructor; lia|].
    destruct (e.1.1 <? y.1.1); by constructor.
Qed.

Lemma sort_entries_spec l :
  sort_entries l ≡ₚ l ∧ Sorted (λ x y, x.1.1 ≤ y.1.1) (sort_entries l).
Proof.
  assert (∀ acc, Sorted (λ x y : entry, x.1.1 ≤ y.1.1) acc →
    fold_left (λ acc e, insert_entry e acc) l acc ≡ₚ l ++ acc ∧
    Sorted (λ x y, x.1.1 ≤ y.1.1) (fold_left (λ acc e, insert_entry e acc) l acc)) as H.
  { induction l as [|e l IH]; intros acc Hs; simpl; [done|].
    destruct (IH (insert_entry e acc)) as [H1 H2]; [by apply insert_entry_sorted|].
    split; [|done]. rewrite H1, insert_entry_perm. solve_Permutation. }
  destruct (H []) as [H1 H2]; [constructor|]. rewrite app_nil_r in H1. done.
Qed.

(** A task is passed over while it sleeps and its tick has not come. *)
Definition asleep (now : Z) (t : Task) : bool :=
  match state t with Sleeping u => now <? u | _ => false end.

Section translation.
Context `{VirtAddrs} (p : profile).

(** From [task.state = Running] to the two asserts after the switch. *)
Definition run_task (env : Env) (a : nat) (w : World) : outcome World :=
  t ← deref a w;
  w1 ← switch_to_task p (env a) a (put a (set_state t Running) w);
  t1 ← deref a w1;
  _ ← assert_ (valid_for (preempt t1) (stack_bottom (stack t1)) (stack_top (stack t1)))
        "fresh preempt template trashed";
  ok ← frame_ok (slot t1) (statics w1);
  _ ← assert_ ok "IRQ-stashed frame invalid or unregistered";
  Ret w1.

(** Slot release of a finished task, and the drop of its box. *)
Definition finish_task (a : nat) (w : World) : outcome World :=
  t ← deref a w;
  let w1 := clear_task_ptr (slot t) w in
  st ← unregister_task (slot t) (statics w1);
  Ret (box_drop a (set_statics w1 st)).

Definition rr_spawn (s : RoundRobin) (t : Task) (w : World) : outcome (RoundRobin * World) :=
  let '(a, w1) := box_new t w in
  w2 ← set_task_ptr (slot t) a w1;
  Ret (mkRR (rr_ready s ++ [a]) (rr_finished s) (rr_next_id s), w2).

Definition rr_next (s : RoundRobin) : outcome (Z * RoundRobin) :=
  n ← add64 p (rr_next_id s) 1;
  Ret (rr_next_id s, mkRR (rr_ready s) (rr_finished s) n).

(** The popped task runs once and is requeued or retired. *)
Definition rr_run (env : Env) (q : list nat) (a : nat) (s : RoundRobin) (w : World)
    : outcome (bool * RoundRobin * World) :=
  w1 ← run_task env a w;
  t1 ← deref a w1;
  if decide (state t1 = Ready) then
    Ret (true, mkRR (q ++ [a]) (rr_finished s) (rr_next_id s), w1)
  else
    w2 ← finish_task a w1;
    Ret (true, mkRR q (rr_finished s ++ [entry_of t1]) (rr_next_id s), w2).

(** The [for _ in 0..len] pass.  The tick counter is that of the pass: timer
    interrupts land before the call or in the step that it runs, not between the
    sleep checks of two tasks, where the source loads the counter again. *)
Fixpoint rr_pass (env : Env) (n : nat) (s : RoundRobin) (w : World)
    : outcome (bool * RoundRobin * World) :=
  match n with
  | O => Ret (false, s, w)
  | S n' =>
      match rr_ready s with
      | [] => Ret (false, s, w)
      | a :: q =>
          t ← deref a w;
          match state t with
          | Sleeping until_tick =>
              if APIC_TICKS (statics w) <? until_tick then
                rr_pass env n' (mkRR (q ++ [a]) (rr_finished s) (rr_next_id s)) w
              else rr_run env q a s (put a (set_state t Ready) w)
          | _ => rr_run env q a s w
          end
      end
  end.

Definition rr_schedule_once (env : Env) (s : RoundRobin) (w : World)
    : outcome (bool * RoundRobin * World) :=
  rr_pass env (length (rr_ready s)) s w.

Definition rr_alive (s : RoundRobin) : nat := length (rr_ready s).
Definition rr_ledger (s : RoundRobin) (w : World) : list entry :=
  ledger_of (rr_ready s) (rr_finished s) w.

Definition cfs_spawn (s : Cfs) (t : Task) (w : World) : outcome (Cfs * World) :=
  _ ← assert_ (0 <? weight t) "cfs: refusing zero-weight task";
  let '(a, w1) := box_new t w in
  w2 ← set_task_ptr (slot t) a w1;
  Ret (mkCfs (cfs_ready s ++ [a]) (cfs_finished s) (cfs_next_id s), w2).

Definition cfs_next (s : Cfs) : outcome (Z * Cfs) :=
  n ← add64 p (cfs_next_id s) 1;
  Ret (cfs_next_id s, mkCfs (cfs_ready s) (cfs_finished s) n).

(** The scan of [pick_min]: [best] is the index and vruntime found so far. *)
Fixpoint pick_min_from (now : Z) (w : World) (i : nat) (q : list nat)
    (best : option (nat * Z)) : outcome (option (nat * Z)) :=
  match q with
  | [] => Ret best
  | a :: q' =>
      t ← deref a w;
      if asleep now t then pick_min_from now w (S i) q' best
      else
        let best' :=
          match best with
          | None => Some (i, vruntime t)
          | Some (_, v) => if vruntime t <? v then Some (i, vruntime t) else best
          end in
        pick_min_from now w (S i) q' best'
  end.
Definition pick_min (now : Z) (s : Cfs) (w : World) : outcome (option nat) :=
  best ← pick_min_from now w 0 (cfs_ready s) None;
  Ret (option_map fst best).

Definition min_vruntime (q : list nat) (w : World) : Z :=
  match omap (λ a, vruntime <$> boxes w !! a) q with
  | [] => 0
  | v :: vs => fold_left Z.min vs v
  end.

(** [VecDeque::remove]. *)
Definition remove_at (i : nat) (q : list nat) : option (nat * list nat) :=
  match q !! i with Some a => Some (a, delete i q) | None => None end.

(** The wake-up clamp of a picked sleeper. *)
Definition cfs_wake (q : list nat) (a : nat) (w : World) : outcome World :=
  t ← deref a w;
  match state t with
  | Sleeping _ =>
      let floor := min_vruntime q w in
      let t1 := if vruntime t <? floor then set_vruntime t floor else t in
      Ret (put a (set_state t1 Ready) w)
  | _ => Ret w
  end.

Definition cfs_slice (t : Task) : Z :=
  saturating_mul64 CFS_BASE_SLICE 1024 `div` Z.max (weight t) 1.

Definition cfs_schedule_once (env : Env) (s : Cfs) (w : World)
    : outcome (bool * Cfs * World) :=
  let now := APIC_TICKS (statics w) in
  picked ← pick_min now s w;
  match picked with
  | None => Ret (false, s, w)
  | Some idx =>
      '(a, q) ← expect (remove_at idx (cfs_ready s)) "cfs pick_min lied";
      w1 ← cfs_wake q a w;
      w2 ← run_task env a w1;
      t2 ← deref a w2;
      let t3 := set_vruntime t2 (saturating_add64 (vruntime t2) (cfs_slice t2)) in
      let w3 := put a t3 w2 in
      if decide (state t3 = Ready) then
        Ret (true, mkCfs (q ++ [a]) (cfs_finished s) (cfs_next_id s), w3)
      else
        w4 ← finish_task a w3;
        Ret (true, mkCfs q (cfs_finished s ++ [entry_of t3]) (cfs_next_id s), w4)
  end.

Definition cfs_alive (s : Cfs) : nat := length (cfs_ready s).
Definition cfs_ledger (s : Cfs) (w : World) : list entry :=
  ledger_of (cfs_ready s) (cfs_finished s) w.

End translation.

(** ** The trait *)

Class Scheduler (S : Type) := {
  spawn : S → Task → World → outcome (S * World);
  next_id : profile → S → outcome (Z * S);
  schedule_once : profile → Env → S → World → outcome (bool * S * World);
  alive : S → nat;
  ledger : S → World → list entry
}.

#[export] Instance RoundRobin_Scheduler `{VirtAddrs} : Scheduler RoundRobin := {
  spawn := rr_spawn; next_id := rr_next; schedule_once := rr_schedule_once;
  alive := rr_alive; ledger := rr_ledger
}.

#[export] Instance Cfs_Scheduler `{VirtAddrs} : Scheduler Cfs := {
  spawn := cfs_spawn; next_id := cfs_next; schedule_once := cfs_schedule_once;
  alive := cfs_alive; ledger := cfs_ledger
}.

(** ** The invariant *)

(** A live task and the structures that refer to it: its slot is occupied, the
    slot table points back at it, its recorded window is its stack, both saved
    frames validate, its canary stands and its first entry will have the right
    parity. *)
Record task_live (w : World) (a : nat) (t : Task) : Prop := {
  tl_slot : (slot t < MAX_TASKS)%nat;
  tl_bit : slot_bit (statics w) (slot t) = true;
  tl_ptr : task_ptrs w !! slot t = Some (Some a);
  tl_bounds : SLOT_BOUNDS (statics w) !! slot t =
    Some (stack_bottom (stack t), stack_top (stack t));
  tl_bottom : stack_bottom (stack t) ≠ 0;
  tl_fresh : valid_for (preempt t) (stack_bottom (stack t)) (stack_top (stack t)) = true;
  tl_frame : ∃ f, TASK_FRAMES (statics w) !! slot t = Some f ∧
    valid_for f (stack_bottom (stack t)) (stack_top (stack t)) = true;
  tl_canary : canary_ok (stack t) (wmem w) = true;
  tl_top : u64 (stack_top (stack t)) ∧ canonical (stack_top (stack t));
  tl_runs : 0 ≤ runs t;
  tl_entry : runs t = 0 → (ctx_rsp (ctx t) + 56) `mod` 16 = 8
}.

(** [q] lists the live boxes. *)
Record world_live (q : list nat) (w : World) : Prop := {
  wl_table : table_wf (statics w);
  wl_fence : PREEMPTIBLE (statics w) = 0;
  wl_ptrs : length (task_ptrs w) = MAX_TASKS;
  wl_nodup : NoDup q;
  wl_dom : ∀ a, a ∈ q ↔ is_Some (boxes w !! a);
  wl_tasks : ∀ a t, boxes w !! a = Some t → task_live w a t;
  wl_next : ∀ a, is_Some (boxes w !! a) → (a < next_box w)%nat;
  wl_slots : ∀ i, (i < MAX_TASKS)%nat → slot_bit (statics w) i = true →
    ∃ a t, boxes w !! a = Some t ∧ slot t = i;
  wl_null : ∀ i, (i < MAX_TASKS)%nat → slot_bit (statics w) i = false →
    task_ptrs w !! i = Some None
}.

#[export] Instance world_live_perm : Proper ((≡ₚ) ==> (=) ==> iff) world_live.
Proof.
  assert (∀ q q' w, q ≡ₚ q' → world_live q w → world_live q' w) as H.
  { intros q q' w Hq []. constructor; try done; [by rewrite <- Hq|].
    intros a. rewrite <- Hq. done. }
  intros q q' Hq w ? <-. split; by apply H.
Qed.

Lemma deref_Some a t w : boxes w !! a = Some t → deref a w = Ret t.
Proof. intros H. unfold deref. by rewrite H. Qed.

Lemma deref_put a t w : deref a (put a t w) = Ret t.
Proof. apply deref_Some, lookup_insert_eq. Qed.

(** Two live tasks have different slots. *)
Lemma live_slot_inj q w a b ta tb :
  world_live q w → boxes w !! a = Some ta → boxes w !! b = Some tb →
  slot ta = slot tb → a = b.
Proof.
  intros Hw Ha Hb Hs. apply (wl_tasks _ _ Hw) in Ha, Hb.
  pose proof (tl_ptr _ _ _ Ha) as P1. pose proof (tl_ptr _ _ _ Hb) as P2.
  rewrite Hs in P1. congruence.
Qed.

(** ** Timer interrupts and the fence *)

Lemma irqs_wf fs st : table_wf st → table_wf (irqs fs st).
Proof.
  revert st. induction fs as [|f fs IH]; intros st Hw; [done|].
  apply IH. eapply table_step_wf; [apply step_timer|done].
Qed.

(** Interrupts touch counters and, with the fence up, the current slot only. *)
Lemma irqs_fields fs st :
  SLOT_USED (irqs fs st) = SLOT_USED st ∧ SLOT_BOUNDS (irqs fs st) = SLOT_BOUNDS st ∧
  CURRENT_IDX (irqs fs st) = CURRENT_IDX st ∧ PREEMPTIBLE (irqs fs st) = PREEMPTIBLE st.
Proof.
  revert st. induction fs as [|f fs IH]; intros st; [done|].
  destruct (IH (stub_effect f st)) as (H1 & H2 & H3 & H4). cbn [irqs fold_left].
  change (fold_left _ fs (stub_effect f st)) with (irqs fs (stub_effect f st)).
  by rewrite H1, H2, H3, H4.
Qed.

Lemma yanks_irqs fs st : yanks (irqs fs st) = yanks st.
Proof.
  unfold yanks. destruct (irqs_fields fs st) as (-> & _ & -> & ->). done.
Qed.

Lemma irqs_frames fs st i f :
  TASK_FRAMES (irqs fs st) !! i = Some f →
  TASK_FRAMES st !! i = Some f ∨
  (f ∈ fs ∧ yanks st = true ∧ i = Z.to_nat (CURRENT_IDX st)).
Proof.
  revert st. induction fs as [|g fs IH]; intros st Hi; [by left|].
  destruct (IH (stub_effect g st) Hi) as [H|(H & Hy & Hc)].
  - cbn [stub_effect TASK_FRAMES] in H. destruct (yanks st) eqn:Hy; [|by left].
    destruct (decide (i = Z.to_nat (CURRENT_IDX st))) as [->|Hne].
    + right. apply list_lookup_insert_Some in H as [(_ & <- & _)|(? & _)]; [|done].
      split_and!; [by left|done..].
    + left. by rewrite list_lookup_insert_ne in H.
  - right. split_and!; [by right|exact Hy|exact Hc].
Qed.

End Sched.
