(* ===== verification/SchedRun.v ===== *)
(** * One step of a task, and its retirement

    The exact result of [run_task] and [finish_task] in a well-formed world,
    and the proof that both keep the world well-formed: no assert of the
    scheduler can fire and no dropped task is ever reached, as long as the
    running step stays inside its stack. *)
From stdpp Require Import gmap.
From S2P Require Import Prelude Machine ContextSwitch Preempt PreemptStub PreemptTable Task.
From S2P Require Import Sched.

#[local] Open Scope Z_scope.

Module SchedRun.
Import Preempt Stub Switch Table Tasks Sched.

Section virt.
Context `{VA : VirtAddrs}.

(** ** Running *)

(** The step of [t] behaves: frames captured while it runs have their stack
    pointer inside its stack, and it does not write over a live canary. *)
Definition env_ok (w : World) (t : Task) (e : StepEnv) : Prop :=
  Forall (λ f, valid_for f (stack_bottom (stack t)) (stack_top (stack t)) = true)
    (irq_during e) ∧
  ∀ b t', boxes w !! b = Some t' → canary_ok (stack t') (step_mem e (wmem w)) = true.

Definition after_step (e : StepEnv) (sl : nat) (st : Statics) : Statics :=
  set_current (Z.of_nat MAX_TASKS)
    (irqs (irq_after e) (set_preemptible false
      (irqs (irq_during e) (set_preemptible true
        (irqs (irq_before e) (set_current (Z.of_nat sl) st)))))).

Definition ran_task (e : StepEnv) (t : Task) : Task :=
  set_ctx (set_state (set_runs t (runs t + 1)) (if step t (runs t) then Ready else Finished))
    (mkContext (yield_rsp e)).

Definition ran (e : StepEnv) (a : nat) (t : Task) (w : World) : World :=
  mkWorld (after_step e (slot t) (statics w)) (task_ptrs w)
    (<[a := ran_task e t]> (boxes w)) (next_box w) (step_mem e (wmem w))
    (stack_top (stack t)) (if runs t =? 0 then ctx_rsp (ctx t) + 56 else entry_rsp w).

Lemma set_current_small idx st : (idx < 256)%nat → CURRENT_IDX (set_current (Z.of_nat idx) st) = Z.of_nat idx.
Proof. intros. cbn. apply Z.mod_small. lia. Qed.

Lemma after_step_fields e sl st :
  (sl < MAX_TASKS)%nat →
  SLOT_USED (after_step e sl st) = SLOT_USED st ∧
  SLOT_BOUNDS (after_step e sl st) = SLOT_BOUNDS st ∧
  PREEMPTIBLE (after_step e sl st) = 0.
Proof.
  intros Hsl. unfold after_step. cbn [set_current SLOT_USED SLOT_BOUNDS PREEMPTIBLE].
  destruct (irqs_fields (irq_after e) (set_preemptible false (irqs (irq_during e)
    (set_preemptible true (irqs (irq_before e) (set_current (Z.of_nat sl) st)))))) as (-> & -> & _ & ->).
  cbn [set_preemptible SLOT_USED SLOT_BOUNDS PREEMPTIBLE].
  destruct (irqs_fields (irq_during e) (set_preemptible true (irqs (irq_before e)
    (set_current (Z.of_nat sl) st)))) as (-> & -> & _).
  cbn [set_preemptible SLOT_USED SLOT_BOUNDS].
  destruct (irqs_fields (irq_before e) (set_current (Z.of_nat sl) st)) as (-> & -> & _).
  done.
Qed.

Lemma after_step_wf e sl st : table_wf st → table_wf (after_step e sl st).
Proof.
  intros H. unfold after_step.
  eapply table_step_wf; [apply step_current|]. apply irqs_wf.
  eapply table_step_wf; [apply step_fence|]. apply irqs_wf.
  eapply table_step_wf; [apply step_fence|]. apply irqs_wf.
  eapply table_step_wf; [apply step_current|done].
Qed.

(** Only the running task's slot can receive a frame, and only one captured
    during its step. *)
Lemma after_step_frames e sl st i f :
  (sl < MAX_TASKS)%nat → PREEMPTIBLE st = 0 →
  TASK_FRAMES (after_step e sl st) !! i = Some f →
  TASK_FRAMES st !! i = Some f ∨ (f ∈ irq_during e ∧ i = sl).
Proof.
  intros Hsl Hf. unfold after_step. cbn [set_current TASK_FRAMES]. intros H.
  apply irqs_frames in H as [H|(_ & Hy & _)]; [|done].
  cbn [set_preemptible TASK_FRAMES] in H.
  apply irqs_frames in H as [H|(Hin & _ & ->)].
  - cbn [set_preemptible TASK_FRAMES] in H.
    apply irqs_frames in H as [H|(_ & Hy & _)]; [by left|].
    unfold yanks in Hy. cbn [set_current PREEMPTIBLE] in Hy. by rewrite Hf in Hy.
  - right. split; [done|]. cbn [set_preemptible CURRENT_IDX].
    destruct (irqs_fields (irq_before e) (set_current (Z.of_nat sl) st)) as (_ & _ & -> & _).
    unfold MAX_TASKS in Hsl. rewrite set_current_small by lia. lia.
Qed.

Lemma after_step_length e sl st :
  table_wf st → length (TASK_FRAMES (after_step e sl st)) = MAX_TASKS.
Proof. intros H. apply (after_step_wf e sl), tw_frames in H. done. Qed.

Lemma trampoline_iter_spec p e w a t :
  CURRENT_IDX (statics w) = Z.of_nat (slot t) → (slot t < MAX_TASKS)%nat →
  task_ptrs w !! slot t = Some (Some a) → boxes w !! a = Some t →
  canary_ok (stack t) (wmem w) = true → 0 ≤ runs t → runs t + 1 < u64_lim →
  trampoline_iter p e w =
    Ret (put a (ran_task e t)
      (set_wmem (set_statics w
        (irqs (irq_after e) (set_preemptible false
          (irqs (irq_during e) (set_preemptible true (irqs (irq_before e) (statics w)))))))
        (step_mem e (wmem w)))).
Proof.
  intros Hc Hsl Hp Ha Hcan Hr0 Hr. unfold trampoline_iter, current_task, task_at, current_idx.
  rewrite Hc, Nat2Z.id, (proj2 (Nat.leb_gt _ _) Hsl), bind_Ret, Hp.
  change (expect (default None (Some (Some a))) _) with (Ret a).
  rewrite bind_Ret, (deref_Some a t w Ha), bind_Ret, Hcan. cbn [negb].
  rewrite add64_exact by ulia. by rewrite bind_Ret.
Qed.

Lemma enter_task_spec q w a t s (w1 : World) :
  world_live q w → boxes w !! a = Some t →
  enter_task (set_state t s) w1 =
    Ret (mkWorld (statics w1) (task_ptrs w1) (boxes w1) (next_box w1) (wmem w1) (rsp0 w1)
           (if runs t =? 0 then ctx_rsp (ctx t) + 56 else entry_rsp w1)).
Proof.
  intros Hw Ha. pose proof (wl_tasks _ _ Hw _ _ Ha) as Ht.
  unfold enter_task. cbn [set_state runs ctx]. destruct (runs t =? 0) eqn:E.
  - apply Z.eqb_eq in E. by rewrite (tl_entry _ _ _ Ht E).
  - by destruct w1.
Qed.

(** The asserts of the path pass and the result is [ran]. *)
Lemma switch_to_task_spec p e q w a t :
  world_live q w → boxes w !! a = Some t → runs t + 1 < u64_lim →
  switch_to_task p e a (put a (set_state t Running) w) = Ret (ran e a t w).
Proof.
  intros Hw Ha Hr. pose proof (wl_tasks _ _ Hw _ _ Ha) as Ht.
  pose proof (tl_slot _ _ _ Ht) as Hsl.
  unfold switch_to_task. rewrite deref_put, bind_Ret.
  unfold set_rsp0. cbn [set_state stack slot]. rewrite VirtAddr_new_ok by apply (tl_top _ _ _ Ht). rewrite !bind_Ret.
  rewrite (enter_task_spec q w a t) by done. rewrite bind_Ret.
  erewrite trampoline_iter_spec with (t := set_state t Running); [|try done..].
  - rewrite bind_Ret. unfold ran, put, ran_task. cbn -[irqs insert].
    rewrite insert_insert_eq. done.
  - cbn. apply Z.mod_small. unfold MAX_TASKS in Hsl. lia.
  - cbn -[lookup]. apply (tl_ptr _ _ _ Ht).
  - apply lookup_insert_eq.
  - apply (tl_canary _ _ _ Ht).
  - apply (tl_runs _ _ _ Ht).
Qed.

(** A world that differs from a live one by one step of [a]. *)
Lemma ran_live q w a t e :
  world_live q w → boxes w !! a = Some t → env_ok w t e →
  world_live q (ran e a t w).
Proof.
  intros Hw Ha [Hfr Hcan]. pose proof (wl_tasks _ _ Hw _ _ Ha) as Ht.
  pose proof (tl_slot _ _ _ Ht) as Hsl.
  destruct (after_step_fields e (slot t) (statics w) Hsl) as (Hu & Hb & Hf).
  assert (∀ i, slot_bit (after_step e (slot t) (statics w)) i = slot_bit (statics w) i) as Hbit
    by (intros i; unfold slot_bit; by rewrite Hu).
  assert (∀ b tb, boxes w !! b = Some tb → b ≠ a ∨ tb = t →
    ∃ f, TASK_FRAMES (after_step e (slot t) (statics w)) !! slot tb = Some f ∧
         valid_for f (stack_bottom (stack tb)) (stack_top (stack tb)) = true) as Hframe.
  { intros b tb Hb' Hor. pose proof (wl_tasks _ _ Hw _ _ Hb') as Htb.
    destruct (lookup_lt_is_Some_2 (TASK_FRAMES (after_step e (slot t) (statics w))) (slot tb)) as [f Hfl].
    { rewrite after_step_length by apply Hw. apply (tl_slot _ _ _ Htb). }
    exists f. split; [done|].
    destruct (after_step_frames _ _ _ _ _ Hsl (wl_fence _ _ Hw) Hfl) as [Hold|[Hin Heq]].
    - destruct (tl_frame _ _ _ Htb) as (f' & Hf' & Hv). congruence.
    - assert (b = a) as -> by (by eapply (live_slot_inj q w)).
      assert (tb = t) as -> by congruence. rewrite Forall_forall in Hfr. by apply Hfr. }
  constructor; cbn [ran statics task_ptrs boxes next_box wmem].
  - apply after_step_wf, Hw.
  - exact Hf.
  - apply Hw.
  - apply Hw.
  - intros b. rewrite (wl_dom _ _ Hw b), lookup_insert_is_Some'.
    split; [by right|]. intros [<-|]; [by eexists|done].
  - intros b tb Hlk. apply lookup_insert_Some in Hlk as [[<- <-]|[Hne Hlk]].
    + destruct (Hframe a t Ha (or_intror eq_refl)) as (f & Hf1 & Hf2).
      constructor; cbn [ran ran_task set_ctx set_state set_runs slot stack preempt runs statics task_ptrs wmem];
        rewrite ?Hbit, ?Hb; try apply Ht; [by exists f|by apply (Hcan a)| |].
      * pose proof (tl_runs _ _ _ Ht). lia.
      * pose proof (tl_runs _ _ _ Ht). lia.
    + pose proof (wl_tasks _ _ Hw _ _ Hlk) as Htb.
      destruct (Hframe b tb Hlk (or_introl (not_eq_sym Hne))) as (f & Hf1 & Hf2).
      constructor; cbn [ran statics task_ptrs wmem]; rewrite ?Hbit, ?Hb; try apply Htb;
        [by exists f|by apply (Hcan b)].
  - intros b Hb'. apply lookup_insert_is_Some' in Hb' as [<-|Hb']; apply (wl_next _ _ Hw); [by eexists|done].
  - intros i Hi Hbi. rewrite Hbit in Hbi. destruct (wl_slots _ _ Hw i Hi Hbi) as (b & tb & Hb1 & Hb2).
    destruct (decide (b = a)) as [->|Hne].
    + exists a, (ran_task e t). rewrite lookup_insert_eq. split; [done|]. cbn. congruence.
    + exists b, tb. rewrite lookup_insert_ne by done. done.
  - intros i Hi Hbi. rewrite Hbit in Hbi. by apply Hw.
Qed.

Lemma run_task_spec p env q w a t :
  world_live q w → boxes w !! a = Some t → env_ok w t (env a) → runs t + 1 < u64_lim →
  run_task p env a w = Ret (ran (env a) a t w) ∧ world_live q (ran (env a) a t w).
Proof.
  intros Hw Ha He Hr. pose proof (ran_live _ _ _ _ _ Hw Ha He) as Hw1. split; [|done].
  assert (boxes (ran (env a) a t w) !! a = Some (ran_task (env a) t)) as Ha1
    by apply lookup_insert_eq.
  pose proof (wl_tasks _ _ Hw1 _ _ Ha1) as Ht.
  unfold run_task. rewrite (deref_Some a t w Ha), bind_Ret.
  rewrite (switch_to_task_spec p _ q) by done. rewrite bind_Ret.
  rewrite (deref_Some a _ _ Ha1), bind_Ret, (tl_fresh _ _ _ Ht).
  cbn [assert_]. rewrite bind_Ret. unfold frame_ok, slot_bounds, snapshot.
  pose proof (tl_slot _ _ _ Ht) as Hsl.
  rewrite (proj2 (Nat.leb_gt _ _) Hsl), (tl_bounds _ _ _ Ht). cbn [fst].
  rewrite (proj2 (Z.eqb_neq _ 0) (tl_bottom _ _ _ Ht)). cbn [negb].
  destruct (tl_frame _ _ _ Ht) as (f & Hf & Hv).
  rewrite (proj2 (Nat.ltb_lt _ _) Hsl), Hf. cbn [assert_ expect].
  rewrite !bind_Ret, Hv. done.
Qed.

(** ** Updating fields the other structures do not see *)

Definition same_shell (t t' : Task) : Prop :=
  slot t' = slot t ∧ stack t' = stack t ∧ preempt t' = preempt t ∧
  runs t' = runs t ∧ ctx t' = ctx t.

Lemma put_live q w a t t' :
  world_live q w → boxes w !! a = Some t → same_shell t t' → world_live q (put a t' w).
Proof.
  intros Hw Ha (E1 & E2 & E3 & E4 & E5). pose proof (wl_tasks _ _ Hw _ _ Ha) as Ht.
  constructor; cbn [put set_boxes statics task_ptrs boxes next_box wmem]; try apply Hw.
  - intros b. rewrite (wl_dom _ _ Hw b), lookup_insert_is_Some'.
    split; [by right|]. intros [<-|]; [by eexists|done].
  - intros b tb Hlk. apply lookup_insert_Some in Hlk as [[<- <-]|[Hne Hlk]].
    + constructor; cbn [put set_boxes statics task_ptrs wmem]; rewrite ?E1, ?E2, ?E3, ?E4, ?E5;
        apply Ht.
    + apply (wl_tasks _ _ Hw) in Hlk. by destruct Hlk.
  - intros b Hb'. apply lookup_insert_is_Some' in Hb' as [<-|Hb']; apply (wl_next _ _ Hw);
      [by eexists|done].
  - intros i Hi Hbi. destruct (wl_slots _ _ Hw i Hi Hbi) as (b & tb & Hb1 & Hb2).
    destruct (decide (b = a)) as [->|Hne].
    + exists a, t'. rewrite lookup_insert_eq. split; [done|]. congruence.
    + exists b, tb. by rewrite lookup_insert_ne.
Qed.

(** ** Retirement *)

Definition retired (a : nat) (t : Task) (w : World) : World :=
  mkWorld
    (with_frames (statics w) (<[slot t := ZERO]> (TASK_FRAMES (statics w)))
       (clear_bit (SLOT_USED (statics w)) (slot t)))
    (<[slot t := None]> (task_ptrs w)) (delete a (boxes w)) (next_box w) (wmem w)
    (rsp0 w) (entry_rsp w).

Lemma finish_task_eq q w a t :
  world_live q w → boxes w !! a = Some t → finish_task a w = Ret (retired a t w).
Proof.
  intros Hw Ha. pose proof (wl_tasks _ _ Hw _ _ Ha) as Ht.
  pose proof (tl_slot _ _ _ Ht) as Hsl.
  unfold finish_task, clear_task_ptr. rewrite (deref_Some a t w Ha), bind_Ret.
  rewrite (proj2 (Nat.ltb_lt _ _) Hsl). cbn [set_ptrs statics].
  unfold unregister_task, release_checks. rewrite (proj2 (Nat.ltb_lt _ _) Hsl), (tl_bit _ _ _ Ht).
  cbn [assert_]. by rewrite !bind_Ret.
Qed.

Lemma retired_live q w a t :
  world_live (a :: q) w → boxes w !! a = Some t → world_live q (retired a t w).
Proof.
  intros Hw Ha. pose proof (wl_tasks _ _ Hw _ _ Ha) as Ht.
  pose proof (tl_slot _ _ _ Ht) as Hsl. pose proof (wl_table _ _ Hw) as Htab.
  pose proof (tw_used _ Htab) as Hu.
  assert (∀ i, (i < MAX_TASKS)%nat → slot_bit (statics (retired a t w)) i =
    (negb (slot t =? i)%nat && slot_bit (statics w) i)) as Hbit.
  { intros i Hi. by apply (bitmap_clear (SLOT_USED (statics w)) (slot t) i). }
  pose proof (wl_nodup _ _ Hw) as [Hna Hnd]%NoDup_cons.
  constructor; try done.
  - apply (table_step_wf (statics w)); [|done]. apply (step_unregister _ (slot t)).
    unfold unregister_task, release_checks. by rewrite (proj2 (Nat.ltb_lt _ _) Hsl), (tl_bit _ _ _ Ht).
  - apply (wl_fence _ _ Hw).
  - cbn. rewrite length_insert. apply Hw.
  - intros b. cbn [retired boxes]. pose proof (wl_dom _ _ Hw b) as Hd.
    rewrite elem_of_cons in Hd. rewrite lookup_delete_is_Some.
    destruct (decide (a = b)) as [<-|Hne]; [naive_solver|].
    split; [intros; split; [done|by apply Hd; right]|].
    intros [_ H]. apply Hd in H as [->|]; done.
  - intros b tb Hlk. cbn [retired boxes] in Hlk.
    apply lookup_delete_Some in Hlk as [Hne Hlk].
    pose proof (wl_tasks _ _ Hw _ _ Hlk) as Htb.
    assert (slot t ≠ slot tb) as Hslot.
    { intros Heq. apply Hne. by eapply (live_slot_inj _ w). }
    constructor; try apply Htb.
    + rewrite Hbit by apply (tl_slot _ _ _ Htb).
      rewrite (proj2 (Nat.eqb_neq _ _) Hslot). apply (tl_bit _ _ _ Htb).
    + cbn [retired task_ptrs]. rewrite list_lookup_insert_ne by done. apply (tl_ptr _ _ _ Htb).
    + cbn [retired statics with_frames TASK_FRAMES]. rewrite list_lookup_insert_ne by done.
      apply (tl_frame _ _ _ Htb).
  - intros b Hb'. cbn [retired boxes] in Hb'. apply lookup_delete_is_Some in Hb' as [_ Hb'].
    by apply (wl_next _ _ Hw).
  - intros i Hi Hbi. rewrite Hbit in Hbi by done. apply andb_true_iff in Hbi as [Hne Hbi].
    apply negb_true_iff, Nat.eqb_neq in Hne.
    destruct (wl_slots _ _ Hw i Hi Hbi) as (b & tb & Hb1 & Hb2).
    exists b, tb. split; [|done]. cbn [retired boxes]. rewrite lookup_delete_ne; [done|].
    intros <-. congruence.
  - intros i Hi Hbi. rewrite Hbit in Hbi by done. cbn [retired task_ptrs].
    destruct (decide (slot t = i)) as [<-|Hne].
    + apply list_lookup_insert_eq. by rewrite (wl_ptrs _ _ Hw).
    + rewrite (proj2 (Nat.eqb_neq _ _) Hne) in Hbi.
      rewrite list_lookup_insert_ne by done. by apply Hw.
Qed.

End virt.
End SchedRun.
