(* ===== verification/SchedSpec.v ===== *)
(** * What a scheduler promises

    The contract of the [Scheduler] trait as the class [SchedulerSpec]: from a
    well-formed state, with a well-behaved environment, [schedule_once] never
    panics, keeps the state well-formed, returns [false] only when every live
    task is asleep, and otherwise runs exactly one awake task by exactly one
    step, retiring it iff its step said so.  [RoundRobin] and [Cfs] are instances;
    their policies are stated as exact results of [schedule_once]. *)
From stdpp Require Import gmap.
From S2P Require Import Prelude Machine ContextSwitch Preempt PreemptStub PreemptTable Task.
From S2P Require Import Sched SchedRun.

#[local] Open Scope Z_scope.

Module SchedSpec.
Import Preempt Stub Switch Table Tasks Sched SchedRun.

Section virt.
Context `{VA : VirtAddrs}.

(** ** State, environment and result of one call *)

Definition queued (t : Task) : Prop :=
  match state t with Ready | Sleeping _ => True | _ => False end.

Record sched_ok (q : list nat) (w : World) : Prop := {
  so_live : world_live q w;
  so_queued : ∀ a t, boxes w !! a = Some t → queued t;
  so_ticks : u64 (APIC_TICKS (statics w));
  so_switches : u64 (PREEMPT_SWITCHES (statics w))
}.

#[export] Instance sched_ok_perm : Proper ((≡ₚ) ==> (=) ==> iff) sched_ok.
Proof.
  intros q q' Hq w ? <-. split; intros []; constructor; try done;
    [by rewrite <- Hq|by rewrite Hq].
Qed.

Definition now (w : World) : Z := APIC_TICKS (statics w).
Definition yanks_seen (w : World) : Z := PREEMPT_SWITCHES (statics w).

(** Whatever awake task is picked, its step behaves and its counter has room. *)
Definition env_fits (env : Env) (w : World) : Prop :=
  ∀ a t, boxes w !! a = Some t → asleep (now w) t = false →
  env_ok w t (env a) ∧ runs t + 1 < u64_lim.

(** [t'] is [t] after one step. *)
Record ran_once (t t' : Task) : Prop := {
  ro_id : id t' = id t;
  ro_name : name t' = name t;
  ro_step : step t' = step t;
  ro_stack : stack t' = stack t;
  ro_weight : weight t' = weight t;
  ro_runs : runs t' = runs t + 1;
  ro_state : state t' = if step t (runs t) then Ready else Finished
}.

(** The interrupts of a step. *)
Definition env_ticks (e : StepEnv) : Z :=
  Z.of_nat (length (irq_before e) + length (irq_during e) + length (irq_after e)).

(** The policy-free meaning of one call, in terms of queue and ledger. *)
Definition once_result (env : Env) (q : list nat) (fin : list entry) (w : World)
    (b : bool) (q' : list nat) (fin' : list entry) (w' : World) : Prop :=
  if b then
    ∃ a t t', boxes w !! a = Some t ∧ asleep (now w) t = false ∧ ran_once t t' ∧
      now w' = wrap64 (now w + env_ticks (env a)) ∧
      yanks_seen w' = wrap64 (yanks_seen w + Z.of_nat (length (irq_during (env a)))) ∧
      if step t (runs t) then
        boxes w' = <[a := t']> (boxes w) ∧ q' ≡ₚ q ∧ fin' = fin
      else
        boxes w' = delete a (boxes w) ∧ a :: q' ≡ₚ q ∧ fin' = fin ++ [entry_of t']
  else
    (∀ a t, boxes w !! a = Some t → asleep (now w) t = true) ∧
    w' = w ∧ q' = q ∧ fin' = fin.

(** The world after [Box::new] and [set_task_ptr]. *)
Definition spawned (t : Task) (w : World) : World :=
  mkWorld (statics w) (<[slot t := Some (next_box w)]> (task_ptrs w))
    (<[next_box w := t]> (boxes w)) (S (next_box w)) (wmem w) (rsp0 w) (entry_rsp w).

Class SchedulerSpec (S : Type) `{!Scheduler S} := {
  queue : S → list nat;
  finished : S → list entry;
  next_no : S → Z;
  alive_spec : ∀ s, alive s = length (queue s);
  ledger_spec : ∀ s w, ledger s w = ledger_of (queue s) (finished s) w;
  spawn_spec : ∀ s t w, (slot t < MAX_TASKS)%nat → 0 < weight t →
    ∃ s', spawn s t w = Ret (s', spawned t w) ∧
      queue s' = queue s ++ [next_box w] ∧ finished s' = finished s ∧ next_no s' = next_no s;
  next_id_spec : ∀ p s, 0 ≤ next_no s → next_no s + 1 < u64_lim →
    ∃ s', next_id p s = Ret (next_no s, s') ∧ queue s' = queue s ∧
      finished s' = finished s ∧ next_no s' = next_no s + 1;
  once_spec : ∀ p env s w,
    sched_ok (queue s) w → env_fits env w →
    ∃ b s' w', schedule_once p env s w = Ret (b, s', w') ∧ sched_ok (queue s') w' ∧
      once_result env (queue s) (finished s) w b (queue s') (finished s') w';
  once_next_no : ∀ p env s w b s' w',
    schedule_once p env s w = Ret (b, s', w') → next_no s' = next_no s
}.

(** ** Ticks *)

Lemma irqs_ticks fs st :
  u64 (APIC_TICKS st) →
  APIC_TICKS (irqs fs st) = wrap64 (APIC_TICKS st + Z.of_nat (length fs)).
Proof.
  revert st. induction fs as [|f fs IH]; intros st Hu.
  - cbn. rewrite Z.add_0_r. symmetry. by apply wrap64_id.
  - change (irqs (f :: fs) st) with (irqs fs (stub_effect f st)).
    rewrite IH by apply wrap64_u64. cbn [stub_effect APIC_TICKS]. unfold wrap64.
    rewrite Zplus_mod_idemp_l. f_equal. cbn [length]. lia.
Qed.

Lemma after_step_ticks e sl st :
  u64 (APIC_TICKS st) →
  APIC_TICKS (after_step e sl st) = wrap64 (APIC_TICKS st + env_ticks e).
Proof.
  intros Hu. unfold after_step, env_ticks. cbn [set_current APIC_TICKS].
  rewrite irqs_ticks; cbn [set_preemptible APIC_TICKS].
  2:{ rewrite irqs_ticks; [apply wrap64_u64|]. cbn [set_preemptible APIC_TICKS].
      rewrite irqs_ticks; [apply wrap64_u64|done]. }
  rewrite irqs_ticks; cbn [set_preemptible APIC_TICKS].
  2:{ rewrite irqs_ticks; [apply wrap64_u64|done]. }
  rewrite irqs_ticks by done. cbn [set_current APIC_TICKS]. unfold wrap64.
  rewrite Zplus_mod_idemp_l, <- Z.add_assoc, Zplus_mod_idemp_l. f_equal. lia.
Qed.

(** ** Yanks *)

Lemma irqs_switches fs st :
  u64 (PREEMPT_SWITCHES st) →
  PREEMPT_SWITCHES (irqs fs st) =
    if yanks st then wrap64 (PREEMPT_SWITCHES st + Z.of_nat (length fs))
    else PREEMPT_SWITCHES st.
Proof.
  revert st. induction fs as [|f fs IH]; intros st Hu.
  - cbn. rewrite Z.add_0_r, wrap64_id by done. by destruct (yanks st).
  - change (irqs (f :: fs) st) with (irqs fs (stub_effect f st)).
    rewrite IH; [|cbn; case_match; [apply wrap64_u64|done]].
    change (yanks (stub_effect f st)) with (yanks st). cbn [stub_effect PREEMPT_SWITCHES].
    destruct (yanks st); [|done]. unfold wrap64. rewrite Zplus_mod_idemp_l. f_equal. cbn [length]. lia.
Qed.

(** During its step the running task is yanked by every interrupt, and only then. *)
Lemma after_step_switches e sl st :
  table_wf st → (sl < MAX_TASKS)%nat → slot_bit st sl = true → PREEMPTIBLE st = 0 →
  u64 (PREEMPT_SWITCHES st) →
  PREEMPT_SWITCHES (after_step e sl st) =
    wrap64 (PREEMPT_SWITCHES st + Z.of_nat (length (irq_during e))).
Proof.
  intros Hw Hsl Hb Hf Hu. unfold after_step. cbn [set_current PREEMPT_SWITCHES].
  set (st1 := irqs (irq_before e) (set_current (Z.of_nat sl) st)).
  assert (PREEMPT_SWITCHES st1 = PREEMPT_SWITCHES st) as E1.
  { unfold st1. rewrite irqs_switches by done. unfold yanks. cbn [set_current PREEMPTIBLE].
    by rewrite Hf. }
  destruct (irqs_fields (irq_before e) (set_current (Z.of_nat sl) st)) as (Eu & _ & Ec & _).
  fold st1 in Eu, Ec. rewrite set_current_small in Ec by (unfold MAX_TASKS in Hsl; lia).
  set (st2 := irqs (irq_during e) (set_preemptible true st1)).
  assert (PREEMPT_SWITCHES st2 =
    wrap64 (PREEMPT_SWITCHES st + Z.of_nat (length (irq_during e)))) as E2.
  { unfold st2. rewrite irqs_switches by (cbn [set_preemptible PREEMPT_SWITCHES]; by rewrite E1).
    cbn [set_preemptible PREEMPT_SWITCHES]. rewrite E1.
    assert (yanks (set_preemptible true st1) = true) as ->; [|done].
    unfold yanks. cbn [set_preemptible PREEMPTIBLE CURRENT_IDX SLOT_USED]. rewrite Ec, Eu.
    cbn [set_current SLOT_USED]. rewrite bitmap_testbit by (done || apply Hw).
    change (bit_of (SLOT_USED st) sl) with (slot_bit st sl). rewrite Hb.
    rewrite (proj2 (Z.ltb_lt _ _)) by lia. done. }
  rewrite irqs_switches; cbn [set_preemptible PREEMPT_SWITCHES].
  - unfold yanks. cbn [set_preemptible PREEMPTIBLE]. exact E2.
  - rewrite E2. apply wrap64_u64.
Qed.

Lemma ran_yanks q w a t e :
  sched_ok q w → boxes w !! a = Some t →
  yanks_seen (ran e a t w) = wrap64 (yanks_seen w + Z.of_nat (length (irq_during e))).
Proof.
  intros [Hl _ _ Hu] Ha. pose proof (wl_tasks _ _ Hl _ _ Ha) as Ht.
  apply after_step_switches; [apply Hl|apply Ht..|apply Hl|done].
Qed.

(** ** Running from a queue *)

Lemma env_ok_same_stacks w w' t t' e :
  env_ok w t e → stack t' = stack t → wmem w' = wmem w →
  (∀ b tb', boxes w' !! b = Some tb' → ∃ tb, boxes w !! b = Some tb ∧ stack tb = stack tb') →
  env_ok w' t' e.
Proof.
  intros [H1 H2] Hs Hm Hb. split; [by rewrite Hs|].
  intros b tb' Hb'. destruct (Hb b tb' Hb') as (tb & Htb & <-). rewrite Hm. by apply (H2 b).
Qed.

Lemma env_ok_put w a t t' e :
  env_ok w t e → boxes w !! a = Some t → stack t' = stack t → env_ok (put a t' w) t' e.
Proof.
  intros He Ha Hs. eapply env_ok_same_stacks; [exact He|done|done|].
  intros b tb' Hb. cbn [put set_boxes boxes] in Hb.
  apply lookup_insert_Some in Hb as [[<- <-]|[_ Hb]]; [by exists t|by exists tb'].
Qed.

(** Marking a woken task ready leaves no trace in the result of its step. *)
Lemma ran_set_state e a t s w :
  ran e a (set_state t s) (put a (set_state t s) w) = ran e a t w.
Proof.
  unfold ran, put, ran_task. cbn -[insert]. by rewrite insert_insert_eq.
Qed.

Lemma ran_task_once e t : ran_once t (ran_task e t).
Proof. by constructor. Qed.

Lemma ran_ok q w a t e :
  sched_ok q w → boxes w !! a = Some t → env_ok w t e → step t (runs t) = true →
  sched_ok q (ran e a t w).
Proof.
  intros Hok Ha He Hv. pose proof Hok as [Hl Hq Hu Hsw]. constructor.
  - by apply ran_live.
  - intros b tb Hb. cbn [ran boxes] in Hb.
    apply lookup_insert_Some in Hb as [[<- <-]|[_ Hb]]; [|by apply (Hq b)].
    unfold queued, ran_task. cbn. by rewrite Hv.
  - cbn [ran statics]. rewrite after_step_ticks by done. apply wrap64_u64.
  - change (u64 (yanks_seen (ran e a t w))). rewrite (ran_yanks q) by done. apply wrap64_u64.
Qed.

Lemma retired_ok q w a t :
  world_live (a :: q) w → boxes w !! a = Some t →
  (∀ b tb, b ≠ a → boxes w !! b = Some tb → queued tb) → u64 (now w) →
  u64 (yanks_seen w) → sched_ok q (retired a t w).
Proof.
  intros Hl Ha Hq Hu Hsw. constructor; try done.
  - by apply retired_live.
  - intros b tb Hb. cbn [retired boxes] in Hb. apply lookup_delete_Some in Hb as [Hne Hb].
    by apply (Hq b).
Qed.

(** Fields outside the shell may be rewritten after a step. *)
Lemma put_ran_ok q w a t t' :
  sched_ok q w → boxes w !! a = Some t → same_shell t t' → state t' = state t →
  sched_ok q (put a t' w).
Proof.
  intros [Hl Hq Hu Hsw] Ha Hs Hst. constructor; [by eapply put_live| |done|done].
  intros b tb Hb. cbn [put set_boxes boxes] in Hb.
  apply lookup_insert_Some in Hb as [[<- <-]|[_ Hb]]; [|by apply (Hq b)].
  unfold queued. rewrite Hst. by apply (Hq a).
Qed.

(** After a step that said stop. *)
Lemma ran_retired_ok q q' w a t e t' v :
  sched_ok q w → a :: q' ≡ₚ q → boxes w !! a = Some t → env_ok w t e →
  t' = set_vruntime (ran_task e t) v →
  sched_ok q' (retired a t' (put a t' (ran e a t w))).
Proof.
  intros Hok Hperm Ha He ->. pose proof Hok as [Hl Hq Hu Hsw].
  pose proof (ran_live _ _ _ _ _ Hl Ha He) as Hl1.
  assert (boxes (ran e a t w) !! a = Some (ran_task e t)) as Ha1 by apply lookup_insert_eq.
  apply retired_ok.
  - rewrite Hperm. by eapply put_live.
  - apply lookup_insert_eq.
  - intros b tb Hne Hb. cbn [put set_boxes ran boxes] in Hb.
    rewrite !lookup_insert_ne in Hb by done. by apply (Hq b).
  - unfold now. cbn [put set_boxes ran statics]. rewrite after_step_ticks by done.
    apply wrap64_u64.
  - change (u64 (yanks_seen (ran e a t w))). rewrite (ran_yanks q) by done. apply wrap64_u64.
Qed.

(** ** Round robin *)

(** The first awake task of a queue, with what lies before and after it. *)
Fixpoint first_awake (w : World) (q : list nat) : option (list nat * nat * list nat) :=
  match q with
  | [] => None
  | a :: q' =>
      match boxes w !! a with
      | Some t =>
          if asleep (now w) t then
            match first_awake w q' with
            | Some (pre, b, post) => Some (a :: pre, b, post)
            | None => None
            end
          else Some ([], a, q')
      | None => None
      end
  end.

Lemma first_awake_Some w q pre a post :
  first_awake w q = Some (pre, a, post) →
  q = pre ++ a :: post ∧ (∃ t, boxes w !! a = Some t ∧ asleep (now w) t = false) ∧
  (∀ b t, b ∈ pre → boxes w !! b = Some t → asleep (now w) t = true).
Proof.
  revert pre. induction q as [|b q IH]; intros pre; simpl; [done|].
  destruct (boxes w !! b) as [t|] eqn:Hb; [|done].
  destruct (asleep (now w) t) eqn:Hs.
  - destruct (first_awake w q) as [[[pre' a'] post']|]; [|done]. intros [= <- -> ->].
    destruct (IH pre' eq_refl) as (-> & Ha & Hpre). split_and!; [done|done|].
    intros c tc [->|Hc]%elem_of_cons Htc; [congruence|by eapply Hpre].
  - intros [= <- -> ->]. split_and!; [done|by exists t|].
    intros c tc Hc. by apply not_elem_of_nil in Hc.
Qed.

Lemma first_awake_None w q :
  (∀ a, a ∈ q → is_Some (boxes w !! a)) → first_awake w q = None →
  ∀ a t, a ∈ q → boxes w !! a = Some t → asleep (now w) t = true.
Proof.
  induction q as [|b q IH]; intros Hq Hn a t Ha Hbt; [by apply not_elem_of_nil in Ha|].
  simpl in Hn. destruct (Hq b) as [tb Hb]; [by left|]. rewrite Hb in Hn.
  destruct (asleep (now w) tb) eqn:Hs; [|done].
  destruct (first_awake w q) as [[[? ?] ?]|]; [done|].
  apply elem_of_cons in Ha as [->|Ha]; [congruence|].
  eapply IH; try done. intros c Hc. apply Hq. by right.
Qed.

(** The result of a round-robin call, as a function of the first awake task. *)
Definition rr_result (env : Env) (s : RoundRobin) (w : World)
    : option (bool * RoundRobin * World) :=
  match first_awake w (rr_ready s) with
  | None => Some (false, s, w)
  | Some (pre, a, post) =>
      t ← boxes w !! a;
      let t' := ran_task (env a) t in
      let w' := ran (env a) a t w in
      if step t (runs t) then
        Some (true, mkRR (post ++ pre ++ [a]) (rr_finished s) (rr_next_id s), w')
      else
        Some (true, mkRR (post ++ pre) (rr_finished s ++ [entry_of t']) (rr_next_id s),
              retired a t' w')
  end.

Lemma rr_run_spec p env q0 w a t q s :
  world_live q0 w → boxes w !! a = Some t → env_ok w t (env a) → runs t + 1 < u64_lim →
  rr_run p env q a s w =
    Ret (if step t (runs t)
         then (true, mkRR (q ++ [a]) (rr_finished s) (rr_next_id s), ran (env a) a t w)
         else (true, mkRR q (rr_finished s ++ [entry_of (ran_task (env a) t)]) (rr_next_id s),
               retired a (ran_task (env a) t) (ran (env a) a t w))).
Proof.
  intros Hl Ha He Hr. destruct (run_task_spec p env q0 w a t) as [E Hl1]; [done..|].
  assert (boxes (ran (env a) a t w) !! a = Some (ran_task (env a) t)) as Ha1
    by apply lookup_insert_eq.
  unfold rr_run. rewrite E, bind_Ret, (deref_Some a _ _ Ha1), bind_Ret.
  cbn [ran_task set_ctx set_state state]. destruct (step t (runs t)).
  - by rewrite decide_True.
  - rewrite decide_False by done. rewrite (finish_task_eq q0 _ a _ Hl1 Ha1). by rewrite bind_Ret.
Qed.

(** The pass over the first [n] entries of the queue: it rotates past sleepers. *)
Lemma rr_pass_spec p env q0 w s pre post :
  world_live q0 w → env_fits env w → (∀ a, a ∈ post → a ∈ q0) →
  rr_ready s = post ++ pre →
  Some (rr_pass p env (length post) s w) =
    Ret <$> match first_awake w post with
    | None => Some (false, mkRR (pre ++ post) (rr_finished s) (rr_next_id s), w)
    | Some (pre', a, post') =>
        t ← boxes w !! a;
        Some (if step t (runs t)
          then (true, mkRR ((post' ++ pre ++ pre') ++ [a]) (rr_finished s) (rr_next_id s),
                ran (env a) a t w)
          else (true, mkRR (post' ++ pre ++ pre')
                  (rr_finished s ++ [entry_of (ran_task (env a) t)]) (rr_next_id s),
                retired a (ran_task (env a) t) (ran (env a) a t w)))
    end.
Proof.
  intros Hl Hfit. revert s pre. induction post as [|a post IH]; intros s pre Hin Hq.
  { cbn. rewrite app_nil_r. destruct s as [r fin nid]. cbn in Hq |- *. by subst r. }
  assert (is_Some (boxes w !! a)) as [t Ha] by (apply (wl_dom _ _ Hl), Hin; by left).
  cbn [length rr_pass first_awake]. rewrite Hq. cbn [app].
  rewrite (deref_Some a t w Ha), bind_Ret, Ha. unfold asleep.
  destruct (state t) as [| |u|] eqn:Hst.
  3: destruct (APIC_TICKS (statics w) <? u) eqn:Hlt;
     (change (APIC_TICKS (statics w)) with (now w) in Hlt; rewrite Hlt).
  3: { rewrite (IH _ (pre ++ [a])); [|intros; apply Hin; by right|by rewrite <- app_assoc].
       destruct (first_awake w post) as [[[pre' b] post']|]; cbn [rr_finished rr_next_id].
       - by rewrite <- !app_assoc.
       - by rewrite <- app_assoc. }
  all: assert (asleep (now w) t = false) as Hs by (unfold asleep; by rewrite Hst, ?Hlt).
  all: destruct (Hfit a t Ha Hs) as [He Hr]; cbn [mbind option_bind]; rewrite Ha; cbn [fmap option_fmap option_map].
  3: { rewrite (rr_run_spec p env q0 _ a (set_state t Ready)); try done.
       - rewrite ran_set_state. cbn [set_state step runs]. by rewrite app_nil_r.
       - by eapply put_live.
       - apply lookup_insert_eq.
       - by eapply env_ok_put. }
  all: rewrite (rr_run_spec p env q0 w a t) by done; by rewrite app_nil_r.
Qed.

Lemma rr_schedule_once_eq p env s w :
  world_live (rr_ready s) w → env_fits env w →
  Ret <$> rr_result env s w = Some (rr_schedule_once p env s w).
Proof.
  intros Hl Hfit. unfold rr_schedule_once, rr_result.
  rewrite (rr_pass_spec p env (rr_ready s) w s [] (rr_ready s));
    [|done|done|done|by rewrite app_nil_r].
  destruct (first_awake w (rr_ready s)) as [[[pre a] post]|]; [|by destruct s].
  destruct (boxes w !! a) as [t|]; [|done]. cbn [mbind option_bind].
  destruct (step t (runs t)); cbn; by rewrite <- ?app_assoc.
Qed.

Lemma rr_once_spec p env s w :
  sched_ok (rr_ready s) w → env_fits env w →
  ∃ b s' w', rr_schedule_once p env s w = Ret (b, s', w') ∧ sched_ok (rr_ready s') w' ∧
    once_result env (rr_ready s) (rr_finished s) w b (rr_ready s') (rr_finished s') w'.
Proof.
  intros Hok Hfit. pose proof Hok as [Hl Hq Hu Hsw].
  pose proof (rr_schedule_once_eq p env s w Hl Hfit) as E. unfold rr_result in E.
  destruct (first_awake w (rr_ready s)) as [[[pre a] post]|] eqn:Hf.
  - apply first_awake_Some in Hf as (Hqe & (t & Ha & Hs) & _).
    destruct (Hfit a t Ha Hs) as [He Hr].
    rewrite Ha in E. cbn [mbind option_bind] in E.
    pose proof (after_step_ticks (env a) (slot t) _ Hu) as Htick.
    pose proof (ran_yanks _ _ _ _ (env a) Hok Ha) as Hyank.
    destruct (step t (runs t)) eqn:Hv; injection E as E; do 3 eexists; (split; [by symmetry|]);
      cbn [rr_ready rr_finished].
    + assert (post ++ pre ++ [a] ≡ₚ rr_ready s) as Hp by (rewrite Hqe; solve_Permutation).
      split; [rewrite Hp; by apply ran_ok|].
      exists a, t, (ran_task (env a) t). rewrite Hv. by split_and!.
    + assert (a :: post ++ pre ≡ₚ rr_ready s) as Hp by (rewrite Hqe; solve_Permutation).
      split.
      * pose proof (ran_retired_ok _ _ w a t (env a) _ (vruntime t) Hok Hp Ha He eq_refl) as H1.
        unfold put, ran in H1. cbn -[retired insert] in H1. rewrite insert_insert_eq in H1.
        exact H1.
      * exists a, t, (ran_task (env a) t). rewrite Hv. split_and!; try done.
        cbn [retired ran boxes]. by rewrite delete_insert_eq.
  - injection E as E. exists false, s, w.
    split; [by symmetry|]. split; [done|]. unfold once_result. split_and!; try done.
    intros a t Ha. eapply first_awake_None; try done.
    + intros b Hb. by apply (wl_dom _ _ Hl).
    + apply (wl_dom _ _ Hl). by eexists.
Qed.

(** A call hands out no task number. *)
Lemma rr_run_next_id p env q a s w b s' w' :
  rr_run p env q a s w = Ret (b, s', w') → rr_next_id s' = rr_next_id s.
Proof.
  unfold rr_run. intros (w1 & _ & E)%bind_inv. apply bind_inv in E as (t1 & _ & E).
  destruct (decide (state t1 = Ready)); [by injection E as <- <- <-|].
  apply bind_inv in E as (w2 & _ & E). by injection E as <- <- <-.
Qed.

Lemma rr_pass_next_id p env n : ∀ s w b s' w',
  rr_pass p env n s w = Ret (b, s', w') → rr_next_id s' = rr_next_id s.
Proof.
  induction n as [|n IH]; intros s w b s' w'; cbn [rr_pass]; [by intros [= _ <- _]|].
  destruct (rr_ready s) as [|a q]; [by intros [= _ <- _]|].
  intros (t & _ & E)%bind_inv. destruct (state t) as [| |u|]; try by apply rr_run_next_id in E.
  destruct (APIC_TICKS (statics w) <? u); [by apply IH in E|by apply rr_run_next_id in E].
Qed.

#[export] Instance RoundRobin_Spec : SchedulerSpec RoundRobin.
Proof.
  refine {| queue := rr_ready; finished := rr_finished; next_no := rr_next_id |}; [done|done|..].
  - intros s t w Hsl _. cbn [spawn RoundRobin_Scheduler].
    unfold rr_spawn, box_new, set_task_ptr. rewrite (proj2 (Nat.ltb_lt _ _) Hsl).
    cbn [assert_]. rewrite !bind_Ret. by eexists.
  - intros p s H0 H1. cbn [next_id RoundRobin_Scheduler]. unfold rr_next.
    rewrite add64_exact by ulia. rewrite bind_Ret. by eexists.
  - exact rr_once_spec.
  - intros p env s w b s' w'. exact (rr_pass_next_id p env (length (rr_ready s)) s w b s' w').
Defined.

(** ** CFS *)

(** Index and vruntime of an awake task of the queue [q] starting at index [i]. *)
Definition awake_at (w : World) (i : nat) (q : list nat) (c : nat * Z) : Prop :=
  ∃ j a t, c = ((i + j)%nat, vruntime t) ∧ q !! j = Some a ∧ boxes w !! a = Some t ∧
    asleep (now w) t = false.

Definition first_min (cand : nat * Z → Prop) (r : option (nat * Z)) : Prop :=
  match r with
  | None => ∀ c, ¬ cand c
  | Some (k, v) =>
      cand (k, v) ∧ ∀ k' v', cand (k', v') → v ≤ v' ∧ ((k' < k)%nat → v < v')
  end.

Lemma awake_at_cons w i a q t c :
  boxes w !! a = Some t →
  awake_at w i (a :: q) c ↔
    (asleep (now w) t = false ∧ c = (i, vruntime t)) ∨ awake_at w (S i) q c.
Proof.
  intros Ha. split.
  - intros (j & b & tb & -> & Hj & Hb & Hs). destruct j as [|j]; simpl in Hj.
    + left. simplify_eq. split; [done|]. by rewrite Nat.add_0_r.
    + right. exists j, b, tb. split_and!; try done. f_equal. lia.
  - intros [[Hs ->]|(j & b & tb & -> & Hj & Hb & Hs)].
    + exists 0%nat, a, t. split_and!; try done. by rewrite Nat.add_0_r.
    + exists (S j), b, tb. split_and!; try done. f_equal. lia.
Qed.

Lemma first_min_ext (P Q : nat * Z → Prop) r :
  (∀ c, P c ↔ Q c) → first_min P r → first_min Q r.
Proof.
  intros H. destruct r as [[k v]|]; simpl.
  - intros [H1 H2]. split; [by apply H|]. intros k' v' Hc. by apply H2, H.
  - intros H1 c Hc. by apply (H1 c), H.
Qed.

(** Dropping a candidate that is not better than an earlier kept one. *)
Lemma first_min_weaken (P : nat * Z → Prop) k0 v0 k1 v1 r :
  (v0 ≤ v1 ∧ (k0 < k1)%nat ∨ v0 < v1) → P (k0, v0) → first_min P r →
  first_min (λ c, P c ∨ c = (k1, v1)) r.
Proof.
  intros Hlt H0. destruct r as [[k v]|]; simpl; [|intros H; by destruct (H (k0, v0))].
  intros [H1 H2]. split; [by left|]. intros k' v' [Hc|[= -> ->]]; [by apply H2|].
  destruct (H2 k0 v0 H0). lia.
Qed.

Lemma pick_min_from_spec w q : ∀ i best,
  (∀ a, a ∈ q → is_Some (boxes w !! a)) →
  (∀ k v, best = Some (k, v) → (k < i)%nat) →
  ∃ r, pick_min_from (now w) w i q best = Ret r ∧
    first_min (λ c, best = Some c ∨ awake_at w i q c) r.
Proof.
  induction q as [|a q IH]; intros i best Hq Hb; cbn [pick_min_from].
  - exists best. split; [done|].
    assert (∀ c, ¬ awake_at w i [] c) as Hno by (intros c (j & b & t & _ & Hj & _); done).
    destruct best as [[k v]|]; simpl.
    + split; [by left|]. intros k' v' [[= -> ->]|Hc]; [lia|by apply Hno in Hc].
    + intros c [?|Hc]; [done|by apply Hno in Hc].
  - destruct (Hq a) as [t Ha]; [by left|]. rewrite (deref_Some a t w Ha), bind_Ret.
    assert (∀ b, b ∈ q → is_Some (boxes w !! b)) as Hq' by (intros b Hin; apply Hq; by right).
    destruct (asleep (now w) t) eqn:Hs.
    + destruct (IH (S i) best Hq') as (r & E & Hr); [intros k v Hk; specialize (Hb k v Hk); lia|].
      exists r. split; [done|]. eapply first_min_ext; [|exact Hr].
      intros c. rewrite (awake_at_cons w i a q t c Ha), Hs. naive_solver.
    + set (best' := match best with None => _ | Some _ => _ end).
      destruct (IH (S i) best' Hq') as (r & E & Hr).
      { intros k v. unfold best'. destruct best as [[k0 v0]|].
        - case_match; intros [= <- <-]; [lia|]. specialize (Hb k0 v0 eq_refl). lia.
        - intros [= <- <-]. lia. }
      exists r. split; [done|]. unfold best' in Hr. destruct best as [[k0 v0]|].
      * specialize (Hb k0 v0 eq_refl). destruct (vruntime t <? v0) eqn:Hv; bool_to_prop.
        -- apply (first_min_weaken _ i (vruntime t) k0 v0) in Hr; [|lia|by left].
           eapply first_min_ext; [|exact Hr].
           intros c. rewrite (awake_at_cons w i a q t c Ha). naive_solver.
        -- apply (first_min_weaken _ k0 v0 i (vruntime t)) in Hr; [|lia|by left].
           eapply first_min_ext; [|exact Hr].
           intros c. rewrite (awake_at_cons w i a q t c Ha). naive_solver.
      * eapply first_min_ext; [|exact Hr].
        intros c. rewrite (awake_at_cons w i a q t c Ha). naive_solver.
Qed.

(** [pick_min] returns the first awake task of least vruntime. *)
Lemma pick_min_spec s w :
  (∀ a, a ∈ cfs_ready s → is_Some (boxes w !! a)) →
  ∃ o, pick_min (now w) s w = Ret o ∧
    match o with
    | None => ∀ a t, a ∈ cfs_ready s → boxes w !! a = Some t → asleep (now w) t = true
    | Some i => ∃ a t, cfs_ready s !! i = Some a ∧ boxes w !! a = Some t ∧
        asleep (now w) t = false ∧
        ∀ j b tb, cfs_ready s !! j = Some b → boxes w !! b = Some tb →
          asleep (now w) tb = false →
          vruntime t ≤ vruntime tb ∧ ((j < i)%nat → vruntime t < vruntime tb)
    end.
Proof.
  intros Hq. unfold pick_min.
  destruct (pick_min_from_spec w (cfs_ready s) 0 None Hq) as (r & -> & Hr); [done|].
  rewrite bind_Ret. eexists; split; [done|]. destruct r as [[k v]|]; simpl in *.
  - destruct Hr as [[?|(j & a & t & [= -> ->] & Hj & Ha & Hs)] Hmin]; [done|].
    exists a, t. split_and!; try done. intros j' b tb Hj' Hb Hsb. apply Hmin. right.
    by exists j', b, tb.
  - intros a t Hin Ha. destruct (asleep (now w) t) eqn:Hs; [done|].
    apply list_elem_of_lookup in Hin as [j Hj].
    exfalso. apply (Hr (j, vruntime t)). right. by exists j, a, t.
Qed.

(** The picked task before its step, and after its vruntime is charged. *)
Definition woken (q : list nat) (w : World) (t : Task) : Task :=
  match state t with
  | Sleeping _ => set_state (set_vruntime t (Z.max (vruntime t) (min_vruntime q w))) Ready
  | _ => t
  end.

Definition charged (e : StepEnv) (t : Task) : Task :=
  set_vruntime (ran_task e t) (saturating_add64 (vruntime t) (cfs_slice t)).

Lemma woken_shell q w t : same_shell t (woken q w t).
Proof. unfold woken. by destruct (state t). Qed.

Lemma woken_once q w t e : ran_once t (charged e (woken q w t)).
Proof. unfold woken. constructor; by destruct (state t). Qed.

Lemma put_same a t w : boxes w !! a = Some t → put a t w = w.
Proof. intros H. unfold put, set_boxes. rewrite insert_id by done. by destruct w. Qed.

Lemma ran_put e a t w : ran e a t (put a t w) = ran e a t w.
Proof. unfold ran, put. cbn -[insert]. by rewrite insert_insert_eq. Qed.

Lemma cfs_wake_spec q a t w :
  boxes w !! a = Some t → cfs_wake q a w = Ret (put a (woken q w t) w).
Proof.
  intros Ha. unfold cfs_wake, woken. rewrite (deref_Some a t w Ha), bind_Ret.
  destruct (state t) as [| |u|]; try by rewrite (put_same a t w Ha).
  destruct (vruntime t <? min_vruntime q w) eqn:E; bool_to_prop.
  - by rewrite Z.max_r by lia.
  - rewrite Z.max_l by lia. by destruct t.
Qed.

(** The result of a CFS call, given the pick. *)
Lemma cfs_once_eq p env s w i a t q :
  world_live (cfs_ready s) w → pick_min (now w) s w = Ret (Some i) →
  cfs_ready s !! i = Some a → q = delete i (cfs_ready s) →
  boxes w !! a = Some t → env_ok w t (env a) → runs t + 1 < u64_lim →
  let t1 := woken q w t in
  let t3 := charged (env a) t1 in
  let w3 := put a t3 (ran (env a) a t1 w) in
  cfs_schedule_once p env s w =
    Ret (if step t (runs t)
         then (true, mkCfs (q ++ [a]) (cfs_finished s) (cfs_next_id s), w3)
         else (true, mkCfs q (cfs_finished s ++ [entry_of t3]) (cfs_next_id s),
               retired a t3 w3)).
Proof.
  intros Hl Hp Hi Hq Ha He Hr t1 t3 w3.
  pose proof (woken_shell q w t) as (E1 & E2 & E3 & E4 & E5).
  assert (world_live (cfs_ready s) (put a t1 w)) as Hl1 by (by eapply put_live).
  destruct (run_task_spec p env (cfs_ready s) (put a t1 w) a t1) as [Erun Hl2];
    [done|apply lookup_insert_eq|by eapply env_ok_put|by rewrite <- E4 in Hr|].
  rewrite ran_put in Erun, Hl2.
  assert (boxes (ran (env a) a t1 w) !! a = Some (ran_task (env a) t1)) as Ha2
    by apply lookup_insert_eq.
  assert (step t1 (runs t1) = step t (runs t)) as Hst by (unfold t1, woken; by destruct (state t)).
  unfold cfs_schedule_once. change (APIC_TICKS (statics w)) with (now w).
  rewrite Hp, bind_Ret. unfold remove_at. rewrite Hi. cbn [expect]. rewrite bind_Ret.
  rewrite <- Hq, (cfs_wake_spec q a t w Ha), bind_Ret. fold t1.
  rewrite Erun, bind_Ret, (deref_Some a _ _ Ha2), bind_Ret.
  change (set_vruntime (ran_task (env a) t1) _) with t3. fold w3.
  assert (state t3 = if step t (runs t) then Ready else Finished) as ->
    by (rewrite <- Hst; done).
  destruct (step t (runs t)); [by rewrite decide_True|].
  rewrite decide_False by done.
  rewrite (finish_task_eq (cfs_ready s) w3 a t3).
  - by rewrite bind_Ret.
  - by eapply put_live.
  - apply lookup_insert_eq.
Qed.

Lemma cfs_once_spec p env s w :
  sched_ok (cfs_ready s) w → env_fits env w →
  ∃ b s' w', cfs_schedule_once p env s w = Ret (b, s', w') ∧ sched_ok (cfs_ready s') w' ∧
    once_result env (cfs_ready s) (cfs_finished s) w b (cfs_ready s') (cfs_finished s') w'.
Proof.
  intros Hok Hfit. pose proof Hok as [Hl Hq Hu Hsw].
  destruct (pick_min_spec s w) as (o & Hp & Ho); [intros a; apply (wl_dom _ _ Hl)|].
  destruct o as [i|].
  - destruct Ho as (a & t & Hi & Ha & Hs & _). destruct (Hfit a t Ha Hs) as [He Hr].
    pose proof (cfs_once_eq p env s w i a t _ Hl Hp Hi eq_refl Ha He Hr) as E. cbn zeta in E.
    set (q := delete i (cfs_ready s)) in *. set (t1 := woken q w t) in *.
    assert (a :: q ≡ₚ cfs_ready s) as Hperm by (symmetry; by apply delete_Permutation).
    assert (boxes (put a t1 w) !! a = Some t1) as Ha1 by apply lookup_insert_eq.
    assert (sched_ok (cfs_ready s) (put a t1 w)) as Hok1.
    { constructor; [eapply put_live; [done..|apply woken_shell]| |done|done].
      intros b tb Hb. cbn [put set_boxes boxes] in Hb.
      apply lookup_insert_Some in Hb as [[<- <-]|[_ Hb]]; [|by apply (Hq b)].
      specialize (Hq a t Ha). unfold queued, t1, woken in *. by destruct (state t) eqn:?; cbn; rewrite ?Heqt0. }
    assert (env_ok (put a t1 w) t1 (env a)) as He1
      by (eapply env_ok_put; [done..|apply woken_shell]).
    pose proof (ran_put (env a) a t1 w) as Hrp.
    pose proof (woken_once q w t (env a)) as Honce. fold t1 in Honce.
    assert (now (ran (env a) a t1 w) = wrap64 (now w + env_ticks (env a))) as Htick
      by (apply after_step_ticks, Hu).
    pose proof (ran_yanks _ _ _ _ (env a) Hok1 Ha1) as Hyank. rewrite Hrp in Hyank.
    assert (step t1 (runs t1) = step t (runs t)) as Hst by (unfold t1, woken; by destruct (state t)).
    destruct (step t (runs t)) eqn:Hv; do 3 eexists; (split; [exact E|]);
      cbn [cfs_ready cfs_finished].
    + assert (q ++ [a] ≡ₚ cfs_ready s) as Hp' by (rewrite <- Hperm; solve_Permutation).
      split.
      * rewrite Hp'. eapply put_ran_ok; [|apply lookup_insert_eq|done..].
        rewrite <- Hrp. by apply ran_ok.
      * exists a, t, (charged (env a) t1). rewrite Hv. split_and!; try done.
        cbn [put set_boxes ran boxes]. by rewrite insert_insert_eq.
    + split.
      * rewrite <- Hrp. by eapply ran_retired_ok.
      * exists a, t, (charged (env a) t1). rewrite Hv. split_and!; try done.
        cbn [retired put set_boxes ran boxes]. by rewrite insert_insert_eq, delete_insert_eq.
  - exists false, s, w. split.
    { unfold cfs_schedule_once. change (APIC_TICKS (statics w)) with (now w). by rewrite Hp. }
    split; [done|]. unfold once_result. split_and!; try done.
    intros a t Ha. apply (Ho a t); [|done]. apply (wl_dom _ _ Hl). by eexists.
Qed.

Lemma cfs_once_next_id p env s w b s' w' :
  cfs_schedule_once p env s w = Ret (b, s', w') → cfs_next_id s' = cfs_next_id s.
Proof.
  unfold cfs_schedule_once. intros (o & _ & E)%bind_inv.
  destruct o as [i|]; [|by injection E as _ <- _].
  apply bind_inv in E as ((a & q) & _ & E). apply bind_inv in E as (w1 & _ & E).
  apply bind_inv in E as (w2 & _ & E). apply bind_inv in E as (t2 & _ & E).
  case_decide; [by injection E as _ <- _|].
  apply bind_inv in E as (w4 & _ & E). by injection E as _ <- _.
Qed.

#[export] Instance Cfs_Spec : SchedulerSpec Cfs.
Proof.
  refine {| queue := cfs_ready; finished := cfs_finished; next_no := cfs_next_id |}; [done|done|..].
  - intros s t w Hsl Hwt. cbn [spawn Cfs_Scheduler].
    unfold cfs_spawn, box_new, set_task_ptr.
    rewrite (proj2 (Nat.ltb_lt _ _) Hsl), (proj2 (Z.ltb_lt _ _) Hwt).
    cbn [assert_]. rewrite !bind_Ret. by eexists.
  - intros p s H0 H1. cbn [next_id Cfs_Scheduler]. unfold cfs_next.
    rewrite add64_exact by ulia. rewrite bind_Ret. by eexists.
  - exact cfs_once_spec.
  - exact cfs_once_next_id.
Defined.

End virt.
End SchedSpec.
