(* ===== verification/SchedSpawn.v ===== *)
(** * Creating and spawning a task

    The stack window, the bootstrap context, the preempt frame and the slot of a
    new task, and the proof that creating and spawning one in a well-formed
    state with a free slot succeeds and yields a well-formed state. *)
From stdpp Require Import gmap.
From S2P Require Import Prelude Machine ContextSwitch Preempt PreemptStub PreemptTable Task.
From S2P Require Import Sched SchedRun SchedSpec.

#[local] Open Scope Z_scope.

Module SchedSpawn.
Import Preempt Stub Switch Table Tasks Sched SchedRun SchedSpec.

Section virt.
Context `{VA : VirtAddrs}.

(** ** Stacks *)

(** The allocator returned [raw] for [STACK_ALLOC_BYTES]: not null, inside one
    half of the canonical address space. *)
Definition raw_ok (raw : Z) : Prop :=
  0 < raw ∧ raw + STACK_ALLOC_BYTES < u64_lim ∧
  (raw + STACK_ALLOC_BYTES < 2 ^ 47 ∨ u64_lim - 2 ^ 47 ≤ raw).

Lemma zero_fill_outside raw n m : same_outside raw (raw + n) m (zero_fill raw n m).
Proof.
  intros x Hx. unfold zero_fill.
  destruct ((raw <=? x) && (x <? raw + n)) eqn:E; [bool_to_prop; lia|done].
Qed.

Lemma TaskStack_new_spec p raw m :
  raw_ok raw →
  let b := align_up raw STACK_ALIGN in
  ∃ m', TaskStack_new p raw m = Ret (mkStack raw (b + STACK_SIZE_BYTES) b, m') ∧
    load 8 m' b = STACK_CANARY ∧ same_outside raw (raw + STACK_ALLOC_BYTES) m m' ∧
    raw ≤ b ∧ b + STACK_SIZE_BYTES ≤ raw + STACK_ALLOC_BYTES ∧
    b `mod` 16 = 0 ∧ (b + STACK_SIZE_BYTES) `mod` 16 = 0.
Proof.
  intros (H1 & H2 & _) b. unfold STACK_ALLOC_BYTES, STACK_SIZE_BYTES, STACK_ALIGN in *.
  pose proof (align_up_bounds raw 16 ltac:(lia)) as Hb. fold b in Hb.
  pose proof (align_up_aligned raw 16 ltac:(lia)) as Ha. fold b in Ha.
  assert ((b + 131072) `mod` 16 = 0) as Ht.
  { replace 131072 with (8192 * 16) by lia. by rewrite Z_mod_plus_full. }
  eexists. unfold TaskStack_new, STACK_ALIGN, STACK_ALLOC_BYTES, STACK_SIZE_BYTES, STACK_ALIGN.
  rewrite (next_multiple_of_exact p raw 16) by lia. fold b.
  rewrite bind_Ret, (add64_exact p b) by ulia. rewrite bind_Ret, Ha, Ht. cbn [assert_ Z.eqb].
  rewrite !bind_Ret, add64_exact by ulia. rewrite bind_Ret.
  rewrite (proj2 (Z.leb_le _ _)) by lia. cbn [assert_]. rewrite bind_Ret.
  split; [reflexivity|]. split_and!; try done; try lia.
  - rewrite load8_store_same by ulia. by apply wrap64_id.
  - etrans; [apply zero_fill_outside|].
    eapply same_outside_mono; [apply (store_same_outside 8); ulia|lia..].
Qed.

(** ** Slots *)

Lemma first_free_spec used idxs :
  match first_free used idxs with
  | Some i => ∃ pre post, idxs = pre ++ i :: post ∧ bit_of used i = false ∧
      ∀ j, j ∈ pre → bit_of used j = true
  | None => ∀ j, j ∈ idxs → bit_of used j = true
  end.
Proof.
  induction idxs as [|i idxs IH]; simpl; [intros j Hj; by apply not_elem_of_nil in Hj|].
  destruct (Z.land used (Z.shiftl 1 (Z.of_nat i)) =? 0) eqn:E.
  - exists [], idxs. split_and!; [done|unfold bit_of; by rewrite E|].
    intros j Hj. by apply not_elem_of_nil in Hj.
  - assert (bit_of used i = true) as Hi by (unfold bit_of; by rewrite E).
    destruct (first_free used idxs) as [k|].
    + destruct IH as (pre & post & -> & Hk & Hpre). exists (i :: pre), post.
      split_and!; try done. intros j [->|Hj]%elem_of_cons; auto.
    + intros j [->|Hj]%elem_of_cons; auto.
Qed.

(** [alloc_slot] returns the lowest free slot, and panics exactly when all
    seven slots are occupied. *)
Theorem alloc_slot_lowest st :
  (∀ i, alloc_slot st = Ret i ↔
     (i < MAX_TASKS)%nat ∧ slot_bit st i = false ∧ ∀ j, (j < i)%nat → slot_bit st j = true) ∧
  ((∃ msg, alloc_slot st = Panic msg) ↔ ∀ j, (j < MAX_TASKS)%nat → slot_bit st j = true).
Proof.
  unfold alloc_slot. pose proof (first_free_spec (SLOT_USED st) (seq 0 MAX_TASKS)) as H.
  destruct (first_free (SLOT_USED st) (seq 0 MAX_TASKS)) as [k|]; cbn [expect].
  - destruct H as (pre & post & Hs & Hk & Hpre).
    assert (seq 0 MAX_TASKS !! length pre = Some k) as Hlk.
    { rewrite Hs. by apply list_lookup_middle. }
    apply lookup_seq in Hlk as [Hkl Hlt]. simpl in Hkl. subst k.
    assert (∀ j, (j < length pre)%nat → slot_bit st j = true) as Hlow.
    { intros j Hj. apply Hpre.
      assert (seq 0 MAX_TASKS !! j = Some j) as Hjj by (apply lookup_seq; lia).
      rewrite Hs, lookup_app_l in Hjj by done. by eapply list_elem_of_lookup_2. }
    split.
    + intros i. split; [by intros [= <-]|]. intros (Hi & Hf & Hl). f_equal.
      destruct (lt_eq_lt_dec (length pre) i) as [[Hc|Hc]|Hc]; [|done|].
      * specialize (Hl _ Hc). change (slot_bit st (length pre) = false) in Hk. congruence.
      * specialize (Hlow _ Hc). congruence.
    + split; [by intros [? ?]|]. intros Hall. specialize (Hall _ Hlt).
      change (slot_bit st (length pre) = false) in Hk. congruence.
  - assert (∀ j, (j < MAX_TASKS)%nat → slot_bit st j = true) as Hall.
    { intros j Hj. apply H. apply elem_of_seq. lia. }
    split; [|by split; [|eexists]].
    intros i. split; [done|]. intros (Hi & Hf & _). rewrite Hall in Hf; done.
Qed.

(** ** Spawning *)

(** The new allocation does not cover a live canary. *)
Definition heap_fresh (raw : Z) (w : World) : Prop :=
  ∀ b tb, boxes w !! b = Some tb →
  let bot := stack_bottom (stack tb) in
  0 ≤ bot ∧ bot + 8 ≤ u64_lim ∧ (bot + 8 ≤ raw ∨ raw + STACK_ALLOC_BYTES ≤ bot).

Definition slot_free (w : World) : Prop :=
  ∃ i, (i < MAX_TASKS)%nat ∧ slot_bit (statics w) i = false.

Lemma alloc_slot_free w :
  slot_free w → ∃ i, alloc_slot (statics w) = Ret i ∧ (i < MAX_TASKS)%nat ∧
    slot_bit (statics w) i = false.
Proof.
  intros (i & Hi & Hf). unfold alloc_slot.
  pose proof (first_free_spec (SLOT_USED (statics w)) (seq 0 MAX_TASKS)) as H.
  destruct (first_free _ _) as [k|].
  - destruct H as (pre & post & Hs & Hk & _). exists k. split_and!; try done.
    assert (k ∈ seq 0 MAX_TASKS) as Hin by (rewrite Hs; apply elem_of_app; right; by left).
    apply elem_of_seq in Hin. lia.
  - assert (bit_of (SLOT_USED (statics w)) i = true) as Hc; [|unfold slot_bit in Hf; unfold bit_of in Hc; congruence].
    apply H, elem_of_seq. lia.
Qed.

Definition registered (st : Statics) (i : nat) (fr : FullFrame) (b t : Z) : Statics :=
  mkStatics (PREEMPTIBLE st) (<[i := fr]> (TASK_FRAMES st)) (<[i := (b, t)]> (SLOT_BOUNDS st))
    (PREEMPT_SWITCHES st) (CURRENT_IDX st) (set_bit (SLOT_USED st) i) (EOI_BASE st)
    (APIC_TICKS st).

Lemma register_eq i fr b t st :
  (i < MAX_TASKS)%nat → slot_bit st i = false → b < t →
  (st1 ← register_task i fr st; set_slot_bounds i b t st1) = Ret (registered st i fr b t).
Proof.
  intros Hi Hf Hlt. unfold register_task, register_checks, set_slot_bounds.
  rewrite (proj2 (Nat.ltb_lt _ _) Hi), Hf. cbn [assert_ negb]. rewrite !bind_Ret.
  rewrite (proj2 (Z.ltb_lt _ _) Hlt). done.
Qed.

Lemma registered_wf i fr b t st :
  (i < MAX_TASKS)%nat → slot_bit st i = false → b < t → table_wf st →
  table_wf (registered st i fr b t).
Proof.
  intros Hi Hf Hlt Hw. pose proof (register_eq i fr b t st Hi Hf Hlt) as E.
  apply bind_inv in E as (st1 & E1 & E2).
  eapply table_step_wf; [by eapply step_bounds|]. eapply table_step_wf; [by eapply step_register|done].
Qed.

(** What [Task::new] and [Task::sleeping] return. *)
Lemma Task_make_spec p tramp cs_reg st0 raw task_id nm f q w :
  world_live q w → slot_free w → raw_ok raw → heap_fresh raw w → u64 tramp →
  ∃ i fr m,
    let b := align_up raw STACK_ALIGN in
    let tp := b + STACK_SIZE_BYTES in
    Task_make p tramp cs_reg st0 raw task_id nm f w =
      Ret (mkTask task_id nm st0 0 0 CFS_DEFAULT_WEIGHT (mkStack raw tp b)
             (mkContext (tp - 64)) fr i f,
           set_wmem (set_statics w (registered (statics w) i fr b tp)) m) ∧
    (i < MAX_TASKS)%nat ∧ slot_bit (statics w) i = false ∧ valid_for fr b tp = true ∧
    load 8 m b = STACK_CANARY ∧ same_outside raw (raw + STACK_ALLOC_BYTES) (wmem w) m ∧
    0 < b ∧ b < tp ∧ (tp - 64 + 56) `mod` 16 = 8 ∧ (u64 tp ∧ canonical tp).
Proof.
  intros Hl Hfree Hraw _ Hu.
  destruct (TaskStack_new_spec p raw (wmem w) Hraw) as (m1 & E1 & Hc & Ho & Hb1 & Hb2 & Hb3 & Ht3).
  destruct Hraw as (Hr1 & Hr2 & Hr3). unfold STACK_ALLOC_BYTES in *.
  set (b := align_up raw STACK_ALIGN) in *. set (tp := b + STACK_SIZE_BYTES) in *.
  assert (b + 131072 = tp) as Htp by done.
  destruct (init_task_context_spec p tramp m1 tp) as (m2 & E2 & Ho2 & _); [lia|lia|done|done|].
  destruct (fresh_valid p tramp cs_reg tp b) as (fr & E3 & _ & _ & Hv); [done|lia|lia|lia| |].
  { unfold canonical. unfold STACK_SIZE_BYTES, STACK_ALIGN in *. lia. }
  destruct (alloc_slot_free w Hfree) as (i & E4 & Hi & Hf).
  exists i, fr, m2. cbn zeta. split_and!; try done; try lia.
  - unfold Task_make. rewrite E1, bind_Ret. cbn [stack_top stack_bottom].
    rewrite E2, bind_Ret, E3, bind_Ret, Hv. cbn [assert_]. rewrite bind_Ret, E4, bind_Ret.
    assert (b < tp) as Hlt by lia.
    pose proof (register_eq i fr b tp (statics w) Hi Hf Hlt) as E5.
    apply bind_inv in E5 as (st1 & E5 & E6). by rewrite E5, bind_Ret, E6, bind_Ret.
  - rewrite <- Hc. eapply load_outside; [exact Ho2|lia..].
  - etrans; [exact Ho|]. eapply same_outside_mono; [exact Ho2|unfold STACK_SIZE_BYTES, STACK_ALIGN in *; lia..].
  - replace (tp - 64 + 56) with (8 + tp + (-1) * 16) by lia.
    rewrite Z_mod_plus_full. by rewrite <- Zplus_mod_idemp_r, Ht3.
  - unfold STACK_SIZE_BYTES, STACK_ALIGN in *. ulia.
  - unfold canonical. unfold STACK_SIZE_BYTES, STACK_ALIGN in *. lia.
Qed.

(** The live tasks other than the new one are unaffected. *)
Lemma old_task_live w m i fr b tp raw t a ta :
  boxes w !! a = Some ta → task_live w a ta → slot_bit (statics w) i = false →
  table_wf (statics w) → (i < MAX_TASKS)%nat →
  same_outside raw (raw + STACK_ALLOC_BYTES) (wmem w) m → heap_fresh raw w → slot t = i →
  task_live (spawned t (set_wmem (set_statics w (registered (statics w) i fr b tp)) m)) a ta.
Proof.
  intros Ha Ht Hf Hw Hi Ho Hh Hs.
  assert (slot ta ≠ i) as Hne by (intros <-; pose proof (tl_bit _ _ _ Ht); congruence).
  destruct (Hh a ta Ha) as (Hb0 & Hb1 & Hb2).
  constructor; try apply Ht; cbn [spawned set_wmem set_statics statics task_ptrs wmem registered
    SLOT_BOUNDS TASK_FRAMES]; rewrite ?Hs, ?list_lookup_insert_ne by done; try apply Ht.
  - unfold slot_bit. cbn [SLOT_USED]. pose proof (tl_slot _ _ _ Ht) as Hta.
    destruct (bitmap_set (SLOT_USED (statics w)) i (slot ta)) as [_ H]; [apply Hw|done..|].
    change (bit_of (set_bit (SLOT_USED (statics w)) i) (slot ta) = true). rewrite H.
    pose proof (tl_bit _ _ _ Ht) as Hbit. change (bit_of (SLOT_USED (statics w)) (slot ta) = true) in Hbit.
    by rewrite Hbit, orb_true_r.
  - unfold canary_ok. erewrite load_outside; [apply (tl_canary _ _ _ Ht)|exact Ho|lia..].
Qed.

Lemma spawned_live q w m i fr raw t :
  let b := stack_bottom (stack t) in
  let tp := stack_top (stack t) in
  let w1 := set_wmem (set_statics w (registered (statics w) i fr b tp)) m in
  world_live q w → slot_bit (statics w) i = false → (i < MAX_TASKS)%nat → b < tp → 0 < b →
  same_outside raw (raw + STACK_ALLOC_BYTES) (wmem w) m → heap_fresh raw w →
  slot t = i → preempt t = fr → valid_for fr b tp = true → load 8 m b = STACK_CANARY →
  (u64 tp ∧ canonical tp) → runs t = 0 → (ctx_rsp (ctx t) + 56) `mod` 16 = 8 →
  world_live (q ++ [next_box w]) (spawned t w1).
Proof.
  intros b tp w1 Hl Hf Hi Hlt Hb0 Ho Hh Hs Hp Hv Hc Hva Hr He. pose proof (wl_table _ _ Hl) as Hw.
  assert (boxes w !! next_box w = None) as Hfresh.
  { destruct (boxes w !! next_box w) eqn:E; [|done].
    pose proof (wl_next _ _ Hl (next_box w) ltac:(by eexists)). lia. }
  assert (∀ j, (j < MAX_TASKS)%nat → slot_bit (statics (spawned t w1)) j =
    ((i =? j)%nat || slot_bit (statics w) j)) as Hbit.
  { intros j Hj. by apply (bitmap_set (SLOT_USED (statics w)) i j); [apply Hw|..]. }
  constructor; cbn [spawned boxes next_box task_ptrs].
  - by apply registered_wf.
  - apply (wl_fence _ _ Hl).
  - rewrite length_insert. apply Hl.
  - rewrite NoDup_app. split_and!; [apply Hl| |apply NoDup_singleton].
    intros a Ha ->%list_elem_of_singleton. apply (wl_dom _ _ Hl) in Ha as [? ?]. cbn in *. congruence.
  - intros a. rewrite elem_of_app, list_elem_of_singleton, (wl_dom _ _ Hl a).
    change (boxes w1) with (boxes w). rewrite lookup_insert_is_Some'.
    change (next_box w1) with (next_box w). naive_solver.
  - intros a ta Ha. apply lookup_insert_Some in Ha as [[<- <-]|[_ Ha]].
    + constructor; try done; rewrite ?Hs; try done.
      * by rewrite Hbit, Nat.eqb_refl.
      * change (task_ptrs (spawned t w1)) with (<[slot t := Some (next_box w)]> (task_ptrs w)).
        rewrite Hs, list_lookup_insert_eq; [done|]. by rewrite (wl_ptrs _ _ Hl).
      * change (SLOT_BOUNDS _) with (<[i := (b, tp)]> (SLOT_BOUNDS (statics w))).
        rewrite list_lookup_insert_eq; [done|]. by rewrite (tw_bounds _ Hw).
      * fold b. lia.
      * by rewrite Hp.
      * exists fr. split; [|done].
        change (TASK_FRAMES _) with (<[i := fr]> (TASK_FRAMES (statics w))).
        apply list_lookup_insert_eq. by rewrite (tw_frames _ Hw).
      * unfold canary_ok. cbn [spawned wmem w1 set_wmem]. fold b. rewrite Hc. apply Z.eqb_refl.
      * lia.
    + by eapply old_task_live; [|apply (wl_tasks _ _ Hl)|..].
  - intros a Ha. apply lookup_insert_is_Some' in Ha as [<-|Ha]; [cbn; lia|].
    pose proof (wl_next _ _ Hl a Ha). cbn. lia.
  - intros j Hj Hbj. rewrite Hbit in Hbj by done. destruct (decide (i = j)) as [<-|Hne].
    + exists (next_box w), t. split; [apply lookup_insert_eq|done].
    + rewrite (proj2 (Nat.eqb_neq _ _) Hne) in Hbj.
      destruct (wl_slots _ _ Hl j Hj Hbj) as (a & ta & Ha & Hta).
      exists a, ta. split; [|done]. cbn -[insert]. rewrite lookup_insert_ne; [done|].
      intros <-. cbn in Ha. congruence.
  - intros j Hj Hbj. rewrite Hbit in Hbj by done. apply orb_false_iff in Hbj as [Hne Hbj].
    apply Nat.eqb_neq in Hne. rewrite Hs, list_lookup_insert_ne by done. by apply Hl.
Qed.

(** [with_weight], called for a weight other than the default only. *)
Definition reweighted (wt : Z) (t : Task) : outcome Task :=
  if wt =? CFS_DEFAULT_WEIGHT then Ret t else with_weight t wt.

Lemma reweighted_ok wt t :
  0 < wt → weight t = CFS_DEFAULT_WEIGHT → reweighted wt t = Ret (set_weight t wt).
Proof.
  intros Hw Ht. unfold reweighted. destruct (Z.eqb_spec wt CFS_DEFAULT_WEIGHT) as [->|_].
  - rewrite <- Ht. by destruct t.
  - unfold with_weight. by rewrite (proj2 (Z.ltb_lt _ _) Hw).
Qed.

Lemma spawn_ok {S} `{!Scheduler S} `{!SchedulerSpec S}
    p tramp cs_reg st0 raw task_id nm f wt (s : S) w :
  sched_ok (queue s) w → slot_free w → raw_ok raw → heap_fresh raw w → u64 tramp →
  match st0 with Ready | Sleeping _ => True | _ => False end → 0 < wt →
  ∃ t0 t w1 s' w', Task_make p tramp cs_reg st0 raw task_id nm f w = Ret (t0, w1) ∧
    reweighted wt t0 = Ret t ∧
    spawn s t w1 = Ret (s', w') ∧ sched_ok (queue s') w' ∧
    queue s' = queue s ++ [next_box w] ∧ finished s' = finished s ∧ next_no s' = next_no s ∧
    boxes w' = <[next_box w := t]> (boxes w) ∧ next_box w' = (next_box w + 1)%nat ∧
    (id t = task_id ∧ name t = nm ∧ runs t = 0 ∧ step t = f ∧ state t = st0 ∧
     stack_bottom (stack t) = align_up raw STACK_ALIGN ∧ vruntime t = 0 ∧ weight t = wt ∧
     stack_top (stack t) = stack_bottom (stack t) + STACK_SIZE_BYTES) ∧ now w' = now w.
Proof.
  intros [Hl Hq Hu Hsw] Hfree Hraw Hh Ht Hst0 Hwt.
  destruct (Task_make_spec p tramp cs_reg st0 raw task_id nm f (queue s) w Hl Hfree Hraw Hh Ht)
    as (i & fr & m & E & Hi & Hf & Hv & Hc & Ho & Hb0 & Hlt & He & Hva).
  set (t0 := mkTask _ _ _ _ _ _ _ _ _ _ _) in *. set (t := set_weight t0 wt).
  set (w1 := set_wmem _ m) in *.
  destruct (spawn_spec s t w1) as (s' & Es & Hq' & Hfin & Hno); [done|done|].
  exists t0, t, w1, s', (spawned t w1). split_and!; try done.
  - by apply reweighted_ok.
  - rewrite Hq'. constructor.
    + by apply (spawned_live (queue s) w m i fr raw t).
    + intros a ta Ha. cbn [spawned boxes] in Ha.
      apply lookup_insert_Some in Ha as [[<- <-]|[_ Ha]]; [done|by apply (Hq a)].
    + exact Hu.
    + exact Hsw.
  - cbn. lia.
Qed.

(** ** Capacity *)

Definition slots (q : list nat) (w : World) : list nat := omap (λ a, slot <$> boxes w !! a) q.

Lemma slots_spec q w :
  world_live q w →
  NoDup (slots q w) ∧ length (slots q w) = length q ∧
  ∀ i, i ∈ slots q w ↔ (i < MAX_TASKS)%nat ∧ slot_bit (statics w) i = true.
Proof.
  intros Hl. unfold slots.
  assert (∀ q', q' ⊆ q → NoDup q' →
    NoDup (omap (λ a, slot <$> boxes w !! a) q') ∧
    length (omap (λ a, slot <$> boxes w !! a) q') = length q') as H.
  { induction q' as [|a q' IH]; intros Hsub Hnd; [split; [apply NoDup_nil_2|done]|].
    apply NoDup_cons in Hnd as [Hna Hnd].
    destruct IH as [IH1 IH2]; [set_solver|done|].
    assert (is_Some (boxes w !! a)) as [t Ha] by (apply (wl_dom _ _ Hl); set_solver).
    cbn. rewrite Ha. cbn. rewrite IH2. split; [|done]. apply NoDup_cons. split; [|done].
    intros (b & Hb & (tb & Htb & Heq)%fmap_Some)%list_elem_of_omap. apply Hna.
    assert (a = b) as ->; [|done]. by eapply (live_slot_inj q w). }
  destruct (H q ltac:(done) (wl_nodup _ _ Hl)) as [H1 H2]. split_and!; [done..|].
  intros i. rewrite list_elem_of_omap. split.
  - intros (a & _ & (t & Ha & ->)%fmap_Some). apply (wl_tasks _ _ Hl) in Ha. split; apply Ha.
  - intros [Hi Hb]. destruct (wl_slots _ _ Hl i Hi Hb) as (a & t & Ha & <-).
    exists a. split; [apply (wl_dom _ _ Hl); by eexists|]. by rewrite Ha.
Qed.

Lemma slot_free_iff q w :
  world_live q w → (length q ≤ MAX_TASKS)%nat ∧ (slot_free w ↔ (length q < MAX_TASKS)%nat).
Proof.
  intros Hl. destruct (slots_spec q w Hl) as (Hnd & Hlen & Hin).
  assert (slots q w ⊆+ seq 0 MAX_TASKS) as Hsub.
  { apply NoDup_submseteq; [done|]. intros i Hi. apply elem_of_seq. apply Hin in Hi. lia. }
  pose proof (submseteq_length _ _ Hsub) as Hle. rewrite length_seq, Hlen in Hle.
  split; [done|]. split.
  - intros (i & Hi & Hf). destruct (decide (length q < MAX_TASKS)%nat) as [|Hge]; [done|exfalso].
    assert (slots q w ≡ₚ seq 0 MAX_TASKS) as Hp
      by (apply submseteq_length_Permutation; [done|]; rewrite length_seq; lia).
    assert (i ∈ slots q w) as Hi' by (rewrite Hp; apply elem_of_seq; lia).
    apply Hin in Hi' as [_ Hi']. congruence.
  - intros Hlt. destruct (decide (Forall (λ i, slot_bit (statics w) i = true) (seq 0 MAX_TASKS))) as [Hall|Hno].
    + exfalso. rewrite Forall_forall in Hall.
      assert (seq 0 MAX_TASKS ⊆+ slots q w) as Hs.
      { apply NoDup_submseteq; [apply NoDup_seq|]. intros i Hi. apply Hin.
        split; [apply elem_of_seq in Hi; lia|by apply Hall]. }
      apply submseteq_length in Hs. rewrite length_seq, Hlen in Hs. lia.
    + apply not_Forall_Exists in Hno; [|intros ?; apply _].
      apply Exists_exists in Hno as (i & Hi & Hb). exists i.
      split; [apply elem_of_seq in Hi; lia|]. by apply not_true_is_false.
Qed.

(** ** Spawning a list of tasks *)

Record TaskSpec := mkSpec {
  sp_state : TaskState;
  sp_raw : Z;              (* where the allocator puts its stack *)
  sp_name : string;
  sp_step : Z → bool;
  sp_weight : Z
}.

(** The spawn sequence of the boot code: number, create, spawn. *)
Fixpoint spawn_all {S} `{!Scheduler S} (p : profile) (tramp cs_reg : Z)
    (specs : list TaskSpec) (s : S) (w : World) : outcome (S * World) :=
  match specs with
  | [] => Ret (s, w)
  | sp :: specs' =>
      '(n, s1) ← next_id p s;
      '(t, w1) ← Task_make p tramp cs_reg (sp_state sp) (sp_raw sp) n (sp_name sp) (sp_step sp) w;
      t1 ← reweighted (sp_weight sp) t;
      '(s2, w2) ← spawn s1 t1 w1;
      spawn_all p tramp cs_reg specs' s2 w2
  end.

Definition block_apart (x y : TaskSpec) : Prop :=
  sp_raw x + STACK_ALLOC_BYTES ≤ sp_raw y ∨ sp_raw y + STACK_ALLOC_BYTES ≤ sp_raw x.

Fixpoint blocks_ok (specs : list TaskSpec) : Prop :=
  match specs with
  | [] => True
  | sp :: specs' =>
      raw_ok (sp_raw sp) ∧ Forall (block_apart sp) specs' ∧
      match sp_state sp with Ready | Sleeping _ => True | _ => False end ∧ 0 < sp_weight sp ∧
      blocks_ok specs'
  end.

(** A task made from a spec. *)
Definition made_from (n : Z) (sp : TaskSpec) (t : Task) : Prop :=
  id t = n ∧ name t = sp_name sp ∧ runs t = 0 ∧ step t = sp_step sp ∧ state t = sp_state sp ∧
  stack_bottom (stack t) = align_up (sp_raw sp) STACK_ALIGN ∧ vruntime t = 0 ∧
  weight t = sp_weight sp ∧ stack_top (stack t) = stack_bottom (stack t) + STACK_SIZE_BYTES.

Lemma heap_fresh_insert w w' t sp y :
  boxes w' = <[next_box w := t]> (boxes w) → made_from (id t) sp t → raw_ok (sp_raw sp) →
  block_apart sp y → heap_fresh (sp_raw y) w → heap_fresh (sp_raw y) w'.
Proof.
  intros Hb (_ & _ & _ & _ & _ & Hbot & _) (Hr1 & Hr2 & _) Hap Hh b tb Hlk. rewrite Hb in Hlk.
  apply lookup_insert_Some in Hlk as [[<- <-]|[_ Hlk]]; [|by apply (Hh b)].
  rewrite Hbot. unfold STACK_ALLOC_BYTES, STACK_SIZE_BYTES, STACK_ALIGN, block_apart in *.
  unfold STACK_ALLOC_BYTES, STACK_SIZE_BYTES, STACK_ALIGN in *.
  pose proof (align_up_bounds (sp_raw sp) 16 ltac:(lia)). cbn zeta. lia.
Qed.

Lemma spawn_all_ok {S} `{!Scheduler S} `{!SchedulerSpec S} p tramp cs_reg :
  u64 tramp → ∀ specs (s : S) w,
  sched_ok (queue s) w → 0 ≤ next_no s → next_no s + Z.of_nat (length specs) < u64_lim →
  (length (queue s) + length specs ≤ MAX_TASKS)%nat → blocks_ok specs →
  Forall (λ sp, heap_fresh (sp_raw sp) w) specs →
  ∃ s' w', spawn_all p tramp cs_reg specs s w = Ret (s', w') ∧ sched_ok (queue s') w' ∧
    queue s' = queue s ++ seq (next_box w) (length specs) ∧ finished s' = finished s ∧
    next_no s' = next_no s + Z.of_nat (length specs) ∧ now w' = now w ∧
    (∀ a, (a < next_box w)%nat → boxes w' !! a = boxes w !! a) ∧
    ∀ k sp, specs !! k = Some sp →
      ∃ t, boxes w' !! (next_box w + k)%nat = Some t ∧ made_from (next_no s + Z.of_nat k) sp t.
Proof.
  intros Hu specs. induction specs as [|sp specs IH]; intros s w Hok H0 H1 Hcap Hbl Hh.
  { exists s, w. split; [done|]. rewrite app_nil_r. split_and!; try done. cbn. lia. }
  destruct Hbl as (Hraw & Hap & Hst & Hwt & Hbl). apply Forall_cons in Hh as [Hh Hhs].
  simpl in Hcap, H1.
  destruct (next_id_spec p s) as (s1 & E1 & Hq1 & Hf1 & Hn1); [lia|lia|].
  rewrite <- Hq1 in Hok.
  assert (slot_free w) as Hfree by (apply (slot_free_iff _ _ (so_live _ _ Hok)); rewrite Hq1; lia).
  destruct (spawn_ok p tramp cs_reg (sp_state sp) (sp_raw sp) (next_no s) (sp_name sp) (sp_step sp)
      (sp_weight sp) s1 w Hok Hfree Hraw Hh Hu Hst Hwt)
    as (t0 & t & w1 & s2 & w2 & E2 & Ew & E3 & Hok2 & Hq2 & Hf2 & Hn2 & Hb2 & Hnb & Hmade & Hnow).
  destruct (IH s2 w2 Hok2) as (s' & w' & E & Hok' & Hq' & Hf' & Hn' & Hnow' & Hold & Hnew);
    [lia|lia|rewrite Hq2, Hq1, length_app; simpl; lia|done| |].
  { rewrite Forall_forall in Hap, Hhs. apply Forall_forall. intros y Hy.
    eapply (heap_fresh_insert w w2 t sp y Hb2); [|done|by apply Hap|by apply Hhs].
    split; [done|apply Hmade]. }
  exists s', w'. split_and!; try done.
  - cbn [spawn_all]. rewrite E1, bind_Ret, E2, bind_Ret, Ew, bind_Ret, E3, bind_Ret. exact E.
  - rewrite Hq', Hq2, Hq1, Hnb, <- app_assoc. f_equal. cbn. by rewrite Nat.add_1_r.
  - congruence.
  - rewrite Hn', Hn2, Hn1. cbn [length]. lia.
  - congruence.
  - intros a Ha. rewrite Hold by lia. rewrite Hb2. apply lookup_insert_ne. lia.
  - intros [|k] sp' Hk; simpl in Hk.
    + injection Hk as <-. exists t. rewrite Nat.add_0_r, Z.add_0_r. split; [|done].
      rewrite Hold by lia. rewrite Hb2. apply lookup_insert_eq.
    + destruct (Hnew k sp' Hk) as (t' & Ht' & Hm'). exists t'. split.
      * rewrite <- Ht', Hnb. f_equal. lia.
      * by replace (next_no s + Z.of_nat (Datatypes.S k)) with (next_no s2 + Z.of_nat k) by lia.
Qed.

(** With all slots taken no task can be created. *)
Lemma Task_make_full p tramp cs_reg st0 raw n nm f w :
  ¬ slot_free w → ∃ msg, Task_make p tramp cs_reg st0 raw n nm f w = Panic msg.
Proof.
  intros Hfull. destruct (Task_make _ _ _ _ _ _ _ _ _) as [r|msg] eqn:E; [exfalso|by eexists].
  unfold Task_make in E. apply bind_inv in E as ((stk & m1) & _ & E).
  apply bind_inv in E as ((c & m2) & _ & E). apply bind_inv in E as (fr & _ & E).
  apply bind_inv in E as (u & _ & E). apply bind_inv in E as (sl & E & _).
  unfold alloc_slot in E.
  pose proof (first_free_spec (SLOT_USED (statics w)) (seq 0 MAX_TASKS)) as Hff.
  destruct (first_free _ _) as [i|]; [|done].
  destruct Hff as (pre & post & Hs & Hbit & _). apply Hfull. exists i. split; [|exact Hbit].
  assert (i ∈ seq 0 MAX_TASKS) as Hin by (rewrite Hs; apply elem_of_app; right; by left).
  apply elem_of_seq in Hin. lia.
Qed.

(** C14.  Capacity: into any scheduler that keeps the contract, tasks can be created
    and spawned without failure up to seven live ones, numbered consecutively
    and queued in order with zero runs; with seven live tasks the next creation
    panics. *)
Theorem spawn_capacity {S} `{!Scheduler S} `{!SchedulerSpec S} p tramp cs_reg specs (s : S) w :
  u64 tramp → sched_ok (queue s) w → 0 ≤ next_no s →
  next_no s + Z.of_nat (length specs) < u64_lim →
  (alive s + length specs ≤ MAX_TASKS)%nat → blocks_ok specs →
  Forall (λ sp, heap_fresh (sp_raw sp) w) specs →
  ∃ s' w', spawn_all p tramp cs_reg specs s w = Ret (s', w') ∧ sched_ok (queue s') w' ∧
    alive s' = (alive s + length specs)%nat ∧
    (∀ k sp, specs !! k = Some sp → ∃ t,
       queue s' !! (alive s + k)%nat = Some (next_box w + k)%nat ∧
       boxes w' !! (next_box w + k)%nat = Some t ∧ made_from (next_no s + Z.of_nat k) sp t) ∧
    (alive s' = MAX_TASKS → ∀ st0 raw n nm f,
       ∃ msg, Task_make p tramp cs_reg st0 raw n nm f w' = Panic msg).
Proof.
  intros Hu Hok H0 H1 Hcap Hbl Hh. rewrite alive_spec in Hcap.
  destruct (spawn_all_ok p tramp cs_reg Hu specs s w) as (s' & w' & E & Hok' & Hq' & _ & _ & _ & _ & Hnew);
    [done..|].
  exists s', w'. rewrite !alive_spec. split_and!; try done.
  - by rewrite Hq', length_app, length_seq.
  - intros k sp Hk. destruct (Hnew k sp Hk) as (t & Ht & Hm). exists t. split_and!; try done.
    rewrite Hq', lookup_app_r by lia. apply lookup_seq. apply lookup_lt_Some in Hk. lia.
  - intros Hfull st0 raw n nm f. apply Task_make_full.
    intros Hfree. apply (slot_free_iff _ _ (so_live _ _ Hok')) in Hfree. lia.
Qed.

End virt.

(** ** A concrete spawn *)

Lemma world_init_ok : sched_ok [] world_init.
Proof.
  assert (∀ a : nat, ¬ is_Some (boxes world_init !! a)) as Hno by (intros a [? ?]; done).
  assert (∀ i, (i < MAX_TASKS)%nat →
    slot_bit (statics world_init) i = false ∧ task_ptrs world_init !! i = Some None) as Hslot.
  { intros i Hi. unfold MAX_TASKS in Hi. by do 7 (destruct i as [|i]; [done|]); lia. }
  constructor; [constructor|done|done|done].
  - apply (table_reachable_wf statics_init). apply rtc_refl.
  - done.
  - done.
  - apply NoDup_nil_2.
  - intros a. split; [by intros ?%not_elem_of_nil|intros H; by apply Hno in H].
  - done.
  - intros a H. by apply Hno in H.
  - intros i Hi Hb. destruct (Hslot i Hi). congruence.
  - intros i Hi _. by apply Hslot.
Qed.

(** Three workers of five steps and one sleeper, stacks in the kernel heap. *)
Definition heap_at (k : Z) : Z := 0xFFFF900000000000 + k * 0x21000 + 8.
Definition five_steps (n : Z) : bool := n + 1 <? 5.
Definition demo_specs : list TaskSpec :=
  [mkSpec Ready (heap_at 0) "alpha" five_steps CFS_DEFAULT_WEIGHT;
   mkSpec Ready (heap_at 1) "beta" five_steps CFS_DEFAULT_WEIGHT;
   mkSpec Ready (heap_at 2) "gamma" five_steps CFS_DEFAULT_WEIGHT;
   mkSpec (Sleeping 20) (heap_at 3) "napper" (λ _, false) CFS_DEFAULT_WEIGHT].

Lemma demo_blocks_ok : blocks_ok demo_specs.
Proof.
  cbn. rewrite !Forall_cons, !Forall_nil. unfold block_apart, raw_ok, heap_at, CFS_DEFAULT_WEIGHT,
    STACK_ALLOC_BYTES, STACK_SIZE_BYTES, STACK_ALIGN, u64_lim. cbn [sp_raw sp_weight]. lia.
Qed.

Lemma demo_heap_fresh : Forall (λ sp, heap_fresh (sp_raw sp) world_init) demo_specs.
Proof. apply Forall_forall. intros sp _ b tb Hb. done. Qed.

Lemma spawn_capacity_witness :
  ∃ s' w', spawn_all Dev 0x8000 8 demo_specs RoundRobin_new world_init = Ret (s', w') ∧
    alive s' = 4%nat.
Proof.
  destruct (spawn_capacity Dev 0x8000 8 demo_specs RoundRobin_new world_init)
    as (s' & w' & E & _ & Hal & _).
  - by vm_compute.
  - exact world_init_ok.
  - done.
  - by vm_compute.
  - cbn. unfold MAX_TASKS. lia.
  - exact demo_blocks_ok.
  - exact demo_heap_fresh.
  - exists s', w'. split; [exact E|exact Hal].
Defined.

End SchedSpawn.
