(* ===== verification/SchedFair.v ===== *)
(** * Fairness of the two policies

    Round robin: an awake task (ready, or its wake-up tick has come) at position
    [k] of the queue runs within [k + 1] calls, and one full round of ready tasks
    runs each exactly once.  CFS: the call runs the first awake task of least
    vruntime, and over any sequence of calls on ready tasks the weighted run
    counts of any two live tasks stay within one slice of each other. *)
From stdpp Require Import gmap.
From S2P Require Import Prelude Machine ContextSwitch Preempt PreemptStub PreemptTable Task.
From S2P Require Import Sched SchedRun SchedSpec SchedSpawn.

#[local] Open Scope Z_scope.

Module SchedFair.
Import Preempt Stub Switch Table Tasks Sched SchedRun SchedSpec SchedSpawn.

Section virt.
Context `{VA : VirtAddrs}.

(** ** Environments for a sequence of calls *)

(** Steps stay in their own stack and keep every live canary, whatever the
    memory is when they run. *)
Definition env_steady (env : Env) (w : World) : Prop :=
  ∀ a t, boxes w !! a = Some t →
  Forall (λ f, valid_for f (stack_bottom (stack t)) (stack_top (stack t)) = true)
    (irq_during (env a)) ∧
  ∀ b tb m, boxes w !! b = Some tb → canary_ok (stack tb) m = true →
    canary_ok (stack tb) (step_mem (env a) m) = true.

Definition runs_below (n : Z) (w : World) : Prop :=
  ∀ a t, boxes w !! a = Some t → runs t + n < u64_lim.

Lemma steady_fits q w env :
  world_live q w → env_steady env w → runs_below 1 w → env_fits env w.
Proof.
  intros Hl Hs Hr a t Ha _. destruct (Hs a t Ha) as [H1 H2].
  split; [|by eapply Hr]. split; [done|]. intros b tb Hb. eapply H2; [done|].
  apply (tl_canary _ _ _ (wl_tasks _ _ Hl _ _ Hb)).
Qed.

(** The boxes of [w'] are boxes of [w] with the same stacks. *)
Definition same_stacks (w w' : World) : Prop :=
  ∀ b tb', boxes w' !! b = Some tb' → ∃ tb, boxes w !! b = Some tb ∧ stack tb' = stack tb.

Lemma env_steady_mono env w w' : same_stacks w w' → env_steady env w → env_steady env w'.
Proof.
  intros Hsub Hs a t' Ha'. destruct (Hsub a t' Ha') as (t & Ha & ->).
  destruct (Hs a t Ha) as [H1 H2]. split; [done|].
  intros b tb' m Hb'. destruct (Hsub b tb' Hb') as (tb & Hb & ->). by apply (H2 b tb m).
Qed.

Lemma once_same_stacks env q fin w b q' fin' w' :
  once_result env q fin w b q' fin' w' → same_stacks w w'.
Proof.
  unfold once_result. destruct b; [|intros (_ & -> & _) b' tb' Hb; by exists tb'].
  intros (a & t & t' & Ha & _ & Hro & _ & _ & Hbox) b tb' Hb.
  destruct (step t (runs t)); destruct Hbox as [Hbox _]; rewrite Hbox in Hb.
  - apply lookup_insert_Some in Hb as [[<- <-]|[_ Hb]]; [|by exists tb'].
    exists t. split; [done|]. apply Hro.
  - apply lookup_delete_Some in Hb as [_ Hb]. by exists tb'.
Qed.

Lemma once_runs_below env q fin w b q' fin' w' n :
  once_result env q fin w b q' fin' w' → 0 ≤ n → runs_below (n + 1) w → runs_below n w'.
Proof.
  intros Ho Hn Hr c tc Hc. unfold once_result in Ho. destruct b.
  - destruct Ho as (a & t & t' & Ha & _ & Hro & _ & _ & Hbox).
    destruct (step t (runs t)); destruct Hbox as [Hbox _]; rewrite Hbox in Hc.
    + apply lookup_insert_Some in Hc as [[<- <-]|[_ Hc]].
      * specialize (Hr a t Ha). rewrite (ro_runs _ _ Hro). lia.
      * specialize (Hr c tc Hc). lia.
    + apply lookup_delete_Some in Hc as [_ Hc]. specialize (Hr c tc Hc). lia.
  - destruct Ho as (_ & -> & _). specialize (Hr c tc Hc). lia.
Qed.

(** ** Staying awake *)

(** [t] is ready, or its wake-up tick has come and the clock does not wrap
    during the steps of [envs]. *)
Definition stays_awake (envs : list Env) (w : World) (t : Task) : Prop :=
  state t = Ready ∨
  ∃ u B, state t = Sleeping u ∧ u ≤ now w ∧ 0 ≤ B ∧
    Forall (λ e : Env, ∀ a, env_ticks (e a) ≤ B) envs ∧
    now w + B * Z.of_nat (length envs) < u64_lim.

Lemma stays_awake_now envs w t : stays_awake envs w t → asleep (now w) t = false.
Proof.
  unfold asleep. intros [->|(u & B & -> & Hu & _)]; [done|]. by apply Z.ltb_ge.
Qed.

Lemma stays_awake_take k envs w t : stays_awake envs w t → stays_awake (take k envs) w t.
Proof.
  intros [H|(u & B & H1 & H2 & H3 & H4 & H5)]; [by left|right]. exists u, B.
  split_and!; try done; [by apply Forall_take|]. rewrite length_take. nia.
Qed.

Lemma stays_awake_once env envs w t q fin b q' fin' w' :
  once_result env q fin w b q' fin' w' → u64 (now w) →
  stays_awake (env :: envs) w t → stays_awake envs w' t.
Proof.
  intros Ho Hu [H|(u & B & H1 & H2 & H3 & H4 & H5)]; [by left|right].
  apply Forall_cons in H4 as [He H4]. cbn [length] in H5.
  exists u, B. unfold once_result in Ho. destruct b.
  - destruct Ho as (a & ta & ta' & _ & _ & _ & Hn & _). specialize (He a).
    assert (0 ≤ env_ticks (env a)) by (unfold env_ticks; lia).
    rewrite wrap64_id in Hn by ulia. rewrite Hn. split_and!; try done; nia.
  - destruct Ho as (_ & -> & _). split_and!; try done. nia.
Qed.

(** A sequence of calls. *)
Fixpoint calls {S} `{!Scheduler S} (p : profile) (envs : list Env) (s : S) (w : World)
    : outcome (S * World) :=
  match envs with
  | [] => Ret (s, w)
  | env :: envs' =>
      '(_, s', w') ← schedule_once p env s w;
      calls p envs' s' w'
  end.

(** ** Bounded waiting, for any policy *)
Section waiting.
Context {S : Type} `{!Scheduler S} `{!SchedulerSpec S} (p : profile) (a : nat) (t : Task).

(** [Inv s w k]: at most [k] calls go by before [a] runs; [Ran]: what a call that
    ran it did. *)
Context (Inv : S → World → nat → Prop) (Ran : Env → S → World → S → World → Prop).

(** A call runs the awake task [t] in box [a] or brings its turn closer. *)
Definition closer : Prop := ∀ s w k env,
  Inv s w k → sched_ok (queue s) w → boxes w !! a = Some t → asleep (now w) t = false →
  env_fits env w →
  ∃ s' w', schedule_once p env s w = Ret (true, s', w') ∧
    (Ran env s w s' w' ∨
     sched_ok (queue s') w' ∧ boxes w' !! a = Some t ∧
     once_result env (queue s) (finished s) w true (queue s') (finished s') w' ∧
     ∃ k', (k' < k)%nat ∧ Inv s' w' k').

Lemma bounded_wait : closer → ∀ k s w envs,
  Inv s w k → sched_ok (queue s) w → boxes w !! a = Some t → stays_awake envs w t →
  length envs = (k + 1)%nat → Forall (λ e, env_steady e w) envs →
  runs_below (Z.of_nat k + 2) w →
  ∃ n s' w' env s'' w'', (n ≤ k)%nat ∧ calls p (take n envs) s w = Ret (s', w') ∧
    boxes w' !! a = Some t ∧ envs !! n = Some env ∧
    schedule_once p env s' w' = Ret (true, s'', w'') ∧ Ran env s' w' s'' w''.
Proof.
  intros Hcl k. induction (lt_wf k) as [k _ IH]. intros s w envs Hi Hok Ha Haw Hlen Henv Hr.
  destruct envs as [|env envs]; [simpl in Hlen; lia|]. simpl in Hlen.
  apply Forall_cons in Henv as [He Henv]. pose proof (stays_awake_now _ _ _ Haw) as Hs.
  assert (env_fits env w) as Hfit.
  { eapply steady_fits; [apply Hok|done|]. intros b tb Hb. specialize (Hr b tb Hb). lia. }
  destruct (Hcl s w k env Hi Hok Ha Hs Hfit) as (s1 & w1 & Ecall & [Hran|Hmove]).
  { exists 0%nat, s, w, env, s1, w1. split_and!; try done. lia. }
  destruct Hmove as (Hok1 & Ha1 & Honce & k' & Hlt & Hi').
  destruct (IH k' Hlt s1 w1 (take (k' + 1) envs) Hi' Hok1 Ha1)
    as (n & s' & w' & env' & s'' & w'' & Hn & Ec & Hb' & En & Hcall & Hran').
  - eapply stays_awake_take, stays_awake_once; [exact Honce|apply Hok|exact Haw].
  - rewrite length_take. lia.
  - apply Forall_take. eapply Forall_impl; [exact Henv|].
    intros e. apply env_steady_mono. by eapply once_same_stacks.
  - pose proof (once_runs_below _ _ _ _ _ _ _ _ (Z.of_nat k + 1) Honce ltac:(lia)) as Hr1.
    intros c tc Hc. rewrite <- Z.add_assoc in Hr1. specialize (Hr1 Hr c tc Hc). lia.
  - exists (Datatypes.S n), s', w', env', s'', w''. split; [lia|]. split_and!; try done.
    + cbn [take calls]. rewrite Ecall, bind_Ret.
      rewrite take_take in Ec. by replace (n `min` (k' + 1))%nat with n in Ec by lia.
    + cbn. by rewrite lookup_take_lt in En by lia.
Qed.
End waiting.

(** ** Round robin: bounded waiting *)

(** Position of [a] after the first awake task has been rotated out. *)
Lemma rotate_position (pre post : list nat) x a k :
  NoDup (pre ++ x :: post) → (pre ++ x :: post) !! k = Some a → a ≠ x → a ∉ pre →
  ∃ k', (post ++ pre ++ [x]) !! k' = Some a ∧ (post ++ pre) !! k' = Some a ∧ (k' < k)%nat.
Proof.
  intros Hnd Hk Hx Hpre. apply lookup_app_Some in Hk as [Hk|[Hge Hk]].
  { exfalso. apply Hpre. by eapply list_elem_of_lookup_2. }
  destruct (k - length pre)%nat as [|k'] eqn:E; simpl in Hk; [congruence|].
  exists k'. split_and!; [| |lia]; apply lookup_app_l_Some; done.
Qed.

Lemma first_awake_before w q pre x post k a t :
  first_awake w q = Some (pre, x, post) → q !! k = Some a → boxes w !! a = Some t →
  asleep (now w) t = false → a ∉ pre.
Proof.
  intros Hf _ Ha Hs Hin. apply first_awake_Some in Hf as (_ & _ & Hpre).
  specialize (Hpre a t Hin Ha). congruence.
Qed.

(** The verdict on [a] of a call that ran it. *)
Definition rr_ran (env : Env) (a : nat) (t : Task) (s s' : RoundRobin) (w' : World) : Prop :=
  if step t (runs t) then boxes w' !! a = Some (ran_task (env a) t)
  else boxes w' !! a = None ∧ rr_finished s' = rr_finished s ++ [(id t, name t, runs t + 1)].

(** One call either runs the awake task [a] or moves it forward. *)
Lemma rr_wait_step p s w a t k env :
  sched_ok (rr_ready s) w → rr_ready s !! k = Some a → boxes w !! a = Some t →
  asleep (now w) t = false → env_fits env w →
  ∃ s' w', rr_schedule_once p env s w = Ret (true, s', w') ∧
    (rr_ran env a t s s' w' ∨
     sched_ok (rr_ready s') w' ∧ boxes w' !! a = Some t ∧
     once_result env (rr_ready s) (rr_finished s) w true (rr_ready s') (rr_finished s') w' ∧
     ∃ k', (k' < k)%nat ∧ rr_ready s' !! k' = Some a).
Proof.
  intros Hok Hk Ha Hs Hfit. pose proof Hok as [Hl _ _ _].
  pose proof (rr_schedule_once_eq p env s w Hl Hfit) as E. unfold rr_result in E.
  destruct (first_awake w (rr_ready s)) as [[[pre x] post]|] eqn:Hf.
  2:{ exfalso. assert (asleep (now w) t = true); [|congruence].
      eapply first_awake_None; [|exact Hf| |done]; [intros b; by apply (wl_dom _ _ Hl)|].
      by eapply list_elem_of_lookup_2. }
  pose proof (first_awake_before w _ pre x post k a t Hf Hk Ha Hs) as Hpre.
  apply first_awake_Some in Hf as (Hq & (tx & Hx & Hsx) & _).
  rewrite Hx in E. cbn [mbind option_bind] in E.
  destruct (rr_once_spec p env s w Hok Hfit) as (b & s1 & w1 & Ecall & Hok1 & Honce).
  destruct (decide (a = x)) as [<-|Hne].
  - assert (tx = t) as -> by congruence. unfold rr_ran.
    destruct (step t (runs t)); injection E as E; do 2 eexists; (split; [by symmetry|]); left.
    + apply lookup_insert_eq.
    + cbn [retired boxes ran rr_finished]. split; [apply lookup_delete_eq|done].
  - rewrite Hq in Hk. pose proof (wl_nodup _ _ Hl) as Hnd. rewrite Hq in Hnd.
    destruct (rotate_position pre post x a k Hnd Hk Hne Hpre) as (k' & Hk1 & Hk2 & Hlt).
    destruct (step tx (runs tx)); injection E as E; rewrite Ecall in E; injection E as <- <- <-;
      do 2 eexists; (split; [exact Ecall|]); right; split_and!; try done.
    + cbn [ran boxes]. by rewrite lookup_insert_ne.
    + by exists k'.
    + cbn [retired ran boxes]. by rewrite lookup_delete_ne, lookup_insert_ne.
    + by exists k'.
Qed.

(** C11.  A task at position [k] of the round-robin queue that is ready, or whose
    wake-up tick has come, runs within [k + 1] calls of [schedule_once], whatever
    the other tasks do. *)
Theorem rr_bounded_wait p s w a t k envs :
  sched_ok (rr_ready s) w → rr_ready s !! k = Some a → boxes w !! a = Some t →
  stays_awake envs w t → length envs = (k + 1)%nat →
  Forall (λ e, env_steady e w) envs → runs_below (Z.of_nat k + 2) w →
  ∃ n s' w' env s'' w'', (n ≤ k)%nat ∧ calls p (take n envs) s w = Ret (s', w') ∧
    boxes w' !! a = Some t ∧ envs !! n = Some env ∧
    rr_schedule_once p env s' w' = Ret (true, s'', w'') ∧ rr_ran env a t s' s'' w''.
Proof.
  intros Hok Hk Ha Haw Hlen Henv Hr.
  assert (closer p a t (λ (s : RoundRobin) _ k, rr_ready s !! k = Some a)
    (λ env s _ s' w', rr_ran env a t s s' w')) as Hcl.
  { intros s1 w1 k1 env Hk1 Hok1 Ha1 Hs1 Hfit. by apply rr_wait_step. }
  exact (bounded_wait p a t _ _ Hcl k s w envs Hk Hok Ha Haw Hlen Henv Hr).
Qed.

(** ** Round robin: full rounds *)

(** By the tasks [T] at the start of a round: does the step of [a] go on, and the
    ledger entry of [a] if it does not. *)
Definition goes_on (T : nat → option Task) (a : nat) : bool :=
  match T a with Some t => step t (runs t) | None => false end.
Definition retires (T : nat → option Task) (a : nat) : option entry :=
  match T a with
  | Some t => if step t (runs t) then None else Some (id t, name t, runs t + 1)
  | None => None
  end.

(** A ready task at the head of the queue runs. *)
Lemma rr_head_runs p env s w a q t :
  sched_ok (rr_ready s) w → env_fits env w → rr_ready s = a :: q →
  boxes w !! a = Some t → state t = Ready →
  ∃ s' w', rr_schedule_once p env s w = Ret (true, s', w') ∧ sched_ok (rr_ready s') w' ∧
    same_stacks w w' ∧ (∀ b, b ≠ a → boxes w' !! b = boxes w !! b) ∧
    if step t (runs t)
    then rr_ready s' = q ++ [a] ∧ rr_finished s' = rr_finished s ∧
      boxes w' !! a = Some (ran_task (env a) t)
    else rr_ready s' = q ∧ rr_finished s' = rr_finished s ++ [(id t, name t, runs t + 1)] ∧
      boxes w' !! a = None.
Proof.
  intros Hok Hfit Hq Ha Hst. pose proof Hok as [Hl _ _ _].
  pose proof (rr_schedule_once_eq p env s w Hl Hfit) as E. unfold rr_result in E.
  assert (first_awake w (rr_ready s) = Some ([], a, q)) as Hf.
  { rewrite Hq. cbn [first_awake]. rewrite Ha. unfold asleep. by rewrite Hst. }
  rewrite Hf, Ha in E. cbn [mbind option_bind app] in E. rewrite app_nil_r in E.
  destruct (rr_once_spec p env s w Hok Hfit) as (b & s1 & w1 & Ecall & Hok1 & Honce).
  apply once_same_stacks in Honce.
  destruct (step t (runs t)); injection E as E; rewrite Ecall in E; injection E as <- <- <-;
    do 2 eexists; (split; [exact Ecall|]); split_and!; try done; cbn [retired ran boxes].
  - intros b Hb. by rewrite lookup_insert_ne.
  - apply lookup_insert_eq.
  - intros b Hb. by rewrite lookup_delete_ne, lookup_insert_ne.
  - apply lookup_delete_eq.
Qed.

Lemma rr_round_aux p T : ∀ todo envs tail s w,
  rr_ready s = todo ++ tail → sched_ok (rr_ready s) w → length envs = length todo →
  Forall (λ e, env_steady e w) envs →
  (∀ a t, boxes w !! a = Some t → runs t + 1 < u64_lim) →
  (∀ a, a ∈ todo → ∃ t, boxes w !! a = Some t ∧ T a = Some t ∧ state t = Ready ∧
     runs t + 2 < u64_lim) →
  ∃ s' w', calls p envs s w = Ret (s', w') ∧
    rr_ready s' = tail ++ filter (λ a, goes_on T a = true) todo ∧
    rr_finished s' = rr_finished s ++ omap (retires T) todo ∧
    (∀ a t, a ∈ todo → T a = Some t →
       if step t (runs t) then ∃ t', boxes w' !! a = Some t' ∧ ran_once t t'
       else boxes w' !! a = None) ∧
    (∀ a, a ∉ todo → boxes w' !! a = boxes w !! a).
Proof.
  induction todo as [|a todo IH]; intros envs tail s w Hq Hok Hlen Henv Hr Ht.
  { apply nil_length_inv in Hlen as ->. exists s, w. cbn [filter omap list_omap].
    rewrite !app_nil_r. split_and!; [done..|by intros a t Ha%not_elem_of_nil|done]. }
  destruct envs as [|env envs]; [done|]. injection Hlen as Hlen.
  apply Forall_cons in Henv as [He Henv]. pose proof Hok as [Hl _ _ _].
  pose proof (wl_nodup _ _ Hl) as Hnd. rewrite Hq in Hnd.
  apply NoDup_cons in Hnd as [Hna _]. change (a ∉ todo ++ tail) in Hna.
  assert (a ∉ todo) as Hnt by (intros Hin; apply Hna, elem_of_app; by left).
  destruct (Ht a) as (t & Ha & HT & Hst & Hrun); [by left|].
  destruct (rr_head_runs p env s w a (todo ++ tail) t Hok) as
    (s1 & w1 & Ecall & Hok1 & Hsame & Hother & Hres); [by eapply steady_fits|exact Hq|exact Ha|exact Hst|].
  assert (∃ tail', rr_ready s1 = todo ++ tail' ∧
    tail' ++ filter (λ a, goes_on T a = true) todo = tail ++ filter (λ a, goes_on T a = true) (a :: todo) ∧
    rr_finished s1 ++ omap (retires T) todo = rr_finished s ++ omap (retires T) (a :: todo))
    as (tail' & Hq1 & Hf1 & Ho1).
  { assert (goes_on T a = step t (runs t)) as Eg by (unfold goes_on; by rewrite HT).
    assert (retires T a = if step t (runs t) then None else Some (id t, name t, runs t + 1)) as Er
      by (unfold retires; by rewrite HT).
    rewrite filter_cons. cbn [omap list_omap]. rewrite Er.
    destruct (step t (runs t)); destruct Hres as (-> & -> & _).
    - exists (tail ++ [a]). rewrite decide_True by done. by rewrite <- !app_assoc.
    - exists tail. rewrite decide_False by congruence. by rewrite <- !app_assoc. }
  destruct (IH envs tail' s1 w1 Hq1 Hok1 Hlen) as (s' & w' & Ec & Hq' & Hfin & Hin & Hout).
  - eapply Forall_impl; [exact Henv|]. intros e. by apply env_steady_mono.
  - intros b tb Hb. destruct (decide (b = a)) as [->|Hne]; [|rewrite Hother in Hb by done; by eapply Hr].
    destruct (step t (runs t)); destruct Hres as (_ & _ & E); rewrite E in Hb; [|done].
    injection Hb as <-. cbn. lia.
  - intros b Hb. assert (b ≠ a) by (by intros ->). rewrite Hother by done. apply Ht. by right.
  - exists s', w'. split; [cbn [calls schedule_once RoundRobin_Scheduler]; by rewrite Ecall|].
    split_and!; [by rewrite Hq'|by rewrite Hfin| |].
    + intros b tb [->|Hb]%elem_of_cons HTb; [|by apply Hin].
      assert (tb = t) as -> by congruence. rewrite Hout by done.
      destruct (step t (runs t)) eqn:Es; destruct Hres as (_ & _ & ->); [|done].
      eexists. split; [done|]. by constructor; cbn; rewrite ?Es.
    + intros b [Hne Hb]%not_elem_of_cons. by rewrite Hout, Hother.
Qed.

(** C25.  One round of ready tasks: as many calls as the round-robin queue is
    long run each task exactly once; the tasks whose step goes on are then the
    queue, in their original order, ready and one run further, and the others
    have left it for the ledger, in the order in which they were queued, each
    with this last run counted.  When none finishes the queue is as it was. *)
Theorem rr_full_round p s w envs :
  sched_ok (rr_ready s) w → length envs = length (rr_ready s) →
  Forall (λ e, env_steady e w) envs → runs_below 2 w →
  (∀ a t, boxes w !! a = Some t → state t = Ready) →
  let T := λ a, boxes w !! a in
  ∃ s' w', calls p envs s w = Ret (s', w') ∧
    rr_ready s' = filter (λ a, goes_on T a = true) (rr_ready s) ∧
    rr_finished s' = rr_finished s ++ omap (retires T) (rr_ready s) ∧
    (∀ a t, boxes w !! a = Some t →
       if step t (runs t)
       then ∃ t', boxes w' !! a = Some t' ∧ runs t' = runs t + 1 ∧ state t' = Ready
       else boxes w' !! a = None) ∧
    ((∀ a t, boxes w !! a = Some t → step t (runs t) = true) → rr_ready s' = rr_ready s).
Proof.
  intros Hok Hlen Henv Hr Hst T. pose proof (so_live _ _ Hok) as Hl.
  assert (∀ a, a ∈ rr_ready s → ∃ t, boxes w !! a = Some t) as Hd
    by (intros a Hin; by apply (wl_dom _ _ Hl) in Hin as [t ?]; exists t).
  destruct (rr_round_aux p T (rr_ready s) envs [] s w) as (s' & w' & Ec & Hq & Hfin & Hbox & _);
    [by rewrite app_nil_r|done..| | |].
  { intros a t Ha. specialize (Hr a t Ha). lia. }
  { intros a Hin. destruct (Hd a Hin) as [t Ha]. exists t. split_and!; [done..|by eapply Hst|by apply (Hr a)]. }
  exists s', w'. split_and!; [done|done|done| |].
  - intros a t Ha. assert (a ∈ rr_ready s) as Hin by (apply (wl_dom _ _ Hl); by eexists).
    specialize (Hbox a t Hin Ha). destruct (step t (runs t)) eqn:Es; [|done].
    destruct Hbox as (t' & Ht' & Hrel). exists t'. split_and!; [done|apply Hrel|].
    rewrite (ro_state _ _ Hrel). by rewrite Es.
  - intros Hall. rewrite Hq. cbn [app]. clear -Hall Hd. induction (rr_ready s) as [|a l IH]; [done|].
    rewrite filter_cons, decide_True, IH; [done| |].
    + intros b Hb. apply Hd. by right.
    + destruct (Hd a) as [t Ha]; [by left|]. unfold goes_on, T. rewrite Ha. by apply (Hall a).
Qed.

(** ** CFS: policy *)

(** C24.  When some live task is awake, a CFS call runs the first one of least
    vruntime in the queue (a woken sleeper is first raised to the least vruntime
    of the others), charges it one weighted slice, and requeues it last or
    retires it as its step says. *)
Theorem cfs_runs_least_vruntime p env s w b tb :
  sched_ok (cfs_ready s) w → env_fits env w →
  boxes w !! b = Some tb → asleep (now w) tb = false →
  ∃ i a t, cfs_ready s !! i = Some a ∧ boxes w !! a = Some t ∧ asleep (now w) t = false ∧
    (∀ j c tc, cfs_ready s !! j = Some c → boxes w !! c = Some tc → asleep (now w) tc = false →
       vruntime t ≤ vruntime tc ∧ ((j < i)%nat → vruntime t < vruntime tc)) ∧
    let q := delete i (cfs_ready s) in
    let t1 := woken q w t in
    let t3 := charged (env a) t1 in
    let w3 := put a t3 (ran (env a) a t1 w) in
    cfs_schedule_once p env s w =
      Ret (if step t (runs t)
           then (true, mkCfs (q ++ [a]) (cfs_finished s) (cfs_next_id s), w3)
           else (true, mkCfs q (cfs_finished s ++ [entry_of t3]) (cfs_next_id s),
                 retired a t3 w3)).
Proof.
  intros [Hl Hq Hu Hsw] Hfit Hb Hsb.
  destruct (pick_min_spec s w) as (o & Hp & Ho); [intros a; apply (wl_dom _ _ Hl)|].
  destruct o as [i|].
  - destruct Ho as (a & t & Hi & Ha & Hs & Hmin). destruct (Hfit a t Ha Hs) as [He Hr].
    exists i, a, t. split_and!; try done.
    exact (cfs_once_eq p env s w i a t _ Hl Hp Hi eq_refl Ha He Hr).
  - exfalso. rewrite (Ho b tb) in Hsb; [done| |done]. apply (wl_dom _ _ Hl). by eexists.
Qed.

(** ** CFS: weighted fairness *)

Record cfs_fair (n : Z) (w : World) : Prop := {
  cf_task : ∀ a t, boxes w !! a = Some t →
    state t = Ready ∧ vruntime t = runs t * cfs_slice t ∧ 0 ≤ runs t ≤ n;
  cf_spread : ∀ a t b tb, boxes w !! a = Some t → boxes w !! b = Some tb →
    vruntime t ≤ vruntime tb + cfs_slice t
}.

Definition max_slice : Z := CFS_BASE_SLICE * 1024.

Lemma cfs_slice_bounds t : 0 ≤ cfs_slice t ≤ max_slice.
Proof.
  unfold cfs_slice, max_slice. change (saturating_mul64 CFS_BASE_SLICE 1024) with 102400.
  change (CFS_BASE_SLICE * 1024) with 102400. split.
  - apply Z.div_pos; lia.
  - apply Z.div_le_upper_bound; nia.
Qed.

(** Charging the least one keeps everyone within a slice of everyone else. *)
Lemma cfs_fair_charge n w w' a t t' :
  cfs_fair n w → boxes w !! a = Some t →
  (∀ b tb, boxes w !! b = Some tb → vruntime t ≤ vruntime tb) →
  state t' = Ready → runs t' = runs t + 1 → weight t' = weight t →
  vruntime t' = vruntime t + cfs_slice t →
  boxes w' = <[a := t']> (boxes w) → cfs_fair (n + 1) w'.
Proof.
  intros [Ht Hsp] Ha Hmin Hst Hr Hwt Hv Hbox.
  assert (cfs_slice t' = cfs_slice t) as Hsl by (unfold cfs_slice; by rewrite Hwt).
  destruct (Ht a t Ha) as (_ & Hvr & Hrn). pose proof (cfs_slice_bounds t).
  constructor; rewrite Hbox.
  - intros b tb [[<- <-]|[_ Hb]]%lookup_insert_Some.
    + rewrite Hsl, Hv, Hr. split_and!; try done; lia.
    + destruct (Ht b tb Hb) as (? & ? & ?). split_and!; try done; lia.
  - intros b tb c tc Hb Hc.
    apply lookup_insert_Some in Hb as [[<- <-]|[_ Hb]];
      apply lookup_insert_Some in Hc as [[<- <-]|[_ Hc]].
    + lia.
    + rewrite Hv, Hsl. specialize (Hmin c tc Hc). lia.
    + rewrite Hv. specialize (Hsp b tb a t Hb Ha). lia.
    + by apply (Hsp b tb c tc).
Qed.

Lemma cfs_fair_mono n n' w w' :
  cfs_fair n w → n ≤ n' → (∀ a t, boxes w' !! a = Some t → boxes w !! a = Some t) →
  cfs_fair n' w'.
Proof.
  intros [H1 H2] Hn Hsub. constructor.
  - intros a t Ha. destruct (H1 a t (Hsub a t Ha)) as (? & ? & ?). split_and!; try done; lia.
  - intros a t b tb Ha Hb. by apply (H2 a t b tb); apply Hsub.
Qed.

Lemma cfs_fair_step p env s w n b s' w' :
  sched_ok (cfs_ready s) w → env_fits env w → cfs_fair n w → (n + 1) * max_slice ≤ u64_max →
  cfs_schedule_once p env s w = Ret (b, s', w') → cfs_fair (n + 1) w'.
Proof.
  intros [Hl Hq Hu Hsw] Hfit Hfair Hmax E. pose proof Hfair as [Ht Hsp].
  assert (∀ c tc, boxes w !! c = Some tc → asleep (now w) tc = false) as Haw.
  { intros c tc Hc. unfold asleep. by rewrite (proj1 (Ht c tc Hc)). }
  destruct (pick_min_spec s w) as (o & Hp & Ho); [intros a; apply (wl_dom _ _ Hl)|].
  destruct o as [i|].
  2:{ unfold cfs_schedule_once in E. change (APIC_TICKS (statics w)) with (now w) in E.
      rewrite Hp in E. injection E as <- <- <-. eapply cfs_fair_mono; [done|lia|done]. }
  destruct Ho as (a & t & Hi & Ha & Hs & Hmin). destruct (Hfit a t Ha Hs) as [He Hr].
  rewrite (cfs_once_eq p env s w i a t _ Hl Hp Hi eq_refl Ha He Hr) in E. cbn zeta in E.
  destruct (Ht a t Ha) as (Hst & Hvr & Hrn).
  assert (woken (delete i (cfs_ready s)) w t = t) as Hwk by (unfold woken; by rewrite Hst).
  rewrite Hwk in E. set (t3 := charged (env a) t) in *.
  assert (vruntime t3 = vruntime t + cfs_slice t) as Hv3.
  { cbn. unfold saturating_add64. pose proof (cfs_slice_bounds t). rewrite Z.min_l; [done|]. nia. }
  assert (∀ c tc, boxes w !! c = Some tc → vruntime t ≤ vruntime tc) as Hleast.
  { intros c tc Hc. assert (c ∈ cfs_ready s) as Hin by (apply (wl_dom _ _ Hl); by eexists).
    apply list_elem_of_lookup in Hin as [j Hj]. apply (Hmin j c tc Hj Hc). by eapply Haw. }
  destruct (step t (runs t)) eqn:Hv; injection E as <- <- <-.
  - eapply (cfs_fair_charge n w _ a t t3); try done.
    + cbn. by rewrite Hv.
    + cbn [put set_boxes ran boxes]. by rewrite insert_insert_eq.
  - eapply cfs_fair_mono; [exact Hfair|lia|]. intros c tc Hc.
    cbn [retired put set_boxes ran boxes] in Hc. apply lookup_delete_Some in Hc as [Hne Hc].
    by rewrite !lookup_insert_ne in Hc.
Qed.

Lemma cfs_calls_fair p : ∀ envs s w n,
  sched_ok (cfs_ready s) w → Forall (λ e, env_steady e w) envs → cfs_fair n w → 0 ≤ n →
  (n + Z.of_nat (length envs)) * max_slice < u64_max →
  ∃ s' w', calls p envs s w = Ret (s', w') ∧ cfs_fair (n + Z.of_nat (length envs)) w'.
Proof.
  induction envs as [|env envs IH]; intros s w n Hok Henv Hfair Hn Hmax.
  { exists s, w. split; [done|]. by rewrite Z.add_0_r. }
  apply Forall_cons in Henv as [He Henv]. cbn [length] in Hmax.
  unfold max_slice, CFS_BASE_SLICE in Hmax.
  assert (env_fits env w) as Hfit.
  { eapply steady_fits; [apply Hok|done|]. intros a t Ha.
    destruct (cf_task _ _ Hfair a t Ha) as (_ & _ & ?). ulia. }
  destruct (cfs_once_spec p env s w Hok Hfit) as (b & s1 & w1 & E & Hok1 & Honce).
  pose proof (cfs_fair_step p env s w n b s1 w1 Hok Hfit Hfair) as Hf1.
  destruct (IH s1 w1 (n + 1) Hok1) as (s' & w' & Ec & Hf').
  - eapply Forall_impl; [exact Henv|]. intros e. apply env_steady_mono. by eapply once_same_stacks.
  - apply Hf1; [unfold max_slice, CFS_BASE_SLICE; lia|done].
  - lia.
  - unfold max_slice, CFS_BASE_SLICE. lia.
  - exists s', w'. split.
    + cbn [calls schedule_once Cfs_Scheduler]. by rewrite E, bind_Ret.
    + cbn [length]. by replace (n + Z.of_nat (S (length envs))) with (n + 1 + Z.of_nat (length envs)) by lia.
Qed.

(** C12.  CFS fairness: starting from tasks that are all ready, with no runs and
    vruntime zero, after any number of calls (fewer than 10^14, so that no vruntime
    saturates) the run counts of any two live tasks, weighted by their slices,
    differ by at most one slice of the first, and for two tasks of equal weight
    with a slice that is not zero (a weight of at most 102400) the run counts
    differ by at most one. *)
Theorem cfs_weighted_fairness p envs s w :
  sched_ok (cfs_ready s) w → Forall (λ e, env_steady e w) envs →
  (∀ a t, boxes w !! a = Some t → state t = Ready ∧ vruntime t = 0 ∧ runs t = 0) →
  Z.of_nat (length envs) * max_slice < u64_max →
  ∃ s' w', calls p envs s w = Ret (s', w') ∧
    ∀ a ta b tb, boxes w' !! a = Some ta → boxes w' !! b = Some tb →
      runs ta * cfs_slice ta ≤ runs tb * cfs_slice tb + cfs_slice ta ∧
      (weight ta = weight tb → 0 < cfs_slice ta → runs ta ≤ runs tb + 1).
Proof.
  intros Hok Henv Hinit Hmax.
  destruct (cfs_calls_fair p envs s w 0) as (s' & w' & E & [Ht Hsp]); [done|done| |done..|].
  { constructor.
    - intros a t Ha. destruct (Hinit a t Ha) as (? & -> & ->). split_and!; try done; lia.
    - intros a t b tb Ha Hb. destruct (Hinit a t Ha) as (_ & -> & _).
      destruct (Hinit b tb Hb) as (_ & -> & _). pose proof (cfs_slice_bounds t). lia. }
  exists s', w'. split; [done|]. intros a ta b tb Ha Hb.
  pose proof (Hsp a ta b tb Ha Hb) as H.
  destruct (Ht a ta Ha) as (_ & E1 & _), (Ht b tb Hb) as (_ & E2 & _).
  rewrite E1, E2 in H. split; [done|]. intros Hw Hpos.
  assert (cfs_slice tb = cfs_slice ta) as Hsl by (unfold cfs_slice; by rewrite Hw).
  rewrite Hsl in H. nia.
Qed.

End virt.

(** ** Witnesses: three fresh workers and a quiet environment *)

Definition quiet_env : Env := λ _, mkEnv [] [] [] (λ m, m) 0.

Lemma quiet_steady w : env_steady quiet_env w.
Proof. intros a t Ha. split; [apply Forall_nil_2|done]. Qed.

Definition workers : list TaskSpec := take 3 demo_specs.

Lemma workers_spawned {S} `{!Scheduler S} `{!SchedulerSpec S} (s : S) :
  queue s = [] → next_no s = 1 →
  ∃ s' w', spawn_all Dev 0x8000 8 workers s world_init = Ret (s', w') ∧
    sched_ok (queue s') w' ∧ queue s' = [1; 2; 3]%nat ∧
    ∀ a t, boxes w' !! a = Some t →
      state t = Ready ∧ runs t = 0 ∧ vruntime t = 0 ∧ weight t = CFS_DEFAULT_WEIGHT ∧
      step t = five_steps.
Proof.
  intros Hq Hn.
  destruct (spawn_all_ok Dev 0x8000 8 ltac:(by vm_compute) workers s world_init)
    as (s' & w' & E & Hok & Hq' & _ & _ & _ & _ & Hnew).
  - rewrite Hq. exact world_init_ok.
  - by rewrite Hn.
  - rewrite Hn. by vm_compute.
  - rewrite Hq. cbn. unfold MAX_TASKS. lia.
  - pose proof demo_blocks_ok as (H1 & H2 & H3 & H3w & H4 & H5 & H6 & H6w & H7 & H8 & H9 & H9w & _).
    rewrite Forall_cons in H2, H5, H8. rewrite !Forall_cons in *.
    cbn. rewrite !Forall_cons, !Forall_nil. tauto.
  - apply Forall_take, demo_heap_fresh.
  - rewrite Hq in Hq'. exists s', w'. split_and!; try done.
    intros a t Ha. assert (a ∈ queue s') as Hin by (apply (wl_dom _ _ (so_live _ _ Hok)); by eexists).
    rewrite Hq' in Hin. apply elem_of_seq in Hin. cbn in Hin.
    destruct (lookup_lt_is_Some_2 workers (a - 1)) as [sp Hsp]; [cbn; lia|].
    destruct (Hnew _ sp Hsp) as (t' & Ht' & _ & _ & Hr & Hs & Hst & _ & Hv & Hw & _).
    cbn [world_init next_box] in Ht'. replace (1 + (a - 1))%nat with a in Ht' by lia.
    assert (t' = t) as -> by congruence.
    rewrite Hr, Hs, Hst, Hv, Hw. unfold workers in Hsp.
    assert (a - 1 = 0 ∨ a - 1 = 1 ∨ a - 1 = 2)%nat as [E0|[E0|E0]] by lia;
      rewrite E0 in Hsp; injection Hsp as <-; done.
Qed.

Lemma rr_bounded_wait_witness :
  ∃ s w s' w', spawn_all Dev 0x8000 8 workers RoundRobin_new world_init = Ret (s, w) ∧
    ∃ n t, (n ≤ 2)%nat ∧ calls Dev (take n (replicate 3 quiet_env)) s w = Ret (s', w') ∧
      boxes w' !! 3%nat = Some t.
Proof.
  destruct (workers_spawned RoundRobin_new ltac:(done) ltac:(done)) as (s & w & E & Hok & Hq & Ht).
  assert (is_Some (boxes w !! 3%nat)) as [t Ha].
  { apply (wl_dom _ _ (so_live _ _ Hok)). rewrite Hq. by right; right; left. }
  destruct (rr_bounded_wait Dev s w 3 t 2 (replicate 3 quiet_env))
    as (n & s' & w' & env & s'' & w'' & Hn & Hc & Hb & _).
  - exact Hok.
  - change (rr_ready s) with (queue s). by rewrite Hq.
  - exact Ha.
  - left. by apply (Ht 3%nat).
  - done.
  - apply Forall_replicate, quiet_steady.
  - intros b tb Hb. destruct (Ht b tb Hb) as (_ & -> & _). by vm_compute.
  - exists s, w, s', w'. split; [exact E|]. exists n, t. split_and!; assumption.
Defined.

Lemma rr_full_round_witness :
  ∃ s w s' w', spawn_all Dev 0x8000 8 workers RoundRobin_new world_init = Ret (s, w) ∧
    calls Dev (replicate 3 quiet_env) s w = Ret (s', w') ∧ rr_ready s' = [1; 2; 3]%nat.
Proof.
  destruct (workers_spawned RoundRobin_new ltac:(done) ltac:(done)) as (s & w & E & Hok & Hq & Ht).
  destruct (rr_full_round Dev s w (replicate 3 quiet_env)) as (s' & w' & Hc & _ & _ & _ & Hr).
  - exact Hok.
  - change (rr_ready s) with (queue s). by rewrite Hq.
  - apply Forall_replicate, quiet_steady.
  - intros b tb Hb. destruct (Ht b tb Hb) as (_ & -> & _). by vm_compute.
  - intros a t Ha. destruct (Ht a t Ha) as (H1 & _). exact H1.
  - exists s, w, s', w'. split; [exact E|]. split; [exact Hc|].
    rewrite Hr; [exact Hq|]. intros a t Ha. destruct (Ht a t Ha) as (_ & -> & _ & _ & ->). reflexivity.
Defined.

Lemma cfs_runs_least_vruntime_witness :
  ∃ s w r, spawn_all Dev 0x8000 8 workers Cfs_new world_init = Ret (s, w) ∧
    cfs_schedule_once Dev quiet_env s w = Ret r.
Proof.
  destruct (workers_spawned Cfs_new ltac:(done) ltac:(done)) as (s & w & E & Hok & Hq & Ht).
  assert (is_Some (boxes w !! 3%nat)) as [t Ha].
  { apply (wl_dom _ _ (so_live _ _ Hok)). rewrite Hq. by right; right; left. }
  destruct (cfs_runs_least_vruntime Dev quiet_env s w 3 t) as (i & a & t' & _ & _ & _ & _ & Hr).
  - exact Hok.
  - eapply steady_fits; [apply Hok|apply quiet_steady|].
    intros b tb Hb. destruct (Ht b tb Hb) as (_ & -> & _). by vm_compute.
  - exact Ha.
  - unfold asleep. by rewrite (proj1 (Ht 3%nat t Ha)).
  - exists s, w. eexists. split; [exact E|exact Hr].
Defined.

Lemma cfs_weighted_fairness_witness :
  ∃ s w s' w', spawn_all Dev 0x8000 8 workers Cfs_new world_init = Ret (s, w) ∧
    calls Dev (replicate 7 quiet_env) s w = Ret (s', w').
Proof.
  destruct (workers_spawned Cfs_new ltac:(done) ltac:(done)) as (s & w & E & Hok & Hq & Ht).
  destruct (cfs_weighted_fairness Dev (replicate 7 quiet_env) s w) as (s' & w' & Hc & _).
  - exact Hok.
  - apply Forall_replicate, quiet_steady.
  - intros a t Ha. destruct (Ht a t Ha) as (H1 & H2 & H3 & _).
    split_and!; assumption.
  - by vm_compute.
  - exists s, w, s', w'. split; assumption.
Defined.

End SchedFair.
