(* ===== verification/CfsWait.v ===== *)
(** * CFS: how long a task waits

    Fairness between tasks that are all ready says nothing of a task that joins
    late, wakes up or shares the queue with finishing ones.  Here: an awake task
    of vruntime [v] runs after at most the number of slices the other tasks need
    to get past [v], whatever they do meanwhile.  The bound needs slices that
    are not zero, and a weight above [max_slice] makes the slice zero: such a
    task starves the rest of the queue. *)
From stdpp Require Import gmap.
From S2P Require Import Prelude Machine ContextSwitch Preempt PreemptStub PreemptTable Task.
From S2P Require Import Sched SchedRun SchedSpec SchedSpawn SchedFair.

#[local] Open Scope Z_scope.

Module CfsWait.
Import Preempt Stub Switch Table Tasks Sched SchedRun SchedSpec SchedSpawn SchedFair.

Section virt.
Context `{VA : VirtAddrs}.

(** ** Slices and turns *)

Lemma cfs_slice_pos t : weight t ≤ max_slice → 0 < cfs_slice t.
Proof.
  unfold cfs_slice, max_slice. change (saturating_mul64 CFS_BASE_SLICE 1024) with 102400.
  change (CFS_BASE_SLICE * 1024) with 102400. intros Hw.
  apply Z.div_str_pos. lia.
Qed.

Lemma cfs_slice_zero t : max_slice < weight t → cfs_slice t = 0.
Proof.
  unfold cfs_slice, max_slice. change (saturating_mul64 CFS_BASE_SLICE 1024) with 102400.
  change (CFS_BASE_SLICE * 1024) with 102400. intros Hw. apply Z.div_small. lia.
Qed.

(** How many times [t] can be picked before a task of vruntime [v]. *)
Definition turns (v : Z) (t : Task) : nat :=
  Z.to_nat ((v - vruntime t) `div` cfs_slice t + 1).

(** A run uses up one turn, whether the charge saturates or not and whether the
    wake-up clamp raised the vruntime or not. *)
Lemma turns_charge v t t' r :
  vruntime t ≤ v → v < u64_max → 0 < cfs_slice t → vruntime t ≤ r →
  cfs_slice t' = cfs_slice t → vruntime t' = saturating_add64 r (cfs_slice t) →
  (turns v t' < turns v t)%nat.
Proof.
  intros Hv Hmax Hpos Hr Hsl Hv'. unfold turns. rewrite Hsl, Hv'.
  assert (0 ≤ (v - vruntime t) `div` cfs_slice t) by (apply Z.div_pos; lia).
  unfold saturating_add64. destruct (Z.min_spec (r + cfs_slice t) u64_max) as [[_ ->]|[_ ->]].
  - assert ((v - (r + cfs_slice t)) `div` cfs_slice t ≤ (v - vruntime t) `div` cfs_slice t - 1); [|lia].
    change (?x - 1) with (x + (-1)). rewrite <- Z.div_add by lia. apply Z.div_le_mono; lia.
  - assert ((v - u64_max) `div` cfs_slice t < 0) by (apply Z.div_lt_upper_bound; lia). lia.
Qed.

(** The turns of the others. *)
Definition turn_of (v : Z) (a : nat) (m : gmap nat Task) (b : nat) : nat :=
  if decide (b = a) then 0%nat else default 0%nat (turns v <$> m !! b).
Definition wait (v : Z) (a : nat) (q : list nat) (m : gmap nat Task) : nat :=
  sum_list_with (turn_of v a m) q.

Lemma sum_list_with_ext_in {A} (f g : A → nat) l :
  (∀ x, x ∈ l → f x = g x) → sum_list_with f l = sum_list_with g l.
Proof.
  induction l as [|x l IH]; intros H; [done|]. cbn. rewrite (H x) by (by left).
  f_equal. apply IH. intros y Hy. apply H. by right.
Qed.

(** Rotating or removing a task [b] that has turns left lowers the wait. *)
Lemma wait_step v a b q q0 m m' tb :
  NoDup q → b ≠ a → b :: q0 ≡ₚ q → m !! b = Some tb → (0 < turns v tb)%nat →
  (∀ c, c ≠ b → m' !! c = m !! c) →
  (wait v a q0 m' < wait v a q m)%nat ∧
  (∀ tb', m' !! b = Some tb' → (turns v tb' < turns v tb)%nat →
     (wait v a (q0 ++ [b]) m' < wait v a q m)%nat).
Proof.
  intros Hnd Hne Hp Hb Hpos Hoth.
  assert (b ∉ q0) as Hnin by (rewrite <- Hp in Hnd; by apply NoDup_cons in Hnd as [? _]).
  assert (wait v a q0 m' = wait v a q0 m) as Hq0.
  { apply sum_list_with_ext_in. intros c Hc. unfold turn_of.
    rewrite Hoth; [done|]. by intros ->. }
  assert (wait v a q m = (turns v tb + wait v a q0 m)%nat) as Hq.
  { unfold wait. rewrite <- Hp. cbn. unfold turn_of at 1. by rewrite decide_False, Hb. }
  split; [lia|]. intros tb' Hb' Hlt. unfold wait in *. rewrite sum_list_with_app. cbn.
  unfold turn_of at 2. rewrite decide_False, Hb' by done. cbn. lia.
Qed.

(** ** One call *)

(** The pick of a call and its outcome, from any state with an awake task. *)
Lemma cfs_pick p env s w b tb :
  sched_ok (cfs_ready s) w → env_fits env w →
  boxes w !! b = Some tb → asleep (now w) tb = false →
  ∃ i a t, cfs_ready s !! i = Some a ∧ boxes w !! a = Some t ∧
    (∀ c tc, boxes w !! c = Some tc → asleep (now w) tc = false → vruntime t ≤ vruntime tc) ∧
    let q := delete i (cfs_ready s) in
    let t3 := charged (env a) (woken q w t) in
    ∃ w', cfs_schedule_once p env s w =
        Ret (true, if step t (runs t)
                   then mkCfs (q ++ [a]) (cfs_finished s) (cfs_next_id s)
                   else mkCfs q (cfs_finished s ++ [entry_of t3]) (cfs_next_id s), w') ∧
      boxes w' = if step t (runs t) then <[a := t3]> (boxes w) else delete a (boxes w).
Proof.
  intros [Hl Hq Hu Hsw] Hfit Hb Hsb.
  destruct (pick_min_spec s w) as (o & Hp & Ho); [intros a; apply (wl_dom _ _ Hl)|].
  destruct o as [i|].
  2:{ exfalso. rewrite (Ho b tb) in Hsb; [done| |done]. apply (wl_dom _ _ Hl). by eexists. }
  destruct Ho as (a & t & Hi & Ha & Hs & Hmin). destruct (Hfit a t Ha Hs) as [He Hr].
  exists i, a, t. split_and!; try done.
  { intros c tc Hc Hsc. assert (c ∈ cfs_ready s) as Hin by (apply (wl_dom _ _ Hl); by eexists).
    apply list_elem_of_lookup in Hin as [j Hj]. by apply (Hmin j c tc). }
  pose proof (cfs_once_eq p env s w i a t _ Hl Hp Hi eq_refl Ha He Hr) as E. cbn zeta in *.
  destruct (step t (runs t)); rewrite E; eexists; (split; [done|]).
  - cbn [put set_boxes ran boxes]. by rewrite insert_insert_eq.
  - cbn [retired put set_boxes ran boxes]. by rewrite insert_insert_eq, delete_insert_eq.
Qed.

(** What a call in state [s], [w] that ran [t] in box [a] leaves of it; a sleeper
    is first raised to the least vruntime of the others. *)
Definition cfs_ran (env : Env) (a : nat) (t : Task) (s : Cfs) (w : World) (s' : Cfs) (w' : World)
    : Prop :=
  ∃ i, cfs_ready s !! i = Some a ∧
  let t' := charged (env a) (woken (delete i (cfs_ready s)) w t) in
  if step t (runs t) then boxes w' !! a = Some t'
  else boxes w' !! a = None ∧ cfs_finished s' = cfs_finished s ++ [entry_of t'].

Definition light (w : World) : Prop := ∀ b tb, boxes w !! b = Some tb → weight tb ≤ max_slice.

Lemma once_light env q fin w b q' fin' w' :
  once_result env q fin w b q' fin' w' → light w → light w'.
Proof.
  unfold once_result. destruct b; [|by intros (_ & -> & _)].
  intros (a & t & t' & Ha & _ & Hro & _ & _ & Hbox) Hl b tb Hb.
  destruct (step t (runs t)); destruct Hbox as [Hbox _]; rewrite Hbox in Hb.
  - apply lookup_insert_Some in Hb as [[<- <-]|[_ Hb]]; [|by apply (Hl b)].
    rewrite (ro_weight _ _ Hro). by apply (Hl a).
  - apply lookup_delete_Some in Hb as [_ Hb]. by apply (Hl b).
Qed.

(** A call runs the awake task [a], or brings its turn closer. *)
Lemma cfs_wait_step p s w a t env :
  sched_ok (cfs_ready s) w → boxes w !! a = Some t → asleep (now w) t = false →
  vruntime t < u64_max → light w → env_fits env w →
  ∃ s' w', cfs_schedule_once p env s w = Ret (true, s', w') ∧
    (cfs_ran env a t s w s' w' ∨
     sched_ok (cfs_ready s') w' ∧ boxes w' !! a = Some t ∧ light w' ∧
     once_result env (cfs_ready s) (cfs_finished s) w true (cfs_ready s') (cfs_finished s') w' ∧
     (wait (vruntime t) a (cfs_ready s') (boxes w') <
        wait (vruntime t) a (cfs_ready s) (boxes w))%nat).
Proof.
  intros Hok Ha Hs Hmax Hlight Hfit.
  destruct (cfs_pick p env s w a t Hok Hfit Ha Hs) as (i & b & tb & Hi & Hb & Hmin & w' & E & Hbox).
  destruct (cfs_once_spec p env s w Hok Hfit) as (r & s1 & w1 & E1 & Hok1 & Honce).
  rewrite E in E1. injection E1 as <- <- <-. eexists _, w'. split; [exact E|].
  specialize (Hmin a t Ha Hs). destruct (decide (b = a)) as [->|Hne].
  - left. assert (tb = t) as -> by congruence. exists i. split; [done|]. cbn zeta.
    destruct (step t (runs t)); rewrite Hbox.
    + apply lookup_insert_eq.
    + split; [apply lookup_delete_eq|done].
  - right. set (q0 := delete i (cfs_ready s)) in *.
    assert (b :: q0 ≡ₚ cfs_ready s) as Hperm by (symmetry; by apply delete_Permutation).
    pose proof (cfs_slice_pos tb (Hlight b tb Hb)) as Hpos.
    assert (cfs_slice (woken q0 w tb) = cfs_slice tb ∧ vruntime tb ≤ vruntime (woken q0 w tb))
      as [Hsl Hup] by (unfold woken; destruct (state tb); cbn; split; try done; lia).
    assert (turns (vruntime t) (charged (env b) (woken q0 w tb)) < turns (vruntime t) tb)%nat as Hturn.
    { eapply turns_charge; [done..| |by cbn; rewrite Hsl]. rewrite <- Hsl. done. }
    assert (∀ c, c ≠ b → boxes w' !! c = boxes w !! c) as Hoth.
    { intros c Hc. rewrite Hbox. destruct (step tb (runs tb));
        [by rewrite lookup_insert_ne|by rewrite lookup_delete_ne]. }
    destruct (wait_step (vruntime t) a b (cfs_ready s) q0 (boxes w) (boxes w') tb)
      as [Hdrop Hrot]; try done; [apply (wl_nodup _ _ (so_live _ _ Hok))|lia|].
    split_and!; [done|by rewrite Hoth|by eapply once_light|done|].
    destruct (step tb (runs tb)); [|done].
    eapply Hrot; [|exact Hturn]. rewrite Hbox. apply lookup_insert_eq.
Qed.

(** C10.  Bounded waiting under CFS: a task of vruntime [v] that is ready, or whose
    wake-up tick has come, runs within as many calls as the other tasks have
    slices left until they pass [v], plus one, however the others sleep, wake,
    finish or are preempted meanwhile; weights are at most [100 * 1024], so that
    no slice is zero. *)
Theorem cfs_bounded_wait p s w a t envs :
  sched_ok (cfs_ready s) w → boxes w !! a = Some t → stays_awake envs w t →
  vruntime t < u64_max → light w →
  let k := wait (vruntime t) a (cfs_ready s) (boxes w) in
  length envs = (k + 1)%nat →
  Forall (λ e, env_steady e w) envs → runs_below (Z.of_nat k + 2) w →
  ∃ n s' w' env s'' w'', (n ≤ k)%nat ∧ calls p (take n envs) s w = Ret (s', w') ∧
    boxes w' !! a = Some t ∧ envs !! n = Some env ∧
    cfs_schedule_once p env s' w' = Ret (true, s'', w'') ∧ cfs_ran env a t s' w' s'' w''.
Proof.
  intros Hok Ha Haw Hmax Hli k Hlen Henv Hr.
  assert (closer p a t (λ s w k, light w ∧ wait (vruntime t) a (cfs_ready s) (boxes w) = k)
    (λ env, cfs_ran env a t)) as Hcl.
  { intros s1 w1 k1 env [Hl1 <-] Hok1 Ha1 Hs1 Hfit.
    destruct (cfs_wait_step p s1 w1 a t env) as (s2 & w2 & E & [Hran|(H1 & H2 & H3 & H4 & H5)]); try done.
    - exists s2, w2. split; [done|by left].
    - exists s2, w2. split; [done|right]. split_and!; try done. by eexists. }
  exact (bounded_wait p a t _ _ Hcl k s w envs (conj Hli eq_refl) Hok Ha Haw Hlen Henv Hr).
Qed.

(** ** Starvation by a zero slice *)

(** A task that never gets dearer and is cheaper than every other one. *)
Record hog (a : nat) (t : Task) (w : World) : Prop := {
  hog_box : boxes w !! a = Some t;
  hog_ready : state t = Ready;
  hog_weight : max_slice < weight t;
  hog_steps : ∀ n, runs t ≤ n → step t n = true;
  hog_u64 : vruntime t ≤ u64_max;
  hog_least : ∀ b tb, b ≠ a → boxes w !! b = Some tb → vruntime t < vruntime tb
}.

Lemma hog_step p env s w a t :
  sched_ok (cfs_ready s) w → env_fits env w → hog a t w →
  ∃ s' w', cfs_schedule_once p env s w = Ret (true, s', w') ∧ sched_ok (cfs_ready s') w' ∧
    once_result env (cfs_ready s) (cfs_finished s) w true (cfs_ready s') (cfs_finished s') w' ∧
    boxes w' = <[a := charged (env a) t]> (boxes w) ∧ hog a (charged (env a) t) w'.
Proof.
  intros Hok Hfit [Ha Hst Hwt Hstep Hu Hleast].
  assert (asleep (now w) t = false) as Hs by (unfold asleep; by rewrite Hst).
  destruct (cfs_pick p env s w a t Hok Hfit Ha Hs) as (i & b & tb & Hi & Hb & Hmin & w' & E & Hbox).
  destruct (cfs_once_spec p env s w Hok Hfit) as (r & s1 & w1 & E1 & Hok1 & Honce).
  rewrite E in E1. injection E1 as <- <- <-. specialize (Hmin a t Ha Hs).
  destruct (decide (b = a)) as [->|Hne]; [|specialize (Hleast b tb Hne Hb); lia].
  assert (tb = t) as -> by congruence.
  assert (woken (delete i (cfs_ready s)) w t = t) as Hwk by (unfold woken; by rewrite Hst).
  rewrite Hwk, (Hstep _ (Z.le_refl _)) in *.
  assert (vruntime (charged (env a) t) = vruntime t) as Hv.
  { cbn. rewrite (cfs_slice_zero t Hwt). unfold saturating_add64. lia. }
  eexists _, w'. split_and!; try done.
  constructor; rewrite ?Hv, ?Hbox; try done.
  - apply lookup_insert_eq.
  - cbn. by rewrite Hstep.
  - intros n Hn. apply Hstep. cbn in Hn. lia.
  - intros c tc Hc Hlk. rewrite lookup_insert_ne in Hlk by done. by apply (Hleast c).
Qed.

(** C26.  A weight above [100 * 1024] passes every check of [with_weight] and [spawn]
    but makes the charge of a step zero: a ready task of that weight that does
    not finish and starts below the others is picked by every call, and however
    many calls are made no other task runs. *)
Theorem cfs_zero_slice_starves p envs s w a t :
  sched_ok (cfs_ready s) w → hog a t w → Forall (λ e, env_steady e w) envs →
  runs_below (Z.of_nat (length envs) + 1) w →
  ∃ s' w' t', calls p envs s w = Ret (s', w') ∧ boxes w' !! a = Some t' ∧
    runs t' = runs t + Z.of_nat (length envs) ∧ cfs_finished s' = cfs_finished s ∧
    ∀ b, b ≠ a → boxes w' !! b = boxes w !! b.
Proof.
  revert s w t. induction envs as [|env envs IH]; intros s w t Hok Hhog Henv Hr.
  { exists s, w, t. split_and!; try done; [apply Hhog|cbn; lia]. }
  apply Forall_cons in Henv as [He Henv]. cbn [length] in Hr.
  assert (env_fits env w) as Hfit.
  { eapply steady_fits; [apply Hok|done|]. intros b tb Hb. specialize (Hr b tb Hb). lia. }
  destruct (hog_step p env s w a t Hok Hfit Hhog) as (s1 & w1 & E & Hok1 & Honce & Hbox & Hhog1).
  destruct (IH s1 w1 _ Hok1 Hhog1) as (s' & w' & t' & Ec & Ht' & Hruns & Hfin & Hoth).
  - eapply Forall_impl; [exact Henv|]. intros e. apply env_steady_mono. by eapply once_same_stacks.
  - eapply once_runs_below; [exact Honce|lia|]. intros b tb Hb. specialize (Hr b tb Hb). lia.
  - exists s', w', t'. split_and!; try done.
    + cbn [calls schedule_once Cfs_Scheduler]. by rewrite E, bind_Ret.
    + rewrite Hruns. cbn. lia.
    + rewrite Hfin. destruct Honce as (a' & ta & ta' & Ha' & _ & _ & _ & _ & Hv).
      destruct (step ta (runs ta)); destruct Hv as (Hv & _ & ->); [done|].
      exfalso. assert (boxes w1 !! a' = None) as Hn by (rewrite Hv; apply lookup_delete_eq).
      rewrite Hbox in Hn. apply lookup_insert_None in Hn as [Hn _]. congruence.
    + intros b Hb. rewrite Hoth by done. rewrite Hbox. by apply lookup_insert_ne.
Qed.

End virt.

(** ** Witnesses *)

Lemma workers_wait w :
  (∀ a, a ∈ [1; 2; 3]%nat ↔ is_Some (boxes w !! a)) →
  (∀ a t, boxes w !! a = Some t →
     state t = Ready ∧ runs t = 0 ∧ vruntime t = 0 ∧ weight t = CFS_DEFAULT_WEIGHT ∧
     step t = five_steps) →
  wait 0 3 [1; 2; 3]%nat (boxes w) = 2%nat.
Proof.
  intros Hdom Ht. unfold wait, turn_of, turns. cbn [sum_list_with].
  destruct (proj1 (Hdom 1%nat)) as [t1 H1]; [set_solver|].
  destruct (proj1 (Hdom 2%nat)) as [t2 H2]; [set_solver|]. rewrite H1, H2.
  destruct (Ht _ _ H1) as (_ & _ & V1 & W1 & _), (Ht _ _ H2) as (_ & _ & V2 & W2 & _).
  cbn. unfold cfs_slice. by rewrite V1, V2, W1, W2.
Qed.

Lemma cfs_bounded_wait_witness :
  ∃ s w s' w', spawn_all Dev 0x8000 8 workers Cfs_new world_init = Ret (s, w) ∧
    ∃ n t, (n ≤ 2)%nat ∧ calls Dev (take n (replicate 3 quiet_env)) s w = Ret (s', w') ∧
      boxes w' !! 3%nat = Some t.
Proof.
  destruct (workers_spawned Cfs_new ltac:(done) ltac:(done)) as (s & w & E & Hok & Hq & Ht).
  assert (∀ a, a ∈ [1; 2; 3]%nat ↔ is_Some (boxes w !! a)) as Hdom.
  { intros a. rewrite <- Hq. apply (wl_dom _ _ (so_live _ _ Hok)). }
  assert (is_Some (boxes w !! 3%nat)) as [t Ha] by (apply Hdom; by right; right; left).
  destruct (Ht 3%nat t Ha) as (Hst & Hrun & Hv & _).
  assert (wait (vruntime t) 3 (cfs_ready s) (boxes w) = 2%nat) as Hk.
  { rewrite Hv. change (cfs_ready s) with (queue s). rewrite Hq. exact (workers_wait w Hdom Ht). }
  destruct (cfs_bounded_wait Dev s w 3 t (replicate 3 quiet_env))
    as (n & s' & w' & env & s'' & w'' & Hn & Hc & Hb & _).
  - exact Hok.
  - exact Ha.
  - left. exact Hst.
  - rewrite Hv. by vm_compute.
  - intros b tb Hb. destruct (Ht b tb Hb) as (_ & _ & _ & -> & _). by vm_compute.
  - rewrite Hk. reflexivity.
  - apply Forall_replicate, quiet_steady.
  - rewrite Hk. intros b tb Hb. destruct (Ht b tb Hb) as (_ & -> & _). by vm_compute.
  - rewrite Hk in Hn. exists s, w, s', w'. split; [exact E|]. exists n, t. split_and!; assumption.
Defined.

(** A worker runs once; then a task of weight 200000 that never finishes joins. *)
Definition worker_spec : TaskSpec := mkSpec Ready (heap_at 0) "alpha" five_steps CFS_DEFAULT_WEIGHT.
Definition hog_spec : TaskSpec := mkSpec Ready (heap_at 1) "hog" (λ _, true) 200000.

Lemma worker_ran :
  ∃ s0 w0 s1 w1 t1, spawn_all Dev 0x8000 8 [worker_spec] Cfs_new world_init = Ret (s0, w0) ∧
    calls Dev [quiet_env] s0 w0 = Ret (s1, w1) ∧ sched_ok (cfs_ready s1) w1 ∧
    cfs_next_id s1 = 2 ∧ length (cfs_ready s1) = 1%nat ∧ boxes w1 !! 1%nat = Some t1 ∧
    (∀ b tb, boxes w1 !! b = Some tb → b = 1%nat ∧ tb = t1) ∧
    vruntime t1 = 100 ∧ runs t1 = 1 ∧ stack_bottom (stack t1) = 0xFFFF900000000010.
Proof.
  assert (u64 0x8000) as Hu by (by vm_compute).
  pose proof demo_blocks_ok as (Hr0 & _).
  destruct (spawn_all_ok Dev 0x8000 8 Hu [worker_spec] Cfs_new world_init)
    as (s0 & w0 & E0 & Hok0 & Hq0 & _ & Hn0 & _ & _ & Hnew0);
    [exact world_init_ok|done|by vm_compute|cbn; unfold MAX_TASKS; lia|by split_and!| |].
  { apply Forall_cons. split; [intros b tb Hb; done|apply Forall_nil_2]. }
  destruct (Hnew0 0%nat _ eq_refl) as (t0 & Ht0 & _ & _ & Hrun & Hstep & Hst & Hbot & Hv & Hw & _).
  cbn in Ht0, Hq0, Hn0.
  assert (∀ b tb, boxes w0 !! b = Some tb → b = 1%nat ∧ tb = t0) as Honly.
  { intros b tb Hb. assert (b ∈ queue s0) as Hin
      by (apply (wl_dom _ _ (so_live _ _ Hok0)); by eexists).
    cbn in Hin. rewrite Hq0 in Hin. apply list_elem_of_singleton in Hin as ->.
    split; congruence. }
  assert (env_fits quiet_env w0) as Hfit.
  { eapply steady_fits; [apply Hok0|apply quiet_steady|].
    intros b tb Hb. destruct (Honly b tb Hb) as [-> ->]. rewrite Hrun. by vm_compute. }
  assert (asleep (now w0) t0 = false) as Hs0 by (unfold asleep; by rewrite Hst).
  destruct (cfs_pick Dev quiet_env s0 w0 1 t0 Hok0 Hfit Ht0 Hs0)
    as (i & a & t & Hi & Ha & _ & w1 & E1 & Hbox1).
  destruct (cfs_once_spec Dev quiet_env s0 w0 Hok0 Hfit) as (r & s1 & w1' & E1' & Hok1 & _).
  destruct (Honly a t Ha) as [-> ->]. rewrite Hrun, Hstep in E1, Hbox1.
  change (sp_step worker_spec 0) with true in E1, Hbox1. cbn iota in E1, Hbox1.
  rewrite E1 in E1'. injection E1' as <- <- <-. set (t1 := charged _ _) in Hbox1.
  eexists s0, w0, _, w1, t1. split; [exact E0|]. split.
  { cbn [calls schedule_once Cfs_Scheduler]. by rewrite E1. }
  split_and!; [exact Hok1|exact Hn0|..].
  - cbn. rewrite Hq0 in Hi |- *. destruct i as [|i]; [reflexivity|discriminate Hi].
  - rewrite Hbox1. apply lookup_insert_eq.
  - intros b tb Hb. rewrite Hbox1 in Hb.
    apply lookup_insert_Some in Hb as [[Hb1 Hb2]|[Hne Hb]]; [by subst b tb|].
    destruct (Honly b tb Hb) as [-> _]. by destruct Hne.
  - unfold t1, woken. rewrite Hst. cbn. unfold cfs_slice. by rewrite Hv, Hw.
  - unfold t1, woken. rewrite Hst. cbn. by rewrite Hrun.
  - transitivity (stack_bottom (stack t0)); [unfold t1, woken; by rewrite Hst|by rewrite Hbot].
Qed.

Lemma hog_joins :
  ∃ s0 w0 s1 w1 s w a t t1, spawn_all Dev 0x8000 8 [worker_spec] Cfs_new world_init = Ret (s0, w0) ∧
    calls Dev [quiet_env] s0 w0 = Ret (s1, w1) ∧
    spawn_all Dev 0x8000 8 [hog_spec] s1 w1 = Ret (s, w) ∧
    sched_ok (cfs_ready s) w ∧ hog a t w ∧ runs_below 11 w ∧
    a ≠ 1%nat ∧ boxes w !! 1%nat = Some t1.
Proof.
  destruct worker_ran as (s0 & w0 & s1 & w1 & t1 & E0 & E1 & Hok1 & Hid & Hlen & Hbox & Honly
    & Hv1 & Hrun1 & Hbot1).
  pose proof demo_blocks_ok as (_ & _ & _ & _ & Hr1 & _).
  destruct (spawn_all_ok Dev 0x8000 8 ltac:(by vm_compute) [hog_spec] s1 w1)
    as (s & w & E & Hok & Hq & _ & _ & _ & Hold & Hnew).
  { exact Hok1. }
  { cbn. by rewrite Hid. }
  { cbn. rewrite Hid. by vm_compute. }
  { cbn. rewrite Hlen. unfold MAX_TASKS. lia. }
  { by split_and!. }
  { apply Forall_cons. split; [|apply Forall_nil_2]. intros b tb Hb.
    destruct (Honly b tb Hb) as [-> ->]. rewrite Hbot1. cbn [hog_spec sp_raw].
    unfold heap_at, u64_lim, STACK_ALLOC_BYTES, STACK_SIZE_BYTES, STACK_ALIGN. lia. }
  destruct (Hnew 0%nat _ eq_refl) as (t & Ht & _ & _ & Hrt & Hstt & Hs2 & _ & Hvt & Hwt & _).
  assert (1 < next_box w1)%nat as Hnb by (apply (wl_next _ _ (so_live _ _ Hok1)); by eexists).
  rewrite Nat.add_0_r in Ht.
  assert (∀ b tb, b ≠ next_box w1 → boxes w !! b = Some tb → tb = t1) as Hoth.
  { intros b tb Hne Hb. assert (b ∈ queue s) as Hin
      by (apply (wl_dom _ _ (so_live _ _ Hok)); by eexists).
    rewrite Hq in Hin. apply elem_of_app in Hin as [Hin|Hin%list_elem_of_singleton]; [|done].
    apply (wl_dom _ _ (so_live _ _ Hok1)) in Hin as [tc Hc].
    destruct (Honly b tc Hc) as [-> ->]. rewrite Hold in Hb by done. congruence. }
  exists s0, w0, s1, w1, s, w, (next_box w1), t, t1. split; [exact E0|]. split; [exact E1|].
  split; [exact E|]. split; [exact Hok|]. split; [|split; [|split; [lia|by rewrite Hold]]].
  - constructor; [exact Ht|exact Hs2|rewrite Hwt; reflexivity| | |].
    + intros n _. rewrite Hstt. reflexivity.
    + by rewrite Hvt.
    + intros b tb Hne Hb. rewrite (Hoth b tb Hne Hb), Hv1, Hvt. done.
  - intros b tb Hb. destruct (decide (b = next_box w1)) as [->|Hne].
    + assert (tb = t) as -> by congruence. rewrite Hrt. by vm_compute.
    + rewrite (Hoth b tb Hne Hb), Hrun1. by vm_compute.
Qed.

Lemma cfs_zero_slice_starves_witness :
  ∃ s w s' w' a t t', hog a t w ∧ calls Dev (replicate 10 quiet_env) s w = Ret (s', w') ∧
    boxes w' !! a = Some t' ∧ runs t' = runs t + 10 ∧ a ≠ 1%nat ∧
    boxes w' !! 1%nat = boxes w !! 1%nat.
Proof.
  destruct hog_joins as (_ & _ & _ & _ & s & w & a & t & t1 & _ & _ & _ & Hok & Hhog & Hr & Ha & _).
  destruct (cfs_zero_slice_starves Dev (replicate 10 quiet_env) s w a t)
    as (s' & w' & t' & E & Ht' & Hruns & _ & Hoth).
  - exact Hok.
  - exact Hhog.
  - apply Forall_replicate, quiet_steady.
  - exact Hr.
  - exists s, w, s', w', a, t, t'. split_and!; try assumption. apply Hoth. by apply not_eq_sym.
Defined.

End CfsWait.
