(* ===== verification/Driver.v ===== *)
(** * The boot-time scheduler demo

    The driver loop of [kernel_main]: pace on fresh timer ticks, call
    [schedule_once], count yanks, trip the guards, and judge the ledger.  The
    completion theorem is proved against the scheduler contract, so it holds for
    both policies: for any finite tasks that fit the guards no guard and no
    assert fires, every task runs the steps it has, and the report is the one
    that the run counts and the yanks call for. *)
From stdpp Require Import gmap.
From S2P Require Import Prelude Machine ContextSwitch Preempt PreemptStub PreemptTable Task.
From S2P Require Import Sched SchedRun SchedSpec SchedSpawn SchedFair.

#[local] Open Scope Z_scope.

Module Driver.
Import Preempt Stub Switch Table Tasks Sched SchedRun SchedSpec SchedSpawn SchedFair.

(** ** Translation *)

Definition SCHED_RUNAWAY_GUARD : Z := 100.
Definition SCHED_FAIR_RUNS : Z := 5.

(** How the demo ends: the final report, or the message before the halt. *)
Inductive DemoEnd :=
| Online          (* ledger fair, Phase 3 online *)
| Unfair
| StubSilent      (* no yank seen *)
| Runaway
| AsleepForever.

Section driver.
Context {S : Type} `{!Scheduler S} (p : profile).

(** The locals of the demo block. *)
Record DriverState := mkDriver {
  sched : S;
  world : World;
  schedules : Z;
  asleep_passes : Z;
  preempts : Z;
  last_switches : Z;
  last_tick : Z
}.

(** What happens during one turn: timer interrupts while the driver waits in
    [hlt], and the environment of the step that is run. *)
Record TurnEnv := mkTurn { idle_irqs : list FullFrame; step_env : Env }.

Definition driver_start (s : S) (w : World) : DriverState :=
  mkDriver s w 0 0 0 (PREEMPT_SWITCHES (statics w)) (APIC_TICKS (statics w)).

Definition wanted_runs (nm : string) : Z :=
  if String.eqb nm "napper" then 1 else SCHED_FAIR_RUNS.

(** After the loop: the yank gate and the ledger. *)
Definition verdict (d : DriverState) : DemoEnd :=
  if preempts d =? 0 then StubSilent
  else if forallb (λ '(_, nm, r), r =? wanted_runs nm) (ledger (sched d) (world d))
  then Online else Unfair.

(** One turn of the [while]; [inl] continues. *)
Definition driver_turn (env : TurnEnv) (d : DriverState) : outcome (DriverState + DemoEnd) :=
  if (alive (sched d) =? 0)%nat then Ret (inr (verdict d))
  else
    let w1 := set_statics (world d) (irqs (idle_irqs env) (statics (world d))) in
    let cur := APIC_TICKS (statics w1) in
    if cur =? last_tick d then
      Ret (inl (mkDriver (sched d) w1 (schedules d) (asleep_passes d) (preempts d)
                  (last_switches d) (last_tick d)))
    else
      '(b, s2, w2) ← schedule_once p (step_env env) (sched d) w1;
      if negb b then
        n ← add64 p (asleep_passes d) 1;
        if SCHED_RUNAWAY_GUARD <? n then Ret (inr AsleepForever)
        else Ret (inl (mkDriver s2 w2 (schedules d) n (preempts d) (last_switches d) cur))
      else
        k ← add64 p (schedules d) 1;
        let sw := PREEMPT_SWITCHES (statics w2) in
        '(y, last) ← (if sw =? last_switches d then Ret (preempts d, last_switches d)
                      else y ← add64 p (preempts d) 1; Ret (y, sw));
        if SCHED_RUNAWAY_GUARD <? k then Ret (inr Runaway)
        else Ret (inl (mkDriver s2 w2 k 0 y last cur)).

Fixpoint drive (envs : list TurnEnv) (d : DriverState) : outcome (DriverState + DemoEnd) :=
  match envs with
  | [] => Ret (inl d)
  | env :: envs' =>
      r ← driver_turn env d;
      match r with
      | inl d' => drive envs' d'
      | inr e => Ret (inr e)
      end
  end.

End driver.

(** ** Waiting with the fence down *)

Lemma irqs_down_frames fs st : PREEMPTIBLE st = 0 → TASK_FRAMES (irqs fs st) = TASK_FRAMES st.
Proof.
  revert st. induction fs as [|f fs IH]; intros st Hf; [done|].
  change (irqs (f :: fs) st) with (irqs fs (stub_effect f st)). rewrite IH by done.
  unfold stub_effect, yanks. by rewrite Hf.
Qed.

Lemma idle_ok q w fs :
  sched_ok q w → sched_ok q (set_statics w (irqs fs (statics w))).
Proof.
  intros [Hl Hq Hu]. pose proof (wl_fence _ _ Hl) as Hf.
  destruct (irqs_fields fs (statics w)) as (E1 & E2 & E3 & E4).
  assert (∀ i, slot_bit (irqs fs (statics w)) i = slot_bit (statics w) i) as Hbit
    by (intros i; unfold slot_bit; by rewrite E1).
  constructor; [|done|cbn [set_statics statics]; rewrite irqs_ticks by done; apply wrap64_u64|].
  2:{ cbn [set_statics statics]. rewrite irqs_switches by done. unfold yanks. by rewrite Hf. }
  constructor; cbn [set_statics statics boxes task_ptrs next_box]; try apply Hl.
  - apply irqs_wf, Hl.
  - by rewrite E4.
  - intros a t Ha. pose proof (wl_tasks _ _ Hl _ _ Ha) as Ht.
    constructor; cbn [set_statics statics task_ptrs wmem]; rewrite ?Hbit, ?E2;
      rewrite ?(irqs_down_frames fs _ Hf); apply Ht.
  - intros i Hi Hb. rewrite Hbit in Hb. by apply Hl.
  - intros i Hi Hb. rewrite Hbit in Hb. by apply Hl.
Qed.

(** ** Finite tasks *)

(** [k] more steps and the task says stop. *)
Definition steps_left (t : Task) (k : nat) : Prop :=
  (0 < k)%nat ∧ ∀ j, 0 ≤ j < Z.of_nat k →
    step t (runs t + j) = negb (j =? Z.of_nat k - 1).

(** Every live task has [f a] steps left, room to count them, and wakes by tick
    [U]. *)
Record progress (f : nat → nat) (U : Z) (w : World) : Prop := {
  pr_left : ∀ a t, boxes w !! a = Some t → steps_left t (f a);
  pr_room : ∀ a t, boxes w !! a = Some t → runs t + Z.of_nat (f a) < u64_lim;
  pr_wake : ∀ a t u, boxes w !! a = Some t → state t = Sleeping u → u ≤ U
}.

(** The ledger entries that the queued tasks will end with. *)
Definition due_entry (f : nat → nat) (w : World) (a : nat) : option entry :=
  (λ t, (id t, name t, runs t + Z.of_nat (f a))) <$> boxes w !! a.
Definition due (f : nat → nat) (w : World) (q : list nat) : list entry := omap (due_entry f w) q.

Lemma omap_same {A B} (F G : A → option B) (l : list A) :
  (∀ x, x ∈ l → F x = G x) → omap F l = omap G l.
Proof.
  induction l as [|x l IH]; intros H; [done|]. cbn [omap list_omap].
  rewrite (H x) by (by left). rewrite IH; [done|]. intros y Hy. apply H. by right.
Qed.

Lemma steps_left_verdict t k : steps_left t k → step t (runs t) = negb (k =? 1)%nat.
Proof.
  intros [H0 H]. rewrite <- (Z.add_0_r (runs t)), (H 0) by lia. f_equal.
  destruct (Nat.eqb_spec k 1); destruct (Z.eqb_spec 0 (Z.of_nat k - 1)); lia || done.
Qed.

Lemma steps_left_next t t' k :
  ran_once t t' → steps_left t k → k ≠ 1%nat → steps_left t' (k - 1).
Proof.
  intros Hro [H0 H] Hk. split; [lia|]. intros j Hj.
  rewrite (ro_step _ _ Hro), (ro_runs _ _ Hro), <- Z.add_assoc.
  rewrite H by lia. f_equal.
  destruct (Z.eqb_spec (1 + j) (Z.of_nat k - 1)); destruct (Z.eqb_spec j (Z.of_nat (k - 1) - 1)); lia || done.
Qed.

Definition spend (f : nat → nat) (a : nat) : nat → nat :=
  λ b, if decide (b = a) then (f a - 1)%nat else f b.

Lemma sum_spend f a q :
  NoDup q → a ∈ q → (0 < f a)%nat →
  sum_list_with f q = Datatypes.S (sum_list_with (spend f a) q).
Proof.
  intros Hnd Hin Hf. apply list_elem_of_split in Hin as (q1 & q2 & ->).
  assert (a ∉ q1 ∧ a ∉ q2) as [H1 H2].
  { apply NoDup_app in Hnd as (_ & H1 & H2). apply NoDup_cons in H2 as [H2 _].
    split; [|done]. intros Hin. by eapply H1; [|left]. }
  assert (∀ q', a ∉ q' → sum_list_with (spend f a) q' = sum_list_with f q') as Hsame.
  { induction q' as [|b q' IH]; intros Hn; [done|]. apply not_elem_of_cons in Hn as [Hb Hn].
    cbn. rewrite IH by done. unfold spend. by rewrite decide_False by congruence. }
  rewrite !sum_list_with_app. cbn. rewrite !Hsame by done.
  unfold spend at 1. rewrite decide_True by done. lia.
Qed.

(** A step that goes on leaves what is due as it was; a last step turns it into
    the task's ledger entry. *)
Lemma due_step f w w' a t t' q :
  boxes w !! a = Some t → ran_once t t' → (0 < f a)%nat → boxes w' = <[a := t']> (boxes w) →
  due (spend f a) w' q = due f w q.
Proof.
  intros Ha Hro Hpos Hb. apply omap_same. intros b _. unfold due_entry, spend. rewrite Hb.
  destruct (decide (b = a)) as [->|Hne]; [|by rewrite lookup_insert_ne].
  rewrite lookup_insert_eq, Ha. cbn [fmap option_fmap option_map].
  rewrite (ro_id _ _ Hro), (ro_name _ _ Hro), (ro_runs _ _ Hro). do 2 f_equal. lia.
Qed.

Lemma due_last f w w' a t t' q q' :
  boxes w !! a = Some t → ran_once t t' → f a = 1%nat → boxes w' = delete a (boxes w) →
  a :: q' ≡ₚ q → NoDup q → entry_of t' :: due (spend f a) w' q' ≡ₚ due f w q.
Proof.
  intros Ha Hro Hf Hb Hq Hnd. rewrite <- Hq in Hnd. apply NoDup_cons in Hnd as [Hna _].
  unfold due. rewrite <- Hq. cbn [omap list_omap]. unfold due_entry at 2. rewrite Ha, Hf.
  cbn [fmap option_fmap option_map]. unfold entry_of.
  rewrite (ro_id _ _ Hro), (ro_name _ _ Hro), (ro_runs _ _ Hro). constructor.
  rewrite (omap_same _ (due_entry f w) q'); [done|]. intros b Hin. unfold due_entry, spend.
  rewrite decide_False by (by intros ->). by rewrite Hb, lookup_delete_ne by (by intros ->).
Qed.

(** One successful call spends one step and leaves what is due as it was. *)
Lemma progress_once env q fin w q' fin' w' f U :
  once_result env q fin w true q' fin' w' → world_live q w → progress f U w →
  ∃ f', progress f' U w' ∧ sum_list_with f q = Datatypes.S (sum_list_with f' q') ∧
    due f' w' q' ++ fin' ≡ₚ due f w q ++ fin.
Proof.
  intros (a & t & t' & Ha & Hs & Hro & _ & _ & Hbox) Hl [H1 H2 H3].
  assert (a ∈ q) as Hin by (apply (wl_dom _ _ Hl); by eexists).
  pose proof (H1 a t Ha) as Hleft. pose proof (proj1 Hleft) as Hpos.
  pose proof (steps_left_verdict _ _ Hleft) as Hv.
  assert (∀ b, b ≠ a → spend f a b = f b) as Hsp
    by (intros b Hne; unfold spend; by rewrite decide_False).
  assert (spend f a a = f a - 1)%nat as Hspa by (unfold spend; by rewrite decide_True).
  exists (spend f a). rewrite Hv in Hbox. destruct (f a =? 1)%nat eqn:E1; cbn [negb] in Hbox.
  - apply Nat.eqb_eq in E1. destruct Hbox as (Hb & Hq & ->).
    assert (∀ b tb, boxes w' !! b = Some tb → b ≠ a ∧ boxes w !! b = Some tb) as Hold.
    { intros b tb Hlk. rewrite Hb in Hlk. by apply lookup_delete_Some in Hlk as [? ?]. }
    split_and!.
    + constructor.
      * intros b tb [Hne Hlk]%Hold. rewrite Hsp by done. by apply H1.
      * intros b tb [Hne Hlk]%Hold. rewrite Hsp by done. by apply H2.
      * intros b tb u [Hne Hlk]%Hold. by apply (H3 b).
    + rewrite (sum_spend f a q) by (done || apply Hl). f_equal. rewrite <- Hq. cbn. lia.
    + rewrite <- (due_last f w w' a t t' q q') by (done || apply Hl). solve_Permutation.
  - apply Nat.eqb_neq in E1. destruct Hbox as (Hb & Hq & ->). split_and!.
    + constructor.
      * intros b tb Hlk. rewrite Hb in Hlk. apply lookup_insert_Some in Hlk as [[<- <-]|[Hne Hlk]].
        -- rewrite Hspa. by eapply steps_left_next.
        -- rewrite Hsp by done. by apply H1.
      * intros b tb Hlk. rewrite Hb in Hlk. apply lookup_insert_Some in Hlk as [[<- <-]|[Hne Hlk]].
        -- rewrite Hspa, (ro_runs _ _ Hro). specialize (H2 a t Ha). lia.
        -- rewrite Hsp by done. by apply H2.
      * intros b tb u Hlk Hst. rewrite Hb in Hlk. apply lookup_insert_Some in Hlk as [[<- <-]|[Hne Hlk]].
        -- rewrite (ro_state _ _ Hro) in Hst. by destruct (step t (runs t)).
        -- by apply (H3 b tb).
    + rewrite (sum_spend f a q) by (done || apply Hl). by rewrite Hq.
    + unfold due. rewrite Hq. fold (due (spend f a) w' q) (due f w q).
      by rewrite (due_step f w w' a t t' q) by done.
Qed.

(** ** The loop *)
Section completion.
Context {S : Type} `{!Scheduler S} `{!SchedulerSpec S} (p : profile).

(** A turn brings a fresh tick, a well-behaved step and at most [B] interrupts. *)
Definition turn_ok (B : Z) (w : World) (e : TurnEnv) : Prop :=
  env_steady (step_env e) w ∧ idle_irqs e ≠ [] ∧
  ∀ a, Z.of_nat (length (idle_irqs e)) + env_ticks (step_env e a) ≤ B.

(** Every step of the turn is hit by a timer interrupt. *)
Definition turn_yanks (e : TurnEnv) : Prop := ∀ a, irq_during (step_env e a) ≠ [].

(** A property of the scheduler and its world that waiting and scheduling keep;
    the loop then keeps it too. *)
Class LoopInvariant (J : S → World → Prop) := {
  li_idle : ∀ s w fs, sched_ok (queue s) w → J s w → J s (set_statics w (irqs fs (statics w)));
  li_once : ∀ env s w b s' w', sched_ok (queue s) w → env_fits env w → J s w →
    schedule_once p env s w = Ret (b, s', w') → J s' w'
}.

#[export] Instance LoopInvariant_True : LoopInvariant (λ _ _, True).
Proof. by split. Qed.

Section with_invariant.
Context (J : S → World → Prop) `{LJ : !LoopInvariant J}.

(** [T0]: the tick at the start; [N]: the steps to run; [U]: the last wake-up;
    [L]: the ledger to come. *)
Record driver_inv (f : nat → nat) (T0 U : Z) (N : nat) (L : list entry)
    (d : DriverState (S := S)) : Prop := {
  di_ok : sched_ok (queue (sched d)) (world d);
  di_prog : progress f U (world d);
  di_due : due f (world d) (queue (sched d)) ++ finished (sched d) ≡ₚ L;
  di_J : J (sched d) (world d);
  di_count : 0 ≤ schedules d ∧
    schedules d + Z.of_nat (sum_list_with f (queue (sched d))) = Z.of_nat N;
  di_asleep : 0 ≤ asleep_passes d ≤ last_tick d - T0;
  di_tick : T0 ≤ last_tick d ≤ now (world d);
  di_pre : 0 ≤ preempts d ≤ schedules d;
  di_switch : last_switches d = yanks_seen (world d)
}.

Definition measure (f : nat → nat) (U : Z) (d : DriverState (S := S)) : nat :=
  (sum_list_with f (queue (sched d)) + Z.to_nat (U - last_tick d))%nat.

Lemma progress_fits f U q w env :
  world_live q w → progress f U w → env_steady env w → env_fits env w.
Proof.
  intros Hl Hp He. eapply steady_fits; [done|done|]. intros a t Ha.
  pose proof (pr_room _ _ _ Hp a t Ha). pose proof (proj1 (pr_left _ _ _ Hp a t Ha)). lia.
Qed.

(** The counters after a successful call. *)
Lemma driver_turn_true f T0 U N L B e d s2 w2 :
  let w1 := set_statics (world d) (irqs (idle_irqs e) (statics (world d))) in
  driver_inv f T0 U N L d → Z.of_nat N ≤ SCHED_RUNAWAY_GUARD → turn_ok B (world d) e →
  now (world d) + B < u64_lim → last_tick d < now w1 → now w1 ≤ now (world d) + Z.of_nat (length (idle_irqs e)) →
  yanks_seen w1 = yanks_seen (world d) → sched_ok (queue (sched d)) w1 →
  (alive (sched d) =? 0)%nat = false →
  schedule_once p (step_env e) (sched d) w1 = Ret (true, s2, w2) →
  sched_ok (queue s2) w2 → J s2 w2 →
  once_result (step_env e) (queue (sched d)) (finished (sched d)) w1 true
    (queue s2) (finished s2) w2 →
  ∃ d' f', driver_turn p e d = Ret (inl d') ∧ driver_inv f' T0 U N L d' ∧
    world d' = w2 ∧ (measure f' U d' < measure f U d)%nat ∧ schedules d' = schedules d + 1 ∧
    (turn_yanks e → B < u64_lim → preempts d' = preempts d + 1) ∧ preempts d ≤ preempts d' ∧
    now w2 ≤ now (world d) + B.
Proof.
  intros w1 [Hok Hp Hdue HJ [Hc0 Hc] Has Htk Hpre Hsw] HN (He & Hi & HB) Hlim Hfresh Hle Hyk Hok1 Hal E Hok2 HJ2 Honce.
  destruct (progress_once _ _ _ _ _ _ _ f U Honce (so_live _ _ Hok1)) as (f' & Hp' & Hsum & Hdue').
  { by destruct Hp. }
  destruct Honce as (a & t & t' & _ & _ & _ & Hnow & Hys & _).
  pose proof (HB a) as HBa. pose proof (so_ticks _ _ Hok1) as Hu1. unfold now in *.
  assert (0 ≤ env_ticks (step_env e a)) by (unfold env_ticks; lia).
  rewrite wrap64_id in Hnow by ulia.
  assert (Z.of_nat (length (irq_during (step_env e a))) ≤ B) as Hdur
    by (unfold env_ticks in HBa; lia).
  unfold SCHED_RUNAWAY_GUARD in HN.
  set (y := if PREEMPT_SWITCHES (statics w2) =? last_switches d then preempts d else preempts d + 1).
  assert (preempts d ≤ y ≤ preempts d + 1) as Hy by (unfold y; case_match; lia).
  exists (mkDriver s2 w2 (schedules d + 1) 0 y (yanks_seen w2) (APIC_TICKS (statics w1))), f'.
  split_and!; try done.
  - unfold driver_turn. rewrite Hal. fold w1. rewrite (proj2 (Z.eqb_neq _ _)) by lia.
    rewrite E, bind_Ret. cbn [negb]. rewrite (add64_exact p (schedules d)) by ulia.
    rewrite bind_Ret. unfold y, yanks_seen, SCHED_RUNAWAY_GUARD.
    destruct (PREEMPT_SWITCHES (statics w2) =? last_switches d) eqn:Eq.
    + rewrite bind_Ret, (proj2 (Z.ltb_ge _ _)) by lia. apply Z.eqb_eq in Eq. by rewrite Eq.
    + rewrite add64_exact by ulia. rewrite !bind_Ret, (proj2 (Z.ltb_ge _ _)) by lia. done.
  - constructor; cbn [sched world schedules asleep_passes preempts last_switches last_tick];
      unfold now in *; try done; try lia. by rewrite Hdue'.
  - unfold measure. cbn [sched last_tick]. lia.
  - cbn [preempts]. intros Hyanks HBlim. unfold y. rewrite (proj2 (Z.eqb_neq _ _)); [done|].
    rewrite Hsw, <- Hyk. change (PREEMPT_SWITCHES (statics w2)) with (yanks_seen w2). rewrite Hys.
    pose proof (so_switches _ _ Hok1) as Hsu. change (PREEMPT_SWITCHES (statics w1)) with (yanks_seen w1) in Hsu.
    assert (0 < length (irq_during (step_env e a)))%nat as Hlen.
    { specialize (Hyanks a). destruct (irq_during (step_env e a)); [done|cbn; lia]. }
    unfold wrap64. intros Heq.
    assert ((Z.of_nat (length (irq_during (step_env e a)))) `mod` u64_lim = 0) as Hz.
    { replace (Z.of_nat _) with ((yanks_seen w1 + Z.of_nat (length (irq_during (step_env e a)))) - yanks_seen w1) by lia.
      rewrite Zminus_mod, Heq. rewrite (Z.mod_small (yanks_seen w1)) by done. by rewrite Z.sub_diag. }
    rewrite Z.mod_small in Hz by ulia. lia.
  - cbn [preempts]. lia.
  - lia.
Qed.

(** A pass that finds everybody asleep: the tick is still before the last wake-up. *)
Lemma driver_turn_false f T0 U N L e d s2 w2 :
  let w1 := set_statics (world d) (irqs (idle_irqs e) (statics (world d))) in
  driver_inv f T0 U N L d → U ≤ T0 + SCHED_RUNAWAY_GUARD → last_tick d < now w1 →
  yanks_seen w1 = yanks_seen (world d) → sched_ok (queue (sched d)) w1 →
  (alive (sched d) =? 0)%nat = false →
  schedule_once p (step_env e) (sched d) w1 = Ret (false, s2, w2) →
  sched_ok (queue s2) w2 → J s2 w2 →
  once_result (step_env e) (queue (sched d)) (finished (sched d)) w1 false
    (queue s2) (finished s2) w2 →
  ∃ d', driver_turn p e d = Ret (inl d') ∧ driver_inv f T0 U N L d' ∧
    world d' = w2 ∧ w2 = w1 ∧ (measure f U d' < measure f U d)%nat ∧
    schedules d' = schedules d ∧ preempts d' = preempts d.
Proof.
  intros w1 [Hok Hp Hdue HJ [Hc0 Hc] Has Htk Hpre Hsw] HU Hfresh Hyk Hok1 Hal E Hok2 HJ2 (Hall & -> & Hq & Hfin).
  assert (now w1 < U) as HnowU.
  { destruct (queue (sched d)) as [|a q] eqn:Hqd.
    { exfalso. rewrite alive_spec, Hqd in Hal. done. }
    assert (is_Some (boxes w1 !! a)) as [t Ha] by (apply (wl_dom _ _ (so_live _ _ Hok1)); by left).
    pose proof (Hall a t Ha) as Hs. unfold asleep in Hs. destruct (state t) eqn:Hst; try done.
    apply Z.ltb_lt in Hs. pose proof (pr_wake _ _ _ Hp a t _ Ha Hst). lia. }
  unfold SCHED_RUNAWAY_GUARD in HU. pose proof (so_ticks _ _ Hok) as Hu0.
  pose proof (so_ticks _ _ Hok1) as Hu1. unfold now in *.
  exists (mkDriver s2 w1 (schedules d) (asleep_passes d + 1) (preempts d) (last_switches d)
            (APIC_TICKS (statics w1))).
  split_and!; try done.
  - unfold driver_turn. rewrite Hal. fold w1. rewrite (proj2 (Z.eqb_neq _ _)) by lia.
    rewrite E, bind_Ret. cbn [negb]. rewrite add64_exact by ulia. rewrite bind_Ret.
    unfold SCHED_RUNAWAY_GUARD. by rewrite (proj2 (Z.ltb_ge _ _)) by lia.
  - constructor; cbn [sched world schedules asleep_passes preempts last_switches last_tick];
      unfold now; rewrite ?Hq, ?Hfin; try done; try lia; try congruence.
    by destruct Hp.
  - unfold measure. cbn [sched last_tick]. rewrite Hq. lia.
Qed.

(** One turn with tasks alive. *)
Lemma driver_turn_spec f T0 U N L B e d :
  driver_inv f T0 U N L d → Z.of_nat N ≤ SCHED_RUNAWAY_GUARD → U ≤ T0 + SCHED_RUNAWAY_GUARD →
  turn_ok B (world d) e → now (world d) + B < u64_lim → alive (sched d) ≠ 0%nat →
  ∃ d' f', driver_turn p e d = Ret (inl d') ∧ driver_inv f' T0 U N L d' ∧
    same_stacks (world d) (world d') ∧ (measure f' U d' < measure f U d)%nat ∧
    now (world d') ≤ now (world d) + B ∧
    (turn_yanks e → preempts d' - preempts d = schedules d' - schedules d) ∧
    preempts d ≤ preempts d' ∧
    (∀ a t, boxes (world d) !! a = Some t → state t = Ready → schedules d' = schedules d + 1).
Proof.
  intros Hinv HN HU Hturn Hlim Hal. pose proof Hinv as [Hok Hp _ HJ _ _ Htk _ _].
  pose proof Hturn as (He & Hi & HB).
  set (w1 := set_statics (world d) (irqs (idle_irqs e) (statics (world d)))).
  assert (sched_ok (queue (sched d)) w1) as Hok1 by (by apply idle_ok).
  pose proof (so_ticks _ _ Hok) as Hu. specialize (HB 0%nat) as HB0.
  assert (0 ≤ env_ticks (step_env e 0%nat)) by (unfold env_ticks; lia).
  assert (now w1 = now (world d) + Z.of_nat (length (idle_irqs e))) as Hnow1.
  { unfold now, w1. cbn [set_statics statics]. rewrite irqs_ticks by done.
    apply wrap64_id. unfold now in *. ulia. }
  assert (0 < length (idle_irqs e))%nat by (destruct (idle_irqs e); [done|cbn; lia]).
  assert (yanks_seen w1 = yanks_seen (world d)) as Hyk.
  { unfold yanks_seen, w1. cbn [set_statics statics]. rewrite irqs_switches by apply Hok.
    unfold yanks. by rewrite (wl_fence _ _ (so_live _ _ Hok)). }
  assert (env_fits (step_env e) w1) as Hfit.
  { eapply progress_fits; [apply Hok1|by destruct Hp|done]. }
  destruct (once_spec p (step_env e) (sched d) w1 Hok1 Hfit) as (b & s2 & w2 & E & Hok2 & Honce).
  pose proof (once_same_stacks _ _ _ _ _ _ _ _ Honce) as Hss.
  assert (J s2 w2) as HJ2 by (eapply li_once; [exact Hok1|exact Hfit| |exact E]; by apply li_idle).
  apply Nat.eqb_neq in Hal.
  assert (last_tick d < now w1) as Hfresh by lia.
  assert (now w1 ≤ now (world d) + Z.of_nat (length (idle_irqs e))) as Hle by lia.
  assert (B < u64_lim) as HBlim by (unfold now in Hlim; ulia).
  destruct b.
  - destruct (driver_turn_true f T0 U N L B e d s2 w2 Hinv HN Hturn Hlim Hfresh Hle Hyk Hok1 Hal E
        Hok2 HJ2 Honce) as (d' & f' & E' & Hinv' & Hw' & Hm & Hs' & Hy & Hpre & Hn').
    exists d', f'. rewrite Hw', Hs'. split_and!; try done. intros Hty. rewrite Hy by (done || lia). lia.
  - destruct (driver_turn_false f T0 U N L e d s2 w2 Hinv HU Hfresh Hyk Hok1 Hal E Hok2 HJ2 Honce)
      as (d' & E' & Hinv' & Hw' & -> & Hm & Hs' & Hy).
    exists d', f. rewrite Hw', Hs', Hy. split_and!; try done; [fold w1; lia|lia|].
    intros a t Ha Hr. pose proof (proj1 Honce a t Ha) as Hsl. unfold asleep in Hsl. by rewrite Hr in Hsl.
Qed.

Lemma drive_spec T0 U N L B : ∀ envs f d,
  driver_inv f T0 U N L d → Z.of_nat N ≤ SCHED_RUNAWAY_GUARD → U ≤ T0 + SCHED_RUNAWAY_GUARD →
  Forall (turn_ok B (world d)) envs → 0 ≤ B →
  now (world d) + B * Z.of_nat (length envs) < u64_lim →
  (measure f U d < length envs)%nat →
  ∃ n d' f', (n < length envs)%nat ∧ drive p (take n envs) d = Ret (inl d') ∧
    drive p envs d = Ret (inr (verdict d')) ∧ driver_inv f' T0 U N L d' ∧
    alive (sched d') = 0%nat ∧
    (Forall turn_yanks envs → preempts d' - preempts d = schedules d' - schedules d) ∧
    preempts d ≤ preempts d'.
Proof.
  induction envs as [|e envs IH]; intros f d Hinv HN HU Hall HB0 Hlim Hm; [cbn in Hm; lia|].
  cbn [length] in Hlim, Hm. apply Forall_cons in Hall as [He Hall].
  destruct (decide (alive (sched d) = 0%nat)) as [Hz|Hnz].
  { exists 0%nat, d, f. split; [cbn; lia|]. split; [done|]. split; [|split_and!; [done|done|lia|lia]].
    cbn [drive]. unfold driver_turn. rewrite Hz. done. }
  destruct (driver_turn_spec f T0 U N L B e d) as (d1 & f1 & E1 & Hinv1 & Hss & Hm1 & Hn1 & Hy1 & Hp1 & _);
    [done|done|done|done|nia|done|].
  destruct (IH f1 d1 Hinv1 HN HU) as (n & d' & f' & Hn & En & E & Hinv' & Hz' & Hy & Hp'); [|done|nia|lia|].
  { eapply Forall_impl; [exact Hall|]. intros e' (H1 & H2 & H3).
    split_and!; try done. by eapply env_steady_mono. }
  exists (Datatypes.S n), d', f'. split_and!; try done.
  - cbn [length]. lia.
  - cbn [take drive]. by rewrite E1, bind_Ret.
  - cbn [drive]. by rewrite E1, bind_Ret.
  - intros [Hy0 Hys]%Forall_cons. specialize (Hy1 Hy0). specialize (Hy Hys). lia.
  - lia.
Qed.

(** A yank in the first turn, with a task ready to run in it, is counted. *)
Lemma drive_first_yank T0 U N L B e envs f d :
  driver_inv f T0 U N L d → Z.of_nat N ≤ SCHED_RUNAWAY_GUARD → U ≤ T0 + SCHED_RUNAWAY_GUARD →
  Forall (turn_ok B (world d)) (e :: envs) → 0 ≤ B →
  now (world d) + B * Z.of_nat (length (e :: envs)) < u64_lim →
  (measure f U d < length (e :: envs))%nat →
  turn_yanks e → (∃ a t, boxes (world d) !! a = Some t ∧ state t = Ready) →
  ∃ n d', (n < length (e :: envs))%nat ∧ drive p (take n (e :: envs)) d = Ret (inl d') ∧
    alive (sched d') = 0%nat ∧ preempts d < preempts d'.
Proof.
  intros Hinv HN HU Hall HB0 Hlim Hm Hy (a & t & Ha & Hr). cbn [length] in Hlim, Hm.
  apply Forall_cons in Hall as [He Hall].
  assert (alive (sched d) ≠ 0%nat) as Hnz.
  { rewrite alive_spec. assert (a ∈ queue (sched d)) as Hin
      by (apply (wl_dom _ _ (so_live _ _ (di_ok _ _ _ _ _ _ Hinv))); by eexists).
    by destruct (queue (sched d)); [apply not_elem_of_nil in Hin|]. }
  destruct (driver_turn_spec f T0 U N L B e d)
    as (d1 & f1 & E1 & Hinv1 & Hss & Hm1 & Hn1 & Hy1 & _ & Hs1);
    [done|done|done|done|nia|done|].
  destruct (drive_spec T0 U N L B envs f1 d1 Hinv1 HN HU) as (n & d' & f' & Hn & E & _ & Hinv' & Hz' & _ & Hp');
    [|done|nia|lia|].
  { eapply Forall_impl; [exact Hall|]. intros e' (H1 & H2 & H3).
    split_and!; try done. by eapply env_steady_mono. }
  specialize (Hy1 Hy). specialize (Hs1 a t Ha Hr).
  exists (Datatypes.S n), d'. split_and!; try done;
    [cbn [length]; lia|cbn [take drive]; by rewrite E1, bind_Ret|lia].
Qed.

(** Two drained states that prefixes of the same turns lead to are the same. *)
Lemma drive_drained_unique envs : ∀ n m (d0 d d' : DriverState (S := S)),
  (n < length envs)%nat → (m < length envs)%nat →
  drive p (take n envs) d0 = Ret (inl d) → drive p (take m envs) d0 = Ret (inl d') →
  alive (sched d) = 0%nat → alive (sched d') = 0%nat → d = d'.
Proof.
  induction envs as [|e envs IH]; intros n m d0 d d' Hn Hm E E' Hd Hd'; [cbn in Hn; lia|].
  assert (∀ k x, drive p (take (Datatypes.S k) (e :: envs)) d0 = Ret (inl x) → alive (sched d0) ≠ 0%nat) as Hno.
  { intros k x Ek Hz. cbn [take drive] in Ek. unfold driver_turn in Ek. by rewrite Hz in Ek. }
  destruct n as [|n], m as [|m].
  - cbn in E, E'. congruence.
  - injection E as <-. by apply Hno in E'.
  - injection E' as <-. by apply Hno in E.
  - cbn [take drive length] in *. destruct (driver_turn p e d0) as [[d1|]|]; try done.
    rewrite bind_Ret in E, E'. eapply (IH n m d1); eauto; lia.
Qed.

(** What the loop reports for the ledger [L]. *)
Definition report (d : DriverState (S := S)) (L : list entry) : DemoEnd :=
  if preempts d =? 0 then StubSilent
  else if forallb (λ '(_, nm, r), r =? wanted_runs nm) L then Online else Unfair.

Lemma forallb_perm {X} (g : X → bool) l l' : l ≡ₚ l' → forallb g l = forallb g l'.
Proof.
  induction 1 as [|x l l' _ IH|x y l|l1 l2 l3 _ IH1 _ IH2]; cbn; [done|by rewrite IH| |congruence].
  by destruct (g x), (g y).
Qed.

(** A drained scheduler has exactly the due ledger. *)
Lemma verdict_drained f T0 U N L d :
  driver_inv f T0 U N L d → alive (sched d) = 0%nat →
  finished (sched d) ≡ₚ L ∧ ledger (sched d) (world d) ≡ₚ L ∧ verdict d = report d L.
Proof.
  intros [_ _ Hdue _ _ _ _ _ _] Hz. rewrite alive_spec in Hz. apply nil_length_inv in Hz.
  rewrite Hz in Hdue. cbn in Hdue.
  assert (ledger (sched d) (world d) ≡ₚ L) as Hl.
  { rewrite ledger_spec, Hz. unfold ledger_of. cbn [omap list_omap app].
    by rewrite (proj1 (sort_entries_spec (finished (sched d)))). }
  split_and!; [done|done|]. unfold verdict, report. by rewrite (forallb_perm _ _ _ Hl).
Qed.

Lemma demo_drives envs (s : S) w f U B :
  sched_ok (queue s) w → progress f U w → J s w →
  Z.of_nat (sum_list_with f (queue s)) ≤ SCHED_RUNAWAY_GUARD →
  U ≤ now w + SCHED_RUNAWAY_GUARD → 0 ≤ B → Forall (turn_ok B w) envs →
  now w + B * Z.of_nat (length envs) < u64_lim →
  (sum_list_with f (queue s) + Z.to_nat (U - now w) < length envs)%nat →
  let L := due f w (queue s) ++ finished s in
  ∃ n d, (n < length envs)%nat ∧ drive p (take n envs) (driver_start s w) = Ret (inl d) ∧
    alive (sched d) = 0%nat ∧ finished (sched d) ≡ₚ L ∧ ledger (sched d) (world d) ≡ₚ L ∧
    J (sched d) (world d) ∧
    drive p envs (driver_start s w) = Ret (inr (report d L)) ∧
    (Forall turn_yanks envs → queue s ≠ [] → preempts d ≠ 0) ∧
    ((∀ e0, head envs = Some e0 → turn_yanks e0) →
     (∃ a t, boxes w !! a = Some t ∧ state t = Ready) → preempts d ≠ 0).
Proof.
  intros Hok Hp HJ HN HU HB Hall Hlim Hlen L. set (d0 := driver_start s w).
  assert (driver_inv f (now w) U (sum_list_with f (queue s)) L d0) as Hinv.
  { constructor; cbn [d0 driver_start sched world schedules asleep_passes preempts last_switches last_tick];
      try done; unfold now; lia. }
  destruct (drive_spec (now w) U _ L B envs f d0 Hinv HN HU Hall HB Hlim Hlen)
    as (n & d & f' & Hn & En & E & Hinv' & Hz & Hy & _).
  destruct (verdict_drained f' _ _ _ L d Hinv' Hz) as (Hf & Hl & Hv).
  exists n, d. split_and!; [done|done|done|done|done|by destruct Hinv'|by rewrite <- Hv| |].
  - intros Hyk Hne. specialize (Hy Hyk). cbn [d0 driver_start preempts schedules] in Hy.
    pose proof (proj2 (di_count _ _ _ _ _ _ Hinv')) as Hc.
    rewrite alive_spec in Hz. apply nil_length_inv in Hz. rewrite Hz in Hc. cbn in Hc.
    assert (0 < sum_list_with f (queue s))%nat as Hpos; [|lia].
    destruct (queue s) as [|a q] eqn:Hq; [done|]. cbn.
    assert (is_Some (boxes w !! a)) as [t Ha] by (apply (wl_dom _ _ (so_live _ _ Hok)); by left).
    pose proof (proj1 (pr_left _ _ _ Hp a t Ha)). lia.
  - intros Hy0 Hrdy. destruct envs as [|e0 envs]; [cbn in Hlen; lia|].
    destruct (drive_first_yank (now w) U _ L B e0 envs f d0 Hinv HN HU Hall HB Hlim Hlen)
      as (m & d2 & Hm & E2 & Hz2 & Hlt); [by apply Hy0|done|].
    assert (d = d2) as -> by (eapply drive_drained_unique; [exact Hn|exact Hm|done..]).
    cbn [d0 driver_start preempts] in Hlt. lia.
Qed.
End with_invariant.

(** C6.  The demo loop under any scheduler that keeps the contract.  Take tasks
    that are finite, [f a] more steps each, whose steps sum to at most the runaway
    guard and which wake within the guard's ticks, and enough turns that each
    bring a fresh tick.  Then the loop drains the scheduler, never leaving through
    the runaway or asleep exits and never by a panic; the ledger it judges holds,
    for each task, the runs it had plus exactly the steps it had left, next to the
    entries that were there; and it ends with "stub silent" when it saw no yank,
    otherwise with success exactly when every entry of that ledger has the wanted
    count.  A yank is seen if the timer hits every step, or merely the first step
    of a ready task. *)
Theorem demo_completes envs (s : S) w f U B :
  sched_ok (queue s) w → progress f U w →
  Z.of_nat (sum_list_with f (queue s)) ≤ SCHED_RUNAWAY_GUARD →
  U ≤ now w + SCHED_RUNAWAY_GUARD → 0 ≤ B → Forall (turn_ok B w) envs →
  now w + B * Z.of_nat (length envs) < u64_lim →
  (sum_list_with f (queue s) + Z.to_nat (U - now w) < length envs)%nat →
  let L := due f w (queue s) ++ finished s in
  ∃ n d, (n < length envs)%nat ∧ drive p (take n envs) (driver_start s w) = Ret (inl d) ∧
    alive (sched d) = 0%nat ∧ ledger (sched d) (world d) ≡ₚ L ∧
    drive p envs (driver_start s w) = Ret (inr
      (if preempts d =? 0 then StubSilent
       else if forallb (λ '(_, nm, r), r =? wanted_runs nm) L then Online else Unfair)) ∧
    (Forall turn_yanks envs → queue s ≠ [] → preempts d ≠ 0) ∧
    ((∀ e0, head envs = Some e0 → turn_yanks e0) →
     (∃ a t, boxes w !! a = Some t ∧ state t = Ready) → preempts d ≠ 0).
Proof.
  intros Hok Hp HN HU HB Hall Hlim Hlen L.
  destruct (demo_drives (λ _ _, True) envs s w f U B Hok Hp I HN HU HB Hall Hlim Hlen)
    as (n & d & Hn & En & Hz & _ & Hl & _ & E & H1 & H2). by exists n, d.
Qed.

End completion.

(** ** The shipped demo *)

(** The closure of a worker: five runs. *)
Definition worker_step (n : Z) : bool := n + 1 <? SCHED_FAIR_RUNS.

(** The spawn block: three workers, gamma with double weight under CFS, and the
    napper.  [raws] are the addresses the allocator returns for the stacks. *)
Section spawn_block.
Context {S : Type} `{!Scheduler S} (p : profile) (tramp cs_reg : Z) (cfs : bool) (raws : Z → Z).

Definition demo_worker (k : Z) (nm : string) (sw : S * World) : outcome (S * World) :=
  '(n, s1) ← next_id p (fst sw);
  '(t, w1) ← Task_new p tramp cs_reg (raws k) n nm worker_step (snd sw);
  t1 ← (if cfs && String.eqb nm "gamma" then with_weight t 2048 else Ret t);
  spawn s1 t1 w1.

Definition demo_spawn (s : S) (w : World) : outcome (S * World) :=
  sw1 ← demo_worker 0 "alpha" (s, w);
  sw2 ← demo_worker 1 "beta" sw1;
  sw3 ← demo_worker 2 "gamma" sw2;
  '(n, s1) ← next_id p (fst sw3);
  wake_at ← add64 p (APIC_TICKS (statics (snd sw3))) 20;
  '(t, w1) ← Task_sleeping p tramp cs_reg (raws 3) n "napper" wake_at (λ _, false) (snd sw3);
  spawn s1 t w1.

(** The same tasks as specifications. *)
Definition worker_spec (k : Z) (nm : string) : TaskSpec :=
  mkSpec Ready (raws k) nm worker_step
    (if cfs && String.eqb nm "gamma" then 2048 else CFS_DEFAULT_WEIGHT).
Definition demo_tasks (wake : Z) : list TaskSpec :=
  [worker_spec 0 "alpha"; worker_spec 1 "beta"; worker_spec 2 "gamma";
   mkSpec (Sleeping wake) (raws 3) "napper" (λ _, false) CFS_DEFAULT_WEIGHT].

Lemma spawn_all_cons sp specs (s : S) w :
  spawn_all p tramp cs_reg (sp :: specs) s w =
    sw ← spawn_all p tramp cs_reg [sp] s w; spawn_all p tramp cs_reg specs (fst sw) (snd sw).
Proof.
  cbn [spawn_all]. destruct (next_id p s) as [[n s1]|]; [|done]. rewrite !bind_Ret.
  destruct (Task_make _ _ _ _ _ _ _ _ _) as [[t w1]|]; [|done]. rewrite !bind_Ret.
  destruct (reweighted _ _) as [t1|]; [|done]. rewrite !bind_Ret.
  by destruct (spawn s1 t1 w1) as [[s2 w2]|].
Qed.

Lemma demo_worker_spec k nm (sw : S * World) :
  demo_worker k nm sw = spawn_all p tramp cs_reg [worker_spec k nm] (fst sw) (snd sw).
Proof.
  unfold demo_worker, worker_spec. cbn [spawn_all sp_state sp_raw sp_name sp_step sp_weight].
  destruct (next_id p (fst sw)) as [[n s1]|]; [|done]. rewrite !bind_Ret. unfold Task_new.
  destruct (Task_make _ _ _ _ _ _ _ _ _) as [[t w1]|]; [|done]. rewrite !bind_Ret.
  assert (reweighted (if cfs && String.eqb nm "gamma" then 2048 else CFS_DEFAULT_WEIGHT) t =
    (if cfs && String.eqb nm "gamma" then with_weight t 2048 else Ret t)) as ->
    by (by destruct (cfs && String.eqb nm "gamma")).
  destruct (if cfs && _ then _ else _) as [t1|]; [|done]. rewrite !bind_Ret.
  by destruct (spawn s1 t1 w1) as [[s2 w2]|].
Qed.

Lemma spawn_all_app l1 l2 (s : S) w :
  spawn_all p tramp cs_reg (l1 ++ l2) s w =
    sw ← spawn_all p tramp cs_reg l1 s w; spawn_all p tramp cs_reg l2 (fst sw) (snd sw).
Proof.
  revert s w. induction l1 as [|sp l1 IH]; intros s w; [done|].
  cbn [app]. rewrite spawn_all_cons, (spawn_all_cons sp l1).
  destruct (spawn_all p tramp cs_reg [sp] s w) as [[s1 w1]|]; [|done]. rewrite !bind_Ret. apply IH.
Qed.

(** After the three workers the block goes on like the specifications, with the
    tick it reads then. *)
Lemma demo_spawn_split (s : S) w s3 w3 wake :
  spawn_all p tramp cs_reg (take 3 (demo_tasks wake)) s w = Ret (s3, w3) →
  add64 p (now w3) 20 = Ret wake →
  demo_spawn s w = spawn_all p tramp cs_reg (demo_tasks wake) s w.
Proof.
  intros E Ht. rewrite <- (take_drop 3 (demo_tasks wake)) at 1. rewrite spawn_all_app, E, bind_Ret.
  cbn [take demo_tasks] in E. rewrite spawn_all_cons in E. unfold demo_spawn. rewrite demo_worker_spec.
  cbn [fst snd]. destruct (spawn_all _ _ _ [worker_spec 0 _] s w) as [[s1 w1]|]; [|done].
  rewrite bind_Ret in E |- *. rewrite spawn_all_cons in E. rewrite demo_worker_spec.
  destruct (spawn_all _ _ _ [worker_spec 1 _] _ _) as [[s2 w2]|]; [|done].
  rewrite bind_Ret in E |- *. cbn [fst snd] in E. rewrite demo_worker_spec. cbn [fst snd]. rewrite E, bind_Ret.
  cbn [fst snd drop demo_tasks spawn_all sp_state sp_raw sp_name sp_step sp_weight].
  destruct (next_id p s3) as [[n s4]|]; [|done]. rewrite !bind_Ret.
  unfold now in Ht. rewrite Ht, bind_Ret. unfold Task_sleeping.
  destruct (Task_make _ _ _ _ _ _ _ _ _) as [[t w4]|]; [|done]. rewrite !bind_Ret.
  change (reweighted CFS_DEFAULT_WEIGHT t) with (Ret t). rewrite bind_Ret.
  by destruct (spawn s4 t w4) as [[s5 w5]|].
Qed.

Context `{!SchedulerSpec S}.

(** The live tasks are those of the block, fresh. *)
Definition demo_made (wake : Z) (w : World) : Prop :=
  ∀ a t, boxes w !! a = Some t → ∃ k sp, a = (1 + k)%nat ∧ (k < 4)%nat ∧
    demo_tasks wake !! k = Some sp ∧ made_from (1 + Z.of_nat k) sp t.

(** The spawn block in a world without tasks. *)
Lemma demo_spawn_ok (s : S) w :
  u64 tramp → sched_ok [] w → queue s = [] → next_no s = 1 → boxes w = ∅ → next_box w = 1%nat →
  now w + 20 < u64_lim → blocks_ok (demo_tasks (now w + 20)) →
  ∃ s' w', demo_spawn s w = Ret (s', w') ∧ sched_ok (queue s') w' ∧
    queue s' = [1; 2; 3; 4]%nat ∧ finished s' = finished s ∧ now w' = now w ∧
    demo_made (now w + 20) w'.
Proof.
  intros Hu Hok Hq Hn Hb Hnb Hlim Hbl. rewrite <- Hq in Hok.
  assert (∀ specs, Forall (λ sp, heap_fresh (sp_raw sp) w) specs) as Hfresh.
  { intros specs. apply Forall_forall. intros sp _ b tb Hlk. by rewrite Hb in Hlk. }
  destruct (spawn_all_ok p tramp cs_reg Hu (take 3 (demo_tasks (now w + 20))) s w)
    as (s3 & w3 & E3 & _ & _ & _ & _ & Hnow3 & _); [done|by rewrite Hn|rewrite Hn; by vm_compute| | |done|].
  { rewrite Hq. cbn. unfold MAX_TASKS. lia. }
  { destruct Hbl as (? & [? [? _]%Forall_cons]%Forall_cons & ? & ? & ? & [? _]%Forall_cons & ? & ? &
      ? & _ & ? & ? & _). cbn. rewrite !Forall_cons, !Forall_nil. tauto. }
  destruct (spawn_all_ok p tramp cs_reg Hu (demo_tasks (now w + 20)) s w)
    as (s' & w' & E & Hok' & Hq' & Hf' & _ & Hnow' & _ & Hnew);
    [done|by rewrite Hn|rewrite Hn; by vm_compute|rewrite Hq; cbn; unfold MAX_TASKS; lia|done|done|].
  rewrite Hq, Hnb in Hq'. exists s', w'. split_and!; try done.
  - rewrite <- E. eapply demo_spawn_split; [exact E3|]. rewrite Hnow3. pose proof (so_ticks _ _ Hok) as Ht.
    unfold now in *. apply add64_exact. ulia.
  - intros a t Ha. assert (a ∈ queue s') as Hin by (apply (wl_dom _ _ (so_live _ _ Hok')); by eexists).
    rewrite Hq' in Hin. apply elem_of_seq in Hin. cbn [demo_tasks length] in Hin.
    destruct (lookup_lt_is_Some_2 (demo_tasks (now w + 20)) (a - 1)) as [sp Hsp]; [cbn; lia|].
    destruct (Hnew _ sp Hsp) as (t' & Ht' & Hm). rewrite Hnb in Ht'.
    replace (1 + (a - 1))%nat with a in Ht' by lia. assert (t' = t) as -> by congruence.
    rewrite Hn in Hm. exists (a - 1)%nat, sp. split_and!; [lia|lia|done|done].
Qed.

(** How many steps a task of the block has left. *)
Definition demo_left (a : nat) : nat := if (a =? 4)%nat then 1 else 5.

Lemma demo_task_left wake k sp t :
  demo_tasks wake !! k = Some sp → made_from (1 + Z.of_nat k) sp t →
  steps_left t (demo_left (1 + k)) ∧ wanted_runs (name t) = Z.of_nat (demo_left (1 + k)) ∧
  runs t = 0 ∧ (∀ u, state t = Sleeping u → u = wake) ∧ (k = 0%nat → state t = Ready).
Proof.
  intros Hk (_ & Hn & Hr & Hs & Hst & _). unfold steps_left. rewrite Hn, Hs, Hst, Hr.
  assert (∀ j, 0 ≤ j < 5 → worker_step (0 + j) = negb (j =? 5 - 1)) as H5.
  { intros j Hj. unfold worker_step, SCHED_FAIR_RUNS. destruct (Z.eqb_spec j (5 - 1)); cbn [negb];
      [apply Z.ltb_ge|apply Z.ltb_lt]; lia. }
  assert (∀ j, 0 ≤ j < 1 → false = negb (j =? 1 - 1)) as H1.
  { intros j Hj. by replace j with 0 by lia. }
  assert (k = 0 ∨ k = 1 ∨ k = 2 ∨ k = 3)%nat as [->|[->|[->| ->]]]
    by (apply lookup_lt_Some in Hk; cbn in Hk; lia);
    injection Hk as <-; split_and!; try (cbn; lia); try done; by intros u [= <-].
Qed.

Lemma demo_progress wake w : demo_made wake w → progress demo_left wake w.
Proof.
  intros H. constructor.
  - intros a t (k & sp & -> & _ & Hk & Hm)%H. by eapply demo_task_left.
  - intros a t (k & sp & -> & _ & Hk & Hm)%H. destruct (demo_task_left _ _ _ _ Hk Hm) as (_ & _ & -> & _).
    unfold demo_left. case_match; by vm_compute.
  - intros a t u (k & sp & -> & _ & Hk & Hm)%H Hu. destruct (demo_task_left _ _ _ _ Hk Hm) as (_ & _ & _ & Hs & _).
    rewrite (Hs u Hu). lia.
Qed.

(** The ledger that the block's tasks will end with. *)
Definition demo_ledger : list entry :=
  [(1, "alpha"%string, 5); (2, "beta"%string, 5); (3, "gamma"%string, 5); (4, "napper"%string, 1)].

Lemma demo_due wake w :
  demo_made wake w → (∀ a, a ∈ [1; 2; 3; 4]%nat → is_Some (boxes w !! a)) →
  due demo_left w [1; 2; 3; 4]%nat = demo_ledger.
Proof.
  intros H Hd.
  assert (∀ k, (k < 4)%nat → due_entry demo_left w (1 + k) = demo_ledger !! k) as He.
  { intros k Hk. destruct (Hd (1 + k)%nat) as [t Ha].
    { do 4 (destruct k as [|k]; [by repeat first [left|right]|]). lia. }
    destruct (H _ _ Ha) as (j & sp & Hj & _ & Hsp & (Hi & Hn & Hr & _)).
    assert (j = k) as -> by lia. unfold due_entry. rewrite Ha. cbn [fmap option_fmap option_map].
    rewrite Hi, Hn, Hr. do 4 (destruct k as [|k]; [by injection Hsp as <-|]). lia. }
  pose proof (He 0%nat ltac:(lia)) as E0. pose proof (He 1%nat ltac:(lia)) as E1.
  pose proof (He 2%nat ltac:(lia)) as E2. pose proof (He 3%nat ltac:(lia)) as E3.
  cbn [Nat.add] in *. unfold due. cbn [omap list_omap]. by rewrite E0, E1, E2, E3.
Qed.

End spawn_block.

(** Turns with one tick while waiting and one yank inside each step. *)
Definition stack_frame (a : nat) : FullFrame :=
  mkFrame 0 0 0 0 0 0 0 0 0 0 0 0 0 0 0 (heap_at (Z.of_nat a - 1) + 0x10000) 0x8123 8 0x202
    PREEMPT_MAGIC.
Definition busy_turn : TurnEnv :=
  mkTurn [ZERO] (λ a, mkEnv [] [stack_frame a] [] (λ m, m) (heap_at (Z.of_nat a - 1) + 0x10000)).

(** ** Witness *)

Lemma heap_at_blocks cfs wake : blocks_ok (demo_tasks cfs heap_at wake).
Proof.
  cbn [demo_tasks worker_spec blocks_ok sp_state sp_weight]. rewrite !Forall_cons, !Forall_nil.
  unfold block_apart, raw_ok, heap_at, CFS_DEFAULT_WEIGHT, STACK_ALLOC_BYTES, STACK_SIZE_BYTES,
    STACK_ALIGN, u64_lim. cbn [worker_spec sp_raw sp_weight].
  repeat match goal with |- context [if ?c then _ else _] => destruct c end; lia.
Qed.

(** The stacks that the block's tasks were given. *)
Lemma demo_stack cfs raws wake k sp t :
  (k < 4)%nat → demo_tasks cfs raws wake !! k = Some sp → made_from (1 + Z.of_nat k) sp t →
  stack_bottom (stack t) = align_up (raws (Z.of_nat k)) STACK_ALIGN ∧
  stack_top (stack t) = align_up (raws (Z.of_nat k)) STACK_ALIGN + STACK_SIZE_BYTES.
Proof.
  intros Hk Hsp (_ & _ & _ & _ & _ & Hbot & _ & _ & Htop). rewrite Htop, Hbot.
  assert (sp_raw sp = raws (Z.of_nat k)) as Hr; [|by rewrite Hr].
  by do 4 (destruct k as [|k]; [injection Hsp as <-; done|]); lia.
Qed.

Lemma busy_ok cfs wake w : demo_made cfs heap_at wake w → turn_ok 2 w busy_turn.
Proof.
  intros Hnew. split_and!; [|discriminate|intros a; by vm_compute].
  intros a t (k & sp & -> & Hk & Hsp & Hm)%Hnew. split; [|done].
  destruct (demo_stack _ _ _ _ _ _ Hk Hsp Hm) as [-> ->].
  cbn [busy_turn step_env irq_during]. apply Forall_singleton.
  by do 4 (destruct k as [|k]; [by vm_compute|]); lia.
Qed.

Lemma demo_completes_witness :
  ∃ s w (d : DriverState (S := RoundRobin)),
    demo_spawn Dev 0x8000 8 false heap_at RoundRobin_new world_init = Ret (s, w) ∧
    ledger (sched d) (world d) ≡ₚ demo_ledger ∧
    drive Dev (replicate 40 busy_turn) (driver_start s w) = Ret (inr Online).
Proof.
  destruct (demo_spawn_ok Dev 0x8000 8 false heap_at RoundRobin_new world_init)
    as (s & w & E & Hok & Hq & Hfin & Hnow & Hnew);
    [by vm_compute|exact world_init_ok|done|done|done|done|by vm_compute|apply heap_at_blocks|].
  change (now world_init) with 0 in *.
  pose proof (demo_due false heap_at _ w Hnew) as Hdue. rewrite <- Hq in Hdue.
  specialize (Hdue (λ a Hin, proj1 (wl_dom _ _ (so_live _ _ Hok) a) Hin)).
  destruct (demo_completes Dev (replicate 40 busy_turn) s w demo_left 20 2)
    as (n & d & _ & _ & _ & Hl & Ed & Hy & _).
  - exact Hok.
  - exact (demo_progress false heap_at 20 w Hnew).
  - rewrite Hq. by vm_compute.
  - rewrite Hnow. by vm_compute.
  - lia.
  - apply Forall_replicate. exact (busy_ok false _ w Hnew).
  - rewrite Hnow. by vm_compute.
  - rewrite Hq, Hnow. cbn. lia.
  - exists s, w, d. rewrite Hdue, Hfin in Hl, Ed. split; [exact E|]. split; [exact Hl|]. rewrite Ed.
    rewrite (proj2 (Z.eqb_neq _ _)); [reflexivity|].
    apply Hy; [|rewrite Hq; discriminate]. apply Forall_replicate. intros a. discriminate.
Defined.

End Driver.
