(* ===== verification/SchedSystem.v ===== *)
(** * The task system over a whole run

    Everything that happens to tasks after boot is a sequence of three
    operations: spawning, [schedule_once], and timer interrupts while nothing
    runs.  [sys_reach] is the set of states such sequences reach, for any
    scheduler that keeps the contract of SchedSpec.  The invariant of those
    states covers what no single operation can promise: the stacks of live tasks
    never overlap, the ledger names every task ever spawned exactly once and in
    order, its run counts add up to the number of calls that ran something, and
    every permitted operation succeeds. *)
From Stdlib Require Import Sorted.
From stdpp Require Import gmap sorting.
From S2P Require Import Prelude Machine ContextSwitch Preempt PreemptStub PreemptTable Task.
From S2P Require Import Sched SchedRun SchedSpec SchedSpawn SchedFair Driver Coroutine.

#[local] Open Scope Z_scope.

Module System.
Import Preempt Stub Switch Table Tasks Sched SchedRun SchedSpec SchedSpawn SchedFair Driver.

(** ** Ledger entries *)

(** The entries of the queued tasks, before sorting. *)
Definition entries (q : list nat) (m : gmap nat Task) : list entry :=
  omap (λ a, entry_of <$> m !! a) q.

#[export] Instance entries_perm m : Proper ((≡ₚ) ==> (≡ₚ)) (λ q, entries q m).
Proof. intros q q' Hq. unfold entries. by rewrite Hq. Qed.

Lemma entries_ext q m m' : (∀ a, a ∈ q → m' !! a = m !! a) → entries q m' = entries q m.
Proof.
  induction q as [|a q IH]; intros H; [done|]. unfold entries in *. cbn.
  rewrite (H a) by (by left). rewrite IH; [done|]. intros b Hb. apply H. by right.
Qed.

Lemma entries_cons a q m t : m !! a = Some t → entries (a :: q) m = entry_of t :: entries q m.
Proof. intros H. unfold entries. cbn. by rewrite H. Qed.

Lemma entries_split q m a t :
  NoDup q → a ∈ q → m !! a = Some t →
  ∃ q0, q ≡ₚ a :: q0 ∧ a ∉ q0 ∧ entries q m ≡ₚ entry_of t :: entries q0 m.
Proof.
  intros Hnd Hin Ha. apply elem_of_Permutation in Hin as [q0 Hq]. exists q0.
  split; [done|]. rewrite Hq in Hnd. apply NoDup_cons in Hnd as [Hna _]. split; [done|].
  rewrite <- (entries_cons a q0 m t Ha). by apply (entries_perm m).
Qed.

Definition entry_ids (l : list entry) : list Z := (λ e, e.1.1) <$> l.
Definition total_runs (l : list entry) : Z := foldr (λ e n, e.2 + n) 0 l.

#[export] Instance entry_ids_perm : Proper ((≡ₚ) ==> (≡ₚ)) entry_ids.
Proof. intros l l' Hl. unfold entry_ids. by rewrite Hl. Qed.

#[export] Instance total_runs_perm : Proper ((≡ₚ) ==> (=)) total_runs.
Proof. intros l l' H. unfold total_runs. induction H; cbn; lia. Qed.

Lemma total_runs_app l k : total_runs (l ++ k) = total_runs l + total_runs k.
Proof. unfold total_runs. induction l as [|e l IH]; cbn; [done|]. rewrite IH. lia. Qed.

Lemma entry_ids_sorted l :
  Sorted (λ x y : entry, x.1.1 ≤ y.1.1) l → Sorted Z.le (entry_ids l).
Proof.
  induction 1 as [|e l Hs IH Hhd]; [constructor|]. cbn. constructor; [done|].
  destruct Hhd; cbn; by constructor.
Qed.

Lemma seqZ_sorted m k : Sorted Z.le (seqZ m k).
Proof.
  unfold seqZ. generalize (Z.to_nat k) 0%nat. clear k.
  intros k. induction k as [|k IH]; intros i; [constructor|]. cbn. constructor; [apply IH|].
  destruct k; cbn; constructor. lia.
Qed.

Section virt.
Context `{VA : VirtAddrs}.

(** Whatever a call does, the entries keep their ids, and their run counts grow
    by one in all when it ran a task and not at all otherwise. *)
Lemma once_entries env q fin w b q' fin' w' :
  once_result env q fin w b q' fin' w' → world_live q w →
  entry_ids (entries q' (boxes w') ++ fin') ≡ₚ entry_ids (entries q (boxes w) ++ fin) ∧
  total_runs (entries q' (boxes w') ++ fin') =
    total_runs (entries q (boxes w) ++ fin) + (if b then 1 else 0).
Proof.
  intros Ho Hl. destruct b; [|destruct Ho as (_ & -> & -> & ->); split; [done|lia]].
  destruct Ho as (a & t & t' & Ha & _ & Hro & _ & _ & Hbox).
  assert (a ∈ q) as Hin by (apply (wl_dom _ _ Hl); by eexists).
  destruct (entries_split q (boxes w) a t (wl_nodup _ _ Hl) Hin Ha) as (q0 & Hq & Hna & He).
  assert (∀ m, (∀ c, c ≠ a → m !! c = boxes w !! c) → entries q0 m = entries q0 (boxes w)) as Hsame.
  { intros m Hm. apply entries_ext. intros c Hc. apply Hm. by intros ->. }
  assert (entry_ids [entry_of t'] = [id t] ∧ total_runs [entry_of t'] = runs t + 1) as [Hid Hrun].
  { cbn. rewrite (ro_id _ _ Hro), (ro_runs _ _ Hro). split; [done|lia]. }
  assert (entries q' (boxes w') ++ fin' ≡ₚ entry_of t' :: entries q0 (boxes w) ++ fin) as Hall.
  { destruct (step t (runs t)); destruct Hbox as (Hb & Hq' & ->).
    - rewrite <- (Hsame (boxes w')) by (intros c Hc; rewrite Hb; by apply lookup_insert_ne).
      rewrite app_comm_cons, <- (entries_cons a q0 (boxes w') t').
      + apply Permutation_app; [|done]. apply (entries_perm (boxes w')). by rewrite Hq'.
      + rewrite Hb. apply lookup_insert_eq.
    - rewrite Hq in Hq'. apply Permutation_cons_inv in Hq'.
      rewrite <- (Hsame (boxes w')) by (intros c Hc; rewrite Hb; by apply lookup_delete_ne).
      rewrite (entries_perm (boxes w') _ _ Hq'). solve_Permutation. }
  rewrite He, Hall. rewrite <- app_comm_cons. cbn in Hid, Hrun |- *. injection Hid as Hid.
  split; [by rewrite Hid|]. rewrite total_runs_app. lia.
Qed.

(** ** Stack blocks *)

(** [n] bytes at [x] and at [y] do not overlap. *)
Definition disjoint_blocks (x y : Z) : Prop :=
  x + STACK_ALLOC_BYTES ≤ y ∨ y + STACK_ALLOC_BYTES ≤ x.

(** The heap's promise for a new stack: a usable block apart from every block
    still owned by a task. *)
Definition heap_grants (raw : Z) (w : World) : Prop :=
  raw_ok raw ∧ ∀ b tb, boxes w !! b = Some tb → disjoint_blocks raw (backing (stack tb)).

(** The window of a stack is inside its block. *)
Definition in_block (s : TaskStack) : Prop :=
  raw_ok (backing s) ∧ backing s ≤ stack_bottom s ∧
  stack_top s = stack_bottom s + STACK_SIZE_BYTES ∧
  stack_top s ≤ backing s + STACK_ALLOC_BYTES.

Record stacks_ok (m : gmap nat Task) : Prop := {
  st_block : ∀ a t, m !! a = Some t → in_block (stack t);
  st_apart : ∀ a b ta tb, a ≠ b → m !! a = Some ta → m !! b = Some tb →
    disjoint_blocks (backing (stack ta)) (backing (stack tb))
}.

Lemma grants_fresh raw w : stacks_ok (boxes w) → heap_grants raw w → heap_fresh raw w.
Proof.
  intros [Hblk _] [Hraw Hg] b tb Hb. destruct (Hblk b tb Hb) as ((Hr1 & Hr2 & _) & Hi1 & Hi2 & Hi3).
  specialize (Hg b tb Hb). unfold disjoint_blocks in Hg. cbn zeta.
  unfold STACK_ALLOC_BYTES, STACK_SIZE_BYTES, STACK_ALIGN in *. lia.
Qed.

Lemma stacks_ok_insert m a t raw :
  stacks_ok m → in_block (stack t) → backing (stack t) = raw →
  (∀ b tb, b ≠ a → m !! b = Some tb → disjoint_blocks raw (backing (stack tb))) →
  stacks_ok (<[a := t]> m).
Proof.
  intros [Hblk Hap] Hin Hraw Hg. constructor.
  - intros b tb [[<- <-]|[_ Hb]]%lookup_insert_Some; [done|by apply (Hblk b)].
  - intros b c tb tc Hne Hb Hc.
    apply lookup_insert_Some in Hb as [[<- <-]|[Hb1 Hb]];
      apply lookup_insert_Some in Hc as [[<- <-]|[Hc1 Hc]]; [done|..].
    + rewrite Hraw. by apply (Hg c).
    + rewrite Hraw. apply or_comm. by apply (Hg b).
    + by apply (Hap b c).
Qed.

Lemma stacks_ok_sub m m' :
  stacks_ok m → (∀ b tb', m' !! b = Some tb' → ∃ tb, m !! b = Some tb ∧ stack tb' = stack tb) →
  stacks_ok m'.
Proof.
  intros [Hblk Hap] Hsub. constructor.
  - intros a t Ha. destruct (Hsub a t Ha) as (t0 & Ht0 & ->). by apply (Hblk a).
  - intros a b ta tb Hne Ha Hb. destruct (Hsub a ta Ha) as (ta0 & Ha0 & ->).
    destruct (Hsub b tb Hb) as (tb0 & Hb0 & ->). by apply (Hap a b).
Qed.

(** The stacks of the live tasks are homes for the coroutines of Coroutine: with
    [addr a] the address of the [Context] in box [a], outside every stack. *)
Definition task_homes (addr : nat → Z) (m : gmap nat Task) : gmap Z Coroutine.Home :=
  kmap addr ((λ t, Coroutine.mkHome (stack_bottom (stack t)) (stack_top (stack t))) <$> m).

Lemma stacks_are_homes (addr : nat → Z) `{!Inj (=) (=) addr} m :
  stacks_ok m →
  (∀ a t, m !! a = Some t → 0 ≤ addr a ∧ addr a + 8 ≤ u64_lim) →
  (∀ a b ta tb, m !! a = Some ta → m !! b = Some tb →
     ranges_apart (addr a) 8 (stack_bottom (stack tb)) STACK_SIZE_BYTES ∧
     (a ≠ b → ranges_apart (addr a) 8 (addr b) 8)) →
  Coroutine.homes_ok (task_homes addr m).
Proof.
  intros [Hblk Hap] Hrng Hout.
  assert (∀ c h, task_homes addr m !! c = Some h → ∃ a t, c = addr a ∧ m !! a = Some t ∧
      Coroutine.lo h = stack_bottom (stack t) ∧ Coroutine.hi h = stack_bottom (stack t) + STACK_SIZE_BYTES) as H.
  { intros c h (a & -> & Ha)%lookup_kmap_Some; [|done].
    apply lookup_fmap_Some in Ha as (t & <- & Ha). exists a, t. split_and!; try done.
    cbn. by destruct (Hblk a t Ha) as (_ & _ & -> & _). }
  constructor.
  - intros c h (a & t & -> & Ha & E1 & E2)%H. rewrite E1, E2. destruct (Hrng a t Ha).
    destruct (Hblk a t Ha) as ((? & ? & _) & ? & ? & ?). unfold STACK_SIZE_BYTES in *. lia.
  - intros c h c' h' (a & t & -> & Ha & _ & _)%H (b & tb & -> & Hb & E1 & E2)%H.
    rewrite E1, E2. replace (_ + _ - _) with STACK_SIZE_BYTES by lia. by eapply Hout.
  - intros c h c' h' Hne (a & ta & -> & Ha & E1 & E2)%H (b & tb & -> & Hb & E3 & E4)%H.
    assert (a ≠ b) as Hab by congruence. split; [|by eapply Hout].
    rewrite E1, E2, E3, E4. pose proof (Hap a b ta tb Hab Ha Hb) as Hd.
    destruct (Hblk a ta Ha) as (_ & ? & Ht1 & ?), (Hblk b tb Hb) as (_ & ? & Ht2 & ?).
    unfold disjoint_blocks, ranges_apart in *. lia.
Qed.

Lemma Task_make_backing p tramp cs_reg st0 raw n nm f w t w1 :
  Task_make p tramp cs_reg st0 raw n nm f w = Ret (t, w1) → backing (stack t) = raw.
Proof.
  unfold Task_make. intros ((stk & m1) & E1 & E)%bind_inv.
  apply bind_inv in E as ((c & m2) & _ & E). apply bind_inv in E as (fr & _ & E).
  apply bind_inv in E as (u & _ & E). apply bind_inv in E as (sl & _ & E).
  apply bind_inv in E as (st1 & _ & E). apply bind_inv in E as (st2 & _ & E).
  injection E as <- _. cbn [stack]. unfold TaskStack_new in E1.
  apply bind_inv in E1 as (bot & _ & E1). apply bind_inv in E1 as (top & _ & E1).
  do 2 apply bind_inv in E1 as (? & _ & E1). apply bind_inv in E1 as (fin & _ & E1).
  apply bind_inv in E1 as (? & _ & E1). by injection E1 as <- _.
Qed.

(** ** Reachable states *)
Section system.
Context {S : Type} `{!Scheduler S} `{!SchedulerSpec S} (p : profile) (tramp cs_reg : Z).

(** A spec the constructors accept, with a stack the heap may hand out. *)
Definition spec_ok (sp : TaskSpec) (w : World) : Prop :=
  match sp_state sp with Ready | Sleeping _ => True | _ => False end ∧
  0 < sp_weight sp ∧ heap_grants (sp_raw sp) w.

(** [sys_reach n s w]: after some operations, [n] of them calls that ran a task. *)
Inductive sys_reach : Z → S → World → Prop :=
| reach_init s :
    queue s = [] → finished s = [] → next_no s = 1 → sys_reach 0 s world_init
| reach_spawn n s w sp s' w' :
    sys_reach n s w → spec_ok sp w → next_no s + 1 < u64_lim →
    spawn_all p tramp cs_reg [sp] s w = Ret (s', w') → sys_reach n s' w'
| reach_once n s w env b s' w' :
    sys_reach n s w → env_fits env w → schedule_once p env s w = Ret (b, s', w') →
    sys_reach (n + if b then 1 else 0) s' w'
| reach_idle n s w fs :
    sys_reach n s w → sys_reach n s (set_statics w (irqs fs (statics w))).

Record sys_inv (n : Z) (s : S) (w : World) : Prop := {
  si_ok : sched_ok (queue s) w;
  si_next : 1 ≤ next_no s;
  si_ids : entry_ids (entries (queue s) (boxes w) ++ finished s) ≡ₚ seqZ 1 (next_no s - 1);
  si_runs : total_runs (entries (queue s) (boxes w) ++ finished s) = n;
  si_stacks : stacks_ok (boxes w)
}.

Lemma spawn_one sp (s : S) w :
  u64 tramp → sched_ok (queue s) w → 1 ≤ next_no s → next_no s + 1 < u64_lim → slot_free w →
  stacks_ok (boxes w) → spec_ok sp w →
  ∃ s' w' t, spawn_all p tramp cs_reg [sp] s w = Ret (s', w') ∧ sched_ok (queue s') w' ∧
    queue s' = queue s ++ [next_box w] ∧ finished s' = finished s ∧
    next_no s' = next_no s + 1 ∧ boxes w' = <[next_box w := t]> (boxes w) ∧
    id t = next_no s ∧ runs t = 0 ∧ state t = sp_state sp ∧ backing (stack t) = sp_raw sp ∧
    in_block (stack t).
Proof.
  intros Hu Hok H0 H1 Hfree Hstk (Hst & Hwt & Hg).
  destruct (next_id_spec p s) as (s1 & E1 & Hq1 & Hf1 & Hn1); [lia|lia|]. rewrite <- Hq1 in Hok.
  destruct (spawn_ok p tramp cs_reg (sp_state sp) (sp_raw sp) (next_no s) (sp_name sp) (sp_step sp)
      (sp_weight sp) s1 w Hok Hfree (proj1 Hg) (grants_fresh _ _ Hstk Hg) Hu Hst Hwt)
    as (t0 & t & w1 & s2 & w2 & E2 & Ew & E3 & Hok2 & Hq2 & Hf2 & Hn2 & Hb2 & _
        & (Hid & _ & Hrun & _ & Hst2 & Hbot & _ & _ & Htop) & _).
  assert (backing (stack t) = sp_raw sp) as Hback.
  { rewrite <- (Task_make_backing _ _ _ _ _ _ _ _ _ _ _ E2). unfold reweighted in Ew.
    destruct (sp_weight sp =? CFS_DEFAULT_WEIGHT); [by injection Ew as <-|].
    unfold with_weight in Ew. apply bind_inv in Ew as (_ & _ & Ew). by injection Ew as <-. }
  assert (in_block (stack t)) as Hblk.
  { pose proof (align_up_bounds (sp_raw sp) 16 ltac:(lia)).
    unfold in_block, STACK_ALLOC_BYTES. rewrite Htop, Hback, Hbot. unfold STACK_ALIGN.
    split; [apply Hg|]. lia. }
  exists s2, w2, t. do 10 (split; [first [done | congruence |
    cbn [spawn_all]; by rewrite E1, bind_Ret, E2, bind_Ret, Ew, bind_Ret, E3]|]). done.
Qed.

Lemma spawn_full sp (s : S) w :
  1 ≤ next_no s → next_no s + 1 < u64_lim → ¬ slot_free w →
  ∃ msg, spawn_all p tramp cs_reg [sp] s w = Panic msg.
Proof.
  intros H0 H1 Hfull. destruct (next_id_spec p s) as (s1 & E1 & _); [lia|lia|].
  destruct (Task_make_full p tramp cs_reg (sp_state sp) (sp_raw sp) (next_no s) (sp_name sp)
    (sp_step sp) w Hfull) as [msg E].
  exists msg. cbn [spawn_all]. by rewrite E1, bind_Ret, E.
Qed.

Lemma seqZ_snoc k : 1 ≤ k → seqZ 1 k = seqZ 1 (k - 1) ++ [k].
Proof.
  intros Hk. pose proof (seqZ_S 1 (Z.to_nat (k - 1))) as H.
  replace (Z.of_nat (Datatypes.S (Z.to_nat (k - 1)))) with k in H by lia.
  rewrite H. rewrite Z2Nat.id by lia. do 2 f_equal. lia.
Qed.

Lemma spawn_inv n s w sp s' w' :
  u64 tramp → sys_inv n s w → spec_ok sp w → next_no s + 1 < u64_lim →
  spawn_all p tramp cs_reg [sp] s w = Ret (s', w') → sys_inv n s' w'.
Proof.
  intros Hu [Hok Hn Hids Hruns Hstk] Hsp Hlim E.
  destruct (decide (length (queue s) < MAX_TASKS)%nat) as [Hlt|Hge].
  2:{ destruct (spawn_full sp s w Hn Hlim) as [msg E']; [|congruence].
      intros Hfree. apply (slot_free_iff _ _ (so_live _ _ Hok)) in Hfree. lia. }
  apply (slot_free_iff _ _ (so_live _ _ Hok)) in Hlt.
  destruct (spawn_one sp s w Hu Hok Hn Hlim Hlt Hstk Hsp)
    as (s2 & w2 & t & E2 & Hok2 & Hq & Hf & Hno & Hb & Hid & Hrun & _ & Hback & Hblk).
  rewrite E in E2. injection E2 as <- <-.
  assert (∀ a, a ∈ queue s → boxes w' !! a = boxes w !! a) as Hold.
  { intros a Ha. apply (wl_dom _ _ (so_live _ _ Hok)) in Ha.
    pose proof (wl_next _ _ (so_live _ _ Hok) a Ha). rewrite Hb. apply lookup_insert_ne. lia. }
  assert (entries (queue s') (boxes w') ++ finished s' ≡ₚ
          (entries (queue s) (boxes w) ++ finished s) ++ [entry_of t]) as He.
  { rewrite Hq, Hf. unfold entries at 1. rewrite omap_app.
    change (omap _ (queue s)) with (entries (queue s) (boxes w')).
    rewrite (entries_ext _ _ _ Hold). cbn. rewrite Hb, lookup_insert_eq. cbn. solve_Permutation. }
  constructor; [done|lia| | |].
  - rewrite He. unfold entry_ids in *. rewrite fmap_app, Hids, Hno.
    replace (next_no s + 1 - 1) with (next_no s) by lia. rewrite (seqZ_snoc (next_no s)) by lia.
    cbn. by rewrite Hid.
  - rewrite He, total_runs_app, Hruns. cbn. rewrite Hrun. lia.
  - rewrite Hb. apply (stacks_ok_insert _ _ _ (sp_raw sp)); try done.
    intros b tb _ Hlk. by apply (proj2 (proj2 (proj2 Hsp)) b).
Qed.

Lemma once_inv n s w env b s' w' :
  sys_inv n s w → env_fits env w → schedule_once p env s w = Ret (b, s', w') →
  sys_inv (n + if b then 1 else 0) s' w'.
Proof.
  intros [Hok Hn Hids Hruns Hstk] Hfit E.
  destruct (once_spec p env s w Hok Hfit) as (b1 & s1 & w1 & E1 & Hok1 & Honce).
  rewrite E in E1. injection E1 as <- <- <-.
  destruct (once_entries _ _ _ _ _ _ _ _ Honce (so_live _ _ Hok)) as [Hi Hr].
  pose proof (once_next_no _ _ _ _ _ _ _ E) as Hno.
  constructor; rewrite ?Hno; [done|done|by rewrite Hi|by rewrite Hr, Hruns|].
  eapply stacks_ok_sub; [exact Hstk|]. exact (once_same_stacks _ _ _ _ _ _ _ _ Honce).
Qed.

Lemma sys_reach_inv n s w : u64 tramp → sys_reach n s w → sys_inv n s w.
Proof.
  intros Hu. induction 1 as [s Hq Hf Hn|n s w sp s' w' _ IH Hsp Hlim E|n s w env b s' w' _ IH Hfit E
    |n s w fs _ IH].
  - constructor.
    + rewrite Hq. exact world_init_ok.
    + lia.
    + by rewrite Hq, Hf, Hn.
    + by rewrite Hq, Hf.
    + constructor; intros *; [done|]. intros _ Ha. done.
  - by eapply spawn_inv.
  - by eapply once_inv.
  - destruct IH. constructor; try done. by apply idle_ok.
Qed.

(** The ledger is the sorted list of the entries. *)
Lemma ledger_entries n s w :
  sys_inv n s w →
  entry_ids (ledger s w) = seqZ 1 (next_no s - 1) ∧ total_runs (ledger s w) = n.
Proof.
  intros [_ Hn Hids Hruns _]. rewrite ledger_spec. unfold ledger_of.
  change (omap _ (queue s)) with (entries (queue s) (boxes w)).
  destruct (sort_entries_spec (entries (queue s) (boxes w) ++ finished s)) as [Hp Hs].
  split; [|by rewrite Hp].
  apply (Sorted_unique Z.le).
  - by apply entry_ids_sorted.
  - apply seqZ_sorted.
  - by rewrite Hp.
Qed.

(** C7.  In every state that spawns, scheduler calls and idle interrupts can reach,
    for any scheduler that keeps the contract: the state is well formed, the
    ledger lists the ids handed out so far, [1] to [next_no - 1], once each and in
    order, its run counts sum to the number of calls that ran a task, and the
    stack windows of live tasks are disjoint.  From every such state a call
    returns, with [false] iff everybody sleeps, and a spawn succeeds iff fewer than
    seven tasks are alive. *)
Theorem tasks_conserved n s w :
  u64 tramp → sys_reach n s w →
  sched_ok (queue s) w ∧
  entry_ids (ledger s w) = seqZ 1 (next_no s - 1) ∧ total_runs (ledger s w) = n ∧
  (∀ a b ta tb, a ≠ b → boxes w !! a = Some ta → boxes w !! b = Some tb →
     stack_top (stack ta) ≤ stack_bottom (stack tb) ∨
     stack_top (stack tb) ≤ stack_bottom (stack ta)) ∧
  (∀ env, env_fits env w → ∃ b s' w', schedule_once p env s w = Ret (b, s', w') ∧
     (b = false ↔ ∀ a t, boxes w !! a = Some t → asleep (now w) t = true)) ∧
  (∀ sp, spec_ok sp w → next_no s + 1 < u64_lim →
     (∃ s' w', spawn_all p tramp cs_reg [sp] s w = Ret (s', w')) ↔ (alive s < MAX_TASKS)%nat).
Proof.
  intros Hu Hr. pose proof (sys_reach_inv n s w Hu Hr) as Hinv.
  pose proof Hinv as [Hok Hn _ _ Hstk]. destruct (ledger_entries n s w Hinv) as [Hids Hruns].
  split_and!; try done.
  - intros a b ta tb Hne Ha Hb. pose proof (st_apart _ Hstk a b ta tb Hne Ha Hb) as Hap.
    destruct (st_block _ Hstk a ta Ha) as (_ & ? & _ & ?), (st_block _ Hstk b tb Hb) as (_ & ? & _ & ?).
    unfold disjoint_blocks in Hap. lia.
  - intros env Hfit. destruct (once_spec p env s w Hok Hfit) as (b & s' & w' & E & _ & Ho).
    exists b, s', w'. split; [done|]. destruct b; [|destruct Ho as [Ho _]; done].
    destruct Ho as (a & t & _ & Ha & Hs & _). split; [done|].
    intros H. specialize (H a t Ha). congruence.
  - intros sp Hsp Hlim. rewrite alive_spec.
    pose proof (proj2 (slot_free_iff _ _ (so_live _ _ Hok))) as Hiff. split.
    + intros (s' & w' & E). apply Hiff. destruct (decide (length (queue s) < MAX_TASKS)%nat) as [Hlt|Hge];
        [by apply Hiff|]. exfalso.
      destruct (spawn_full sp s w Hn Hlim) as [msg E']; [|congruence]. by rewrite Hiff.
    + intros Hlt. destruct (spawn_one sp s w Hu Hok Hn Hlim) as (s' & w' & t & E & _); try done.
      * by apply Hiff.
      * by exists s', w'.
Qed.

End system.
End virt.

(** ** Witness: a worker is spawned and runs once *)

Definition alpha_spec : TaskSpec := mkSpec Ready (heap_at 0) "alpha" five_steps CFS_DEFAULT_WEIGHT.

Lemma alpha_ran : ∃ s w, sys_reach (S := RoundRobin) Dev 0x8000 8 1 s w.
Proof.
  assert (sys_reach (S := RoundRobin) Dev 0x8000 8 0 RoundRobin_new world_init) as R0
    by (by apply reach_init).
  assert (u64 0x8000) as Hu by (by vm_compute).
  pose proof demo_blocks_ok as (Hraw & _).
  assert (spec_ok alpha_spec world_init) as Hsp by (split; [done|split; [done|split; [exact Hraw|done]]]).
  pose proof (sys_reach_inv Dev 0x8000 8 0 _ _ Hu R0) as [Hok0 _ _ _ Hstk0].
  assert (slot_free world_init) as Hfree by (exists 0%nat; split; [unfold MAX_TASKS; lia|done]).
  destruct (spawn_one Dev 0x8000 8 alpha_spec RoundRobin_new world_init Hu Hok0 ltac:(done)
    ltac:(by vm_compute) Hfree Hstk0 Hsp)
    as (s1 & w1 & t & E1 & Hok1 & Hq1 & _ & _ & Hb1 & _ & Hrun & Hst & _).
  pose proof (reach_spawn Dev 0x8000 8 _ _ _ _ _ _ R0 Hsp ltac:(by vm_compute) E1) as R1.
  assert (boxes w1 !! 1%nat = Some t) as Ht by (rewrite Hb1; apply lookup_insert_eq).
  assert (env_fits quiet_env w1) as Hfit.
  { eapply steady_fits; [apply Hok1|apply quiet_steady|]. intros b tb Hb. rewrite Hb1 in Hb.
    apply lookup_insert_Some in Hb as [[_ <-]|[_ Hb]]; [rewrite Hrun; by vm_compute|done]. }
  destruct (once_spec Dev quiet_env s1 w1 Hok1 Hfit) as (b & s2 & w2 & E2 & _ & Ho).
  pose proof (reach_once Dev 0x8000 8 _ _ _ _ _ _ _ R1 Hfit E2) as R2.
  exists s2, w2. destruct b; [exact R2|]. exfalso.
  destruct Ho as [Ho _]. specialize (Ho 1%nat t Ht). unfold asleep in Ho. by rewrite Hst in Ho.
Qed.

Lemma tasks_conserved_witness :
  ∃ s w, sys_reach (S := RoundRobin) Dev 0x8000 8 1 s w ∧ total_runs (ledger s w) = 1 ∧
    sched_ok (queue s) w.
Proof.
  destruct alpha_ran as (s & w & R). exists s, w.
  destruct (tasks_conserved Dev 0x8000 8 1 s w) as (Hok & _ & Hruns & _).
  - by vm_compute.
  - exact R.
  - split_and!; assumption.
Defined.

End System.
