(* ===== verification/PreemptedStep.v ===== *)
(** * A preempted step on the machine

    The scheduler model sees a step of a task as an environment: the frames
    stashed while it runs and what it leaves in memory.  This file gives that
    environment its machine meaning: a step is the task's own code with any
    number of timer interrupts in between, each delivered by the processor and
    served by [lapic_preempt_stub].  The theorem is that such a step is a
    well-behaved environment of the scheduler theorems, and that the statics end
    up as the scheduler model computes them. *)
From stdpp Require Import gmap.
From S2P Require Import Prelude Machine ContextSwitch Preempt PreemptStub PreemptTable Task.
From S2P Require Import Sched SchedRun SchedSpec SchedSpawn Coroutine SchedSystem.

#[local] Open Scope Z_scope.

Module Preempted.
Import Preempt Stub Switch Table Tasks Sched SchedRun SchedSpec SchedSpawn System.

(** ** Memory stays bytes *)

Definition bytes (m : memory) : Prop := ∀ x, 0 ≤ m x < 256.

Lemma store_bytes n m a v : bytes m → bytes (store n m a v).
Proof.
  revert m a v. induction n as [|n IH]; intros m a v H; [done|]. cbn [store]. apply IH.
  intros x. unfold store1. destruct (x =? wrap64 a); [by apply Z.mod_pos_bound|apply H].
Qed.

Lemma push_bytes s v : bytes (mem s) → bytes (mem (push s v)).
Proof. intros H. unfold push, set_mem. cbn [mem]. by apply store_bytes. Qed.

Lemma exec1_bytes i s : bytes (mem s) → bytes (mem (exec1 i s)).
Proof. intros H. destruct i; try exact H; unfold exec1; by apply store_bytes || by apply push_bytes. Qed.

Lemma irq_entry_bytes c s : bytes (mem s) → bytes (mem (irq_entry c s)).
Proof.
  intros H. unfold irq_entry. cbn [set_rflags mem]. do 3 apply push_bytes.
  destruct c; [done|]. cbn [irq_push_stack]. by do 2 apply push_bytes.
Qed.

Lemma iretq_mem c s : mem (iretq c s) = mem s.
Proof. by destruct c. Qed.

Lemma run_bytes c code : ∀ skip s s',
  run c skip code s = Some s' → bytes (mem s) → bytes (mem s').
Proof.
  induction code as [|i code IH]; intros skip s s' E H; [done|].
  destruct skip as [l|]; cbn [run] in E.
  - destruct i; by eapply IH.
  - destruct i; try (by eapply IH; [exact E|]; first [done | by apply exec1_bytes]).
    + injection E as <-. by rewrite iretq_mem.
    + by injection E as <-.
    + by injection E as <-.
Qed.

(** ** Windows and areas *)

(** The ranges the stub touches besides the stack. *)
Definition static_areas (L : Layout) (eoi : Z) : list (Z * Z) :=
  [(fence L, 1); (cur_idx L, 1); (slot_used L, 1);
   (frames L, FRAME_STRIDE * Z.of_nat MAX_TASKS);
   (eoi_base L, 8); (apic_ticks L, 8); (switches L, 8)] ++
  (if eoi =? 0 then [] else [(eoi, 4)]).

Lemma areas_split L sp eoi x :
  in_areas (areas L sp eoi) x ↔
    in_areas (static_areas L eoi) x ∨ sp - stack_need ≤ x < sp.
Proof.
  unfold areas, static_areas, in_areas. rewrite !Exists_app, !Exists_cons, !Exists_nil.
  replace (sp - stack_need + stack_need) with sp by lia. tauto.
Qed.

(** The running task's stack pointer leaves room for an interrupt above the
    canary. *)
Definition in_window (stk : TaskStack) (s : cpu) : Prop :=
  stack_bottom stk + 8 + stack_need ≤ regs s rsp ≤ stack_top stk.

(** The kernel's data: the statics and the EOI register neither overlap each other
    nor the live stacks. *)
Record image_ok (L : Layout) (eoi : Z) (m : gmap nat Task) : Prop := {
  im_areas : ∀ a t sp, m !! a = Some t →
    stack_bottom (stack t) + 8 + stack_need ≤ sp ≤ stack_top (stack t) →
    pairwise_apart (areas L sp eoi);
  im_canary : ∀ a t x, m !! a = Some t → stack_bottom (stack t) ≤ x < stack_bottom (stack t) + 8 →
    ¬ in_areas (static_areas L eoi) x
}.

(** ** The step *)
Section step.
Context (c : irq_convention) (L : Layout) (bounds : list (Z * Z)).

Definition statics_of (s : cpu) : Statics := statics_at L bounds (mem s).

(** [m]: the live tasks; [t]: the running one; [fs]: the frames stashed. *)
Inductive machine_step (m : gmap nat Task) (t : Task) : cpu → list FullFrame → cpu → Prop :=
| ms_done s : machine_step m t s [] s
| ms_code s s1 fs s' :
    (** The task's own code: it leaves statics and canaries alone. *)
    cpu_ok s1 → statics_of s1 = statics_of s →
    (∀ b tb, m !! b = Some tb → canary_ok (stack tb) (mem s) = true →
       canary_ok (stack tb) (mem s1) = true) →
    machine_step m t s1 fs s' → machine_step m t s fs s'
| ms_tick s s1 fs s' :
    in_window (stack t) s →
    run c None (lapic_preempt_stub L) (irq_entry c s) = Some s1 →
    machine_step m t s1 fs s' → machine_step m t s (captured c s :: fs) s'.

(** What a tick captures inside the window validates against the stack. *)
Lemma captured_valid stk s :
  cpu_ok s → in_block stk → in_window stk s →
  valid_for (captured c s) (stack_bottom stk) (stack_top stk) = true.
Proof.
  intros Hok ((R1 & R2 & R3) & B1 & B2 & B3) [W1 W2].
  assert (stack_need ≤ regs s rsp) as Hn by lia.
  destruct (irq_entry_spec c s Hok Hn) as (E1 & E2 & _). unfold stack_need in *.
  apply valid_for_iff; [unfold captured; cbn [f_rsp]; ulia|].
  unfold captured. cbn [f_magic f_rsp]. split; [done|]. split; [lia|].
  unfold canonical, STACK_ALLOC_BYTES, STACK_SIZE_BYTES, STACK_ALIGN in *. lia.
Qed.

(** A tick inside the window: the stub returns, nothing of the task is lost, every
    canary stands. *)
Lemma tick_step m a t s :
  stacks_ok m → image_ok L (EOI_BASE (statics_of s)) m → m !! a = Some t →
  cpu_ok s → in_window (stack t) s →
  ∃ s1, run c None (lapic_preempt_stub L) (irq_entry c s) = Some s1 ∧
    (∀ r, regs s1 r = regs s r) ∧ cpu_ok s1 ∧
    statics_of s1 = stub_effect (captured c s) (statics_of s) ∧
    ∀ b tb, m !! b = Some tb → canary_ok (stack tb) (mem s1) = canary_ok (stack tb) (mem s).
Proof.
  intros Hstk Him Ha Hok Hw. pose proof Hok as (Hr & Hrip & Hcs & Hss & Hfl & Hb).
  destruct (stub_refines c L bounds s Hok) as (s1 & E & Hregs & (C1 & C2 & C3 & C4) & Hst & _ & Hmem).
  { by apply (im_areas _ _ _ Him a t). }
  exists s1. split; [done|]. split; [done|]. split; [|split; [done|]].
  - unfold cpu_ok. rewrite ?C1, ?C2, ?C3, ?C4. split_and!; try done.
    + intros r. by rewrite Hregs.
    + by eapply run_bytes, irq_entry_bytes.
  - intros b tb Htb. unfold canary_ok. f_equal. apply load_ext. intros x Hx. apply Hmem.
    destruct (st_block _ Hstk b tb Htb) as ((R1 & R2 & _) & B1 & B2 & B3).
    unfold STACK_ALLOC_BYTES, STACK_SIZE_BYTES, STACK_ALIGN in *.
    rewrite wrap64_id by ulia. rewrite areas_split. intros [Hin|Hin].
    + by apply (im_canary _ _ _ Him b tb x).
    + destruct Hw as [W1 W2]. destruct (decide (b = a)) as [->|Hne].
      * assert (tb = t) as -> by congruence. lia.
      * pose proof (st_apart _ Hstk b a tb t Hne Htb Ha) as Hap.
        destruct (st_block _ Hstk a t Ha) as (_ & A1 & A2 & A3).
        unfold disjoint_blocks, STACK_ALLOC_BYTES, STACK_SIZE_BYTES, STACK_ALIGN in *. lia.
Qed.

Lemma machine_step_sound m a t s fs s' :
  stacks_ok m → m !! a = Some t → machine_step m t s fs s' →
  image_ok L (EOI_BASE (statics_of s)) m → cpu_ok s →
  (∀ b tb, m !! b = Some tb → canary_ok (stack tb) (mem s) = true) →
  statics_of s' = irqs fs (statics_of s) ∧
  Forall (λ f, valid_for f (stack_bottom (stack t)) (stack_top (stack t)) = true) fs ∧
  ∀ b tb, m !! b = Some tb → canary_ok (stack tb) (mem s') = true.
Proof.
  intros Hstk Ha Hms. induction Hms as [s|s s1 fs s' Hok1 Hst Hcan _ IH|s s1 fs s' Hw E _ IH];
    intros Him Hok Hall.
  - split; [done|]. split; [apply Forall_nil_2|done].
  - rewrite Hst in IH. apply IH; [done|done|]. intros b tb Hb. apply (Hcan b tb Hb). by apply (Hall b).
  - destruct (tick_step m a t s Hstk Him Ha Hok Hw) as (s2 & E2 & _ & Hok2 & Hst2 & Hcan2).
    rewrite E in E2. injection E2 as <-. destruct IH as (H1 & H2 & H3).
    + by rewrite Hst2.
    + done.
    + intros b tb Hb. rewrite (Hcan2 b tb Hb). by apply (Hall b).
    + split; [by rewrite H1, Hst2|]. split; [|done]. apply Forall_cons. split; [|done].
      apply captured_valid; [done|by eapply st_block|done].
Qed.

End step.

(** C8.  A step of a task on the machine, its own code interrupted any number of
    times by the timer while its stack pointer has room above the canary, is a
    well-behaved environment of the scheduler model under either hardware frame
    format: every frame stashed validates against the task's stack, every live
    canary stands afterwards, and the statics in memory are those the scheduler
    model computes from the frames; moreover a tick can be served at any such
    point and gives the task its registers back. *)
Theorem preempted_step_refines c L q w a t bf af y s fs s' :
  let st1 := set_preemptible true (irqs bf (set_current (Z.of_nat (slot t)) (statics w))) in
  sched_ok q w → stacks_ok (boxes w) → boxes w !! a = Some t →
  image_ok L (EOI_BASE st1) (boxes w) → cpu_ok s →
  (∀ b tb x, boxes w !! b = Some tb → stack_bottom (stack tb) ≤ x < stack_top (stack tb) →
     mem s x = wmem w x) →
  statics_of L (SLOT_BOUNDS st1) s = st1 →
  machine_step c L (SLOT_BOUNDS st1) (boxes w) t s fs s' →
  env_ok w t (mkEnv bf fs af (λ _, mem s') y) ∧
  statics_of L (SLOT_BOUNDS st1) s' = irqs fs st1 ∧
  (in_window (stack t) s → ∃ s1, run c None (lapic_preempt_stub L) (irq_entry c s) = Some s1 ∧
     (∀ r, regs s1 r = regs s r) ∧ rip s1 = rip s ∧
     valid_for (captured c s) (stack_bottom (stack t)) (stack_top (stack t)) = true).
Proof.
  intros st1 Hok Hstk Ha Him Hcpu Hmem Hst Hms. rewrite <- Hst in Him.
  destruct (machine_step_sound c L (SLOT_BOUNDS st1) (boxes w) a t s fs s' Hstk Ha Hms Him Hcpu)
    as (H1 & H2 & H3).
  { intros b tb Hb. rewrite <- (tl_canary _ _ _ (wl_tasks _ _ (so_live _ _ Hok) _ _ Hb)).
    unfold canary_ok. f_equal. apply load_ext. intros x Hx.
    destruct (st_block _ Hstk b tb Hb) as ((R1 & R2 & _) & B1 & B2 & B3).
    unfold STACK_ALLOC_BYTES, STACK_SIZE_BYTES, STACK_ALIGN in *.
    rewrite wrap64_id by ulia. apply (Hmem b tb); [done|lia]. }
  split; [by split|]. split; [by rewrite H1, Hst|]. intros Hw.
  destruct (stub_refines c L (SLOT_BOUNDS st1) s Hcpu) as (s1 & E & Hregs & (C1 & _) & _).
  { by apply (im_areas _ _ _ Him a t). }
  exists s1. split_and!; try done. apply captured_valid; [done|by eapply st_block|done].
Qed.

(** ** Witness: a worker interrupted once *)

Definition alpha_world : World :=
  match spawn_all Dev 0x8000 8 [alpha_spec] RoundRobin_new world_init with
  | Ret (_, w) => w
  | Panic _ => world_init
  end.

Lemma alpha_world_ok :
  ∃ t, sched_ok [1%nat] alpha_world ∧ stacks_ok (boxes alpha_world) ∧
    boxes alpha_world = <[1%nat := t]> ∅ ∧ slot t = 0%nat ∧
    stack t = mkStack (heap_at 0) 0xFFFF900000020010 0xFFFF900000000010.
Proof.
  assert (stacks_ok (boxes world_init)) as Hstk0 by (constructor; [done|intros ? ? ? ? _ Ha; done]).
  assert (slot_free world_init) as Hfree by (exists 0%nat; split; [unfold MAX_TASKS; lia|done]).
  pose proof demo_blocks_ok as (Hraw & _).
  assert (spec_ok alpha_spec world_init) as Hsp by (split; [done|split; [done|split; [exact Hraw|done]]]).
  destruct (spawn_one Dev 0x8000 8 alpha_spec RoundRobin_new world_init ltac:(by vm_compute)
    world_init_ok ltac:(done) ltac:(by vm_compute) Hfree Hstk0 Hsp)
    as (s1 & w1 & t & E & Hok & Hq & _ & _ & Hb & _ & _ & _ & Hback & Hblk).
  assert (alpha_world = w1) as Hw by (unfold alpha_world; by rewrite E).
  exists t. rewrite Hw. change (queue RoundRobin_new ++ [next_box world_init]) with [1%nat] in Hq.
  rewrite Hq in Hok. change (next_box world_init) with 1%nat in Hb. change (boxes world_init) with (∅ : gmap nat Task) in Hb.
  assert ((λ t, (slot t, stack t)) <$> boxes alpha_world !! 1%nat =
    Some (0%nat, mkStack (heap_at 0) 0xFFFF900000020010 0xFFFF900000000010)) as Hv
    by (vm_compute; reflexivity).
  rewrite Hw, Hb, lookup_insert_eq in Hv. injection Hv as Hv1 Hv2.
  split; [exact Hok|]. split; [|split; [exact Hb|split; [exact Hv1|exact Hv2]]].
  rewrite Hb. apply (stacks_ok_insert _ _ _ (heap_at 0)); [exact Hstk0|exact Hblk|exact Hback|].
  intros b tb _ Hlk. discriminate Hlk.
Qed.

(** Its memory with the statics of a running step in it: fence up, slot 0. *)
Definition static_mem : memory :=
  write_words (store 1 (store 1 (λ _, 0) 0x100 1) 0x102 1) (0x200 + 15 * 8)
    [0xFFFF900000020008; 0x8000; 8; 0x202; PREEMPT_MAGIC].
Definition alpha_mem : memory := λ x,
  if (0xFFFF900000000010 <=? x) && (x <? 0xFFFF900000020010) then wmem alpha_world x
  else static_mem x.
Definition alpha_cpu : cpu :=
  mkCpu (λ r, if decide (r = rsp) then 0xFFFF90000001FF05 else 77) 0x1234 8 16 0x202 alpha_mem.
Definition alpha_statics : Statics :=
  set_preemptible true (irqs [] (set_current 0 (statics alpha_world))).

Lemma write_words_bytes vs : ∀ m a, bytes m → bytes (write_words m a vs).
Proof. induction vs as [|v vs IH]; intros m a H; [done|]. cbn [write_words]. by apply IH, store_bytes. Qed.

Lemma alpha_wmem_bytes : bytes (wmem alpha_world).
Proof.
  assert (bytes (λ _, 0)) as H0 by (intros x; lia).
  assert (bytes (zero_fill (heap_at 0) STACK_ALLOC_BYTES (λ _, 0))) as H1
    by (intros x; unfold zero_fill; by case_match).
  exact (write_words_bytes [0; 0; 0; 0; 0; 0; 0x8000; 0] _ 0xFFFF90000001FFD0
    (store_bytes 8 _ 0xFFFF900000000010 STACK_CANARY H1)).
Qed.

Lemma alpha_cpu_ok : cpu_ok alpha_cpu.
Proof.
  split; [intros []; by vm_compute|]. do 4 (split; [by vm_compute|]).
  intros x. cbn [alpha_cpu mem]. unfold alpha_mem. case_match; [apply alpha_wmem_bytes|].
  apply write_words_bytes. do 2 apply store_bytes. intros y. lia.
Qed.

Lemma alpha_statics_ok : statics_of demo_layout (SLOT_BOUNDS alpha_statics) alpha_cpu = alpha_statics.
Proof. vm_compute. reflexivity. Qed.

Lemma alpha_image t :
  stack t = mkStack (heap_at 0) 0xFFFF900000020010 0xFFFF900000000010 →
  image_ok demo_layout (EOI_BASE alpha_statics) (<[1%nat := t]> ∅).
Proof.
  intros Ht. change (EOI_BASE alpha_statics) with 0.
  assert (∀ a ta, (<[1%nat := t]> ∅ : gmap nat Task) !! a = Some ta →
    stack_bottom (stack ta) = 0xFFFF900000000010 ∧ stack_top (stack ta) = 0xFFFF900000020010) as H.
  { intros a ta Ha. apply lookup_insert_Some in Ha as [[_ <-]|[_ Ha]]; [by rewrite Ht|discriminate Ha]. }
  constructor.
  - intros a ta sp Ha. destruct (H a ta Ha) as [-> ->]. unfold stack_need, areas. intros Hsp.
    cbn [pairwise_apart app Z.eqb demo_layout fence cur_idx slot_used frames eoi_base apic_ticks switches].
    rewrite !Forall_cons, !Forall_nil. unfold FRAME_STRIDE, MAX_TASKS, u64_lim, stack_need. lia.
  - intros a ta x Ha. destruct (H a ta Ha) as [-> _]. intros Hx.
    unfold in_areas, static_areas. cbn [app Z.eqb demo_layout fence cur_idx slot_used frames eoi_base apic_ticks switches].
    rewrite !Exists_cons, Exists_nil. unfold FRAME_STRIDE, MAX_TASKS. lia.
Qed.

Lemma preempted_step_refines_witness :
  ∃ s1 t, machine_step FiveWords demo_layout (SLOT_BOUNDS alpha_statics) (boxes alpha_world) t
      alpha_cpu [captured FiveWords alpha_cpu] s1 ∧
    statics_of demo_layout (SLOT_BOUNDS alpha_statics) s1 =
      irqs [captured FiveWords alpha_cpu] alpha_statics ∧
    env_ok alpha_world t (mkEnv [] [captured FiveWords alpha_cpu] [] (λ _, mem s1) 0).
Proof.
  destruct alpha_world_ok as (t & Hok & Hstk & Hbox & Hslot & Hstack).
  assert (boxes alpha_world !! 1%nat = Some t) as Ht by (rewrite Hbox; apply lookup_insert_eq).
  assert (image_ok demo_layout (EOI_BASE alpha_statics) (boxes alpha_world)) as Him
    by (rewrite Hbox; by apply alpha_image).
  assert (in_window (stack t) alpha_cpu) as Hw.
  { rewrite Hstack. unfold in_window, stack_need. cbn [stack_bottom stack_top].
    change (regs alpha_cpu rsp) with 0xFFFF90000001FF05. lia. }
  destruct (tick_step FiveWords demo_layout (SLOT_BOUNDS alpha_statics) (boxes alpha_world) 1 t alpha_cpu)
    as (s1 & E & _); [exact Hstk|by rewrite alpha_statics_ok|exact Ht|exact alpha_cpu_ok|exact Hw|].
  assert (machine_step FiveWords demo_layout (SLOT_BOUNDS alpha_statics) (boxes alpha_world) t
    alpha_cpu [captured FiveWords alpha_cpu] s1) as Hms by (eapply ms_tick; [exact Hw|exact E|apply ms_done]).
  assert (alpha_statics = set_preemptible true (irqs [] (set_current (Z.of_nat (slot t)) (statics alpha_world))))
    as Hst by (unfold alpha_statics; by rewrite Hslot).
  exists s1, t.
  destruct (preempted_step_refines FiveWords demo_layout [1%nat] alpha_world 1 t [] [] 0 alpha_cpu
    [captured FiveWords alpha_cpu] s1) as (He & Hs & _).
  - exact Hok.
  - exact Hstk.
  - exact Ht.
  - rewrite <- Hst. exact Him.
  - exact alpha_cpu_ok.
  - intros b tb x Hb Hx. rewrite Hbox in Hb.
    apply lookup_insert_Some in Hb as [[_ Hb]|[_ Hb]]; [|discriminate Hb]. subst tb.
    rewrite Hstack in Hx. cbn [stack_bottom stack_top] in Hx. unfold alpha_cpu, alpha_mem. cbn [mem].
    rewrite (proj2 (Z.leb_le _ _)), (proj2 (Z.ltb_lt _ _)) by lia. reflexivity.
  - rewrite <- Hst. exact alpha_statics_ok.
  - rewrite <- Hst. exact Hms.
  - rewrite <- Hst in Hs. split; [exact Hms|]. split; [exact Hs|exact He].
Defined.

End Preempted.
