(* ===== verification/Paging.v ===== *)
(** * The page-table interface of the [x86_64] crate

    [memory.rs] builds its mappings through [OffsetPageTable].  The crate is
    not part of the repository, so it is an interface here: the operations the
    kernel calls, a view of the address space they act on, and the laws their
    documentation states.  A small page-table model at the end satisfies them. *)
From stdpp Require Import gmap.
From S2P Require Import Prelude Frames Machine.

#[local] Open Scope Z_scope.

(** ** Pages *)

Definition page_of (v : Z) : Z := v - v `mod` FRAME_SIZE.

(** Both ends of a range in the same half of the canonical space. *)
Definition same_half (a b : Z) : Prop :=
  0 ≤ a ≤ b ∧ (b < 2 ^ 47 ∨ u64_lim - 2 ^ 47 ≤ a) ∧ b < u64_lim.

Lemma page_of_aligned v : page_of v `mod` FRAME_SIZE = 0.
Proof.
  unfold page_of. by rewrite Zminus_mod_idemp_r, Z.sub_diag.
Qed.

Lemma page_of_bounds v : page_of v ≤ v < page_of v + FRAME_SIZE.
Proof. unfold page_of. pose proof (Z.mod_pos_bound v FRAME_SIZE FRAME_SIZE_pos). lia. Qed.

Lemma page_of_le v w : v ≤ w → page_of v ≤ page_of w.
Proof.
  intros Hvw. unfold page_of. pose proof (Z.div_mod v FRAME_SIZE ltac:(done)).
  pose proof (Z.div_mod w FRAME_SIZE ltac:(done)).
  pose proof (Z.div_le_mono v w FRAME_SIZE FRAME_SIZE_pos Hvw). unfold FRAME_SIZE in *. lia.
Qed.

Lemma page_of_half a b : same_half a b → same_half (page_of a) (page_of b).
Proof.
  intros ((H0 & H1) & H2 & H3). pose proof (page_of_bounds a). pose proof (page_of_bounds b).
  pose proof (page_of_le 0 a H0) as Ha. pose proof (page_of_le a b H1). change (page_of 0) with 0 in Ha.
  split_and!; [done|done| |lia].
  destruct H2 as [?|H2]; [left; lia|right]. apply page_of_le in H2.
  change (page_of (u64_lim - 2 ^ 47)) with (u64_lim - 2 ^ 47) in H2. lia.
Qed.

Inductive MapToError :=
| FrameAllocationFailed
| ParentEntryHugePage
| PageAlreadyMapped (frame : Z).

(** [alloc_run a os a']: the state [a'] is reached from [a] by calls of
    [allocate_frame] that answered [os]. *)
Inductive alloc_run `{FrameAllocator A} : A → list (option Z) → A → Prop :=
| run_done a : alloc_run a [] a
| run_call a o a1 os a2 :
    alloc_frame a = Ret (o, a1) → alloc_run a1 os a2 → alloc_run a (o :: os) a2.

Class Paging (M : Type) := {
  OffsetPageTable_new : Z → Z → M;
  translate_addr : M → Z → option Z;
  map_to : ∀ A, FrameAllocator A → Z → Z → Z → M → A → outcome ((unit + MapToError) * M * A);
  Page_containing : Z → Z;
  range_inclusive : Z → Z → list Z;

  (** The 4 KiB mappings, page to frame and flags, and the pages below a huge
      page entry. *)
  mapped : M → gmap Z (Z * Z);
  blocked : M → Z → Prop;

  Page_containing_spec v : u64 v → canonical v → Page_containing v = page_of v;
  range_inclusive_spec a b :
    same_half a b → a `mod` FRAME_SIZE = 0 → b `mod` FRAME_SIZE = 0 →
    range_inclusive a b = frames_between a (b + FRAME_SIZE);

  translate_mapped m v f fl :
    mapped m !! page_of v = Some (f, fl) → translate_addr m v = Some (f + v `mod` FRAME_SIZE);
  translate_None m v :
    translate_addr m v = None ↔ mapped m !! page_of v = None ∧ ¬ blocked m (page_of v);

  (** [map_to] draws at most three frames for new page tables from the
      allocator, adds exactly the requested mapping or names its obstacle. *)
  map_to_spec A (FA : FrameAllocator A) page frame flags m a :
    alloc_inv a →
    ∃ r m' a' os, map_to A FA page frame flags m a = Ret (r, m', a') ∧
      alloc_run a os a' ∧ (length os ≤ 3)%nat ∧
      (∀ pg, blocked m' pg ↔ blocked m pg) ∧
      match r with
      | inl _ => mapped m !! page = None ∧ ¬ blocked m page ∧ None ∉ os ∧
          mapped m' = <[page := (frame, flags)]> (mapped m)
      | inr FrameAllocationFailed => mapped m' = mapped m ∧ None ∈ os
      | inr ParentEntryHugePage => mapped m' = mapped m ∧ blocked m page
      | inr (PageAlreadyMapped f) => mapped m' = mapped m ∧
          ∃ fl, mapped m !! page = Some (f, fl)
      end
}.

(** ** Runs of allocations *)

(** The frames among the answers of a run. *)
Fixpoint taken (os : list (option Z)) : list Z :=
  match os with
  | [] => []
  | Some f :: os' => f :: taken os'
  | None :: os' => taken os'
  end.

Section runs.
Context `{FA : FrameAllocator A}.

Lemma alloc_run_app a os a1 os' a2 :
  alloc_run a os a1 → alloc_run a1 os' a2 → alloc_run a (os ++ os') a2.
Proof. induction 1; simpl; [done|]. intros. econstructor; eauto. Qed.

(** What a run takes leaves the pool; a refusal means the pool was empty. *)
Lemma alloc_run_spec a os a' :
  alloc_run a os a' → alloc_inv a →
  alloc_inv a' ∧ pool a ≡ₚ taken os ++ pool a' ∧ (None ∈ os → pool a' = []).
Proof.
  induction 1 as [a|a o a1 os a2 E Hrun IH]; intros Ha.
  { split_and!; [done|done|]. by intros ?%not_elem_of_nil. }
  destruct (alloc_frame_spec a Ha) as (o' & a1' & E' & Ha1 & Ho). rewrite E in E'.
  injection E' as <- <-. destruct (IH Ha1) as (Ha2 & Hp & Hn). split; [done|].
  destruct o as [f|]; simpl.
  - split; [by rewrite Ho, Hp|]. intros [?|?]%elem_of_cons; [done|auto].
  - destruct Ho as [-> Hp1]. rewrite Hp1 in Hp. symmetry in Hp.
    apply Permutation_nil_r, app_nil in Hp as [E1 E2].
    split; [|done]. rewrite E2, app_nil_r. by rewrite <- E1.
Qed.

(** A property that single allocations keep survives a run. *)
Lemma alloc_run_kept (P : A → Prop) a os a' :
  (∀ s o s', alloc_inv s → P s → alloc_frame s = Ret (o, s') → P s') →
  alloc_run a os a' → alloc_inv a → P a → P a'.
Proof.
  intros Hkeep. induction 1 as [|a o a1 os a2 E Hrun IH]; [done|]. intros Ha HP.
  destruct (alloc_frame_spec a Ha) as (o' & a1' & E' & Ha1 & _). rewrite E in E'.
  injection E' as <- <-. eauto.
Qed.

Lemma taken_app os os' : taken (os ++ os') = taken os ++ taken os'.
Proof. induction os as [|[x|] os IH]; simpl; [done|by rewrite IH|done]. Qed.

Lemma length_taken (os : list (option Z)) : (length (taken os) ≤ length os)%nat.
Proof. induction os as [|[]]; simpl; lia. Qed.

Lemma length_taken_all (os : list (option Z)) : None ∉ os → length (taken os) = length os.
Proof.
  induction os as [|[x|] os IH]; simpl; intros Hn; [done| |].
  - rewrite IH; [done|]. intros ?. by apply Hn; right.
  - destruct Hn. left.
Qed.

(** At most three calls, one of them refused: fewer than three frames were left. *)
Lemma alloc_run_refused a os a' :
  alloc_run a os a' → alloc_inv a → (length os ≤ 3)%nat → None ∈ os → (length (pool a) < 3)%nat.
Proof.
  intros Hrun Ha Hlen Hin. destruct (alloc_run_spec _ _ _ Hrun Ha) as (_ & Hp & Hn).
  apply Permutation_length in Hp. rewrite Hp, (Hn Hin), app_nil_r.
  enough (length (taken os) < length os)%nat by lia. clear -Hin.
  induction os as [|[x|] os IH]; simpl; [by apply not_elem_of_nil in Hin| |].
  - apply elem_of_cons in Hin as [?|?]; [done|]. specialize (IH H). lia.
  - pose proof (length_taken os). lia.
Qed.
End runs.

(** ** A page-table model

    A sparse map of leaf entries, the table levels that exist (by level shift
    and address prefix) and the ranges under huge-page entries. *)
Record SparsePT := mkPT {
  pt_leaves : gmap Z (Z * Z);
  pt_tables : gset (Z * Z);
  pt_huge : list (Z * Z)
}.

Definition pt_blocked (m : SparsePT) (pg : Z) : bool :=
  existsb (λ '(lo, hi), (lo <=? pg) && (pg <? hi)) (pt_huge m).

(** Walk down the levels, taking a frame for each missing table. *)
Fixpoint ensure_tables {A} (FA : FrameAllocator A) (levels : list Z) (page : Z)
    (ts : gset (Z * Z)) (a : A) : outcome (bool * gset (Z * Z) * A) :=
  match levels with
  | [] => Ret (true, ts, a)
  | l :: levels' =>
      if bool_decide ((l, page `div` 2 ^ l) ∈ ts) then ensure_tables FA levels' page ts a
      else
        '(o, a1) ← alloc_frame a;
        match o with
        | None => Ret (false, ts, a1)
        | Some _ => ensure_tables FA levels' page ({[(l, page `div` 2 ^ l)]} ∪ ts) a1
        end
  end.

Lemma ensure_tables_spec {A} (FA : FrameAllocator A) levels page ts a :
  alloc_inv a →
  ∃ b ts' a' os, ensure_tables FA levels page ts a = Ret (b, ts', a') ∧
    alloc_run a os a' ∧ (length os ≤ length levels)%nat ∧
    if b then None ∉ os else None ∈ os.
Proof.
  revert ts a. induction levels as [|l levels IH]; intros ts a Ha; cbn [ensure_tables].
  { exists true, ts, a, []. split_and!; [done|constructor|done|apply not_elem_of_nil]. }
  case_bool_decide.
  { destruct (IH ts a Ha) as (b & ts' & a' & os & ? & ? & ? & ?).
    exists b, ts', a', os. split_and!; try done. simpl. lia. }
  destruct (alloc_frame_spec a Ha) as (o & a1 & E & Ha1 & _). rewrite E, bind_Ret.
  destruct o as [f|].
  - destruct (IH ({[(l, page `div` 2 ^ l)]} ∪ ts) a1 Ha1) as (b & ts' & a' & os & E1 & Hr & Hl & Hb).
    exists b, ts', a', (Some f :: os). split_and!; [done|by econstructor|simpl; lia|].
    destruct b; [by apply not_elem_of_cons|by right].
  - exists false, ts, a1, [None]. split_and!; [done|econstructor; [done|constructor]|simpl; lia|left].
Qed.

(** A page-table walk: huge entry, missing tables, occupied leaf, new leaf. *)
Definition pt_map_to A (FA : FrameAllocator A) (page frame flags : Z) (m : SparsePT) (a : A)
    : outcome ((unit + MapToError) * SparsePT * A) :=
  if pt_blocked m page then Ret (inr ParentEntryHugePage, m, a)
  else
    '(b, ts, a1) ← ensure_tables FA [39; 30; 21] page (pt_tables m) a;
    let m1 := mkPT (pt_leaves m) ts (pt_huge m) in
    if (b : bool) then
      match pt_leaves m !! page with
      | Some (f, _) => Ret (inr (PageAlreadyMapped f), m1, a1)
      | None => Ret (inl (), mkPT (<[page := (frame, flags)]> (pt_leaves m)) ts (pt_huge m), a1)
      end
    else Ret (inr FrameAllocationFailed, m1, a1).

Definition pt_translate (m : SparsePT) (v : Z) : option Z :=
  match pt_leaves m !! page_of v with
  | Some (f, _) => Some (f + v `mod` FRAME_SIZE)
  | None => if pt_blocked m (page_of v) then Some v else None
  end.

#[export] Instance SparsePT_Paging : Paging SparsePT.
Proof.
  refine {|
    OffsetPageTable_new := λ _ _ : Z, mkPT ∅ ∅ [];
    translate_addr := pt_translate;
    map_to := pt_map_to;
    Page_containing := page_of;
    range_inclusive := λ a b : Z, frames_between a (b + FRAME_SIZE);
    mapped := pt_leaves;
    blocked := λ m pg, pt_blocked m pg = true |}.
  - done.
  - done.
  - intros m v f fl E. unfold pt_translate. by rewrite E.
  - intros m v. unfold pt_translate. destruct (pt_leaves m !! page_of v) as [[f fl]|]; [naive_solver|].
    destruct (pt_blocked m (page_of v)); naive_solver.
  - intros A FA page frame flags m a Ha. unfold pt_map_to.
    destruct (pt_blocked m page) eqn:Hb.
    { exists (inr ParentEntryHugePage), m, a, []. split_and!; try done; [constructor|simpl; lia]. }
    destruct (ensure_tables_spec FA [39; 30; 21] page (pt_tables m) a Ha)
      as (b & ts & a' & os & E & Hr & Hl & Hos). rewrite E, bind_Ret. destruct b.
    + destruct (pt_leaves m !! page) as [[f fl]|] eqn:El.
      * do 4 eexists. split_and!; [done|exact Hr|done|done|]. cbn. split; [done|by eexists].
      * do 4 eexists. split_and!; [done|exact Hr|done|done|]. cbv beta iota.
        split_and!; [done|congruence|done|done].
    + do 4 eexists. split_and!; [done|exact Hr|done|done|]. done.
Defined.
