(* ===== verification/Memory.v ===== *)
(** * Memory bring-up ([kernel/src/memory.rs], [kernel/src/memory/heap.rs])

    Mapping of the kernel heap and of the MMIO window through the [x86_64]
    crate's page tables, the memory summary, the heap self-test and the order
    of [memory::init], generic in the frame allocator that the Cargo feature
    selects. *)
From stdpp Require Import gmap.
From S2P Require Import Prelude Frames BumpAlloc BuddyAlloc BuddySpec Machine Paging.

#[local] Open Scope Z_scope.

Module Memory.

(** ** Constants *)

Definition PHYS_MEM_OFFSET : Z := 0xFFFF800000000000.
Definition HEAP_START : Z := 0xFFFF900000000000.
Definition MMIO_WINDOW : Z := 0xFFFFA00000000000.

Definition parse_heap_bytes (s : list Z) : outcome Z :=
  parse_digits "heap_size_kb must be digits" s 0.

(** [KERNEL_CONFIG_HEAP_SIZE_BYTES] for the shipped [heap_size_kb = 1024]. *)
Definition HEAP_SIZE : Z := 1048576.

(** [PageTableFlags] *)
Definition PRESENT : Z := 1.
Definition WRITABLE : Z := 2.
Definition NO_CACHE : Z := Z.shiftl 1 4.
Definition NO_EXECUTE : Z := Z.shiftl 1 63.

Definition heap_flags : Z := Z.lor (Z.lor PRESENT WRITABLE) NO_EXECUTE.
Definition mmio_flags : Z := Z.lor (Z.lor (Z.lor PRESENT WRITABLE) NO_CACHE) NO_EXECUTE.

(** ** The usable-memory summary *)

Definition summary_step (acc : Z * nat) (r : MemoryRegion) : Z * nat :=
  let '(bytes, count) := acc in
  if negb (is_usable r) then acc
  else if r_end r <? r_start r then acc
  else (saturating_add64 bytes (r_end r - r_start r), S count).

Definition usable_summary (regions : list MemoryRegion) : Z * nat :=
  foldl summary_step (0, 0%nat) regions.

(** ** The heap self-test *)

(** [v]: the boxed constant, the region count and [0..64]. *)
Definition self_test_vec (region_count : Z) : list Z :=
  0xC0FFEE :: region_count :: seqZ 0 64.

Definition sum64 (p : profile) (v : list Z) : outcome Z :=
  foldl (λ acc x, s ← acc; add64 p s x) (Ret 0) v.

Definition self_test (p : profile) (region_count : Z) (enabled : bool) : outcome unit :=
  if negb enabled then Ret ()
  else
    let v := self_test_vec region_count in
    v0 ← expect (v !! 0%nat) "index out of bounds";
    _ ← assert_ (v0 =? 0xC0FFEE) "heap readback mismatch";
    _ ← assert_ (length v =? 66)%nat "heap vec length mismatch";
    _ ← sum64 p v;
    Ret ().

(** ** Mapping *)
Section mapping.
Context `{PhysFrames} `{VirtAddrs} {M : Type} `{PG : Paging M} {A : Type} `{FA : FrameAllocator A}.
Context (p : profile).

Definition map_mmio_window (m : M) (a : A) (phys : Z) : outcome (result Z * M * A) :=
  if negb (phys `mod` 4096 =? 0) then
    Ret (Err "mmio phys address is not 4KiB-aligned", m, a)
  else
    virt ← VirtAddr_new MMIO_WINDOW;
    let page := Page_containing virt in
    match translate_addr m virt with
    | Some _ =>
        Ret (Err "mmio window already occupied — single-window kernel, one MMIO page max", m, a)
    | None =>
        frame ← phys_frame phys;
        '(r, m1, a1) ← map_to A FA page frame mmio_flags m a;
        match (r : unit + MapToError) with
        | inr _ => Ret (Err "mmio window map failed (frames out?)", m1, a1)
        | inl _ => Ret (Ok virt, m1, a1)
        end
    end.

Definition heap_map_error (e : MapToError) : string :=
  match e with
  | FrameAllocationFailed => "heap map: out of frames for page tables"
  | ParentEntryHugePage => "heap map: huge page blocks heap range"
  | PageAlreadyMapped _ => "heap page already mapped"
  end.

(** The [for] of [map_heap]. *)
Fixpoint map_pages (pages : list Z) (m : M) (a : A) : outcome (result unit * M * A) :=
  match pages with
  | [] => Ret (Ok (), m, a)
  | page :: pages' =>
      '(o, a1) ← alloc_frame a;
      match o with
      | None => Ret (Err "out of frames for heap", m, a1)
      | Some frame =>
          '(r, m1, a2) ← map_to A FA page frame heap_flags m a1;
          match (r : unit + MapToError) with
          | inr e => Ret (Err (heap_map_error e), m1, a2)
          | inl _ => map_pages pages' m1 a2
          end
      end
  end.

Definition map_heap (m : M) (a : A) (start size : Z) : outcome (result unit * M * A) :=
  if size =? 0 then Ret (Err "heap size is zero", m, a)
  else match checked_add64 start size with
  | None => Ret (Err "heap range overflows", m, a)
  | Some end_addr =>
      v0 ← VirtAddr_new start;
      e ← sub64 p end_addr 1;
      v1 ← VirtAddr_new e;
      map_pages (range_inclusive (Page_containing v0) (Page_containing v1)) m a
  end.

(** [heap::init]; the global allocator is reduced to the range it was given. *)
Definition heap_init (m : M) (a : A) (heap : option (Z * Z))
    : outcome (result unit * M * A * option (Z * Z)) :=
  '(r, m1, a1) ← map_heap m a HEAP_START HEAP_SIZE;
  match (r : result unit) with
  | Err e => Ret (Err e, m1, a1, heap)
  | Ok _ => Ret (Ok (), m1, a1, Some (HEAP_START, HEAP_SIZE))
  end.

(** *** [memory::init] *)

Record BootInfo := mkBootInfo {
  physical_memory_offset : option Z;
  memory_regions : list MemoryRegion
}.

(** What [init] does with the allocator that the Cargo feature selects. *)
Class FrameAlloc (B : Type) := {
  fa_new : list MemoryRegion → B;
  fa_activate : B → outcome B;             (* nothing under [alloc-bump] *)
  fa_self_test_reclaim : B → outcome B
}.
Context `{!FrameAlloc A}.

(** [mapper]; [cr3] is the frame that [Cr3::read] reports. *)
Definition mapper (phys_offset cr3 : Z) : outcome M :=
  virt ← VirtAddr_add phys_offset cr3;
  Ret (OffsetPageTable_new virt phys_offset).

Definition memory_init (cr3 : Z) (boot : BootInfo) (self_test_on : bool)
    : outcome (M * A * option (Z * Z)) :=
  off ← expect (physical_memory_offset boot)
          "physical_memory_offset missing — is mappings.physical_memory set?";
  phys_offset ← VirtAddr_new off;
  _ ← assert_ (phys_offset =? PHYS_MEM_OFFSET)
        "bootloader phys offset drifted from PHYS_MEM_OFFSET";
  m ← mapper phys_offset cr3;
  '(r, m1, a1, heap) ← heap_init m (fa_new (memory_regions boot)) None;
  match (r : result unit) with
  | Err _ => Panic "heap init failed"
  | Ok _ =>
      a2 ← fa_activate a1;
      let _ := usable_summary (memory_regions boot) in    (* logged *)
      a3 ← fa_self_test_reclaim a2;
      _ ← self_test p (Z.of_nat (length (memory_regions boot))) self_test_on;
      Ret (m1, a3, heap)
  end.
End mapping.

#[export] Instance bump_FrameAlloc : FrameAlloc Bump.BootFrameAllocator := {
  fa_new := Bump.bump_new;
  fa_activate := λ a, Ret a;
  fa_self_test_reclaim := λ a, Ret a
}.

#[export] Instance buddy_FrameAlloc (p : profile) `{PhysFrames} :
    FrameAlloc Buddy.BuddyFrameAllocator := {
  fa_new := Buddy.new;
  fa_activate := Buddy.activate p;
  fa_self_test_reclaim := Buddy.self_test_reclaim p
}.

(** ** The summary *)

(** The bytes of the well-formed usable regions, without saturation. *)
Definition well_formed (r : MemoryRegion) : bool := is_usable r && (r_start r <=? r_end r).

Definition usable_bytes (rs : list MemoryRegion) : Z :=
  foldr (λ r n, (if well_formed r then r_end r - r_start r else 0) + n) 0 rs.

Lemma usable_bytes_nonneg rs : 0 ≤ usable_bytes rs.
Proof.
  induction rs as [|r rs IH]; simpl; [done|]. unfold well_formed.
  destruct (is_usable r); simpl; [|lia]. destruct (r_start r <=? r_end r) eqn:E; bool_to_prop; lia.
Qed.

Lemma summary_fold rs b n :
  0 ≤ b ≤ u64_max →
  foldl summary_step (b, n) rs =
    (Z.min (b + usable_bytes rs) u64_max, (n + length (List.filter well_formed rs))%nat).
Proof.
  revert b n. induction rs as [|r rs IH]; intros b n Hb; cbn [foldl usable_bytes foldr].
  { cbn. rewrite Z.add_0_r, Z.min_l, Nat.add_0_r by lia. done. }
  fold (usable_bytes rs). pose proof (usable_bytes_nonneg rs).
  cbn [List.filter]. unfold summary_step at 2. unfold well_formed at 1 2.
  destruct (is_usable r); cbn [negb andb]; [|rewrite IH by done; do 2 f_equal; lia].
  rewrite Z.leb_antisym. destruct (r_end r <? r_start r) eqn:E; cbn [negb]; bool_to_prop;
    [rewrite IH by done; do 2 f_equal; lia|].
  rewrite IH by (unfold saturating_add64; ulia). unfold saturating_add64. cbn [length].
  f_equal; lia.
Qed.

(** The usable frames fit in the usable bytes. *)
Lemma region_frames_bytes r :
  0 ≤ r_start r →
  FRAME_SIZE * Z.of_nat (length (region_frames r)) ≤
    if well_formed r then r_end r - r_start r else 0.
Proof.
  intros Hs. unfold region_frames, region_frames_from, well_formed.
  destruct (is_usable r); cbn [andb]; [|simpl; lia].
  pose proof (align_up_bounds (r_start r) FRAME_SIZE FRAME_SIZE_pos).
  assert (r_start r ≤ Z.max (region_lo r) 0) by (unfold region_lo; lia).
  rewrite length_frames_between. set (lo := Z.max (region_lo r) 0) in *.
  pose proof (Z.mul_div_le (r_end r - lo) FRAME_SIZE FRAME_SIZE_pos).
  destruct (r_start r <=? r_end r) eqn:E; bool_to_prop.
  - destruct (decide (0 ≤ (r_end r - lo) `div` FRAME_SIZE)); [rewrite Z2Nat.id by done; lia|].
    rewrite Z2Nat.nonpos by lia. lia.
  - rewrite Z2Nat.nonpos; [lia|]. apply Z.div_le_upper_bound; [done|]. lia.
Qed.

(** C39.  The memory summary never wraps: [usable_summary] returns the exact sum
    of the well-formed usable regions when it fits 64 bits and [u64::MAX]
    otherwise, counts those regions, and the frames that the allocators find in
    the map fit in the exact sum. *)
Theorem usable_summary_exact rs :
  usable_summary rs = (Z.min (usable_bytes rs) u64_max,
                       length (List.filter well_formed rs)) ∧
  (Forall region_ok rs →
   FRAME_SIZE * Z.of_nat (length (rs ≫= region_frames)) ≤ usable_bytes rs).
Proof.
  split.
  - unfold usable_summary. rewrite summary_fold by done. done.
  - induction 1 as [|r rs [Hr _] _ IH]; [done|]. rewrite bind_cons, length_app.
    pose proof (region_frames_bytes r (proj1 Hr)).
    cbn [usable_bytes foldr]. fold (usable_bytes rs). lia.
Qed.

(** ** Mapping the heap *)
Section mapping_spec.
Context `{PhysFrames} `{VA : VirtAddrs} {M : Type} `{PG : Paging M} {A : Type} `{FA : FrameAllocator A}.
Context (p : profile).
Implicit Types (m : M) (a : A).

Definition free_page m (pg : Z) : Prop := mapped m !! pg = None ∧ ¬ blocked m pg.

(** The pages now map to the frames, the rest of the address space is as it was. *)
Definition installed (pages fs : list Z) m m' : Prop :=
  Forall2 (λ pg f, mapped m' !! pg = Some (f, heap_flags)) pages fs ∧
  (∀ pg, pg ∉ pages → mapped m' !! pg = mapped m !! pg) ∧
  (∀ pg, blocked m' pg ↔ blocked m pg).

Lemma map_to_free page frame flags m a :
  alloc_inv a → free_page m page → (3 ≤ length (pool a))%nat →
  ∃ m' a' os, map_to A FA page frame flags m a = Ret (inl (), m', a') ∧
    alloc_run a os a' ∧ (length os ≤ 3)%nat ∧ (∀ pg, blocked m' pg ↔ blocked m pg) ∧
    mapped m' = <[page := (frame, flags)]> (mapped m).
Proof.
  intros Ha [Hm Hb] Hlen.
  destruct (map_to_spec A FA page frame flags m a Ha) as (r & m' & a' & os & E & Hrun & Hos & Hbl & Hr).
  destruct r as [[]|[| |f]].
  - destruct Hr as (_ & _ & _ & Hr). by exists m', a', os.
  - destruct Hr as [_ Hin]. pose proof (alloc_run_refused _ _ _ Hrun Ha Hos Hin). lia.
  - by destruct Hr.
  - destruct Hr as (_ & fl & Hr). congruence.
Qed.

Lemma map_pages_ok pages m a :
  alloc_inv a → NoDup pages → Forall (free_page m) pages →
  (4 * length pages ≤ length (pool a))%nat →
  ∃ m' a' fs ts os, map_pages pages m a = Ret (Ok (), m', a') ∧ alloc_run a os a' ∧
    taken os ≡ₚ fs ++ ts ∧ (length ts ≤ 3 * length pages)%nat ∧ installed pages fs m m'.
Proof.
  revert m a. induction pages as [|pg pages IH]; intros m a Ha Hnd Hfree Hlen.
  { exists m, a, [], [], []. split_and!; [done|constructor|done|done|].
    split_and!; [constructor|done|done]. }
  apply NoDup_cons in Hnd as [Hni Hnd]. apply Forall_cons in Hfree as [Hpg Hfree].
  cbn [map_pages]. cbn [length] in Hlen.
  destruct (alloc_frame_spec a Ha) as (o & a1 & E & Ha1 & Ho).
  destruct o as [f|]; [|destruct Ho as [Ho _]; rewrite Ho in Hlen; simpl in Hlen; lia].
  apply Permutation_length in Ho as Hl. simpl in Hl. rewrite E, bind_Ret.
  destruct (map_to_free pg f heap_flags m a1 Ha1 Hpg) as (m1 & a2 & os & E1 & Hrun & Hos & Hbl & Hmap);
    [lia|]. rewrite E1, bind_Ret.
  destruct (alloc_run_spec _ _ _ Hrun Ha1) as (Ha2 & Hp2 & _).
  pose proof (length_taken os) as Hlt. apply Permutation_length in Hp2. rewrite length_app in Hp2.
  assert (Forall (free_page m1) pages) as Hfree1.
  { rewrite !Forall_forall in *. intros x Hx. destruct (Hfree x Hx) as [Hx1 Hx2]. split; [|by rewrite Hbl].
    rewrite Hmap, lookup_insert_ne; [done|]. by intros ->. }
  destruct (IH m1 a2 Ha2 Hnd Hfree1 ltac:(lia)) as (m' & a' & fs & ts & os' & E2 & Hrun' & Ht & Hts & Hf2 & Hout & Hbl').
  exists m', a', (f :: fs), (taken os ++ ts), (Some f :: os ++ os').
  split_and!; [done| | | |split_and!].
  - econstructor; [done|]. by eapply alloc_run_app.
  - cbn [taken]. rewrite taken_app, Ht. solve_Permutation.
  - rewrite length_app. cbn [length]. lia.
  - constructor; [|done]. by rewrite Hout, Hmap, lookup_insert_eq.
  - intros x [Hx1 Hx2]%not_elem_of_cons. by rewrite Hout, Hmap, lookup_insert_ne.
  - intros x. by rewrite Hbl', Hbl.
Qed.

(** The real cause behind each message of the loop. *)
Definition map_cause (e : string) (pages : list Z) m (left : list Z) : Prop :=
  (e = "out of frames for heap"%string ∧ left = []) ∨
  (e = "heap map: out of frames for page tables"%string ∧ left = []) ∨
  (e = "heap map: huge page blocks heap range"%string ∧ Exists (blocked m) pages) ∨
  (e = "heap page already mapped"%string ∧ Exists (λ pg, is_Some (mapped m !! pg)) pages).

Lemma map_pages_cause pages m a :
  alloc_inv a → NoDup pages →
  ∃ r m' a', map_pages pages m a = Ret (r, m', a') ∧ alloc_inv a' ∧
    match r with Ok _ => True | Err e => map_cause e pages m (pool a') end.
Proof.
  revert m a. induction pages as [|pg pages IH]; intros m a Ha Hnd; [by exists (Ok ()), m, a|].
  apply NoDup_cons in Hnd as [Hni Hnd]. cbn [map_pages].
  destruct (alloc_frame_spec a Ha) as (o & a1 & E & Ha1 & Ho). rewrite E, bind_Ret.
  destruct o as [f|]; [|destruct Ho as [_ Ho]; do 3 eexists; split_and!; [done|done|by left]].
  destruct (map_to_spec A FA pg f heap_flags m a1 Ha1)
    as (r & m1 & a2 & os & E1 & Hrun & Hos & Hbl & Hr).
  destruct (alloc_run_spec _ _ _ Hrun Ha1) as (Ha2 & _ & Hnone).
  rewrite E1, bind_Ret. destruct r as [[]|e].
  - destruct Hr as (_ & _ & _ & Hmap). destruct (IH m1 a2 Ha2 Hnd) as (r & m' & a' & E2 & Ha' & Hc).
    exists r, m', a'. split_and!; [done|done|]. destruct r as [|e]; [done|].
    destruct Hc as [?|[?|[[-> Hc]|[-> Hc]]]]; [by left|by right; left| |].
    + right; right; left. split; [done|]. right. eapply Exists_impl; [exact Hc|].
      intros x. by rewrite Hbl.
    + right; right; right. split; [done|]. right. apply Exists_exists in Hc as (x & Hx & Hc).
      apply Exists_exists. exists x. split; [done|]. rewrite Hmap, lookup_insert_ne in Hc; [done|].
      by intros ->.
  - do 3 eexists. split_and!; [done|done|].
    destruct e as [| |f']; [right; left|right; right; left|right; right; right].
    + split; [done|]. by apply Hnone, Hr.
    + split; [done|]. by left; apply Hr.
    + split; [done|]. left. destruct Hr as (_ & fl & Hr). by eexists.
Qed.

(** The pages of [start, start + size). *)
Definition heap_pages (start size : Z) : list Z :=
  frames_between (page_of start) (page_of (start + size - 1) + FRAME_SIZE).

Definition heap_range (start size : Z) : Prop :=
  0 < size ∧ same_half start (start + size - 1) ∧ start + size < u64_lim.

Lemma heap_pages_in start size v :
  start ≤ v < start + size → page_of v ∈ heap_pages start size.
Proof.
  intros [H1 H2]. apply elem_of_frames_between.
  pose proof (page_of_le start v H1). pose proof (page_of_le v (start + size - 1) ltac:(lia)).
  split_and!; [lia|lia|]. rewrite Zminus_mod, !page_of_aligned. done.
Qed.

Lemma map_heap_eq start size m a :
  heap_range start size →
  map_heap p m a start size = map_pages (heap_pages start size) m a.
Proof.
  intros (Hs & Hh & Hlim). pose proof (page_of_half _ _ Hh) as Hph.
  pose proof Hh as ((H0 & H1) & H2 & H3). unfold map_heap.
  rewrite (proj2 (Z.eqb_neq _ _)), checked_add64_exact by lia.
  rewrite VirtAddr_new_ok by (unfold canonical; ulia). rewrite bind_Ret.
  rewrite sub64_exact, bind_Ret by ulia.
  rewrite VirtAddr_new_ok by (unfold canonical; ulia). rewrite bind_Ret.
  rewrite !Page_containing_spec by (unfold canonical; ulia).
  rewrite range_inclusive_spec by (done || apply page_of_aligned). done.
Qed.

(** Reading an installed range: every address lands in the frame of its page. *)
Lemma installed_translate start size fs m m' v :
  installed (heap_pages start size) fs m m' → start ≤ v < start + size →
  ∃ f, f ∈ fs ∧ mapped m' !! page_of v = Some (f, heap_flags) ∧
    translate_addr m' v = Some (f + v `mod` FRAME_SIZE).
Proof.
  intros (Hf & _) Hv. apply heap_pages_in in Hv. apply list_elem_of_lookup in Hv as [k Hk].
  destruct (Forall2_lookup_l _ _ _ _ _ Hf Hk) as (f & Hfk & Hm). exists f.
  split_and!; [by eapply list_elem_of_lookup_2|done|by eapply translate_mapped].
Qed.

(** No two pages of an installed range share a frame. *)
Lemma installed_distinct start size fs m m' v w :
  installed (heap_pages start size) fs m m' → NoDup fs →
  start ≤ v < start + size → start ≤ w < start + size →
  mapped m' !! page_of v = mapped m' !! page_of w → page_of v = page_of w.
Proof.
  intros (Hf & _) Hnd Hv Hw E.
  apply heap_pages_in, list_elem_of_lookup in Hv as [k Hk].
  apply heap_pages_in, list_elem_of_lookup in Hw as [j Hj].
  destruct (Forall2_lookup_l _ _ _ _ _ Hf Hk) as (f & Hfk & Hm).
  destruct (Forall2_lookup_l _ _ _ _ _ Hf Hj) as (g & Hgj & Hm'). cbv beta in Hm, Hm'.
  rewrite Hm, Hm' in E. injection E as ->.
  assert (k = j) as -> by (by eapply NoDup_lookup). congruence.
Qed.

(** C29.  [map_heap] maps its whole range: on an unmapped range inside one half
    of the address space, with four free frames per page (one for the page, at
    most three for page tables), it succeeds; the [k]-th page of the range maps
    with the heap flags to the [k]-th of a list of distinct frames drawn from
    the allocator, so that no two pages share a frame and every address of the
    range translates into the frame of its own page; no other mapping changes,
    the frames drawn are exactly those that left the pool, and they are at most
    four per page. *)
Theorem map_heap_maps start size m a :
  alloc_inv a → NoDup (pool a) → heap_range start size →
  Forall (free_page m) (heap_pages start size) →
  (4 * length (heap_pages start size) ≤ length (pool a))%nat →
  ∃ m' a' fs ts, map_heap p m a start size = Ret (Ok (), m', a') ∧ alloc_inv a' ∧
    pool a ≡ₚ fs ++ ts ++ pool a' ∧ NoDup (fs ++ ts) ∧
    (length (fs ++ ts) ≤ 4 * length (heap_pages start size))%nat ∧
    Forall2 (λ pg f, mapped m' !! pg = Some (f, heap_flags)) (heap_pages start size) fs ∧
    (∀ v, start ≤ v < start + size →
       ∃ f, f ∈ fs ∧ mapped m' !! page_of v = Some (f, heap_flags) ∧
            translate_addr m' v = Some (f + v `mod` FRAME_SIZE)) ∧
    (∀ v w, start ≤ v < start + size → start ≤ w < start + size →
       mapped m' !! page_of v = mapped m' !! page_of w → page_of v = page_of w) ∧
    (∀ pg, pg ∉ heap_pages start size → mapped m' !! pg = mapped m !! pg).
Proof.
  intros Ha Hnd Hr Hfree Hlen. rewrite map_heap_eq by done.
  destruct (map_pages_ok (heap_pages start size) m a) as (m' & a' & fs & ts & os & E & Hrun & Ht & Hts & Hin);
    [done|apply NoDup_frames_between|done|done|].
  destruct (alloc_run_spec _ _ _ Hrun Ha) as (Ha' & Hp & _).
  rewrite Ht in Hp. rewrite Hp in Hnd. apply NoDup_app in Hnd as (Hnd & _).
  pose proof Hnd as (Hndf & _)%NoDup_app. pose proof (Forall2_length _ _ _ (proj1 Hin)) as Hl.
  exists m', a', fs, ts. split_and!; [done|done|by rewrite app_assoc|done| |apply Hin| | |apply Hin].
  - rewrite length_app. lia.
  - intros v. by apply installed_translate with (m := m).
  - intros v w. by apply installed_distinct with (m := m) (fs := fs).
Qed.

(** C31.  What [map_heap] does with a request that it cannot serve.  An empty or
    overflowing request is refused before anything is touched.  When the first
    or the last address of the range is not canonical it panics, in
    [VirtAddr::new].  When the range lies in one canonical half it returns, and
    an error then names an allocator that has run out of frames (for the heap or
    for page tables), a huge page in the range, or a page of the range that was
    mapped before the call. *)
Theorem map_heap_diagnosis start size m a :
  alloc_inv a → u64 start → u64 size →
  (size = 0 → map_heap p m a start size = Ret (Err "heap size is zero", m, a)) ∧
  (0 < size → u64_lim ≤ start + size →
   map_heap p m a start size = Ret (Err "heap range overflows", m, a)) ∧
  (0 < size → start + size < u64_lim → ¬ canonical start ∨ ¬ canonical (start + size - 1) →
   ∃ msg, map_heap p m a start size = Panic msg) ∧
  (heap_range start size → ∃ r m' a', map_heap p m a start size = Ret (r, m', a') ∧ alloc_inv a' ∧
     match r with
     | Ok _ => True
     | Err e => map_cause e (heap_pages start size) m (pool a')
     end).
Proof.
  intros Ha Hs Hz. split_and!.
  - by intros ->.
  - intros Hp Hge. unfold map_heap, checked_add64.
    by rewrite (proj2 (Z.eqb_neq _ _)), (proj2 (Z.ltb_ge _ _)) by lia.
  - intros Hp Hlt Hc. unfold map_heap. rewrite (proj2 (Z.eqb_neq _ _)), checked_add64_exact by ulia.
    destruct (decide (start < 2 ^ 47 ∨ u64_lim - 2 ^ 47 ≤ start)) as [Hcs|Hcs].
    2:{ destruct (VirtAddr_new_bad start Hs Hcs) as [msg ->]. by exists msg. }
    rewrite VirtAddr_new_ok, bind_Ret, sub64_exact, bind_Ret by (done || ulia).
    destruct (VirtAddr_new_bad (start + size - 1)) as [msg ->]; [ulia| |by exists msg].
    by destruct Hc.
  - intros Hr. rewrite map_heap_eq by done.
    destruct (map_pages_cause (heap_pages start size) m a Ha (NoDup_frames_between _ _))
      as (r & m' & a' & E & Ha' & Hc).
    exists r, m', a'. split_and!; [done|done|]. by destruct r.
Qed.

Lemma mmio_window_addr :
  VirtAddr_new MMIO_WINDOW = Ret MMIO_WINDOW ∧ Page_containing MMIO_WINDOW = MMIO_WINDOW.
Proof.
  split; [apply VirtAddr_new_ok; [done|by right]|].
  rewrite Page_containing_spec; [done|done|by right].
Qed.

(** A free window and three frames in reserve: the page is mapped. *)
Lemma map_mmio_ok m a phys :
  alloc_inv a → 0 ≤ phys < phys_lim → phys `mod` FRAME_SIZE = 0 → free_page m MMIO_WINDOW →
  (3 ≤ length (pool a))%nat →
  ∃ m' a', map_mmio_window m a phys = Ret (Ok MMIO_WINDOW, m', a') ∧ alloc_inv a' ∧
    mapped m' = <[MMIO_WINDOW := (phys, mmio_flags)]> (mapped m) ∧
    translate_addr m' MMIO_WINDOW = Some phys.
Proof.
  intros Ha Hp Hal Hfree Hlen. destruct mmio_window_addr as [Hv Hpg].
  unfold map_mmio_window. change FRAME_SIZE with 4096 in Hal. rewrite Hal, Hv.
  cbn [Z.eqb negb]. rewrite bind_Ret, Hpg.
  rewrite (proj2 (translate_None m MMIO_WINDOW) Hfree).
  rewrite phys_frame_ok, bind_Ret by done.
  destruct (map_to_free MMIO_WINDOW phys mmio_flags m a Ha Hfree Hlen)
    as (m' & a' & os & E & Hrun & _ & _ & Hmap). rewrite E, bind_Ret.
  destruct (alloc_run_spec _ _ _ Hrun Ha) as (Ha' & _).
  exists m', a'. split_and!; [done|done|done|].
  rewrite (translate_mapped m' MMIO_WINDOW phys mmio_flags).
  - change (MMIO_WINDOW `mod` FRAME_SIZE) with 0. f_equal. lia.
  - change (page_of MMIO_WINDOW) with MMIO_WINDOW. by rewrite Hmap, lookup_insert_eq.
Qed.

(** C30.  The MMIO window is mapped at most once: an unaligned address is
    refused without touching anything; on a free window with three frames in
    reserve the page is mapped uncached and non-executable at [MMIO_WINDOW]; and
    from then on every further request is refused as occupied. *)
Theorem mmio_window_single m a phys :
  alloc_inv a → 0 ≤ phys < phys_lim → free_page m MMIO_WINDOW → (3 ≤ length (pool a))%nat →
  (phys `mod` FRAME_SIZE ≠ 0 →
   map_mmio_window m a phys = Ret (Err "mmio phys address is not 4KiB-aligned", m, a)) ∧
  (phys `mod` FRAME_SIZE = 0 →
   ∃ m' a', map_mmio_window m a phys = Ret (Ok MMIO_WINDOW, m', a') ∧ alloc_inv a' ∧
     mapped m' = <[MMIO_WINDOW := (phys, mmio_flags)]> (mapped m) ∧
     translate_addr m' MMIO_WINDOW = Some phys ∧
     ∀ phys', phys' `mod` FRAME_SIZE = 0 → map_mmio_window m' a' phys' =
       Ret (Err "mmio window already occupied — single-window kernel, one MMIO page max", m', a')).
Proof.
  intros Ha Hp Hfree Hlen. split; intros Hal.
  { unfold map_mmio_window. change FRAME_SIZE with 4096 in Hal.
    by rewrite (proj2 (Z.eqb_neq _ _) Hal). }
  destruct (map_mmio_ok m a phys Ha Hp Hal Hfree Hlen) as (m' & a' & E & Ha' & Hmap & Htr).
  exists m', a'. split_and!; [done|done|done|done|].
  intros phys' Hal'. unfold map_mmio_window. change FRAME_SIZE with 4096 in Hal'.
  rewrite Hal', (proj1 mmio_window_addr), bind_Ret. cbn [Z.eqb negb]. by rewrite Htr.
Qed.
End mapping_spec.

(** ** [memory::init] *)

(** What the feature-selected allocator promises to [init]: a fresh one owns the
    frames of the map, activation and the reclaim self-test keep them. *)
Class BootAllocator (A : Type) `{FA : FrameAllocator A} `{FO : !FrameAlloc A} := {
  booting : A → Prop;
  running : A → Prop;
  fa_new_spec rs :
    map_ok rs → alloc_inv (fa_new rs) ∧ booting (fa_new rs) ∧
    pool (fa_new rs) = rs ≫= region_frames;
  booting_kept s o s' :
    alloc_inv s → booting s → alloc_frame s = Ret (o, s') → booting s';
  fa_activate_spec s :
    alloc_inv s → booting s →
    ∃ s', fa_activate s = Ret s' ∧ alloc_inv s' ∧ running s' ∧ pool s' ≡ₚ pool s;
  fa_self_test_spec s :
    alloc_inv s → running s → pool s ≠ [] →
    ∃ s', fa_self_test_reclaim s = Ret s' ∧ alloc_inv s' ∧ running s' ∧ pool s' ≡ₚ pool s
}.

#[export] Instance bump_BootAllocator `{PhysFrames} :
  BootAllocator (FA := Bump.bump_FrameAllocator) Bump.BootFrameAllocator.
Proof.
  refine {| booting := λ _, True; running := λ _, True |}.
  - intros rs [Hrs _]. split_and!; [by apply Bump.bump_new_inv|done|].
    cbn. unfold Bump.bump_pool. cbn. apply BuddySpec.frames_ahead_0.
  - done.
  - intros s Hs _. by exists s.
  - intros s Hs _ _. by exists s.
Defined.

#[export] Instance buddy_BootAllocator (p : profile) `{PhysFrames} :
  BootAllocator (FA := BuddySpec.buddy_FrameAllocator p) (FO := buddy_FrameAlloc p)
    Buddy.BuddyFrameAllocator.
Proof.
  refine {| booting := λ s, Buddy.active s = false; running := λ s, Buddy.active s = true |}.
  - intros rs Hrs. split_and!; [by apply BuddySpec.new_inv|done|].
    cbn. unfold Buddy.buddy_pool. cbn. apply BuddySpec.frames_ahead_0.
  - intros s o s' Hs Hb E. destruct (BuddySpec.allocate_spec p s Hs) as (o' & s1 & E' & _ & Hact & _).
    cbn in E. rewrite E in E'. injection E' as <- <-. congruence.
  - intros s Hs Hb. destruct (BuddySpec.activate_spec p s Hs Hb) as (s' & E & Hi & Ha & _ & Hp).
    by exists s'.
  - intros s Hs Hr Hne.
    destruct (BuddySpec.self_test_reclaim_spec p s Hs Hr Hne) as (s' & E & Hi & Ha & Hp & _).
    by exists s'.
Defined.

(** The self-test's sum fits 64 bits for any map that fits in memory. *)
Lemma self_test_ok p n on : 0 ≤ n < 2 ^ 63 → self_test p n on = Ret ().
Proof.
  intros Hn. destruct on; [|done]. unfold self_test. cbn [negb].
  change (expect (self_test_vec n !! 0%nat) "index out of bounds") with (Ret (A := Z) 0xC0FFEE).
  change (length (self_test_vec n) =? 66)%nat with true.
  rewrite bind_Ret. cbn [Z.eqb Pos.eqb assert_]. rewrite !bind_Ret.
  assert (∀ l s, 0 ≤ s → Forall (λ x, 0 ≤ x < 64) l → s + 64 * Z.of_nat (length l) < u64_lim →
    ∃ z, foldl (λ acc x, s ← acc; add64 p s x) (Ret s) l = Ret z) as Hsum.
  { induction l as [|x l IH]; intros s Hs Hl Hlim; [by exists s|].
    apply Forall_cons in Hl as [Hx Hl]. cbn [foldl length] in *.
    rewrite bind_Ret, add64_exact by ulia. apply IH; [lia|done|lia]. }
  unfold sum64, self_test_vec. cbn [foldl]. rewrite !bind_Ret.
  rewrite add64_exact by ulia. rewrite bind_Ret, add64_exact by ulia.
  destruct (Hsum (seqZ 0 64) (0 + 0xC0FFEE + n)) as [z ->]; [lia| | |done].
  - apply Forall_forall. intros x ?%elem_of_seqZ. lia.
  - rewrite length_seqZ. ulia.
Qed.

Section init_spec.
Context `{PhysFrames} `{VA : VirtAddrs} {M : Type} `{PG : Paging M} {A : Type}
  `{BA : BootAllocator A}.
Context (p : profile).

Lemma heap_fits : heap_range HEAP_START HEAP_SIZE.
Proof. unfold heap_range, same_half. split_and!; vm_compute; (done || (right; discriminate)). Qed.

Lemma length_heap_pages : length (heap_pages HEAP_START HEAP_SIZE) = 256%nat.
Proof. by vm_compute. Qed.

(** [mapper] on a CR3 inside the physical window. *)
Lemma mapper_ok cr3 :
  0 ≤ cr3 < 2 ^ 47 →
  mapper PHYS_MEM_OFFSET cr3 = Ret (OffsetPageTable_new (PHYS_MEM_OFFSET + cr3) PHYS_MEM_OFFSET).
Proof.
  intros Hc. unfold mapper. rewrite VirtAddr_add_ok, bind_Ret; [done|..];
    unfold PHYS_MEM_OFFSET, u64_lim; lia.
Qed.

(** [memory::init] on a sane machine: what it leaves in the page tables and in
    the allocator. *)
Lemma memory_init_spec cr3 regions self_test_on :
  0 ≤ cr3 < 2 ^ 47 → map_ok regions → Z.of_nat (length regions) < 2 ^ 63 →
  let m0 := OffsetPageTable_new (PHYS_MEM_OFFSET + cr3) PHYS_MEM_OFFSET in
  Forall (free_page m0) (heap_pages HEAP_START HEAP_SIZE) →
  (4 * 256 < length (regions ≫= region_frames))%nat →
  ∃ m a fs ts,
    memory_init p cr3 (mkBootInfo (Some PHYS_MEM_OFFSET) regions) self_test_on =
      Ret (m, a, Some (HEAP_START, HEAP_SIZE)) ∧
    alloc_inv a ∧ running a ∧
    regions ≫= region_frames ≡ₚ fs ++ ts ++ pool a ∧ length fs = 256%nat ∧
    (length ts ≤ 768)%nat ∧ NoDup (fs ++ ts ++ pool a) ∧
    installed (heap_pages HEAP_START HEAP_SIZE) fs m0 m.
Proof.
  intros Hcr Hmap Hlen m0 Hfree Hroom. destruct (fa_new_spec regions Hmap) as (Ha0 & Hb0 & Hp0).
  destruct (map_pages_ok (heap_pages HEAP_START HEAP_SIZE) m0 (fa_new regions))
    as (m & a1 & fs & ts & os & E & Hrun & Ht & Hts & Hin);
    [done|apply NoDup_frames_between|done|rewrite length_heap_pages, Hp0; lia|].
  destruct (alloc_run_spec _ _ _ Hrun Ha0) as (Ha1 & Hp1 & _).
  pose proof (alloc_run_kept booting _ _ _ booting_kept Hrun Ha0 Hb0) as Hb1.
  pose proof (Forall2_length _ _ _ (proj1 Hin)) as Hfs. rewrite length_heap_pages in Hfs, Hts.
  rewrite Ht, <- app_assoc, Hp0 in Hp1.
  destruct (fa_activate_spec a1 Ha1 Hb1) as (a2 & E2 & Ha2 & Hr2 & Hp2).
  destruct (fa_self_test_spec a2 Ha2 Hr2) as (a3 & E3 & Ha3 & Hr3 & Hp3).
  { intros Hnil. rewrite Hnil in Hp2. symmetry in Hp2. apply Permutation_nil_r in Hp2.
    apply Permutation_length in Hp1. rewrite Hp2, !length_app in Hp1. simpl in Hp1. lia. }
  exists m, a3, fs, ts. split_and!; [|done|done| |done|lia| |done].
  - unfold memory_init. cbn [physical_memory_offset memory_regions expect]. rewrite bind_Ret.
    rewrite VirtAddr_new_ok by (done || by right). rewrite bind_Ret, Z.eqb_refl. cbn [assert_].
    rewrite bind_Ret, mapper_ok, bind_Ret by done. unfold heap_init.
    rewrite (map_heap_eq p _ _ _ _ heap_fits). fold m0. rewrite E, !bind_Ret, E2, bind_Ret, E3, bind_Ret.
    by rewrite self_test_ok, bind_Ret by lia.
  - by rewrite Hp1, Hp3, Hp2.
  - rewrite Hp3, Hp2, <- Hp1. destruct Hmap as [_ Hap]. rewrite <- BuddySpec.frames_ahead_0.
    by apply NoDup_map_frames.
Qed.
(** C13.  Memory bring-up succeeds on a sane machine, under either allocator: the
    bootloader's offset is the agreed one, its page tables leave the heap range
    alone and the map has room for the heap, its page tables and one more frame.
    Then no assert or [expect] of [memory::init] fires (the reclaim self-test and
    the heap self-test included), the heap allocator is given exactly the range
    that was mapped, its [k]-th page maps to the [k]-th of 256 distinct usable
    frames, so that no two heap pages share a frame and every heap address
    translates into the frame of its own page, no other mapping changes, and
    every usable frame is in the heap, in a page table or in the allocator's
    pool, exactly once. *)
Theorem memory_init_ok cr3 regions self_test_on :
  0 ≤ cr3 < 2 ^ 47 → map_ok regions → Z.of_nat (length regions) < 2 ^ 63 →
  let m0 := OffsetPageTable_new (PHYS_MEM_OFFSET + cr3) PHYS_MEM_OFFSET in
  Forall (free_page m0) (heap_pages HEAP_START HEAP_SIZE) →
  (4 * 256 < length (regions ≫= region_frames))%nat →
  ∃ m a fs ts,
    memory_init p cr3 (mkBootInfo (Some PHYS_MEM_OFFSET) regions) self_test_on =
      Ret (m, a, Some (HEAP_START, HEAP_SIZE)) ∧
    alloc_inv a ∧ running a ∧
    regions ≫= region_frames ≡ₚ fs ++ ts ++ pool a ∧ length fs = 256%nat ∧
    NoDup (fs ++ ts ++ pool a) ∧
    Forall2 (λ pg f, mapped m !! pg = Some (f, heap_flags)) (heap_pages HEAP_START HEAP_SIZE) fs ∧
    (∀ v, HEAP_START ≤ v < HEAP_START + HEAP_SIZE →
       ∃ f, f ∈ fs ∧ mapped m !! page_of v = Some (f, heap_flags) ∧
            translate_addr m v = Some (f + v `mod` FRAME_SIZE)) ∧
    (∀ v w, HEAP_START ≤ v < HEAP_START + HEAP_SIZE → HEAP_START ≤ w < HEAP_START + HEAP_SIZE →
       mapped m !! page_of v = mapped m !! page_of w → page_of v = page_of w) ∧
    (∀ pg, pg ∉ heap_pages HEAP_START HEAP_SIZE → mapped m !! pg = mapped m0 !! pg).
Proof.
  intros Hcr Hmap Hlen m0 Hfree Hroom.
  destruct (memory_init_spec cr3 regions self_test_on Hcr Hmap Hlen Hfree Hroom)
    as (m & a & fs & ts & E & Ha & Hr & Hp & Hfs & _ & Hnd & Hin).
  exists m, a, fs, ts. split_and!; try done; [apply Hin| | |apply Hin].
  - intros v. by apply installed_translate with (m := m0).
  - apply NoDup_app in Hnd as (Hnd & _).
    intros v w. by apply installed_distinct with (m := m0) (fs := fs).
Qed.
End init_spec.

(** ** Witnesses *)

Definition small_map : list MemoryRegion := [mkRegion 0 0x20000 Usable].
Definition big_map : list MemoryRegion :=
  [mkRegion 0 0x9000 (OtherKind 1); mkRegion 0x100000 0x900000 Usable].
Definition no_pages : SparsePT := mkPT ∅ ∅ [].

Lemma small_map_ok : map_ok small_map.
Proof. solve_map_ok. Qed.
Lemma big_map_ok : map_ok big_map.
Proof. solve_map_ok. Qed.

Lemma no_pages_free pages : Forall (free_page no_pages) pages.
Proof. apply Forall_forall. intros pg _. split; [apply lookup_empty|done]. Qed.

Lemma usable_summary_exact_witness :
  usable_summary (mkRegion 9 2 Usable :: big_map) = (0x800000, 1%nat) ∧
  FRAME_SIZE * Z.of_nat (length (big_map ≫= region_frames)) ≤ usable_bytes big_map.
Proof.
  split; [by rewrite (proj1 (usable_summary_exact _))|].
  apply (proj2 (usable_summary_exact big_map)), big_map_ok.
Defined.

Definition small_bump : Bump.BootFrameAllocator := Bump.bump_new small_map.

Lemma small_bump_nodup : NoDup (pool (FrameAllocator := Bump.bump_FrameAllocator) small_bump).
Proof.
  change (NoDup (frames_ahead small_map 0)). apply NoDup_map_frames, small_map_ok.
Qed.

Lemma two_pages : heap_range 0xFFFF900000000800 0x1000.
Proof. unfold heap_range, same_half. split_and!; vm_compute; (done || (right; discriminate)). Qed.

Lemma map_heap_maps_witness :
  ∃ m' a', map_heap (FA := Bump.bump_FrameAllocator) Dev no_pages small_bump
    0xFFFF900000000800 0x1000 = Ret (Ok (), m', a').
Proof.
  destruct (map_heap_maps (FA := Bump.bump_FrameAllocator) Dev 0xFFFF900000000800 0x1000 no_pages small_bump)
    as (m' & a' & fs & ts & E & _).
  - apply Bump.bump_new_inv, small_map_ok.
  - apply small_bump_nodup.
  - apply two_pages.
  - apply no_pages_free.
  - apply Nat.leb_le. by vm_compute.
  - exists m', a'. exact E.
Defined.

Lemma map_heap_diagnosis_witness :
  (∃ m' a', map_heap (FA := Bump.bump_FrameAllocator) Dev
    (mkPT {[0xFFFF900000001000 := (0x5000, 3)]} ∅ []) small_bump 0xFFFF900000000800 0x1000 =
      Ret (Err "heap page already mapped", m', a')) ∧
  ∃ msg, map_heap (FA := Bump.bump_FrameAllocator) Dev no_pages small_bump (2 ^ 47) 0x1000 = Panic msg.
Proof.
  split.
  - destruct (map_heap_diagnosis (FA := Bump.bump_FrameAllocator) Dev 0xFFFF900000000800 0x1000
      (mkPT {[0xFFFF900000001000 := (0x5000, 3)]} ∅ []) small_bump) as (_ & _ & _ & H).
    + apply Bump.bump_new_inv, small_map_ok.
    + split; by vm_compute.
    + split; by vm_compute.
    + destruct (H two_pages) as (r & m' & a' & E & _).
      exists m', a'. rewrite E. vm_compute in E. by injection E as <- _ _.
  - apply (map_heap_diagnosis (FA := Bump.bump_FrameAllocator) Dev (2 ^ 47) 0x1000 no_pages small_bump).
    + apply Bump.bump_new_inv, small_map_ok.
    + split; by vm_compute.
    + split; by vm_compute.
    + done.
    + by vm_compute.
    + left. unfold canonical, u64_lim. lia.
Defined.

Lemma mmio_window_single_witness :
  ∃ m' a', map_mmio_window (FA := Bump.bump_FrameAllocator) no_pages small_bump 0xFEE00000 =
    Ret (Ok MMIO_WINDOW, m', a').
Proof.
  destruct (mmio_window_single (FA := Bump.bump_FrameAllocator) no_pages small_bump 0xFEE00000)
    as [_ H].
  - apply Bump.bump_new_inv, small_map_ok.
  - unfold phys_lim. lia.
  - split; [apply lookup_empty|done].
  - apply Nat.leb_le. by vm_compute.
  - destruct H as (m' & a' & E & _); [done|]. exists m', a'. exact E.
Defined.

Lemma memory_init_ok_witness :
  ∃ m a, memory_init (M := SparsePT) (A := Buddy.BuddyFrameAllocator)
      (FA := BuddySpec.buddy_FrameAllocator Dev) (FrameAlloc0 := buddy_FrameAlloc Dev) Dev 0x2000
      (mkBootInfo (Some PHYS_MEM_OFFSET) big_map) true =
    Ret (m, a, Some (HEAP_START, HEAP_SIZE)) ∧ Buddy.active a = true.
Proof.
  destruct (memory_init_ok (M := SparsePT) (BA := buddy_BootAllocator Dev) Dev 0x2000 big_map true)
    as (m & a & fs & ts & E & _ & Hr & _).
  - lia.
  - apply big_map_ok.
  - cbn. lia.
  - apply no_pages_free.
  - apply Nat.ltb_lt. by vm_compute.
  - exists m, a. split; [exact E|exact Hr].
Defined.

End Memory.
