(* ===== verification/Apic.v ===== *)
(** * The clocks: local APIC, PIC and PIT ([kernel/src/apic.rs],
      [kernel/src/timer.rs], [kernel/src/interrupts.rs], [kernel/src/preempt.rs])

    Device accesses are events on a trace.  What a device register or a tick
    counter shows is decided by the environment from the trace so far, so every
    device behaviour, dead clocks included, is covered.  [pic8259] and the page
    tables are interfaces. *)
From stdpp Require Import gmap.
From S2P Require Import Prelude Frames Machine Paging Memory Preempt.

#[local] Open Scope Z_scope.

Module Apic.
Import Preempt.

(** ** Constants *)

Definition APIC_BASE_MASK : Z := 0x000FFFFFFFFFF000.
Definition FALLBACK_BASE : Z := 0xFEE00000.
Definition EOI_OFFSET : Z := 0xB0.
Definition ID_OFFSET : Z := 0x20.
Definition VER_OFFSET : Z := 0x30.
Definition TPR_OFFSET : Z := 0x80.
Definition SVR_OFFSET : Z := 0xF0.
Definition LVT_TIMER_OFFSET : Z := 0x320.
Definition DCR_OFFSET : Z := 0x3E0.
Definition ICR_OFFSET : Z := 0x380.
Definition CCR_OFFSET : Z := 0x390.
Definition PIT_RATE : Z := 100.          (* apic::PIT_HZ *)
Definition CALIB_PIT_TICKS : Z := 10.
Definition CALIB_ROUNDS : nat := 3.
Definition SPIN_GUARD : Z := 10000000.
Definition SOAK_SPIN_GUARD : Z := 100000000.
Definition u32_lim : Z := 2 ^ 32.

(** ** Devices *)

Inductive event :=
| MmioWrite (addr v : Z)
| MmioRead (addr v : Z)
| PortWrite (port v : Z)
| LoadTimer (v : Z)        (* TIMER_TICKS.load *)
| LoadApic (v : Z).        (* APIC_TICKS.load *)

(** What the environment shows after a trace (newest event first). *)
Record Devices := mkDevices {
  mmio_in : list event → Z → Z;
  timer_now : list event → Z;
  apic_now : list event → Z
}.

(** The [pic8259] crate: two chained controllers with a mask register each. *)
Class ChainedPics (P : Type) := {
  read_masks : P → Z * Z;
  write_masks : P → Z → Z → P;
  pics_initialize : P → P;
  notify_end_of_interrupt : P → Z → P;
  read_write_masks s a b : 0 ≤ a < 256 → 0 ≤ b < 256 → read_masks (write_masks s a b) = (a, b);
  masks_u8 s : 0 ≤ (read_masks s).1 < 256 ∧ 0 ≤ (read_masks s).2 < 256;
  eoi_masks s v : read_masks (notify_end_of_interrupt s v) = read_masks s
}.

Section apic.
Context (dev : Devices) {P : Type} `{ChainedPics P}.

(** The statics the clock code touches. *)
Record Kernel := mkKernel {
  LAPIC_VIRT : Z;
  TICKS_PER_10MS : Z;
  k_statics : Statics;
  PICS : P;
  trace : list event
}.

Definition set_virt k v := mkKernel v (TICKS_PER_10MS k) (k_statics k) (PICS k) (trace k).
Definition set_rate k v := mkKernel (LAPIC_VIRT k) v (k_statics k) (PICS k) (trace k).
Definition set_kstatics k st := mkKernel (LAPIC_VIRT k) (TICKS_PER_10MS k) st (PICS k) (trace k).
Definition set_pics k s := mkKernel (LAPIC_VIRT k) (TICKS_PER_10MS k) (k_statics k) s (trace k).
Definition push k e :=
  mkKernel (LAPIC_VIRT k) (TICKS_PER_10MS k) (k_statics k) (PICS k) (e :: trace k).

(** Code that threads the state, may panic and may leave early with [?]. *)
Definition io (R : Type) : Type := Kernel → outcome (result R * Kernel).

Definition ok {R} (x : R) : io R := λ k, Ret (Ok x, k).
Definition err {R} (e : string) : io R := λ k, Ret (Err e, k).
Definition lift {R} (o : outcome R) : io R := λ k, x ← o; Ret (Ok x, k).
Definition io_bind {R T} (x : io R) (f : R → io T) : io T := λ k,
  match x k with
  | Ret (Ok a, k') => f a k'
  | Ret (Err e, k') => Ret (Err e, k')
  | Panic e => Panic e
  end.

Notation "'let*' x := c 'in' d" := (io_bind c (λ x, d))
  (at level 200, x binder, c at level 100, d at level 200).
Notation "c ;* d" := (io_bind c (λ _, d)) (at level 199, right associativity).

Definition get {R} (f : Kernel → R) : io R := λ k, Ret (Ok (f k), k).
Definition modify (f : Kernel → Kernel) : io unit := λ k, Ret (Ok (), f k).

(** Volatile 32-bit accesses. *)
Definition write_volatile (addr v : Z) : io unit := modify (λ k, push k (MmioWrite addr v)).
Definition read_volatile (addr : Z) : io Z := λ k,
  let v := mmio_in dev (trace k) addr `mod` u32_lim in Ret (Ok v, push k (MmioRead addr v)).

Definition load_timer : io Z := λ k,
  let v := timer_now dev (trace k) in Ret (Ok v, push k (LoadTimer v)).
Definition load_apic : io Z := λ k,
  let v := apic_now dev (trace k) in Ret (Ok v, push k (LoadApic v)).

(** ** Probe *)

Record Probe := mkProbe {
  present : bool; base : Z; enabled : bool; bsp : bool; have_rsdp : bool
}.

Definition probe (cpuid_edx msr : Z) (rsdp : option Z) : Probe :=
  let b := Z.land msr APIC_BASE_MASK in
  mkProbe (negb (Z.land cpuid_edx (Z.shiftl 1 9) =? 0))
    (if b =? 0 then FALLBACK_BASE else b)
    (negb (Z.land msr (Z.shiftl 1 11) =? 0))
    (negb (Z.land msr (Z.shiftl 1 8) =? 0))
    (match rsdp with Some _ => true | None => false end).

(** ** Register addresses, enable *)

Definition lapic_reg (win off : Z) : result Z :=
  match checked_add64 win off with
  | Some a => Ok a
  | None => Err "apic register address overflows"
  end.

Definition reg (win off : Z) : io Z := λ k, Ret (lapic_reg win off, k).

(** [apic::init] after the window is mapped at [win]. *)
Definition enable (p : profile) (win : Z) : io unit :=
  modify (λ k, set_virt k win) ;*
  let* e := lift (add64 p win EOI_OFFSET) in
  modify (λ k, set_kstatics k (set_eoi_base e (k_statics k))) ;*
  let* svr := reg win SVR_OFFSET in
  write_volatile svr 0x1FF ;*
  let* lvt_timer := reg win LVT_TIMER_OFFSET in
  let* lvt := read_volatile lvt_timer in
  write_volatile lvt_timer (Z.lor lvt (Z.shiftl 1 16)) ;*
  let* tpr := reg win TPR_OFFSET in
  write_volatile tpr 0 ;*
  let* idr := reg win ID_OFFSET in
  let* _ := read_volatile idr in
  let* verr := reg win VER_OFFSET in
  let* _ := read_volatile verr in
  let* _ := read_volatile svr in
  ok ().

Definition apic_init `{PhysFrames} `{VirtAddrs} {M A : Type} `{PG : Paging M} `{FA : FrameAllocator A}
    (p : profile) (m : M) (a : A) (pr : Probe) (k : Kernel)
    : outcome (result unit * M * A * Kernel) :=
  if negb (present pr) then
    Ret (Err "no local APIC present (CPUID bit 9 clear)", m, a, k)
  else if negb (enabled pr) then
    Ret (Err "APIC soft-disabled (IA32_APIC_BASE bit 11 clear) — refusing to pretend", m, a, k)
  else
    '(r, m1, a1) ← Memory.map_mmio_window m a (base pr);
    match (r : result Z) with
    | Err e => Ret (Err e, m1, a1, k)
    | Ok win => '(r2, k1) ← enable p win k; Ret (r2, m1, a1, k1)
    end.

(** ** Calibration *)

Definition calibrate_ticks (delta pit_hz pit_ticks : Z) : Z :=
  if (pit_hz =? 0) || (pit_ticks =? 0) then 0
  else saturating_mul64 delta (pit_hz `div` 100) `div` pit_ticks.

(** One turn of the PIT wait. *)
Definition wait_body (start : Z) (s : Z * Kernel) : (Z * Kernel) + (result unit * Kernel) :=
  let '(spins, k) := s in
  let v := timer_now dev (trace k) in
  let k1 := push k (LoadTimer v) in
  if CALIB_PIT_TICKS <=? wrap64 (v - start) then inr (Ok (), k1)
  else if SPIN_GUARD <? spins + 1 then
    inr (Err "apic: PIT produced no ticks during calibration — timer dead?", k1)
  else inl (spins + 1, k1).

Definition wait_pit (start : Z) : io unit := λ k,
  match iter_pos (wait_body start) loop_fuel (0, k) with
  | inr r => Ret r
  | inl _ => Panic "loop bound exceeded"
  end.

Definition calib_round (win : Z) : io Z :=
  let* icr := reg win ICR_OFFSET in
  write_volatile icr 0xFFFFFFFF ;*
  let* start := load_timer in
  wait_pit start ;*
  let* ccr := reg win CCR_OFFSET in
  let* cur := read_volatile ccr in
  let delta := (0xFFFFFFFF - cur) `mod` u32_lim in
  if delta =? 0 then
    err "apic: CCR delta is zero — MMIO writes lost (NO_CACHE missing?)"
  else ok delta.

Definition median3 (a b c : Z) : Z := Z.max (Z.min a b) (Z.min c (Z.max a b)).

Definition calibrate : io Z :=
  let* win := get LAPIC_VIRT in
  if win =? 0 then err "apic: calibrate before init — LAPIC window not mapped"
  else
    let* dcr := reg win DCR_OFFSET in
    write_volatile dcr 0x3 ;*
    let* a := calib_round win in
    let* b := calib_round win in
    let* c := calib_round win in
    let per_10ms := calibrate_ticks (median3 a b c) PIT_RATE CALIB_PIT_TICKS in
    if per_10ms =? 0 then err "apic: calibrated rate is zero — refusing to program it"
    else modify (λ k, set_rate k per_10ms) ;* ok per_10ms.

(** ** Periodic mode, end of interrupt, promotion *)

Definition start_periodic : io Z :=
  let* win := get LAPIC_VIRT in
  if win =? 0 then err "apic: start_periodic before init — LAPIC window not mapped"
  else
    let* quantum := get TICKS_PER_10MS in
    if (quantum =? 0) || (u32_lim - 1 <? quantum) then
      err "apic: no calibrated rate — refusing to program a zero/huge ICR"
    else
      let* lvt := reg win LVT_TIMER_OFFSET in
      write_volatile lvt (Z.lor 0xEF (Z.shiftl 1 17)) ;*
      let* icr := reg win ICR_OFFSET in
      write_volatile icr quantum ;*
      ok quantum.

Definition eoi : io unit :=
  let* win := get LAPIC_VIRT in
  if win =? 0 then err "apic: eoi before init — LAPIC window not mapped"
  else
    match lapic_reg win EOI_OFFSET with
    | Err _ => lift (Panic "apic: EOI address overflow")
    | Ok a => write_volatile a 0
    end.

Definition promote_masks (s : P) : P :=
  let m := read_masks s in write_masks s (Z.lor m.1 1) m.2.
Definition rollback_masks (s : P) : P :=
  let m := read_masks s in write_masks s (Z.land m.1 0xFE) m.2.

Definition promote : io unit :=
  let* win := get LAPIC_VIRT in
  if win =? 0 then err "apic: promote before init — LAPIC window not mapped"
  else
    let* rate := get TICKS_PER_10MS in
    if rate =? 0 then err "apic: promote without a calibrated rate — refusing"
    else modify (λ k, set_pics k (promote_masks (PICS k))).

Definition rollback_to_pit : io unit :=
  modify (λ k, set_pics k (rollback_masks (PICS k))).

(** ** PIC and PIT set-up ([interrupts::init], [timer::init]) *)

Definition interrupts_init : io unit :=
  modify (λ k, set_pics k (write_masks (pics_initialize (PICS k)) 0xFF 0xFF)).

Definition PIT_CMD : Z := 0x43.
Definition PIT_CH0 : Z := 0x40.
Definition PIT_CLOCK : Z := 1193182.     (* timer::PIT_HZ *)
Definition TARGET_HZ : Z := 100.

Definition port_write (port v : Z) : io unit := modify (λ k, push k (PortWrite port v)).

(** [if_] is the interrupt flag that the debug assert inspects. *)
Definition timer_init (p : profile) (if_ : bool) : io unit :=
  let* divisor := lift (expect (let d := PIT_CLOCK `div` TARGET_HZ in
                                if d <? 2 ^ 16 then Some d else None) "PIT divisor fits in u16") in
  port_write PIT_CMD 0x36 ;*
  port_write PIT_CH0 (Z.land divisor 0xFF) ;*
  port_write PIT_CH0 (Z.shiftr divisor 8) ;*
  lift (debug_assert p (negb if_)
    "timer::init must run with interrupts disabled (PICS lock is not IRQ-safe)") ;*
  modify (λ k, set_pics k (rollback_masks (PICS k))).
End apic.

End Apic.
