(* ===== verification/ApicSpec.v ===== *)
(** * Properties of the clock bring-up

    Which registers are written, in which order and with what; that the
    calibration terminates under every device behaviour and never publishes a
    rate that periodic mode would refuse; that two good windows out of three
    are enough; and that promotion and rollback move one mask bit. *)
From stdpp Require Import gmap.
From S2P Require Import Prelude Frames BumpAlloc Machine Paging Memory Preempt Apic.

#[local] Open Scope Z_scope.

Module ApicSpec.
Import Preempt Apic.

(** ** Arithmetic *)

Lemma land_base_mask msr :
  Z.land msr APIC_BASE_MASK = Z.shiftl (Z.land (Z.shiftr msr 12) (Z.ones 40)) 12.
Proof.
  apply Z.bits_inj'. intros n Hn. rewrite Z.land_spec, Z.shiftl_spec by done.
  change APIC_BASE_MASK with (Z.shiftl (Z.ones 40) 12). rewrite Z.shiftl_spec by done.
  destruct (decide (n < 12)).
  - rewrite !(Z.testbit_neg_r _ (n - 12)) by lia. by rewrite andb_false_r.
  - rewrite Z.land_spec, Z.shiftr_spec by lia. by replace (n - 12 + 12) with n by lia.
Qed.

(** The base that the probe reports is a frame of physical memory. *)
Lemma probe_base edx msr rsdp :
  base (probe edx msr rsdp) `mod` FRAME_SIZE = 0 ∧ 0 ≤ base (probe edx msr rsdp) < phys_lim.
Proof.
  unfold probe. cbn [base]. destruct (_ =? 0); [by vm_compute|].
  rewrite land_base_mask, Z.shiftl_mul_pow2, Z.land_ones by lia.
  pose proof (Z.mod_pos_bound (Z.shiftr msr 12) (2 ^ 40) ltac:(lia)).
  split; [by apply Z_mod_mult|]. unfold phys_lim. lia.
Qed.

Lemma land_bit x n : 0 ≤ n → negb (Z.land x (Z.shiftl 1 n) =? 0) = Z.testbit x n.
Proof.
  intros Hn. rewrite Z.shiftl_1_l. destruct (Z.testbit x n) eqn:E.
  - apply negb_true_iff, Z.eqb_neq. intros Hz.
    assert (Z.testbit (Z.land x (2 ^ n)) n = true) as H
      by (rewrite Z.land_spec, E, Z.pow2_bits_true by done; done).
    by rewrite Hz, Z.bits_0 in H.
  - apply negb_false_iff, Z.eqb_eq, Z.bits_inj'. intros i Hi.
    rewrite Z.land_spec, Z.bits_0, Z.pow2_bits_eqb by done.
    destruct (n =? i) eqn:Ei; [|apply andb_false_r]. apply Z.eqb_eq in Ei. subst. by rewrite E.
Qed.

Lemma median3_sort a b c :
  ∃ lo hi, [a; b; c] ≡ₚ [lo; median3 a b c; hi] ∧ lo ≤ median3 a b c ≤ hi.
Proof.
  unfold median3. destruct (Z.le_ge_cases a b), (Z.le_ge_cases b c), (Z.le_ge_cases a c);
    rewrite ?(Z.min_l a b), ?(Z.min_r a b), ?(Z.max_r a b), ?(Z.max_l a b) by lia;
    match goal with |- context [Z.max ?x (Z.min ?y ?z)] =>
      destruct (Z.min_spec y z) as [[? ->]|[? ->]];
      destruct (Z.max_spec x y) as [[? E1]|[? E1]]; destruct (Z.max_spec x z) as [[? E2]|[? E2]];
      rewrite ?E1, ?E2 end;
    first [exists a, c; split; [solve_Permutation|lia]|exists c, a; split; [solve_Permutation|lia]
          |exists a, b; split; [solve_Permutation|lia]|exists b, a; split; [solve_Permutation|lia]
          |exists b, c; split; [solve_Permutation|lia]|exists c, b; split; [solve_Permutation|lia]].
Qed.

(** The calibration arithmetic: the min-max formula is the middle of the
    three windows in sorted order, it stays in any interval that holds two of
    the three (so one jittered window cannot move it out), and on 32-bit inputs
    [calibrate_ticks] never saturates: it is the exact quotient, zero exactly
    for a zero rate, a zero window or fewer elapsed ticks than the window. *)
Theorem calibration_math :
  (∀ a b c, ∃ lo hi, [a; b; c] ≡ₚ [lo; median3 a b c; hi] ∧ lo ≤ median3 a b c ≤ hi) ∧
  (∀ a b c x y, (x ≤ a ≤ y ∧ x ≤ b ≤ y) ∨ (x ≤ a ≤ y ∧ x ≤ c ≤ y) ∨ (x ≤ b ≤ y ∧ x ≤ c ≤ y) →
     x ≤ median3 a b c ≤ y) ∧
  (∀ d hz n, 0 ≤ d < u32_lim → 0 ≤ hz < u32_lim → 0 < n →
     calibrate_ticks d hz n = (d * (hz `div` 100)) `div` n ∧
     (calibrate_ticks d hz n = 0 ↔ d * (hz `div` 100) < n)).
Proof.
  split_and!; [apply median3_sort|intros a b c x y; unfold median3; lia|].
  intros d hz n Hd Hh Hn.
  assert (0 ≤ d * (hz `div` 100) ≤ u64_max) as Hb.
  { pose proof (Z.div_pos hz 100 ltac:(lia) ltac:(lia)).
    pose proof (Z.div_le_upper_bound hz 100 hz ltac:(lia) ltac:(lia)).
    unfold u32_lim, u64_max, u64_lim in *. nia. }
  assert (calibrate_ticks d hz n = (d * (hz `div` 100)) `div` n) as E.
  { unfold calibrate_ticks, saturating_mul64. rewrite (proj2 (Z.eqb_neq n 0)) by lia.
    rewrite orb_false_r, Z.min_l by lia. destruct (hz =? 0) eqn:E0; [|done].
    bool_to_prop. subst. change (0 `div` 100) with 0. by rewrite Z.mul_0_r, Zdiv_0_l. }
  split; [done|]. rewrite E. split; intros Hz.
  - apply Z.div_small_iff in Hz; lia.
  - apply Z.div_small. lia.
Qed.

(** ** Traces *)

(** The MMIO writes of a trace, oldest first. *)
Definition mmio_writes (tr : list event) : list (Z * Z) :=
  omap (λ e, match e with MmioWrite a v => Some (a, v) | _ => None end) (rev tr).

Definition in_window (win : Z) (e : event) : Prop :=
  match e with
  | MmioWrite a _ | MmioRead a _ => win ≤ a ∧ a + 4 ≤ win + FRAME_SIZE
  | _ => True
  end.

Lemma mmio_writes_app es es' : mmio_writes (es ++ es') = mmio_writes es' ++ mmio_writes es.
Proof. unfold mmio_writes. by rewrite rev_app_distr, omap_app. Qed.

(** A mapped LAPIC window. *)
Definition win_ok (win : Z) : Prop := 0 < win ∧ win + FRAME_SIZE ≤ u64_lim.

Lemma lapic_reg_ok win off : win_ok win → 0 ≤ off < 0x400 → lapic_reg win off = Ok (win + off).
Proof.
  intros [H0 H1] Ho. unfold lapic_reg. rewrite checked_add64_exact; [done|].
  unfold FRAME_SIZE in *. lia.
Qed.

Section clocks.
Context (dev : Devices) {P : Type} `{CP : ChainedPics P}.
Implicit Types k : Kernel (P := P).

(** Only the trace moved, by [es]. *)
Definition only_trace k k' (es : list event) : Prop :=
  LAPIC_VIRT k' = LAPIC_VIRT k ∧ TICKS_PER_10MS k' = TICKS_PER_10MS k ∧
  k_statics k' = k_statics k ∧ PICS k' = PICS k ∧ trace k' = es ++ trace k.

Lemma only_trace_refl k : only_trace k k [].
Proof. done. Qed.

Lemma only_trace_trans k1 k2 k3 es1 es2 :
  only_trace k1 k2 es1 → only_trace k2 k3 es2 → only_trace k1 k3 (es2 ++ es1).
Proof.
  intros (A1 & A2 & A3 & A4 & A5) (B1 & B2 & B3 & B4 & B5).
  split_and!; [congruence..|]. by rewrite B5, A5, app_assoc.
Qed.

(** ** Enabling the APIC *)

(** What [apic::init] leaves in the registers, oldest access first. *)
Definition enable_trace (win : Z) (tr : list event) : list event :=
  let rd a t := MmioRead a (mmio_in dev t a `mod` u32_lim) in
  let t1 := MmioWrite (win + SVR_OFFSET) 0x1FF :: tr in
  let lvt := mmio_in dev t1 (win + LVT_TIMER_OFFSET) `mod` u32_lim in
  let t2 := MmioRead (win + LVT_TIMER_OFFSET) lvt :: t1 in
  let t3 := MmioWrite (win + LVT_TIMER_OFFSET) (Z.lor lvt (Z.shiftl 1 16)) :: t2 in
  let t4 := MmioWrite (win + TPR_OFFSET) 0 :: t3 in
  let t5 := rd (win + ID_OFFSET) t4 :: t4 in
  let t6 := rd (win + VER_OFFSET) t5 :: t5 in
  rd (win + SVR_OFFSET) t6 :: t6.

Lemma enable_spec p win k :
  win_ok win →
  enable dev p win k =
    Ret (Ok (), mkKernel win (TICKS_PER_10MS k) (set_eoi_base (win + EOI_OFFSET) (k_statics k))
                  (PICS k) (enable_trace win (trace k))).
Proof.
  intros Hw. pose proof Hw as [H0 H1]. unfold enable, io_bind, modify, lift, reg, ok.
  rewrite add64_exact by (unfold EOI_OFFSET, FRAME_SIZE in *; ulia).
  rewrite bind_Ret. cbn [k_statics set_virt].
  rewrite !lapic_reg_ok by (done || (split; by vm_compute)). reflexivity.
Qed.

(** [apic::init] on a present, enabled APIC and a free window. *)
Lemma apic_init_ok `{PhysFrames} `{VirtAddrs} {M A : Type} `{PG : Paging M} `{FA : FrameAllocator A}
    p (m : M) (a : A) pr k :
  alloc_inv a → Memory.free_page m Memory.MMIO_WINDOW → (3 ≤ length (pool a))%nat →
  present pr = true → enabled pr = true → base pr `mod` FRAME_SIZE = 0 → 0 ≤ base pr < phys_lim →
  let win := Memory.MMIO_WINDOW in
  ∃ m' a', apic_init dev p m a pr k =
      Ret (Ok (), m', a', mkKernel win (TICKS_PER_10MS k)
        (set_eoi_base (win + EOI_OFFSET) (k_statics k)) (PICS k) (enable_trace win (trace k))) ∧
    alloc_inv a' ∧ mapped m' = <[win := (base pr, Memory.mmio_flags)]> (mapped m).
Proof.
  intros Ha Hfree Hlen Hp He Hal Hb win. unfold apic_init. rewrite Hp, He. cbn [negb].
  destruct (Memory.map_mmio_ok m a (base pr) Ha Hb Hal Hfree Hlen) as (m' & a' & E & Ha' & Hm & _).
  rewrite E, bind_Ret, enable_spec, bind_Ret by (split; by vm_compute).
  by exists m', a'.
Qed.

(** C32.  APIC bring-up: an absent or soft-disabled APIC is refused without a
    single access; otherwise the page that the probe reports is mapped at the
    MMIO window, the window and the EOI address are published, every register
    access stays in the mapped page, and the writes are, in this order, the
    spurious-vector enable, the LVT timer with its mask bit set, and a zero task
    priority. *)
Theorem apic_bring_up `{PhysFrames} `{VirtAddrs} {M A : Type} `{PG : Paging M} `{FA : FrameAllocator A}
    p edx msr rsdp (m : M) (a : A) k :
  alloc_inv a → Memory.free_page m Memory.MMIO_WINDOW → (3 ≤ length (pool a))%nat →
  let pr := probe edx msr rsdp in
  let win := Memory.MMIO_WINDOW in
  (Z.testbit edx 9 = false → apic_init dev p m a pr k =
     Ret (Err "no local APIC present (CPUID bit 9 clear)", m, a, k)) ∧
  (Z.testbit edx 9 = true → Z.testbit msr 11 = false → apic_init dev p m a pr k =
     Ret (Err "APIC soft-disabled (IA32_APIC_BASE bit 11 clear) — refusing to pretend", m, a, k)) ∧
  (Z.testbit edx 9 = true → Z.testbit msr 11 = true →
   ∃ m' a' k' es lvt, apic_init dev p m a pr k = Ret (Ok (), m', a', k') ∧ alloc_inv a' ∧
     mapped m' = <[win := (base pr, Memory.mmio_flags)]> (mapped m) ∧
     LAPIC_VIRT k' = win ∧ EOI_BASE (k_statics k') = win + EOI_OFFSET ∧
     PICS k' = PICS k ∧ TICKS_PER_10MS k' = TICKS_PER_10MS k ∧
     trace k' = es ++ trace k ∧ Forall (in_window win) es ∧
     mmio_writes es = [(win + SVR_OFFSET, 0x1FF); (win + LVT_TIMER_OFFSET, lvt);
                       (win + TPR_OFFSET, 0)] ∧
     Z.testbit lvt 16 = true).
Proof.
  intros Ha Hfree Hlen pr win. destruct (probe_base edx msr rsdp) as [Hal Hb].
  assert (present pr = Z.testbit edx 9) as Hp by (by apply land_bit).
  assert (enabled pr = Z.testbit msr 11) as He by (by apply land_bit).
  split_and!; [unfold apic_init; rewrite Hp; by intros ->|
    unfold apic_init; rewrite Hp, He; by intros -> ->|intros E9 E11].
  destruct (apic_init_ok p m a pr k) as (m' & a' & E & Ha' & Hm); [congruence || done..|]. rewrite E.
  eexists m', a', _, (take 7 (enable_trace win (trace k))), _.
  split_and!; [reflexivity|done|done|reflexivity..| | |].
  - unfold enable_trace, in_window. cbn [take].
    repeat (apply Forall_cons; split; [first [done|split; by vm_compute]|]). by apply Forall_nil.
  - reflexivity.
  - rewrite Z.lor_spec. change (Z.testbit (Z.shiftl 1 16) 16) with true. apply orb_true_r.
Qed.

(** ** Calibration *)

Definition timer_dead : string := "apic: PIT produced no ticks during calibration — timer dead?".
Definition delta_zero : string :=
  "apic: CCR delta is zero — MMIO writes lost (NO_CACHE missing?)".

Definition timer_loads (es : list event) : Prop :=
  Forall (λ e, ∃ v, e = LoadTimer v) es.

Lemma timer_loads_writes es : timer_loads es → mmio_writes es = [] ∧ ∀ win, Forall (in_window win) es.
Proof.
  induction 1 as [|e es [v ->] _ [IH1 IH2]]; [done|]. split.
  - change (LoadTimer v :: es) with ([LoadTimer v] ++ es). by rewrite mmio_writes_app, IH1.
  - intros win. by constructor.
Qed.

(** The wait ends under every timer, dead or alive. *)
Lemma wait_pit_spec start k :
  ∃ r k' es, wait_pit dev start k = Ret (r, k') ∧ only_trace k k' es ∧ timer_loads es ∧
    Z.of_nat (length es) ≤ SPIN_GUARD + 1 ∧
    match r with
    | Ok _ => ∃ tr es', es = LoadTimer (timer_now dev tr) :: es' ∧
        CALIB_PIT_TICKS ≤ wrap64 (timer_now dev tr - start)
    | Err e => e = timer_dead
    end.
Proof.
  set (Inv := λ s : Z * Kernel, 0 ≤ s.1 ≤ SPIN_GUARD ∧
    ∃ es, only_trace k s.2 es ∧ timer_loads es ∧ Z.of_nat (length es) = s.1).
  set (Post := λ r : result unit * Kernel, ∃ es, only_trace k r.2 es ∧ timer_loads es ∧
    Z.of_nat (length es) ≤ SPIN_GUARD + 1 ∧
    match r.1 with
    | Ok _ => ∃ tr es', es = LoadTimer (timer_now dev tr) :: es' ∧
        CALIB_PIT_TICKS ≤ wrap64 (timer_now dev tr - start)
    | Err e => e = timer_dead
    end).
  destruct (iter_pos_total (wait_body dev start) Inv (λ s, SPIN_GUARD - s.1) Post loop_fuel (0, k))
    as ([r k'] & E & es & Ht & Hl & Hn & Hr).
  - intros [spins k1] (Hs & es & Ht & Hl & Hn). cbn [fst snd] in *. unfold wait_body.
    set (v := timer_now dev (trace k1)).
    assert (only_trace k (push k1 (LoadTimer v)) ([LoadTimer v] ++ es)) as Ht'
      by (by eapply only_trace_trans).
    assert (timer_loads ([LoadTimer v] ++ es)) as Hl' by (constructor; [by eexists|done]).
    assert (Z.of_nat (length ([LoadTimer v] ++ es)) = spins + 1) as Hn' by (cbn [app length]; lia).
    destruct (CALIB_PIT_TICKS <=? wrap64 (v - start)) eqn:E1; bool_to_prop.
    { exists ([LoadTimer v] ++ es). split_and!; [done|done|lia|]. by exists (trace k1), es. }
    destruct (SPIN_GUARD <? spins + 1) eqn:E2; bool_to_prop.
    { exists ([LoadTimer v] ++ es). by split_and!; [done|done|lia|]. }
    cbn [fst snd]. split; [|lia]. split; [cbn; lia|]. by exists ([LoadTimer v] ++ es).
  - intros [spins k1] (Hs & _). cbn in *. lia.
  - split; [done|]. exists []. by split_and!; [|constructor|].
  - done.
  - exists r, k', es. unfold wait_pit. by rewrite E.
Qed.

Lemma io_bind_ok {R T} (x : io (P := P) R) (f : R → io T) k a k' :
  x k = Ret (Ok a, k') → io_bind x f k = f a k'.
Proof. intros E. unfold io_bind. by rewrite E. Qed.

Lemma io_bind_err {R T} (x : io (P := P) R) (f : R → io T) k e k' :
  x k = Ret (Err e, k') → io_bind x f k = Ret (Err e, k').
Proof. intros E. unfold io_bind. by rewrite E. Qed.

Lemma reg_ok win off k : win_ok win → 0 ≤ off < 0x400 → reg win off k = Ret (Ok (win + off), k).
Proof. intros. unfold reg. by rewrite lapic_reg_ok. Qed.

Lemma in_window_off win off v :
  0 ≤ off < 0x400 →
  in_window win (MmioWrite (win + off) v) ∧ in_window win (MmioRead (win + off) v).
Proof. intros Ho. unfold in_window, FRAME_SIZE. lia. Qed.

(** The counter read that ends a window. *)
Definition read_delta (win : Z) : io (P := P) Z :=
  io_bind (reg win CCR_OFFSET) (λ ccr, io_bind (read_volatile dev ccr) (λ cur,
    let delta := (0xFFFFFFFF - cur) `mod` u32_lim in
    if delta =? 0 then err delta_zero else ok delta)).

Lemma read_delta_spec win k :
  win_ok win →
  ∃ r cur, let e := MmioRead (win + CCR_OFFSET) cur in
    read_delta win k = Ret (r, push k e) ∧ cur = mmio_in dev (trace k) (win + CCR_OFFSET) `mod` u32_lim ∧
    match r with
    | Ok d => 0 < d < u32_lim ∧ cur = 0xFFFFFFFF - d
    | Err e => e = delta_zero ∧ cur = 0xFFFFFFFF
    end.
Proof.
  intros Hw. unfold read_delta. erewrite io_bind_ok by (apply reg_ok; [done|split; by vm_compute]).
  erewrite io_bind_ok by reflexivity.
  set (cur := mmio_in dev (trace k) (win + CCR_OFFSET) `mod` u32_lim).
  assert (0 ≤ cur < u32_lim) as Hcur by (apply Z.mod_pos_bound; done).
  cbn zeta. rewrite Z.mod_small by (unfold u32_lim in *; lia).
  destruct (0xFFFFFFFF - cur =? 0) eqn:Ez; bool_to_prop; do 2 eexists;
    (split; [reflexivity|]); unfold u32_lim in *; split_and!; (done || lia).
Qed.

(** What one measured window looks like on the bus, newest event first: the
    full count is programmed, the PIT is read until it has advanced by the
    window's ticks, and then the counter is read, [d] below the full count. *)
Definition window_events (win d : Z) (es : list event) : Prop :=
  ∃ v0 v1 ts,
    es = MmioRead (win + CCR_OFFSET) (0xFFFFFFFF - d) :: LoadTimer v1 :: ts ++
         [LoadTimer v0; MmioWrite (win + ICR_OFFSET) 0xFFFFFFFF] ∧
    timer_loads ts ∧ CALIB_PIT_TICKS ≤ wrap64 (v1 - v0) ∧ 0 < d < u32_lim.

(** One window. *)
Lemma calib_round_spec win k :
  win_ok win →
  ∃ r k' es, calib_round dev win k = Ret (r, k') ∧ only_trace k k' es ∧
    mmio_writes es = [(win + ICR_OFFSET, 0xFFFFFFFF)] ∧ Forall (in_window win) es ∧
    Z.of_nat (length es) ≤ SPIN_GUARD + 4 ∧
    match r with
    | Ok d => window_events win d es
    | Err e => e = timer_dead ∨ e = delta_zero
    end.
Proof.
  intros Hw. unfold calib_round.
  erewrite io_bind_ok by (apply reg_ok; [done|split; by vm_compute]).
  erewrite io_bind_ok by reflexivity. erewrite io_bind_ok by reflexivity.
  set (w := MmioWrite (win + ICR_OFFSET) 0xFFFFFFFF).
  set (v0 := timer_now dev (trace (push k w))). set (k2 := push (push k w) (LoadTimer v0)).
  assert (only_trace k k2 [LoadTimer v0; w]) as Ht0 by done.
  destruct (wait_pit_spec v0 k2) as (r & k3 & es & E & Ht & Hl & Hn & Hr).
  destruct (timer_loads_writes es Hl) as [Hwr Hwin].
  pose proof (only_trace_trans _ _ _ _ _ Ht0 Ht) as Ht3.
  assert (mmio_writes (es ++ [LoadTimer v0; w]) = [(win + ICR_OFFSET, 0xFFFFFFFF)]) as Hwr3
    by (by rewrite mmio_writes_app, Hwr).
  assert (Forall (in_window win) (es ++ [LoadTimer v0; w])) as Hwin3.
  { apply Forall_app. split; [done|]. repeat constructor; apply (in_window_off win ICR_OFFSET 0); by vm_compute. }
  assert (Z.of_nat (length (es ++ [LoadTimer v0; w])) ≤ SPIN_GUARD + 3) as Hn3
    by (rewrite length_app; cbn [length]; lia).
  destruct r as [[]|e].
  2:{ erewrite io_bind_err by exact E. do 3 eexists. split_and!; [done|exact Ht3|done|done|lia|by left]. }
  erewrite io_bind_ok by exact E.
  destruct (read_delta_spec win k3 Hw) as (r & cur & E2 & _ & Hr2).
  unfold read_delta, delta_zero in E2. rewrite E2.
  exists r, (push k3 (MmioRead (win + CCR_OFFSET) cur)),
    (MmioRead (win + CCR_OFFSET) cur :: es ++ [LoadTimer v0; w]).
  split_and!; [done| | | |cbn [length]; lia|].
  - apply (only_trace_trans _ k3 _ _ [MmioRead (win + CCR_OFFSET) cur] Ht3). done.
  - change (MmioRead ?a ?b :: ?l) with ([MmioRead a b] ++ l). by rewrite mmio_writes_app, Hwr3.
  - constructor; [|done]. apply (in_window_off win CCR_OFFSET cur). by vm_compute.
  - destruct r as [d|e]; [|by right; apply Hr2]. destruct Hr2 as [? ->].
    destruct Hr as (tr & es' & -> & Hv). apply Forall_cons in Hl as [_ Hl].
    by exists v0, (timer_now dev tr), es'.
Qed.

Definition rate_zero : string := "apic: calibrated rate is zero — refusing to program it".

(** The published state after the windows [ds], oldest first. *)
Definition windows (win : Z) k k' (es : list event) (ds : list Z) : Prop :=
  only_trace k k' es ∧ Forall (in_window win) es ∧
  Z.of_nat (length es) ≤ 1 + (SPIN_GUARD + 4) * Z.of_nat (length ds) ∧
  mmio_writes es = (win + DCR_OFFSET, 3) :: replicate (length ds) (win + ICR_OFFSET, 0xFFFFFFFF) ∧
  ∃ ws, es = concat (reverse ws) ++ [MmioWrite (win + DCR_OFFSET) 3] ∧
    Forall2 (window_events win) ds ws.

(** One more window, or a failure that leaves the rate alone. *)
Lemma windows_round win k k1 es ds :
  win_ok win → windows win k k1 es ds →
  ∃ r k2 es2, calib_round dev win k1 = Ret (r, k2) ∧
    match r with
    | Ok d => windows win k k2 es2 (ds ++ [d])
    | Err e => only_trace k k2 es2 ∧ Forall (in_window win) es2 ∧ (e = timer_dead ∨ e = delta_zero)
    end.
Proof.
  intros Hw (Ht & Hin & Hn & Hwr & Hds).
  destruct (calib_round_spec win k1 Hw) as (r & k2 & es' & E & Ht' & Hwr' & Hin' & Hn' & Hr).
  exists r, k2, (es' ++ es). split; [done|].
  assert (only_trace k k2 (es' ++ es)) by (by eapply only_trace_trans).
  assert (Forall (in_window win) (es' ++ es)) by (by apply Forall_app).
  destruct r as [d|e]; [|done]. split_and!; [done|done| | |].
  - rewrite !length_app. cbn [length]. lia.
  - rewrite mmio_writes_app, Hwr, Hwr', length_app, replicate_add. done.
  - destruct Hds as (ws & -> & Hws). exists (ws ++ [es']). split.
    + rewrite reverse_snoc. cbn [concat]. by rewrite app_assoc.
    + apply Forall2_app; [done|]. by constructor.
Qed.

Lemma windows_start win k :
  windows win k (push k (MmioWrite (win + DCR_OFFSET) 3)) [MmioWrite (win + DCR_OFFSET) 3] [].
Proof.
  split_and!; [done| |cbn; lia|done|by exists []]. apply Forall_singleton.
  apply (in_window_off win DCR_OFFSET 3). by vm_compute.
Qed.

(** Three windows, one after the other. *)
Lemma three_windows win es a b c :
  (∃ ws, es = concat (reverse ws) ++ [MmioWrite (win + DCR_OFFSET) 3] ∧
     Forall2 (window_events win) [a; b; c] ws) →
  ∃ wa wb wc, es = wc ++ wb ++ wa ++ [MmioWrite (win + DCR_OFFSET) 3] ∧
    window_events win a wa ∧ window_events win b wb ∧ window_events win c wc ∧
    0 < a < u32_lim ∧ 0 < b < u32_lim ∧ 0 < c < u32_lim.
Proof.
  intros (ws & -> & H). apply Forall2_cons_inv_l in H as (wa & ws1 & Ha & H & ->).
  apply Forall2_cons_inv_l in H as (wb & ws2 & Hb & H & ->).
  apply Forall2_cons_inv_l in H as (wc & ws3 & Hc & H & ->). apply Forall2_nil_inv_l in H as ->.
  exists wa, wb, wc. split; [cbn; by rewrite app_nil_r, <- !app_assoc|].
  pose proof Ha as (? & ? & ? & _ & _ & _ & ?). pose proof Hb as (? & ? & ? & _ & _ & _ & ?).
  by pose proof Hc as (? & ? & ? & _ & _ & _ & ?).
Qed.

Lemma calibrate_rate a b c :
  0 < a < u32_lim → 0 < b < u32_lim → 0 < c < u32_lim →
  calibrate_ticks (median3 a b c) PIT_RATE CALIB_PIT_TICKS = median3 a b c `div` 10 ∧
  0 ≤ median3 a b c `div` 10 < u32_lim.
Proof.
  intros Ha Hb Hc. assert (0 < median3 a b c < u32_lim) as Hm by (unfold median3; lia).
  split; [|split; [apply Z.div_pos; lia|apply Z.div_lt_upper_bound; lia]].
  unfold calibrate_ticks, saturating_mul64, PIT_RATE, CALIB_PIT_TICKS.
  cbn [Z.eqb orb]. change (100 `div` 100) with 1. rewrite Z.mul_1_r, Z.min_l; [done|].
  unfold u32_lim, u64_max, u64_lim in *. lia.
Qed.

Lemma start_periodic_ok k :
  win_ok (LAPIC_VIRT k) → 0 < TICKS_PER_10MS k < u32_lim →
  start_periodic k = Ret (Ok (TICKS_PER_10MS k),
    push (push k (MmioWrite (LAPIC_VIRT k + LVT_TIMER_OFFSET) 0x200EF))
      (MmioWrite (LAPIC_VIRT k + ICR_OFFSET) (TICKS_PER_10MS k))).
Proof.
  intros Hw Hr. unfold start_periodic. erewrite io_bind_ok by reflexivity.
  rewrite (proj2 (Z.eqb_neq _ _)) by (destruct Hw; lia). erewrite io_bind_ok by reflexivity.
  rewrite (proj2 (Z.eqb_neq _ _)), (proj2 (Z.ltb_ge _ _)) by lia. cbn [orb].
  erewrite io_bind_ok by (apply reg_ok; [done|split; by vm_compute]).
  erewrite io_bind_ok by reflexivity.
  erewrite io_bind_ok by (apply reg_ok; [done|split; by vm_compute]).
  reflexivity.
Qed.

(** Either a window failed, or three windows gave the rate. *)
Lemma calibrate_cases k :
  win_ok (LAPIC_VIRT k) →
  let win := LAPIC_VIRT k in
  (∃ e k' es, calibrate dev k = Ret (Err e, k') ∧ only_trace k k' es ∧
     Forall (in_window win) es ∧ e ∈ [timer_dead; delta_zero; rate_zero]) ∨
  (∃ a b c k1 es, windows win k k1 es [a; b; c] ∧ 0 < median3 a b c `div` 10 ∧
     calibrate dev k = Ret (Ok (median3 a b c `div` 10), set_rate k1 (median3 a b c `div` 10))).
Proof.
  intros Hw win. unfold calibrate. erewrite io_bind_ok by reflexivity.
  rewrite (proj2 (Z.eqb_neq _ _)) by (destruct Hw; lia). fold win.
  erewrite io_bind_ok by (apply reg_ok; [done|split; by vm_compute]).
  erewrite io_bind_ok by reflexivity.
  assert (Hmsg : ∀ e, e = timer_dead ∨ e = delta_zero → e ∈ [timer_dead; delta_zero; rate_zero])
    by (intros e [-> | ->]; [left|right; left]).
  destruct (windows_round win k _ _ _ Hw (windows_start win k)) as (r & k1 & es1 & E1 & H1).
  destruct r as [a|e].
  2:{ erewrite io_bind_err by exact E1. left. destruct H1 as (? & ? & ?). eauto 10. }
  erewrite io_bind_ok by exact E1.
  destruct (windows_round win k k1 es1 [a] Hw H1) as (r & k2 & es2 & E2 & H2).
  destruct r as [b|e].
  2:{ erewrite io_bind_err by exact E2. left. destruct H2 as (? & ? & ?). eauto 10. }
  erewrite io_bind_ok by exact E2.
  destruct (windows_round win k k2 es2 [a; b] Hw H2) as (r & k3 & es3 & E3 & H3).
  destruct r as [c|e].
  2:{ erewrite io_bind_err by exact E3. left. destruct H3 as (? & ? & ?). eauto 10. }
  erewrite io_bind_ok by exact E3.
  pose proof H3 as (Ht & Hin & _ & _ & Hds).
  destruct (three_windows _ _ _ _ _ Hds) as (_ & _ & _ & _ & _ & _ & _ & Ha & Hb & Hc).
  destruct (calibrate_rate a b c Ha Hb Hc) as [-> Hr].
  destruct (median3 a b c `div` 10 =? 0) eqn:Ez; bool_to_prop.
  - left. exists rate_zero, k3, es3. split_and!; [done|done|done|by right; right; left].
  - right. exists a, b, c, k3, es3. split_and!; [done|lia|done].
Qed.


(** ** Live and dead clocks *)

(** The trace after [n] more loads of the PIT counter. *)
Fixpoint spin (n : nat) (tr : list event) : list event :=
  match n with
  | O => tr
  | S n' => let t := spin n' tr in LoadTimer (timer_now dev t) :: t
  end.

(** Boot makes fewer device observations than this; clocks need not run forever. *)
Definition horizon : Z := 1000000000.
Definition early (tr : list event) : Prop := Z.of_nat (length tr) ≤ horizon.

(** From any early moment the PIT counter advances by a window within the guard. *)
Definition pit_live : Prop := ∀ tr, early tr →
  let v := timer_now dev tr in
  ∃ n, Z.of_nat n ≤ SPIN_GUARD ∧ CALIB_PIT_TICKS ≤ wrap64 (timer_now dev (spin n (LoadTimer v :: tr)) - v).

(** The LAPIC counter has moved by ten or more whenever it is read. *)
Definition ccr_live (win : Z) : Prop := ∀ tr,
  mmio_in dev tr (win + CCR_OFFSET) `mod` u32_lim ≤ 0xFFFFFFFF - 10.

Lemma wait_pit_live start k n :
  Z.of_nat n ≤ SPIN_GUARD → CALIB_PIT_TICKS ≤ wrap64 (timer_now dev (spin n (trace k)) - start) →
  ∃ k', wait_pit dev start k = Ret (Ok (), k').
Proof.
  intros Hn Hlive.
  set (Inv := λ s : Z * Kernel (P := P), 0 ≤ s.1 ≤ Z.of_nat n ∧ trace s.2 = spin (Z.to_nat s.1) (trace k)).
  destruct (iter_pos_total (wait_body dev start) Inv (λ s, Z.of_nat n - s.1)
    (λ r, r.1 = Ok ()) loop_fuel (0, k)) as ([r k'] & E & Hr).
  - intros [spins k1] [Hs Ht]. cbn [fst snd] in *. unfold wait_body. rewrite Ht.
    destruct (CALIB_PIT_TICKS <=? _) eqn:E1; bool_to_prop; [done|].
    assert (spins ≠ Z.of_nat n) as Hne by (intros ->; rewrite Nat2Z.id in E1; lia).
    rewrite (proj2 (Z.ltb_ge _ _)) by lia. cbn [fst snd]. split; [|lia]. split; [cbn; lia|].
    cbn [fst snd push trace]. rewrite Ht, Z.add_1_r, Z2Nat.inj_succ by lia. done.
  - intros [spins k1] [Hs _]. cbn in *. lia.
  - split; [cbn; lia|done].
  - cbn. unfold SPIN_GUARD in Hn. unfold loop_fuel. lia.
  - cbn in Hr. subst r. exists k'. unfold wait_pit. by rewrite E.
Qed.

Lemma calib_round_live win k :
  win_ok win → pit_live → ccr_live win → Z.of_nat (length (trace k)) < horizon →
  ∃ d k', calib_round dev win k = Ret (Ok d, k') ∧ 10 ≤ d < u32_lim ∧
    Z.of_nat (length (trace k')) ≤ Z.of_nat (length (trace k)) + SPIN_GUARD + 4.
Proof.
  intros Hw Hpit Hccr Hk.
  destruct (calib_round_spec win k Hw) as (r0 & k0 & es0 & E0 & (_ & _ & _ & _ & Ht0) & _ & _ & Hn0 & _).
  assert (Z.of_nat (length (trace k0)) ≤ Z.of_nat (length (trace k)) + SPIN_GUARD + 4) as Hlen
    by (rewrite Ht0, length_app; lia).
  unfold calib_round in *. revert E0.
  erewrite io_bind_ok by (apply reg_ok; [done|split; by vm_compute]).
  erewrite io_bind_ok by reflexivity. erewrite io_bind_ok by reflexivity.
  set (k1 := push k (MmioWrite (win + ICR_OFFSET) 0xFFFFFFFF)).
  destruct (Hpit (trace k1)) as (n & Hn & Hlive); [unfold early; cbn [k1 push trace length]; lia|].
  destruct (wait_pit_live (timer_now dev (trace k1)) (push k1 (LoadTimer (timer_now dev (trace k1)))) n Hn Hlive)
    as [k2 E]. erewrite io_bind_ok by exact E.
  destruct (read_delta_spec win k2 Hw) as (r & cur & E2 & Hcur & Hr).
  unfold read_delta, delta_zero in E2. rewrite E2. specialize (Hccr (trace k2)). rewrite <- Hcur in Hccr.
  destruct r as [d|e]; [|lia]. intros [= <- <-]. do 2 eexists. split; [done|]. split; [lia|done].
Qed.

Lemma calib_round_dead win k :
  win_ok win → (∀ tr tr', timer_now dev tr = timer_now dev tr') →
  ∃ k', calib_round dev win k = Ret (Err timer_dead, k').
Proof.
  intros Hw Hdead. unfold calib_round.
  erewrite io_bind_ok by (apply reg_ok; [done|split; by vm_compute]).
  erewrite io_bind_ok by reflexivity. erewrite io_bind_ok by reflexivity.
  set (k1 := push k (MmioWrite (win + ICR_OFFSET) 0xFFFFFFFF)). set (v := timer_now dev (trace k1)).
  destruct (wait_pit_spec v (push k1 (LoadTimer v))) as (r & k' & es & E & _ & _ & _ & Hr).
  destruct r as [[]|e].
  - destruct Hr as (tr & _ & _ & Hr). unfold v in Hr. rewrite (Hdead tr (trace k1)), Z.sub_diag in Hr.
    by vm_compute in Hr.
  - subst e. exists k'. by apply io_bind_err.
Qed.

Lemma calibrate_live k :
  win_ok (LAPIC_VIRT k) → pit_live → ccr_live (LAPIC_VIRT k) →
  Z.of_nat (length (trace k)) ≤ horizon `div` 2 →
  ∃ rate k', calibrate dev k = Ret (Ok rate, k').
Proof.
  intros Hw Hpit Hccr Hlen. change (horizon `div` 2) with 500000000 in Hlen. set (win := LAPIC_VIRT k) in *.
  unfold calibrate. erewrite io_bind_ok by reflexivity.
  rewrite (proj2 (Z.eqb_neq _ _)) by (destruct Hw; lia). fold win.
  erewrite io_bind_ok by (apply reg_ok; [done|split; by vm_compute]).
  erewrite io_bind_ok by reflexivity. set (k0 := push k _).
  assert (Z.of_nat (length (trace k0)) ≤ 500000001) as Hl0 by (cbn [k0 push trace length]; lia).
  destruct (calib_round_live win k0 Hw Hpit Hccr) as (a & k1 & E1 & Ha & Hl1);
    [unfold horizon; lia|]. unfold SPIN_GUARD in Hl1.
  destruct (calib_round_live win k1 Hw Hpit Hccr) as (b & k2 & E2 & Hb & Hl2);
    [unfold horizon; lia|]. unfold SPIN_GUARD in Hl2.
  destruct (calib_round_live win k2 Hw Hpit Hccr) as (c & k3 & E3 & Hc & _);
    [unfold horizon; lia|].
  erewrite io_bind_ok by exact E1. erewrite io_bind_ok by exact E2. erewrite io_bind_ok by exact E3.
  destruct (calibrate_rate a b c) as [-> Hr]; [lia..|].
  assert (1 ≤ median3 a b c `div` 10) by (apply Z.div_le_lower_bound; unfold median3; lia).
  rewrite (proj2 (Z.eqb_neq _ _)) by lia. do 2 eexists. reflexivity.
Qed.

Lemma calibrate_dead k :
  win_ok (LAPIC_VIRT k) → (∀ tr tr', timer_now dev tr = timer_now dev tr') →
  ∃ k', calibrate dev k = Ret (Err timer_dead, k').
Proof.
  intros Hw Hdead. set (win := LAPIC_VIRT k) in *. unfold calibrate. erewrite io_bind_ok by reflexivity.
  rewrite (proj2 (Z.eqb_neq _ _)) by (destruct Hw; lia). fold win.
  erewrite io_bind_ok by (apply reg_ok; [done|split; by vm_compute]).
  erewrite io_bind_ok by reflexivity. set (k0 := push k _).
  destruct (calib_round_dead win k0 Hw Hdead) as [k' E]. exists k'. by apply io_bind_err.
Qed.

(** The state that a successful calibration leaves. *)
Lemma calibrate_Ok k rate k' :
  win_ok (LAPIC_VIRT k) → calibrate dev k = Ret (Ok rate, k') →
  ∃ es, 0 < rate < u32_lim ∧ TICKS_PER_10MS k' = rate ∧ LAPIC_VIRT k' = LAPIC_VIRT k ∧
    PICS k' = PICS k ∧ k_statics k' = k_statics k ∧ trace k' = es ++ trace k ∧
    Z.of_nat (length es) ≤ 1 + (SPIN_GUARD + 4) * 3.
Proof.
  intros Hw E. destruct (calibrate_cases k Hw) as [(e & k1 & es & E' & _)
    |(a & b & c & k1 & es & ((H1 & H2 & H3 & H4 & H5) & _ & Hn & _ & Hds) & Hpos & E')].
  { congruence. }
  rewrite E' in E. injection E as <- <-.
  destruct (three_windows _ _ _ _ _ Hds) as (_ & _ & _ & _ & _ & _ & _ & Ha & Hb & Hc).
  destruct (calibrate_rate a b c Ha Hb Hc) as [_ Hr].
  exists es. split_and!; (done || lia).
Qed.

(** C17.  Calibration returns under every device behaviour, dead clocks
    included, and then either has stored the rate it returns, a nonzero 32-bit
    value, or has left the stored rate alone.  It tells a live clock from a dead
    one: if it is called early enough, the PIT advances by a window within the
    spin guard throughout boot and the LAPIC counter moves by ten or more, it
    succeeds; if the PIT counter never moves, it reports the dead timer. *)
Theorem calibrate_tells_live_from_dead k :
  win_ok (LAPIC_VIRT k) →
  ∃ r k', calibrate dev k = Ret (r, k') ∧
    match r with
    | Ok rate => TICKS_PER_10MS k' = rate ∧ 0 < rate < u32_lim
    | Err e => TICKS_PER_10MS k' = TICKS_PER_10MS k ∧ e ∈ [timer_dead; delta_zero; rate_zero]
    end ∧
    (Z.of_nat (length (trace k)) ≤ horizon `div` 2 → pit_live → ccr_live (LAPIC_VIRT k) →
     ∃ rate, r = Ok rate) ∧
    ((∀ tr tr', timer_now dev tr = timer_now dev tr') → r = Err timer_dead).
Proof.
  intros Hw. assert (∃ r k', calibrate dev k = Ret (r, k')) as (r & k' & E).
  { destruct (calibrate_cases k Hw) as [(? & ? & ? & E & _)|(? & ? & ? & ? & ? & _ & _ & E)]; eauto. }
  exists r, k'. split_and!; [done| | |].
  - destruct r as [rate|e].
    { by destruct (calibrate_Ok k rate k' Hw E) as (es & ? & ? & _). }
    destruct (calibrate_cases k Hw) as [(e' & k1 & es & E' & (_ & H2 & _) & _ & He)
      |(? & ? & ? & ? & ? & _ & _ & E')]; rewrite E in E'; [|done]. by injection E' as <- <-.
  - intros Hn Hp Hc. destruct (calibrate_live k Hw Hp Hc Hn) as (rate & k1 & E1).
    exists rate. congruence.
  - intros Hd. destruct (calibrate_dead k Hw Hd) as [k1 E1]. congruence.
Qed.

(** ** Promotion and rollback *)

(** A fact about bytes, by checking all of them. *)
Lemma byte_check (f : Z → bool) a :
  0 ≤ a < 256 → forallb f (Z.of_nat <$> seq 0 256) = true → f a = true.
Proof.
  intros Ha Hf. rewrite forallb_forall in Hf. apply Hf, list_elem_of_In, list_elem_of_fmap.
  exists (Z.to_nat a). rewrite Z2Nat.id by lia. split; [done|]. apply elem_of_seq. lia.
Qed.

Definition mask_facts (a : Z) : bool :=
  let up := Z.lor a 1 in
  let down := Z.land a 0xFE in
  (0 <=? up) && (up <? 256) && (0 <=? down) && (down <? 256) &&
  (Z.land up 0xFE =? down) && Z.odd up && negb (Z.odd down) &&
  (up `div` 2 =? a `div` 2) && (down `div` 2 =? a `div` 2) &&
  (negb (negb (Z.odd a)) || (down =? a)).

Lemma mask_byte a : 0 ≤ a < 256 → mask_facts a = true.
Proof. intros Ha. apply byte_check; [done|]. by vm_compute. Qed.

Lemma promote_rollback_masks (s : P) :
  let m := read_masks s in
  read_masks (promote_masks s) = (Z.lor m.1 1, m.2) ∧
  read_masks (rollback_masks s) = (Z.land m.1 0xFE, m.2) ∧
  read_masks (rollback_masks (promote_masks s)) = (Z.land m.1 0xFE, m.2).
Proof.
  cbn zeta. destruct (masks_u8 s) as [H1 H2]. pose proof (mask_byte _ H1) as Hm.
  unfold mask_facts in Hm. cbn zeta in Hm. bool_to_prop.
  assert (read_masks (promote_masks s) = (Z.lor (read_masks s).1 1, (read_masks s).2)) as E
    by (unfold promote_masks; rewrite read_write_masks by (done || lia); done).
  split_and!; [done|unfold rollback_masks; by rewrite read_write_masks by (done || lia)|].
  unfold rollback_masks. rewrite E. cbn [fst snd]. rewrite read_write_masks by (done || lia).
  by f_equal.
Qed.

(** Promotion masks exactly IRQ0 and rollback undoes it: with the window
    mapped and a rate published, [promote] sets bit 0 of the master mask and
    moves no other bit of either mask; [rollback_to_pit] clears exactly that bit,
    and restores the masks if IRQ0 was unmasked before; without a window or a
    rate [promote] refuses and changes nothing. *)
Theorem promote_rollback_inverse k :
  let m := read_masks (PICS k) in
  (LAPIC_VIRT k = 0 ∨ TICKS_PER_10MS k = 0 → ∃ e, promote k = Ret (Err e, k)) ∧
  (LAPIC_VIRT k ≠ 0 → TICKS_PER_10MS k ≠ 0 →
   ∃ k1 k2, promote k = Ret (Ok (), k1) ∧ rollback_to_pit k1 = Ret (Ok (), k2) ∧
     trace k2 = trace k ∧ k_statics k2 = k_statics k ∧
     Z.odd (read_masks (PICS k1)).1 = true ∧ (read_masks (PICS k1)).1 `div` 2 = m.1 `div` 2 ∧
     Z.odd (read_masks (PICS k2)).1 = false ∧ (read_masks (PICS k2)).1 `div` 2 = m.1 `div` 2 ∧
     (read_masks (PICS k1)).2 = m.2 ∧ (read_masks (PICS k2)).2 = m.2 ∧
     (Z.odd m.1 = false → read_masks (PICS k2) = m)).
Proof.
  intros m. unfold promote. erewrite io_bind_ok by reflexivity. split.
  - destruct (LAPIC_VIRT k =? 0) eqn:E1; [by eexists|]. intros [?|Hr]; [bool_to_prop; done|].
    erewrite io_bind_ok by reflexivity. rewrite Hr. by eexists.
  - intros Hv Hr. rewrite (proj2 (Z.eqb_neq _ _) Hv). erewrite io_bind_ok by reflexivity.
    rewrite (proj2 (Z.eqb_neq _ _) Hr). destruct (promote_rollback_masks (PICS k)) as (Ep & _ & Er).
    destruct (masks_u8 (PICS k)) as [H1 H2]. pose proof (mask_byte _ H1) as Hm.
    unfold mask_facts in Hm. cbn zeta in Hm. apply andb_true_iff in Hm as [Hm Hsame]. bool_to_prop.
    do 2 eexists. split; [reflexivity|]. split; [reflexivity|].
    cbn [PICS set_pics trace k_statics]. rewrite Ep, Er. cbn [fst snd].
    split_and!; try done. intros Hodd. unfold m in *. rewrite Hodd in Hsame.
    destruct Hsame as [?|Hsame]; [done|]. apply Z.eqb_eq in Hsame. rewrite Hsame. by destruct (read_masks (PICS k)).
Qed.

Lemma timer_init_ok p k :
  ∃ es, length es = 3%nat ∧ timer_init p false k = Ret (Ok (), mkKernel (LAPIC_VIRT k) (TICKS_PER_10MS k) (k_statics k)
    (rollback_masks (PICS k)) (es ++ trace k)).
Proof. eexists [_; _; _]. split; [done|]. destruct p; reflexivity. Qed.

(** Through boot only the timer line is ever open: after [interrupts::init]
    and [timer::init] (interrupts off) every line but IRQ0 is masked and the PIT
    has been given mode 3 and a divisor, low byte first, that is the clock over
    100 Hz rounded down; promotion then masks the last open line, so the keyboard
    line is masked throughout.  With interrupts on, the debug assertion of
    [timer::init] stops a checked build. *)
Theorem pic_masks_through_boot p k :
  ∃ k1 k2 lo hi, interrupts_init k = Ret (Ok (), k1) ∧ read_masks (PICS k1) = (0xFF, 0xFF) ∧
    timer_init p false k1 = Ret (Ok (), k2) ∧ read_masks (PICS k2) = (0xFE, 0xFF) ∧
    read_masks (promote_masks (PICS k2)) = (0xFF, 0xFF) ∧
    trace k2 = [PortWrite PIT_CH0 hi; PortWrite PIT_CH0 lo; PortWrite PIT_CMD 0x36] ++ trace k1 ∧
    0 ≤ lo < 256 ∧ 0 ≤ hi < 256 ∧ lo + 256 * hi = PIT_CLOCK `div` TARGET_HZ ∧
    timer_init Dev true k1 =
      Panic "timer::init must run with interrupts disabled (PICS lock is not IRQ-safe)".
Proof.
  eexists _, _, (Z.land (PIT_CLOCK `div` TARGET_HZ) 0xFF), (Z.shiftr (PIT_CLOCK `div` TARGET_HZ) 8).
  split; [reflexivity|]. set (k1 := set_pics k _).
  assert (read_masks (PICS k1) = (0xFF, 0xFF)) as E1 by (cbn; by rewrite read_write_masks).
  assert (read_masks (rollback_masks (PICS k1)) = (0xFE, 0xFF)) as E2.
  { destruct (promote_rollback_masks (PICS k1)) as (_ & -> & _). by rewrite E1. }
  destruct (promote_rollback_masks (rollback_masks (PICS k1))) as (E3 & _). rewrite E2 in E3.
  split; [done|]. split; [destruct p; reflexivity|].
  split; [exact E2|]. split; [exact E3|]. split; [reflexivity|].
  split_and!; by vm_compute.
Qed.
End clocks.

(** ** Witnesses *)

(** Two mask registers. *)
#[export] Instance mask_pair_pics : ChainedPics (Z * Z).
Proof.
  refine {|
    read_masks := λ s : Z * Z, (s.1 `mod` 256, s.2 `mod` 256);
    write_masks := λ (_ : Z * Z) a b, (a, b);
    pics_initialize := λ s, s;
    notify_end_of_interrupt := λ s _, s |}.
  - intros s a b Ha Hb. cbn. by rewrite !Z.mod_small.
  - intros s. cbn. split; by apply Z.mod_pos_bound.
  - done.
Defined.

(** Ten PIT ticks between loads, and a LAPIC counter that ran down by 5000. *)
Definition quick_dev : Devices :=
  mkDevices (λ _ _, 0xFFFFFFFF - 5000) (λ tr, wrap64 (10 * Z.of_nat (length tr))) (λ _, 0).
Definition quick_kernel : Kernel (P := Z * Z) :=
  mkKernel Memory.MMIO_WINDOW 0 statics_init (0xFE, 0xFF) [].

Lemma quick_win : win_ok (LAPIC_VIRT quick_kernel).
Proof. split; by vm_compute. Qed.

Lemma calibration_math_witness :
  995 ≤ median3 1000 40000 1003 ≤ 1005 ∧ calibrate_ticks 5000 100 10 = 500.
Proof.
  split.
  - apply (proj1 (proj2 calibration_math)). lia.
  - rewrite (proj1 (proj2 (proj2 calibration_math) 5000 100 10 ltac:(by vm_compute)
      ltac:(by vm_compute) ltac:(by vm_compute))). by vm_compute.
Defined.

Lemma apic_bring_up_witness :
  ∃ m' a' k', apic_init (P := Z * Z) (FA := Bump.bump_FrameAllocator) quick_dev Dev Memory.no_pages
    Memory.small_bump (probe 0x200 0xFEE00900 None) quick_kernel = Ret (Ok (), m', a', k').
Proof.
  destruct (apic_bring_up quick_dev (P := Z * Z) (FA := Bump.bump_FrameAllocator) Dev 0x200 0xFEE00900 None
    Memory.no_pages Memory.small_bump quick_kernel) as (_ & _ & H).
  - apply Bump.bump_new_inv, Memory.small_map_ok.
  - split; [apply lookup_empty|done].
  - apply Nat.leb_le. by vm_compute.
  - destruct H as (m' & a' & k' & es & lvt & E & _); [done|done|]. exists m', a', k'. exact E.
Defined.


Lemma calibrate_tells_live_from_dead_witness :
  (∃ rate k', calibrate quick_dev quick_kernel = Ret (Ok rate, k') ∧ TICKS_PER_10MS k' = rate) ∧
  ∃ k', calibrate (mkDevices (λ _ _, 0) (λ _, 7) (λ _, 0)) quick_kernel = Ret (Err timer_dead, k').
Proof.
  split.
  - destruct (calibrate_tells_live_from_dead quick_dev quick_kernel quick_win) as (r & k' & E & Hr & Hl & _).
    destruct Hl as [rate ->]; [by vm_compute| | |by exists rate, k'; destruct Hr].
    + intros tr _. exists 0%nat. split; [by vm_compute|]. cbn [quick_dev timer_now spin length].
      unfold wrap64. rewrite <- Zminus_mod.
      replace (10 * Z.of_nat (S (length tr)) - 10 * Z.of_nat (length tr)) with 10 by lia. by vm_compute.
    + intros tr. by vm_compute.
  - destruct (calibrate_tells_live_from_dead (mkDevices (λ _ _, 0) (λ _, 7) (λ _, 0))
      quick_kernel quick_win) as (r & k' & E & _ & _ & Hd).
    exists k'. by rewrite E, Hd.
Defined.

Lemma promote_rollback_inverse_witness :
  ∃ k1 k2, promote (set_rate quick_kernel 500) = Ret (Ok (), k1) ∧
    rollback_to_pit k1 = Ret (Ok (), k2) ∧ read_masks (PICS k2) = (0xFE, 0xFF).
Proof.
  destruct (proj2 (promote_rollback_inverse (set_rate quick_kernel 500)))
    as (k1 & k2 & E1 & E2 & _ & _ & _ & _ & _ & _ & _ & _ & H); [by vm_compute|by vm_compute|].
  exists k1, k2. split_and!; [exact E1|exact E2|]. rewrite H by done. by vm_compute.
Defined.

End ApicSpec.
