(* ===== verification/Irq.v ===== *)
(** * Interrupt handlers and the PIC lock ([kernel/src/idt.rs],
      [kernel/src/interrupts.rs], [kernel/src/syscall.rs])

    The interrupt table, the handlers, and the one lock they share with the main
    code: [PICS] is a spinlock that is not interrupt-safe, so a handler that
    fires while the main code holds it spins forever.  The read-modify-write
    sections of [apic::promote], [apic::rollback_to_pit] and [timer::init] are
    executed action by action, with interrupts delivered between any two. *)
From stdpp Require Import gmap.
From S2P Require Import Prelude Frames Machine Paging Memory Preempt PreemptStub.
From S2P Require Import Apic ApicSpec.

#[local] Open Scope Z_scope.

Module Irq.
Import Preempt Stub Apic ApicSpec.

(** ** Vectors and the table *)

Definition TIMER_VECTOR : Z := 32.
Definition KEYBOARD_VECTOR : Z := 33.
Definition SYSCALL_VECTOR : Z := 0x80.
Definition LAPIC_TIMER_VECTOR : Z := 0xEF.
Definition LAPIC_ERROR_VECTOR : Z := 0xFE.
Definition SPURIOUS_APIC_VECTOR : Z := 0xFF.
Definition SPURIOUS_PIC_MASTER_VECTOR : Z := 39.
Definition SPURIOUS_PIC_SLAVE_VECTOR : Z := 47.
Definition PIC_1_OFFSET : Z := 32.
Definition PIC_2_OFFSET : Z := PIC_1_OFFSET + 8.

Inductive Handler :=
| breakpoint_handler | double_fault_handler | page_fault_handler | gp_handler
| stack_segment_handler | invalid_opcode_handler | divide_error_handler
| timer_handler | keyboard_handler | syscall_stub_handler | preempt_stub_entry
| apic_error_handler | spurious_handler | spurious_pic_master_handler
| spurious_pic_slave_handler.

(** The [lazy_static] table; exception vectors by their architectural numbers. *)
Definition IDT : list (Z * Handler) :=
  [ (3, breakpoint_handler); (8, double_fault_handler); (14, page_fault_handler);
    (13, gp_handler); (12, stack_segment_handler); (6, invalid_opcode_handler);
    (0, divide_error_handler);
    (TIMER_VECTOR, timer_handler); (KEYBOARD_VECTOR, keyboard_handler);
    (SYSCALL_VECTOR, syscall_stub_handler); (LAPIC_TIMER_VECTOR, preempt_stub_entry);
    (LAPIC_ERROR_VECTOR, apic_error_handler); (SPURIOUS_APIC_VECTOR, spurious_handler);
    (SPURIOUS_PIC_MASTER_VECTOR, spurious_pic_master_handler);
    (SPURIOUS_PIC_SLAVE_VECTOR, spurious_pic_slave_handler) ].

Definition idt_entry (v : Z) : option Handler :=
  (λ x, x.2.2) <$> list_find (λ e : Z * Handler, e.1 = v) IDT.

(** ** The mask-updating routines *)

Inductive routine := Promote | Rollback | TimerInit.

#[export] Instance routine_eq_dec : EqDecision routine.
Proof. solve_decision. Defined.

(** ** Handlers *)
Section irq.
Context {P : Type} `{CP : ChainedPics P}.

Record IrqState := mkIrq {
  TIMER_TICKS : Z;
  SYSCALL_HITS : Z;
  SPURIOUS_HITS : Z;
  pics_locked : bool;             (* the [spin::Mutex] around [PICS] *)
  kern : Kernel (P := P)
}.

(** [PICS.lock()], an operation, and the guard's drop; [None]: the lock is held
    by the code below and the handler spins forever. *)
Definition with_pics (f : P → P) (s : IrqState) : option IrqState :=
  if pics_locked s then None
  else Some (mkIrq (TIMER_TICKS s) (SYSCALL_HITS s) (SPURIOUS_HITS s) false
               (set_pics (kern s) (f (PICS (kern s))))).

Definition count_spurious (s : IrqState) : IrqState :=
  mkIrq (TIMER_TICKS s) (SYSCALL_HITS s) (wrap64 (SPURIOUS_HITS s + 1)) (pics_locked s) (kern s).

(** [apic::eoi] with its error logged or ignored. *)
Definition try_eoi (s : IrqState) : outcome (option IrqState) :=
  '(_, k) ← eoi (kern s);
  Ret (Some (mkIrq (TIMER_TICKS s) (SYSCALL_HITS s) (SPURIOUS_HITS s) (pics_locked s) k)).

(** The stub's write of the EOI register, once its address is published. *)
Definition stub_eoi (k : Kernel (P := P)) : Kernel :=
  if EOI_BASE (k_statics k) =? 0 then k else push k (MmioWrite (EOI_BASE (k_statics k)) 0).

(** One handler; [f] is the register frame it interrupts. *)
Definition deliver (h : Handler) (f : FullFrame) (s : IrqState) : outcome (option IrqState) :=
  match h with
  | breakpoint_handler => Ret (Some s)
  | double_fault_handler => Panic "EXCEPTION: double fault"
  | page_fault_handler => Panic "EXCEPTION: page fault"
  | gp_handler => Panic "EXCEPTION: general protection fault"
  | stack_segment_handler => Panic "EXCEPTION: stack segment fault"
  | invalid_opcode_handler => Panic "EXCEPTION: invalid opcode"
  | divide_error_handler => Panic "EXCEPTION: divide error"
  | timer_handler =>
      Ret (with_pics (λ p, notify_end_of_interrupt p TIMER_VECTOR)
             (mkIrq (wrap64 (TIMER_TICKS s + 1)) (SYSCALL_HITS s) (SPURIOUS_HITS s)
                (pics_locked s) (kern s)))
  | keyboard_handler => Ret (with_pics (λ p, notify_end_of_interrupt p KEYBOARD_VECTOR) s)
  | syscall_stub_handler =>
      Ret (Some (mkIrq (TIMER_TICKS s) (wrap64 (SYSCALL_HITS s + 1)) (SPURIOUS_HITS s)
                   (pics_locked s) (kern s)))
  | preempt_stub_entry =>
      Ret (Some (mkIrq (TIMER_TICKS s) (SYSCALL_HITS s) (SPURIOUS_HITS s) (pics_locked s)
                   (stub_eoi (set_kstatics (kern s) (stub_effect f (k_statics (kern s)))))))
  | apic_error_handler => try_eoi s
  | spurious_handler => try_eoi (count_spurious s)
  | spurious_pic_master_handler => Ret (Some (count_spurious s))
  | spurious_pic_slave_handler =>
      Ret (with_pics (λ p, notify_end_of_interrupt p SPURIOUS_PIC_MASTER_VECTOR) (count_spurious s))
  end.

(** [syscall::self_test]: two software interrupts and the count. *)
Definition syscall_self_test (f : FullFrame) (s : IrqState) : outcome (option IrqState) :=
  o1 ← deliver syscall_stub_handler f s;
  match o1 with
  | None => Ret None
  | Some s1 =>
      o2 ← deliver syscall_stub_handler f s1;
      match o2 with
      | None => Ret None
      | Some s2 =>
          _ ← assert_ (SYSCALL_HITS s2 =? 2) "syscall stub fired twice but handler saw other";
          Ret (Some s2)
      end
  end.


(** ** Mask updates, action by action *)

Inductive act :=
| DisableInts                 (* entry of [without_interrupts] *)
| LockPics
| ReadMasks
| WriteMasks (f : Z → Z)      (* of the master mask that was read *)
| UnlockPics
| RestoreInts.                (* exit of [without_interrupts] *)

Definition mask_fun (r : routine) : Z → Z :=
  match r with
  | Promote => λ m, Z.lor m 1
  | Rollback | TimerInit => λ m, Z.land m 0xFE
  end.

(** [timer::init] has no [without_interrupts]: it runs before interrupts are on. *)
Definition section_code (r : routine) : list act :=
  let body := [LockPics; ReadMasks; WriteMasks (mask_fun r); UnlockPics] in
  match r with
  | TimerInit => body
  | _ => DisableInts :: body ++ [RestoreInts]
  end.

(** The processor inside a section. *)
Record Core := mkCore {
  code : list act;
  if_flag : bool;
  was_on : bool;
  tmp : Z * Z;
  irq : IrqState
}.

Definition set_locked (s : IrqState) (b : bool) : IrqState :=
  mkIrq (TIMER_TICKS s) (SYSCALL_HITS s) (SPURIOUS_HITS s) b (kern s).
Definition set_irq_pics (s : IrqState) (p : P) : IrqState :=
  mkIrq (TIMER_TICKS s) (SYSCALL_HITS s) (SPURIOUS_HITS s) (pics_locked s) (set_pics (kern s) p).

(** One action of the main code; [None] waits for the lock. *)
Definition do_act (a : act) (rest : list act) (c : Core) : option Core :=
  let s := irq c in
  match a with
  | DisableInts => Some (mkCore rest false (if_flag c) (tmp c) s)
  | LockPics =>
      if pics_locked s then None
      else Some (mkCore rest (if_flag c) (was_on c) (tmp c) (set_locked s true))
  | ReadMasks => Some (mkCore rest (if_flag c) (was_on c) (read_masks (PICS (kern s))) s)
  | WriteMasks f =>
      Some (mkCore rest (if_flag c) (was_on c) (tmp c)
        (set_irq_pics s (write_masks (PICS (kern s)) (f (tmp c).1) (tmp c).2)))
  | UnlockPics => Some (mkCore rest (if_flag c) (was_on c) (tmp c) (set_locked s false))
  | RestoreInts => Some (mkCore rest (was_on c) (was_on c) (tmp c) s)
  end.

(** Hardware interrupt sources. *)
Definition hw_vectors : list Z :=
  [TIMER_VECTOR; KEYBOARD_VECTOR; LAPIC_TIMER_VECTOR; LAPIC_ERROR_VECTOR;
   SPURIOUS_APIC_VECTOR; SPURIOUS_PIC_MASTER_VECTOR; SPURIOUS_PIC_SLAVE_VECTOR].

Inductive cstep : Core → Core → Prop :=
| step_main a rest c c' :
    code c = a :: rest → do_act a rest c = Some c' → cstep c c'
| step_irq v h f c s' :
    if_flag c = true → v ∈ hw_vectors → idt_entry v = Some h →
    deliver h f (irq c) = Ret (Some s') →
    cstep c (mkCore (code c) (if_flag c) (was_on c) (tmp c) s').

(** An interrupt can arrive whose handler would spin on the lock. *)
Definition can_deadlock (c : Core) : Prop :=
  if_flag c = true ∧ ∃ v h f, v ∈ hw_vectors ∧ idt_entry v = Some h ∧
    deliver h f (irq c) = Ret None.

Definition enter (r : routine) (b : bool) (s : IrqState) : Core :=
  mkCore (section_code r) b false (0, 0) s.

(** ** What handlers do to the lock and the masks *)

Definition masks_of (s : IrqState) : Z * Z := read_masks (PICS (kern s)).

Lemma deliver_unlocked h f s : pics_locked s = false → deliver h f s ≠ Ret None.
Proof.
  intros Hl. destruct h; cbn [deliver]; unfold with_pics, try_eoi, count_spurious;
    cbn [pics_locked kern]; rewrite ?Hl; try done;
    match goal with |- context [eoi ?k] => destruct (eoi k) as [[? ?]|] end; done.
Qed.

Lemma deliver_locked_timer f s : pics_locked s = true → deliver timer_handler f s = Ret None.
Proof. intros Hl. cbn. unfold with_pics. cbn. by rewrite Hl. Qed.

Lemma eoi_keeps (k : Kernel (P := P)) r k' : eoi k = Ret (r, k') → PICS k' = PICS k.
Proof.
  unfold eoi, io_bind, get, err, lift, write_volatile, modify. cbn.
  destruct (LAPIC_VIRT k =? 0); [by intros [= <- <-]|].
  destruct (lapic_reg _ _); [by intros [= <- <-]|done].
Qed.

Lemma stub_eoi_keeps (k : Kernel (P := P)) :
  PICS (stub_eoi k) = PICS k ∧ k_statics (stub_eoi k) = k_statics k.
Proof. unfold stub_eoi. by destruct (_ =? 0). Qed.

Lemma deliver_keeps h f s s' :
  pics_locked s = false → deliver h f s = Ret (Some s') →
  pics_locked s' = false ∧ masks_of s' = masks_of s.
Proof.
  intros Hl. destruct h; cbn [deliver]; unfold with_pics, try_eoi, count_spurious;
    cbn [pics_locked kern]; rewrite ?Hl; try done;
    try (intros [= <-]; by rewrite ?Hl);
    try (intros [= <-]; unfold masks_of; cbn;
      by rewrite ?eoi_masks, ?(proj1 (stub_eoi_keeps _))).
  all: destruct (eoi (kern s)) as [[r k]|] eqn:E; [|done]; rewrite bind_Ret; intros [= <-];
    unfold masks_of; cbn; by rewrite (eoi_keeps _ _ _ E).
Qed.

(** ** The stages of a section *)

Definition body (r : routine) : list act :=
  [LockPics; ReadMasks; WriteMasks (mask_fun r); UnlockPics].
Definition tail (r : routine) : list act :=
  match r with TimerInit => [] | _ => [RestoreInts] end.

Definition target (r : routine) (m : Z * Z) : Z * Z := (mask_fun r m.1, m.2).

Definition free_at (s : IrqState) (m : Z * Z) : Prop := pics_locked s = false ∧ masks_of s = m.
Definition held_at (s : IrqState) (m : Z * Z) : Prop := pics_locked s = true ∧ masks_of s = m.

(** Where the main code can be, with what it knows there: from the first guarded
    action to the last, interrupts are off. *)
Inductive stage (r : routine) (b : bool) (m : Z * Z) : Core → Prop :=
| at_entry w t s : r ≠ TimerInit → free_at s m → stage r b m (mkCore (section_code r) b w t s)
| at_lock w t s : (r ≠ TimerInit → w = b) → free_at s m →
    stage r b m (mkCore (body r ++ tail r) false w t s)
| at_read w t s : (r ≠ TimerInit → w = b) → held_at s m →
    stage r b m (mkCore (drop 1 (body r) ++ tail r) false w t s)
| at_write w s : (r ≠ TimerInit → w = b) → held_at s m →
    stage r b m (mkCore (drop 2 (body r) ++ tail r) false w m s)
| at_unlock w t s : (r ≠ TimerInit → w = b) → held_at s (target r m) →
    stage r b m (mkCore (drop 3 (body r) ++ tail r) false w t s)
| at_restore w t s : r ≠ TimerInit → w = b → free_at s (target r m) →
    stage r b m (mkCore (tail r) false w t s)
| at_end w t s : free_at s (target r m) → stage r b m (mkCore [] b w t s).

Definition mask_byte_ok (m : Z * Z) : Prop := 0 ≤ m.1 < 256 ∧ 0 ≤ m.2 < 256.

Lemma mask_fun_byte r m : mask_byte_ok m → mask_byte_ok (target r m).
Proof.
  intros [H1 H2]. split; [|done]. pose proof (mask_byte _ H1) as Hm.
  unfold mask_facts in Hm. cbn zeta in Hm. bool_to_prop. destruct r; cbn; lia.
Qed.

(** The main code moves to the next stage. *)
Lemma stage_main r b m c a rest c' :
  mask_byte_ok m → (r = TimerInit → b = false) → stage r b m c → code c = a :: rest →
  do_act a rest c = Some c' → stage r b m c'.
Proof.
  intros Hm Hb Hst Hc Hd. pose proof (mask_fun_byte r m Hm) as [T1 T2].
  destruct Hst as [w t s Hr Hf|w t s Hw Hf|w t s Hw Hf|w s Hw Hf|w t s Hw Hf|w t s Hr Hw Hf|w t s Hf];
    try (destruct Hf as [Hl Hk]).
  - destruct r; cbn in Hc; try done; injection Hc as <- <-; cbn in Hd; injection Hd as <-;
      by apply at_lock.
  - cbn in Hc. injection Hc as <- <-. cbn in Hd. rewrite Hl in Hd. injection Hd as <-.
    apply at_read; [done|]. by split.
  - cbn in Hc. injection Hc as <- <-. cbn in Hd. injection Hd as <-.
    change (read_masks (PICS (kern s))) with (masks_of s). rewrite Hk. by apply at_write.
  - cbn in Hc. injection Hc as <- <-. cbn in Hd. injection Hd as <-.
    apply at_unlock; [done|]. split; [done|]. unfold masks_of. cbn. by rewrite read_write_masks.
  - cbn in Hc. injection Hc as <- <-. cbn in Hd. injection Hd as <-.
    destruct (decide (r = TimerInit)) as [->|Hr].
    + pose proof (Hb eq_refl) as ->. by apply at_end.
    + apply at_restore; [done|by apply Hw|by split].
  - destruct r; cbn in Hc; try done; injection Hc as <- <-; cbn in Hd; injection Hd as <-; subst w;
      by apply at_end.
  - done.
Qed.

(** Interrupts arrive only where the lock is free, and leave the masks alone. *)
Lemma stage_irq r b m c h f s' :
  stage r b m c → if_flag c = true → deliver h f (irq c) = Ret (Some s') →
  stage r b m (mkCore (code c) (if_flag c) (was_on c) (tmp c) s').
Proof.
  intros Hst Hif Hd. destruct Hst as [w t s Hr [Hl Hk]|? ? ? ? ?|? ? ? ? ?|? ? ? ?|? ? ? ? ?|? ? ? ? ? ?|w t s [Hl Hk]];
    cbn in *; try done; destruct (deliver_keeps _ _ _ _ Hl Hd) as [Hl' Hk'].
  - apply at_entry; [done|]. split; [done|congruence].
  - apply at_end. split; [done|congruence].
Qed.

Lemma stage_no_deadlock r b m c : stage r b m c → ¬ can_deadlock c.
Proof.
  intros Hst (Hif & v & h & f & _ & _ & Hd).
  destruct Hst as [w t s Hr [Hl Hk]|? ? ? ? ?|? ? ? ? ?|? ? ? ?|? ? ? ? ?|? ? ? ? ? ?|w t s [Hl Hk]];
    cbn in *; try done; by eapply deliver_unlocked.
Qed.

Lemma stage_progress r b m c : stage r b m c → code c ≠ [] → ∃ c', cstep c c'.
Proof.
  intros Hst Hc. destruct (code c) as [|a rest] eqn:E; [done|].
  enough (is_Some (do_act a rest c)) as [c' Hd] by (exists c'; by eapply step_main).
  destruct Hst as [w t s Hr [Hl Hk]|w t s Hw [Hl Hk]|? ? ? ? ?|? ? ? ?|? ? ? ? ?|w t s Hr Hw Hf|w t s Hf];
    cbn in E; try (injection E as <- <-; cbn; rewrite ?Hl; by eexists).
  - destruct r; cbn in E; try done; injection E as <- <-; by eexists.
  - destruct r; cbn in E; try done; injection E as <- <-; by eexists.
  - done.
Qed.

Lemma stage_start r b s :
  pics_locked s = false → (r = TimerInit → b = false) → stage r b (masks_of s) (enter r b s).
Proof.
  intros Hl Hb. unfold enter. destruct r; try (by apply at_entry).
  rewrite (Hb eq_refl). by apply (at_lock TimerInit).
Qed.

(** The same update as one step ([Apic.promote], [Apic.rollback_to_pit],
    [Apic.timer_init]). *)
Definition atomic_update (r : routine) : P → P :=
  match r with Promote => promote_masks | Rollback | TimerInit => rollback_masks end.

Lemma atomic_update_masks r (p : P) : read_masks (atomic_update r p) = target r (read_masks p).
Proof. destruct (promote_rollback_masks p) as (E1 & E2 & _). by destruct r. Qed.

(** C3.  The mask updates never deadlock and are atomic: however timer, keyboard,
    APIC and spurious interrupts interleave with [promote], [rollback_to_pit] or
    (with interrupts still off) [timer::init], no interrupt can arrive while the
    main code holds the PIC lock, the main code can always take its next action,
    and when it is done the lock is free, the interrupt flag is what it was and
    the masks are those of the update done in one step. *)
Theorem pics_section_atomic r b s c :
  pics_locked s = false → (r = TimerInit → b = false) → rtc cstep (enter r b s) c →
  ¬ can_deadlock c ∧ (code c ≠ [] → ∃ c', cstep c c') ∧
  (code c = [] → if_flag c = b ∧ pics_locked (irq c) = false ∧
     masks_of (irq c) = read_masks (atomic_update r (PICS (kern s)))).
Proof.
  intros Hl Hb Hrun. assert (mask_byte_ok (masks_of s)) as Hm by apply masks_u8.
  assert (stage r b (masks_of s) c) as Hst.
  { pose proof (stage_start r b s Hl Hb) as H0. induction Hrun as [|x y z Hxy Hyz IH]; [done|].
    apply IH. destruct Hxy; [by eapply stage_main|by eapply stage_irq]. }
  split_and!; [by eapply stage_no_deadlock|by apply (stage_progress r b (masks_of s))|].
  intros Hc. rewrite atomic_update_masks. change (read_masks (PICS (kern s))) with (masks_of s).
  destruct Hst as [? ? ? ? ?|? ? ? ? ?|? ? ? ? ?|? ? ? ?|? ? ? ? ?|? ? ? ? ? ?|w t s' [Hl' Hk]];
    cbn in Hc; try done; destruct r; done.
Qed.

(** The guard is needed: the same section entered with interrupts on and without
    [without_interrupts] reaches a deadlock. *)
Lemma unguarded_section_deadlocks s :
  pics_locked s = false →
  ∃ c, rtc cstep (mkCore (body Promote) true false (0, 0) s) c ∧ can_deadlock c.
Proof.
  intros Hl. exists (mkCore (drop 1 (body Promote)) true false (0, 0) (set_locked s true)). split.
  - apply rtc_once. eapply step_main; [done|]. cbn. by rewrite Hl.
  - split; [done|]. exists TIMER_VECTOR, timer_handler, ZERO. split_and!; [left|done|].
    by apply deliver_locked_timer.
Qed.
End irq.

(** ** The table covers the hardware *)

(** The vectors are distinct bytes, every interrupt source the kernel programs
    has a handler (the LVT timer entry and the spurious vector of [apic::init]
    included), and hardware vectors stay clear of the exception range. *)
Lemma idt_covers_hardware :
  NoDup (IDT.*1) ∧ Forall (λ v, 0 ≤ v < 256) (IDT.*1) ∧
  Forall (λ v, 32 ≤ v ∧ is_Some (idt_entry v)) hw_vectors ∧
  idt_entry (Z.land 0x200EF 0xFF) = Some preempt_stub_entry ∧
  idt_entry (Z.land 0x1FF 0xFF) = Some spurious_handler ∧
  idt_entry PIC_1_OFFSET = Some timer_handler ∧
  idt_entry (PIC_1_OFFSET + 7) = Some spurious_pic_master_handler ∧
  idt_entry (PIC_2_OFFSET + 7) = Some spurious_pic_slave_handler.
Proof.
  split_and!; try done.
  - apply (bool_decide_unpack (NoDup (IDT.*1))). by vm_compute.
  - by repeat constructor.
  - repeat (apply Forall_cons; split; [split; [by vm_compute|by eexists]|]). by apply Forall_nil.
Qed.

(** ** Witness *)

Definition irq_start : IrqState (P := Z * Z) := mkIrq 0 0 0 false quick_kernel.

(** The main code alone, to its end. *)
Fixpoint run_main (n : nat) (c : Core (P := Z * Z)) : option Core :=
  match n, code c with
  | S n', a :: rest => c' ← do_act a rest c; run_main n' c'
  | _, _ => Some c
  end.

Lemma run_main_rtc n c c' : run_main n c = Some c' → rtc cstep c c'.
Proof.
  revert c. induction n as [|n IH]; intros c; cbn; [by intros [= ->]|].
  destruct (code c) as [|a rest] eqn:E; [by intros [= ->]|].
  destruct (do_act a rest c) as [c1|] eqn:Ea; [|done]. intros H.
  eapply rtc_l; [by eapply step_main|]. by apply IH.
Qed.

Lemma promote_run : ∃ c, rtc cstep (enter Promote true irq_start) c ∧ code c = [].
Proof.
  destruct (deliver timer_handler ZERO irq_start) as [[s1|]|] eqn:E; [|by vm_compute in E..].
  destruct (run_main 6 (enter Promote true s1)) as [c|] eqn:Er.
  - exists c. split; [|by vm_compute in E; injection E as <-; vm_compute in Er; injection Er as <-].
    eapply rtc_l; [by eapply (step_irq TIMER_VECTOR timer_handler ZERO); [| left| |]|].
    by eapply run_main_rtc.
  - vm_compute in E. injection E as <-. by vm_compute in Er.
Qed.

Lemma pics_section_atomic_witness :
  ∃ c, rtc cstep (enter Promote true irq_start) c ∧ code c = [] ∧ if_flag c = true ∧
    masks_of (irq c) = (0xFF, 0xFF).
Proof.
  destruct promote_run as (c & Hrun & Hc).
  destruct (pics_section_atomic Promote true irq_start c ltac:(reflexivity) ltac:(discriminate) Hrun)
    as (_ & _ & H).
  destruct (H Hc) as (Hif & _ & Hm). exists c. split_and!; [exact Hrun|exact Hc|exact Hif|].
  rewrite Hm. by vm_compute.
Defined.

End Irq.
