(* ===== verification/Boot.v ===== *)
(** * From the clocks to the demo ([kernel/src/main.rs])

    The self-test loops of [kernel_main] (dual-clock soak, promotion, the watch
    after it, rollback), the proof block before the demo, and the whole boot
    sequence that composes them with memory and APIC bring-up. *)
From stdpp Require Import gmap.
From S2P Require Import Prelude Frames BumpAlloc BuddyAlloc BuddySpec Machine Paging Memory.
From S2P Require Import Preempt PreemptStub Apic ApicSpec Irq.

#[local] Open Scope Z_scope.

Module Boot.
Import Preempt Apic ApicSpec Irq.

Definition SOAK_TICKS_EACH : Z := 100.

(** How the soak loop is left. *)
Inductive SoakEnd :=
| SoakProven           (* both clocks reached the gate *)
| SoakNoIrq            (* PIC at the gate, APIC silent *)
| SoakDegraded         (* PIC twice at the gate, APIC below it *)
| SoakStalled.         (* spun out: halt *)

(** How the clock phase ends; the last two go on to the demo. *)
Inductive ClockEnd :=
| HaltStalled
| HaltSkipped          (* promotion skipped, PIT stays master *)
| LapicMaster
| RolledBack.

Section boot.
Context (dev : Devices) {P : Type} `{CP : ChainedPics P} (p : profile).
Notation Kernel := (Kernel (P := P)).

(** ** The soak *)

(** The progress test: [||] evaluates its second addition only if needed. *)
Definition progress_due (pic apic last_pic last_apic : Z) : outcome bool :=
  a ← add64 p last_pic 20;
  if a <=? pic then Ret true else b ← add64 p last_apic 20; Ret (b <=? apic).

Record SoakState := mkSoak { sk_spins : Z; sk_pic : Z; sk_apic : Z; sk_k : Kernel }.

Definition soak_body (s : SoakState) : SoakState + outcome (SoakEnd * Kernel) :=
  let pic := timer_now dev (trace (sk_k s)) in
  let k1 := push (sk_k s) (LoadTimer pic) in
  let apic := apic_now dev (trace k1) in
  let k2 := push k1 (LoadApic apic) in
  match progress_due pic apic (sk_pic s) (sk_apic s) with
  | Panic e => inr (Panic e)
  | Ret due =>
      let '(lp, la) := if (due : bool) then (pic, apic) else (sk_pic s, sk_apic s) in
      if (SOAK_TICKS_EACH <=? pic) && (SOAK_TICKS_EACH <=? apic) then inr (Ret (SoakProven, k2))
      else if (SOAK_TICKS_EACH <=? pic) && (apic =? 0) then inr (Ret (SoakNoIrq, k2))
      else if (SOAK_TICKS_EACH * 2 <=? pic) && (apic <? SOAK_TICKS_EACH) then
        inr (Ret (SoakDegraded, k2))
      else if SOAK_SPIN_GUARD <? sk_spins s + 1 then inr (Ret (SoakStalled, k2))
      else inl (mkSoak (sk_spins s + 1) lp la k2)
  end.

Definition soak (k : Kernel) : outcome (SoakEnd * Kernel) :=
  match iter_pos soak_body loop_fuel (mkSoak 0 0 0 k) with
  | inr r => r
  | inl _ => Panic "loop bound exceeded"
  end.

(** ** The watch after promotion *)

Record WatchState := mkWatch { wt_spins : Z; wt_last : Z; wt_k : Kernel }.

Definition watch_body (apic_base : Z) (s : WatchState)
    : WatchState + outcome (ClockEnd * Kernel) :=
  let apic := apic_now dev (trace (wt_k s)) in
  let k1 := push (wt_k s) (LoadApic apic) in
  let step :=
    due ← (a ← add64 p (wt_last s) 20; Ret (a <=? apic));
    _ ← (if (due : bool) then _ ← sub64 p apic apic_base; Ret () else Ret ());
    d ← sub64 p apic apic_base;
    Ret (due, d) in
  match step with
  | Panic e => inr (Panic e)
  | Ret (due, d) =>
      if SOAK_TICKS_EACH <=? d then
        inr (Ret (LapicMaster, push k1 (LoadTimer (timer_now dev (trace k1)))))
      else if SOAK_SPIN_GUARD <? wt_spins s + 1 then
        inr ('(_, k2) ← rollback_to_pit k1; Ret (RolledBack, k2))
      else inl (mkWatch (wt_spins s + 1) (if (due : bool) then apic else wt_last s) k1)
  end.

Definition watch (k : Kernel) : outcome (ClockEnd * Kernel) :=
  let apic_base := apic_now dev (trace k) in
  let k0 := push k (LoadApic apic_base) in
  match iter_pos (watch_body apic_base) loop_fuel (mkWatch 0 apic_base k0) with
  | inr r => r
  | inl _ => Panic "loop bound exceeded"
  end.

(** ** Periodic start, soak, gate, promotion, watch *)

Definition clock_phase (k : Kernel) : outcome (ClockEnd * Kernel) :=
  '(r, k1) ← start_periodic k;
  match (r : result Z) with
  | Err _ => Panic "apic start_periodic failed"
  | Ok _ =>
      '(e, k2) ← soak k1;
      match (e : SoakEnd) with
      | SoakStalled => Ret (HaltStalled, k2)
      | _ =>
          let pic := timer_now dev (trace k2) in
          let k3 := push k2 (LoadTimer pic) in
          let apic := apic_now dev (trace k3) in
          let k4 := push k3 (LoadApic apic) in
          if (pic <? SOAK_TICKS_EACH) || (apic <? SOAK_TICKS_EACH) then Ret (HaltSkipped, k4)
          else
            '(r2, k5) ← promote k4;
            match (r2 : result unit) with
            | Err _ => Panic "apic promote failed"
            | Ok _ => watch k5
            end
      end
  end.

(** ** The proof block before the demo *)

Definition proof_block (stub : Z) (k : Kernel) : outcome unit :=
  _ ← assert_ (PREEMPTIBLE (k_statics k) =? 0) "preempt fence UP on boot stack — trampoline leaked it";
  _ ← assert_ (negb (EOI_BASE (k_statics k) =? 0))
        "preempt EOI base unpublished — apic::init didn't run?";
  assert_ (negb (stub =? 0)) "preempt stub address is null".

(** ** [kernel_main] up to the demo *)

(** A software interrupt from the main code; a handler that spins never returns. *)
Definition software_int (h : Handler) (f : FullFrame) (s : IrqState (P := P)) : outcome IrqState :=
  o ← deliver h f s;
  match o with Some s' => Ret s' | None => Panic "handler spins on a held lock" end.

(** From [timer::init] to the proof block. *)
Definition clock_sequence (stub : Z) (f : FullFrame) (k : Kernel) : outcome (ClockEnd * Kernel) :=
  '(_, k3) ← timer_init p false k;
  '(r2, k4) ← calibrate dev k3;
  match (r2 : result Z) with
  | Err _ => Panic "apic calibrate failed"
  | Ok _ =>
      s1 ← software_int breakpoint_handler f (mkIrq 0 0 0 false k4);
      o ← syscall_self_test f s1;
      s2 ← expect o "handler spins on a held lock";
      '(e, k5) ← clock_phase (kern s2);
      match (e : ClockEnd) with
      | HaltStalled | HaltSkipped => Ret (e, k5)
      | _ => _ ← proof_block stub k5; Ret (e, k5)
      end
  end.

Section sequence.
Context `{PhysFrames} `{VirtAddrs} {M A : Type} `{PG : Paging M} `{FA : FrameAllocator A}
  `{FO : !Memory.FrameAlloc A}.

(** The processor's answers ([cpuid], the APIC base MSR, CR3), the boot
    information, the stub's address and the frame of the [int] instructions are
    arguments; [serial], [gdt] and [idt] set-up leave no state that is read later. *)
Definition kernel_boot (edx msr : Z) (rsdp : option Z) (cr3 : Z) (bi : Memory.BootInfo)
    (self_test_on : bool) (stub : Z) (f : FullFrame) (k0 : Kernel)
    : outcome (ClockEnd * M * A * option (Z * Z) * Kernel) :=
  '(_, k1) ← interrupts_init k0;
  let pr := probe edx msr rsdp in
  _ ← assert_ (present pr) "no local APIC (CPUID bit 9 clear) — cannot continue";
  '(m, a, heap) ← Memory.memory_init p cr3 bi self_test_on;
  '(r, m1, a1, k2) ← apic_init dev p m a pr k1;
  match (r : result unit) with
  | Err _ => Panic "apic init failed"
  | Ok _ =>
      '(e, k3) ← clock_sequence stub f k2;
      Ret (e, m1, a1, heap, k3)
  end.
End sequence.

(** ** Specification of the loops *)

Definition loads (es : list event) : Prop :=
  Forall (λ e, match e with LoadTimer _ | LoadApic _ => True | _ => False end) es.

(** Both counters fit and never go back. *)
Record clocks_ok : Prop := {
  ck_timer : ∀ tr, 0 ≤ timer_now dev tr < 2 ^ 63;
  ck_apic : ∀ tr, 0 ≤ apic_now dev tr < 2 ^ 63;
  ck_apic_mono : ∀ e tr, apic_now dev tr ≤ apic_now dev (e :: tr)
}.

(** One turn of the soak, and the counters it sees. *)
Definition turn (tr : list event) : list event :=
  let t1 := LoadTimer (timer_now dev tr) :: tr in LoadApic (apic_now dev t1) :: t1.
Definition turn_pic (tr : list event) : Z := timer_now dev tr.
Definition turn_apic (tr : list event) : Z := apic_now dev (LoadTimer (timer_now dev tr) :: tr).
Definition proven_at (tr : list event) : Prop :=
  SOAK_TICKS_EACH ≤ turn_pic tr ∧ SOAK_TICKS_EACH ≤ turn_apic tr.

Fixpoint turns (n : nat) (tr : list event) : list event :=
  match n with O => tr | S n' => turn (turns n' tr) end.

(** What ends the soak at a turn, by the counters read in it. *)
Definition ends_soak (e : SoakEnd) (tr : list event) : Prop :=
  match e with
  | SoakProven => proven_at tr
  | SoakNoIrq => SOAK_TICKS_EACH ≤ turn_pic tr ∧ turn_apic tr = 0
  | SoakDegraded => SOAK_TICKS_EACH * 2 ≤ turn_pic tr ∧ turn_apic tr < SOAK_TICKS_EACH
  | SoakStalled => False
  end.
Definition soak_over (tr : list event) : Prop := ∃ e, ends_soak e tr.

(** The soak from [tr0] ended as [e] with the trace [tr]: at its first turn
    whose counters end it, or after a full guard of turns without one. *)
Definition soak_cause (tr0 : list event) (e : SoakEnd) (tr : list event) : Prop :=
  ∃ n, tr = turns (S n) tr0 ∧ (∀ i, (i < n)%nat → ¬ soak_over (turns i tr0)) ∧
    match e with
    | SoakStalled => Z.of_nat n = SOAK_SPIN_GUARD ∧ ¬ soak_over (turns n tr0)
    | _ => Z.of_nat n ≤ SOAK_SPIN_GUARD ∧ ends_soak e (turns n tr0)
    end.

Lemma progress_due_ok pic apic lp la :
  0 ≤ lp < 2 ^ 63 → 0 ≤ la < 2 ^ 63 → ∃ b, progress_due pic apic lp la = Ret b.
Proof.
  intros H1 H2. unfold progress_due.
  rewrite (add64_exact p lp 20), (add64_exact p la 20), !bind_Ret by ulia.
  destruct (lp + 20 <=? pic); by eexists.
Qed.

Record soak_inv (k : Kernel) (s : SoakState) : Prop := {
  si_spins : 0 ≤ sk_spins s ≤ SOAK_SPIN_GUARD;
  si_pic : 0 ≤ sk_pic s < 2 ^ 63;
  si_apic : 0 ≤ sk_apic s < 2 ^ 63;
  si_trace : trace (sk_k s) = turns (Z.to_nat (sk_spins s)) (trace k);
  si_only : ∃ es, only_trace k (sk_k s) es ∧ loads es ∧
    Z.of_nat (length es) = 2 * sk_spins s;
  si_not : ∀ n, Z.of_nat n < sk_spins s → ¬ soak_over (turns n (trace k))
}.

Lemma soak_body_spec k s :
  clocks_ok → soak_inv k s →
  match soak_body s with
  | inl s' => soak_inv k s' ∧ sk_spins s' = sk_spins s + 1
  | inr r => ∃ e k' es, r = Ret (e, k') ∧ only_trace k k' es ∧ loads es ∧
      Z.of_nat (length es) ≤ 2 * (SOAK_SPIN_GUARD + 1) ∧ soak_cause (trace k) e (trace k')
  end.
Proof.
  intros [Ht Ha _] [H1 H2 H3 H4 (es & H5 & H6 & Hes) H7]. unfold soak_body.
  set (pic := timer_now dev (trace (sk_k s))). set (k1 := push (sk_k s) (LoadTimer pic)).
  set (apic := apic_now dev (trace k1)). set (k2 := push k1 (LoadApic apic)).
  destruct (progress_due_ok pic apic (sk_pic s) (sk_apic s) H2 H3) as [due ->].
  set (es2 := [LoadApic apic; LoadTimer pic] ++ es).
  assert (only_trace k k2 es2) as Ho by (eapply only_trace_trans; [exact H5|done]).
  assert (loads es2) as Hl by (do 2 (constructor; [done|]); done).
  assert (Z.of_nat (length es2) = 2 * (sk_spins s + 1)) as Hn2 by (cbn [es2 app length]; lia).
  destruct (if due then (pic, apic) else (sk_pic s, sk_apic s)) as [lp la] eqn:Eq.
  assert (0 ≤ lp < 2 ^ 63 ∧ 0 ≤ la < 2 ^ 63) as [Hlp Hla]
    by (destruct due; injection Eq as <- <-; split; first [apply Ht|apply Ha|done]).
  set (n0 := Z.to_nat (sk_spins s)) in *.
  assert (trace k2 = turns (S n0) (trace k)) as Htr by (cbn [turns]; by rewrite <- H4).
  assert (turn_pic (turns n0 (trace k)) = pic ∧ turn_apic (turns n0 (trace k)) = apic) as [Hpic Hapic]
    by (by rewrite <- H4).
  assert (∀ i, (i < n0)%nat → ¬ soak_over (turns i (trace k))) as Hnot by (intros i Hi; apply H7; lia).
  assert (Hend : ∀ e, ends_soak e (turns n0 (trace k)) →
    soak_cause (trace k) e (trace k2)).
  { intros e He. exists n0. split_and!; [done|done|]. destruct e; [split; [lia|done]..|done]. }
  assert (Hout : ∀ e, soak_cause (trace k) e (trace k2) → ∃ e' k' es', Ret (e, k2) = Ret (e', k') ∧
    only_trace k k' es' ∧ loads es' ∧ Z.of_nat (length es') ≤ 2 * (SOAK_SPIN_GUARD + 1) ∧
    soak_cause (trace k) e' (trace k'))
    by (intros e He; exists e, k2, es2; split_and!; (done || lia)).
  destruct ((_ <=? pic) && (_ <=? apic)) eqn:E1.
  { apply Hout, Hend. unfold ends_soak, proven_at. rewrite Hpic, Hapic. by bool_to_prop. }
  destruct ((_ <=? pic) && (apic =? 0)) eqn:E2.
  { apply Hout, Hend. unfold ends_soak. rewrite Hpic, Hapic. by bool_to_prop. }
  destruct ((_ <=? pic) && (apic <? _)) eqn:E3.
  { apply Hout, Hend. unfold ends_soak. rewrite Hpic, Hapic. by bool_to_prop. }
  assert (¬ soak_over (turns n0 (trace k))) as Hn0.
  { intros [e He]. unfold ends_soak, proven_at in He. rewrite Hpic, Hapic in He.
    bool_to_prop. destruct e; lia. }
  destruct (SOAK_SPIN_GUARD <? sk_spins s + 1) eqn:E4; bool_to_prop.
  { apply Hout. exists n0. split_and!; [done|done|lia|done]. }
  split; [|done]. constructor; cbn [sk_spins sk_pic sk_apic sk_k]; [lia|done|done| | |].
  - rewrite Z.add_1_r, Z2Nat.inj_succ by lia. exact Htr.
  - by exists es2.
  - intros n Hn. destruct (decide (n = n0)) as [->|]; [done|]. apply Hnot. lia.
Qed.

Lemma soak_spec k :
  clocks_ok → ∃ e k' es, soak k = Ret (e, k') ∧ only_trace k k' es ∧ loads es ∧
    Z.of_nat (length es) ≤ 2 * (SOAK_SPIN_GUARD + 1) ∧ soak_cause (trace k) e (trace k').
Proof.
  intros Hc. destruct (iter_pos_total soak_body (soak_inv k) (λ s, SOAK_SPIN_GUARD - sk_spins s)
    (λ r, ∃ e k' es, r = Ret (e, k') ∧ only_trace k k' es ∧ loads es ∧
      Z.of_nat (length es) ≤ 2 * (SOAK_SPIN_GUARD + 1) ∧ soak_cause (trace k) e (trace k'))
    loop_fuel (mkSoak 0 0 0 k)) as (r & E & e & k' & es & -> & H).
  - intros s Hs. pose proof (soak_body_spec k s Hc Hs) as H. destruct (soak_body s); [|done].
    destruct H as [H ->]. split; [done|lia].
  - intros s Hs. destruct (si_spins _ _ Hs). lia.
  - constructor; cbn; try done. { exists []. by split_and!; [|constructor|]. } intros n Hn. lia.
  - done.
  - exists e, k', es. unfold soak. by rewrite E.
Qed.

(** *** The watch *)

Fixpoint wturns (n : nat) (tr : list event) : list event :=
  match n with O => tr | S n' => let t := wturns n' tr in LoadApic (apic_now dev t) :: t end.

(** Everything but the trace and the masks is as it was. *)
Definition same_but_masks (k k' : Kernel) (es : list event) : Prop :=
  LAPIC_VIRT k' = LAPIC_VIRT k ∧ TICKS_PER_10MS k' = TICKS_PER_10MS k ∧
  k_statics k' = k_statics k ∧ trace k' = es ++ trace k.

(** The watch from [tr0] ended with the trace [tr]: at its first turn that reads
    the LAPIC a gate past [base], with one more load of the PIT; or after a full
    guard of turns none of which does. *)
Definition lapic_advanced (base : Z) (tr0 tr : list event) : Prop :=
  ∃ n v, Z.of_nat n ≤ SOAK_SPIN_GUARD ∧ tr = LoadTimer v :: wturns (S n) tr0 ∧
    SOAK_TICKS_EACH ≤ apic_now dev (wturns n tr0) - base ∧
    ∀ i, (i < n)%nat → apic_now dev (wturns i tr0) - base < SOAK_TICKS_EACH.
Definition lapic_stalled (base : Z) (tr0 tr : list event) : Prop :=
  ∃ n, Z.of_nat n = SOAK_SPIN_GUARD ∧ tr = wturns (S n) tr0 ∧
    ∀ i, (i ≤ n)%nat → apic_now dev (wturns i tr0) - base < SOAK_TICKS_EACH.

Definition watch_result (base : Z) (k : Kernel) (r : outcome (ClockEnd * Kernel)) : Prop :=
  ∃ e k' es, r = Ret (e, k') ∧ same_but_masks k k' es ∧ loads es ∧
    match e with
    | LapicMaster => PICS k' = PICS k ∧ lapic_advanced base (trace k) (trace k')
    | RolledBack => PICS k' = rollback_masks (PICS k) ∧ lapic_stalled base (trace k) (trace k')
    | _ => False
    end.

Record watch_inv (base : Z) (k : Kernel) (s : WatchState) : Prop := {
  wi_spins : 0 ≤ wt_spins s ≤ SOAK_SPIN_GUARD;
  wi_last : 0 ≤ wt_last s < 2 ^ 63;
  wi_base : 0 ≤ base ≤ apic_now dev (trace (wt_k s));
  wi_trace : trace (wt_k s) = wturns (Z.to_nat (wt_spins s)) (trace k);
  wi_only : ∃ es, only_trace k (wt_k s) es ∧ loads es;
  wi_not : ∀ n, Z.of_nat n < wt_spins s →
    apic_now dev (wturns n (trace k)) - base < SOAK_TICKS_EACH
}.

Lemma only_trace_masks k k' es : only_trace k k' es → same_but_masks k k' es ∧ PICS k' = PICS k.
Proof. intros (H1 & H2 & H3 & H4 & H5). by split_and!. Qed.

Lemma watch_body_spec base k s :
  clocks_ok → watch_inv base k s →
  match watch_body base s with
  | inl s' => watch_inv base k s' ∧ wt_spins s' = wt_spins s + 1
  | inr r => watch_result base k r
  end.
Proof.
  intros [Ht Ha Hmono] [H1 H2 H3 H4 (es & H5 & H6) H7]. unfold watch_body.
  set (apic := apic_now dev (trace (wt_k s))) in *. set (k1 := push (wt_k s) (LoadApic apic)).
  pose proof (Ha (trace (wt_k s))) as Hap. fold apic in Hap.
  rewrite (add64_exact p (wt_last s) 20) by ulia. rewrite bind_Ret.
  rewrite (sub64_exact p apic base) by ulia.
  set (due := wt_last s + 20 <=? apic).
  assert ((due0 ← Ret due;
    _ ← (if (due0 : bool) then _ ← Ret (apic - base); Ret () else Ret ());
    d ← Ret (apic - base); Ret (due0, d)) = Ret (due, apic - base)) as ->
    by (rewrite bind_Ret; by destruct due).
  assert (only_trace k k1 ([LoadApic apic] ++ es)) as Ho by (eapply only_trace_trans; [exact H5|done]).
  assert (loads ([LoadApic apic] ++ es)) as Hl by (by constructor).
  set (n0 := Z.to_nat (wt_spins s)) in *.
  assert (trace k1 = wturns (S n0) (trace k)) as Htr by (cbn [wturns]; by rewrite <- H4).
  assert (∀ i, (i < n0)%nat → apic_now dev (wturns i (trace k)) - base < SOAK_TICKS_EACH) as Hlt
    by (intros i Hi; apply H7; lia).
  destruct (SOAK_TICKS_EACH <=? apic - base) eqn:E1; bool_to_prop.
  { set (v := timer_now dev (trace k1)).
    exists LapicMaster, (push k1 (LoadTimer v)), ([LoadTimer v] ++ [LoadApic apic] ++ es).
    destruct (only_trace_masks _ _ _ Ho) as [(A1 & A2 & A3 & A4) A5].
    split_and!; [done|split_and!; [done|done|done|]|by constructor|done|].
    { change (LoadTimer v :: trace k1 = LoadTimer v :: ([LoadApic apic] ++ es) ++ trace k). by rewrite A4. }
    exists n0, v. split_and!; [lia|by rewrite <- Htr|by rewrite <- H4|done]. }
  assert (∀ i, (i ≤ n0)%nat → apic_now dev (wturns i (trace k)) - base < SOAK_TICKS_EACH) as Hnot.
  { intros i Hi. destruct (decide (i = n0)) as [->|]; [by rewrite <- H4|apply Hlt; lia]. }
  destruct (SOAK_SPIN_GUARD <? wt_spins s + 1) eqn:E2; bool_to_prop.
  { destruct (only_trace_masks _ _ _ Ho) as [(A1 & A2 & A3 & A4) A5].
    exists RolledBack, (set_pics k1 (rollback_masks (PICS k1))), ([LoadApic apic] ++ es).
    split_and!; [done|by split_and!|done|by rewrite <- A5|]. exists n0. split_and!; [lia|done|done]. }
  split; [|done]. constructor; cbn [wt_spins wt_last wt_k]; [lia|by destruct due| | | |].
  - split; [lia|]. transitivity apic; [lia|]. apply Hmono.
  - rewrite Z.add_1_r, Z2Nat.inj_succ by lia. exact Htr.
  - by eexists.
  - intros n Hn. apply Hnot. lia.
Qed.

Lemma watch_spec k :
  clocks_ok → let base := apic_now dev (trace k) in
  watch_result base (push k (LoadApic base)) (watch k).
Proof.
  intros Hc base. pose proof Hc as [Ht Ha Hmono].
  set (k0 := push k (LoadApic base)).
  destruct (iter_pos_total (watch_body base) (watch_inv base k0) (λ s, SOAK_SPIN_GUARD - wt_spins s)
    (watch_result base k0) loop_fuel (mkWatch 0 base k0)) as (r & E & H).
  - intros s Hs. pose proof (watch_body_spec base k0 s Hc Hs) as H. destruct (watch_body base s); [|done].
    destruct H as [H ->]. split; [done|lia].
  - intros s Hs. destruct (wi_spins _ _ _ Hs). lia.
  - constructor; cbn [wt_spins wt_last wt_k]; [done|apply Ha| |done| |].
    + split; [apply Ha|]. apply Hmono.
    + exists []. by split; [|constructor].
    + intros n Hn. lia.
  - done.
  - unfold watch. fold base k0. by rewrite E.
Qed.

(** *** The phase *)

Definition periodic_trace (k : Kernel) : list event :=
  [MmioWrite (LAPIC_VIRT k + ICR_OFFSET) (TICKS_PER_10MS k);
   MmioWrite (LAPIC_VIRT k + LVT_TIMER_OFFSET) 0x200EF].

(** The trace [tr] is what the phase has read when it passes the gate: the soak
    from [tr0] was over at its [n]-th turn and not before, and the reading of
    both counters after it has them at 100 ticks or more. *)
Definition gate_passed (tr0 tr : list event) : Prop :=
  ∃ n, Z.of_nat n ≤ SOAK_SPIN_GUARD ∧ (∀ i, (i < n)%nat → ¬ soak_over (turns i tr0)) ∧
    soak_over (turns n tr0) ∧ proven_at (turns (S n) tr0) ∧ tr = turns (S (S n)) tr0.

(** How the phase that starts from the trace [tr0] ends: the masks it leaves and
    the counters it read, given by the whole trace [tr'] at its end. *)
Definition phase_result (tr0 : list event) (pics : P) (e : ClockEnd) (pics' : P)
    (tr' : list event) : Prop :=
  match e with
  | HaltStalled => pics' = pics ∧ ∃ n, Z.of_nat n = SOAK_SPIN_GUARD ∧ tr' = turns (S n) tr0 ∧
      ∀ i, (i ≤ n)%nat → ¬ soak_over (turns i tr0)
  | HaltSkipped => pics' = pics ∧ ∃ n, Z.of_nat n ≤ SOAK_SPIN_GUARD ∧ tr' = turns (S (S n)) tr0 ∧
      (∀ i, (i < n)%nat → ¬ soak_over (turns i tr0)) ∧
      soak_over (turns n tr0) ∧ ¬ proven_at (turns (S n) tr0)
  | LapicMaster => pics' = promote_masks pics ∧ ∃ tr, gate_passed tr0 tr ∧
      lapic_advanced (apic_now dev tr) (LoadApic (apic_now dev tr) :: tr) tr'
  | RolledBack => pics' = rollback_masks (promote_masks pics) ∧ ∃ tr, gate_passed tr0 tr ∧
      lapic_stalled (apic_now dev tr) (LoadApic (apic_now dev tr) :: tr) tr'
  end.

Lemma turns_length n tr : length (turns n tr) = (2 * n + length tr)%nat.
Proof. induction n as [|n IH]; [done|]. cbn [turns turn length]. rewrite IH. lia. Qed.

Lemma promote_ok (k : Kernel) :
  LAPIC_VIRT k ≠ 0 → TICKS_PER_10MS k ≠ 0 →
  promote k = Ret (Ok (), set_pics k (promote_masks (PICS k))).
Proof.
  intros H1 H2. unfold promote. erewrite io_bind_ok by reflexivity.
  rewrite (proj2 (Z.eqb_neq _ _) H1). erewrite io_bind_ok by reflexivity.
  by rewrite (proj2 (Z.eqb_neq _ _) H2).
Qed.

(** The gate and what follows it, from the state the soak leaves. *)
Lemma gate_phase_spec k k2 es2 tr0 n :
  clocks_ok → win_ok (LAPIC_VIRT k) → TICKS_PER_10MS k ≠ 0 → only_trace k k2 es2 →
  trace k2 = turns (S n) tr0 → Z.of_nat n ≤ SOAK_SPIN_GUARD →
  (∀ i, (i < n)%nat → ¬ soak_over (turns i tr0)) → soak_over (turns n tr0) →
  let pic := timer_now dev (trace k2) in
  let k3 := push k2 (LoadTimer pic) in
  let apic := apic_now dev (trace k3) in
  let k4 := push k3 (LoadApic apic) in
  ∃ e k' es,
    (if (pic <? SOAK_TICKS_EACH) || (apic <? SOAK_TICKS_EACH) then Ret (HaltSkipped, k4)
     else '(r2, k5) ← promote k4;
          match (r2 : result unit) with Err _ => Panic "apic promote failed" | Ok _ => watch k5 end)
    = Ret (e, k') ∧ same_but_masks k k' es ∧ phase_result tr0 (PICS k) e (PICS k') (trace k').
Proof.
  intros Hc Hw Hr Ho Ht2 Hn Hnot Hover pic k3 apic k4.
  assert (only_trace k k4 ([LoadApic apic; LoadTimer pic] ++ es2)) as Ho4
    by (eapply only_trace_trans; [exact Ho|done]).
  assert (trace k4 = turns (S (S n)) tr0) as Ht4
    by (change (trace k4) with (turn (trace k2)); by rewrite Ht2).
  assert (turn_pic (turns (S n) tr0) = pic ∧ turn_apic (turns (S n) tr0) = apic) as [Hpic Hapic]
    by (by rewrite <- Ht2).
  destruct (only_trace_masks _ _ _ Ho4) as [Hs4 S5].
  destruct ((pic <? SOAK_TICKS_EACH) || (apic <? SOAK_TICKS_EACH)) eqn:E.
  { exists HaltSkipped, k4, ([LoadApic apic; LoadTimer pic] ++ es2).
    split_and!; [done|done|]. split; [done|]. exists n. split_and!; try done.
    unfold proven_at. rewrite Hpic, Hapic. apply orb_true_iff in E. rewrite !Z.ltb_lt in E. lia. }
  apply orb_false_iff in E. rewrite !Z.ltb_ge in E.
  destruct Hs4 as (S1 & S2 & S3 & S4).
  rewrite promote_ok by (rewrite ?S1, ?S2; destruct Hw; (done || lia)).
  rewrite bind_Ret. set (k5 := set_pics k4 (promote_masks (PICS k4))).
  destruct (watch_spec k5 Hc) as (e & k' & es & Ew & (W1 & W2 & W3 & W4) & _ & Hres).
  set (base := apic_now dev (trace k5)) in *.
  assert (PICS k5 = promote_masks (PICS k)) as P5
    by (change (promote_masks (PICS k4) = promote_masks (PICS k)); by rewrite S5).
  exists e, k', (es ++ [LoadApic base] ++ [LoadApic apic; LoadTimer pic] ++ es2).
  split_and!; [done| |].
  { split_and!; [by rewrite W1|by rewrite W2|by rewrite W3|]. rewrite W4.
    change (trace (push k5 (LoadApic base))) with ([LoadApic base] ++ trace k4).
    by rewrite S4, !app_assoc. }
  assert (gate_passed tr0 (trace k5)) as Hg.
  { exists n. change (trace k5) with (trace k4). split_and!; try done.
    unfold proven_at. rewrite Hpic, Hapic. lia. }
  destruct e; [done|done|destruct Hres as [H1 H2]..].
  - split; [by rewrite H1|]. by exists (trace k5).
  - split; [by rewrite H1; cbn [PICS push]; rewrite P5|]. by exists (trace k5).
Qed.

Lemma clock_phase_spec k :
  clocks_ok → win_ok (LAPIC_VIRT k) → 0 < TICKS_PER_10MS k < u32_lim →
  ∃ e k' es, clock_phase k = Ret (e, k') ∧ same_but_masks k k' es ∧
    phase_result (periodic_trace k ++ trace k) (PICS k) e (PICS k') (trace k').
Proof.
  intros Hc Hw Hr. unfold clock_phase. rewrite start_periodic_ok, bind_Ret by done.
  set (k1 := push (push k _) _).
  assert (only_trace k k1 (periodic_trace k)) as Ho1 by done.
  destruct (soak_spec k1 Hc) as (e & k2 & es & E & Ho & _ & _ & n & Htr & Hnot & Hcause).
  rewrite E, bind_Ret. pose proof (only_trace_trans _ _ _ _ _ Ho1 Ho) as Ho2.
  destruct e.
  1-3: destruct Hcause as [Hn Hov]; eapply (gate_phase_spec k k2 _ _ n);
    [done|done|lia|done|done|done|done|by eexists].
  destruct (only_trace_masks _ _ _ Ho2) as [Hs Hp].
  exists HaltStalled, k2, (es ++ periodic_trace k). do 3 (split; [done|]).
  destruct Hcause as [Hn Hov]. exists n. split_and!; [done|done|].
  intros i Hi. destruct (decide (i = n)) as [->|]; [done|apply Hnot; lia].
Qed.

(** C16.  The PIT is given up only for a proven LAPIC, and comes back if the
    LAPIC stalls.  Whatever the clocks do, the phase from the periodic start to
    the demo ends, and the loads of the two counters in its trace say how:
    - it halts as stalled after a full guard of soak turns, none of which read
      counters that end the soak, and the PIC masks are untouched;
    - it halts with the promotion skipped when the soak was over but the
      counters read at the gate were not both at 100 ticks, masks untouched;
    - it goes on with the LAPIC as master when the counters read at the gate
      were both at 100 ticks and the LAPIC, watched from then on, was read
      another 100 ticks further within the guard; IRQ0 alone was masked;
    - it rolls back when the gate was passed but a full guard of readings
      stayed below that; the masks are the initial ones again. *)
Theorem boot_clock_gate k :
  clocks_ok → win_ok (LAPIC_VIRT k) → 0 < TICKS_PER_10MS k < u32_lim →
  Z.odd (read_masks (PICS k)).1 = false →
  let m := read_masks (PICS k) in
  let tr0 := periodic_trace k ++ trace k in
  ∃ e k', clock_phase k = Ret (e, k') ∧ k_statics k' = k_statics k ∧
    match e with
    | HaltStalled => PICS k' = PICS k ∧
        ∃ n, Z.of_nat n = SOAK_SPIN_GUARD ∧ trace k' = turns (S n) tr0 ∧
          ∀ i, (i ≤ n)%nat → ¬ soak_over (turns i tr0)
    | HaltSkipped => PICS k' = PICS k ∧
        ∃ n, Z.of_nat n ≤ SOAK_SPIN_GUARD ∧ trace k' = turns (S (S n)) tr0 ∧
          (∀ i, (i < n)%nat → ¬ soak_over (turns i tr0)) ∧
          soak_over (turns n tr0) ∧ ¬ proven_at (turns (S n) tr0)
    | LapicMaster => read_masks (PICS k') = (m.1 + 1, m.2) ∧ ∃ tr, gate_passed tr0 tr ∧
        lapic_advanced (apic_now dev tr) (LoadApic (apic_now dev tr) :: tr) (trace k')
    | RolledBack => read_masks (PICS k') = m ∧ ∃ tr, gate_passed tr0 tr ∧
        lapic_stalled (apic_now dev tr) (LoadApic (apic_now dev tr) :: tr) (trace k')
    end.
Proof.
  intros Hc Hw Hr Hodd m tr0.
  destruct (clock_phase_spec k Hc Hw Hr) as (e & k' & es & E & Hs & Hres).
  exists e, k'. split_and!; [done|apply Hs|].
  destruct (promote_rollback_masks (PICS k)) as (Ep & _ & Er). destruct (masks_u8 (PICS k)) as [H1 _].
  subst m. destruct (read_masks (PICS k)) as [m1 m2] eqn:Em. cbn [fst snd] in *.
  pose proof (mask_byte _ H1) as Hm. unfold mask_facts in Hm. cbn zeta in Hm.
  rewrite Hodd in Hm. apply andb_true_iff in Hm as [Hm Hsame]. bool_to_prop.
  destruct e; cbn [phase_result] in Hres; [exact Hres|exact Hres| |].
  - destruct Hres as (HP & Hv). rewrite HP, Ep. split; [|done]. f_equal.
    pose proof (Z.div_mod (Z.lor m1 1) 2 ltac:(done)) as D1. pose proof (Z.div_mod m1 2 ltac:(done)) as D2.
    rewrite Zmod_odd in D1, D2. rewrite Hodd in D2.
    destruct (Z.odd (Z.lor m1 1)); [lia|done].
  - destruct Hres as (HP & Hv). rewrite HP, Er. split; [|done]. f_equal.
    destruct Hsame as [?|Hsame]; [done|]. by apply Z.eqb_eq in Hsame.
Qed.

(** *** Live clocks *)

(** From any early moment both counters reach the gate within the guard, the LAPIC is
    never silent or lapped when the PIT is past its gates, and the LAPIC advances
    by a gate within the guard. *)
Record clocks_live : Prop := {
  cl_timer_mono : ∀ e tr, timer_now dev tr ≤ timer_now dev (e :: tr);
  cl_gate : ∀ tr, early tr → ∃ n, Z.of_nat n ≤ SOAK_SPIN_GUARD ∧ proven_at (turns n tr);
  cl_not_silent : ∀ tr, SOAK_TICKS_EACH ≤ timer_now dev tr → 0 < apic_now dev tr;
  cl_not_lapped : ∀ tr, SOAK_TICKS_EACH * 2 ≤ timer_now dev tr → SOAK_TICKS_EACH ≤ apic_now dev tr;
  cl_watch : ∀ tr, early tr → let base := apic_now dev tr in
    ∃ n, Z.of_nat n ≤ SOAK_SPIN_GUARD ∧
      SOAK_TICKS_EACH ≤ apic_now dev (wturns n (LoadApic base :: tr)) - base
}.

Lemma clock_phase_live k :
  clocks_ok → clocks_live → win_ok (LAPIC_VIRT k) → 0 < TICKS_PER_10MS k < u32_lim →
  Z.of_nat (length (trace k)) ≤ horizon `div` 2 →
  ∃ k' es, clock_phase k = Ret (LapicMaster, k') ∧ same_but_masks k k' es ∧
    PICS k' = promote_masks (PICS k).
Proof.
  intros Hc [L1 L2 L3 L4 L5] Hw Hr Hlen. change (horizon `div` 2) with 500000000 in Hlen.
  destruct (clock_phase_spec k Hc Hw Hr) as (e & k' & es & E & Hs & Hres). exists k', es.
  pose proof (ck_apic_mono Hc) as Hmono. destruct e; cbn [phase_result] in Hres.
  - exfalso. destruct (L2 (periodic_trace k ++ trace k)) as (j & Hj & Hp);
      [unfold early, horizon; rewrite length_app; cbn [periodic_trace length]; lia|].
    destruct Hres as (_ & n & Hn & _ & Hno). apply (Hno j); [lia|]. by exists SoakProven.
  - exfalso. destruct Hres as (_ & n & _ & _ & _ & [e He] & Hnp). cbn [turns] in Hnp.
    set (tr := turns n _) in *. apply Hnp. clear Hnp.
    unfold proven_at, turn_pic, turn_apic, turn in *.
    pose proof (Hmono (LoadTimer (timer_now dev tr)) tr) as Hm.
    destruct e; cbn [ends_soak] in He; unfold proven_at, turn_pic, turn_apic in He; [| | |done].
    + destruct He. split; [do 2 (etrans; [|apply L1])|do 2 (etrans; [|apply Hmono])]; done.
    + destruct He as [He1 He2]. specialize (L3 tr He1). lia.
    + destruct He as [He1 He2]. specialize (L4 tr He1). lia.
  - split_and!; [done|done|apply Hres].
  - exfalso. destruct Hres as (_ & tr & (n & Hn & _ & _ & _ & Htr) & j & Hj & _ & Hstall).
    destruct (L5 tr) as (i & Hi & Hp).
    { unfold early, horizon. rewrite Htr, turns_length, length_app. unfold SOAK_SPIN_GUARD in Hn.
      cbn [periodic_trace length]. lia. }
    specialize (Hstall i ltac:(lia)). lia.
Qed.

(** ** The whole boot *)
Section reaches_demo.
Context `{PhysFrames} `{VA : VirtAddrs} {M A : Type} `{PG : Paging M} `{BA : Memory.BootAllocator A}.

(** What the machine has to offer. *)
Record sane_machine (edx msr cr3 : Z) (regions : list MemoryRegion) : Prop := {
  sm_present : Z.testbit edx 9 = true;
  sm_enabled : Z.testbit msr 11 = true;
  sm_cr3 : 0 ≤ cr3 < 2 ^ 47;
  sm_map : map_ok regions ∧ Z.of_nat (length regions) < 2 ^ 63;
  sm_room : (4 * 256 + 3 ≤ length (regions ≫= region_frames))%nat;
  sm_free :
    let m0 : M := OffsetPageTable_new (Memory.PHYS_MEM_OFFSET + cr3) Memory.PHYS_MEM_OFFSET in
    Forall (Memory.free_page m0)
      (Memory.MMIO_WINDOW :: Memory.heap_pages Memory.HEAP_START Memory.HEAP_SIZE);
  sm_pit : pit_live dev;
  sm_ccr : ccr_live dev Memory.MMIO_WINDOW;
  sm_clocks : clocks_ok;
  sm_live : clocks_live
}.

Lemma window_not_heap : Memory.MMIO_WINDOW ∉ Memory.heap_pages Memory.HEAP_START Memory.HEAP_SIZE.
Proof. intros (_ & H2 & _)%elem_of_frames_between. by vm_compute in H2. Qed.

Lemma self_tests_ok f (k : Kernel) :
  ∃ s, (s1 ← software_int breakpoint_handler f (mkIrq 0 0 0 false k); syscall_self_test f s1)
    = Ret (Some s) ∧ kern s = k.
Proof. eexists. split; [reflexivity|done]. Qed.

(** The clocks after APIC bring-up: calibrated, promoted, everything else as it was. *)
Lemma clocks_up (k : Kernel) f stub :
  pit_live dev → ccr_live dev (LAPIC_VIRT k) → clocks_ok → clocks_live → win_ok (LAPIC_VIRT k) →
  PREEMPTIBLE (k_statics k) = 0 → EOI_BASE (k_statics k) ≠ 0 → stub ≠ 0 →
  Z.of_nat (length (trace k)) ≤ horizon `div` 4 →
  ∃ k', clock_sequence stub f k = Ret (LapicMaster, k') ∧
    LAPIC_VIRT k' = LAPIC_VIRT k ∧ k_statics k' = k_statics k ∧
    PICS k' = promote_masks (rollback_masks (PICS k)).
Proof.
  intros Hpit Hccr Hc Hl Hw Hf He Hs Hlen. unfold clock_sequence.
  destruct (timer_init_ok p k) as (es & Hes & ->). rewrite bind_Ret.
  set (k3 := mkKernel (LAPIC_VIRT k) _ _ _ _).
  change (horizon `div` 4) with 250000000 in Hlen.
  assert (Z.of_nat (length (trace k3)) ≤ 250000003) as Hl3
    by (cbn [k3 trace]; rewrite length_app, Hes; lia).
  destruct (calibrate_live dev k3 Hw Hpit Hccr) as (rate & k4 & E4);
    [change (horizon `div` 2) with 500000000; lia|]. rewrite E4, bind_Ret.
  destruct (calibrate_Ok dev k3 rate k4 Hw E4) as (es4 & Hr & Ht & Hv & Hp & Hst & Htr & Hn4).
  unfold SPIN_GUARD in Hn4.
  destruct (self_tests_ok f k4) as (s & Es & Hk). apply bind_inv in Es as (s1 & E1 & E2).
  rewrite E1, bind_Ret, E2, bind_Ret. cbn [expect]. rewrite bind_Ret, Hk.
  destruct (clock_phase_live k4 Hc Hl) as (k5 & es5 & E5 & (S1 & S2 & S3 & S4) & Hp5);
    [by rewrite Hv|by rewrite Ht|rewrite Htr, length_app; change (horizon `div` 2) with 500000000; lia|].
  rewrite E5, bind_Ret. exists k5. unfold proof_block. rewrite S3, Hst. cbn [k3 k_statics].
  rewrite Hf, (proj2 (Z.eqb_neq _ _) He), (proj2 (Z.eqb_neq _ _) Hs). cbn [Z.eqb negb assert_].
  rewrite !bind_Ret. split_and!; [done|by rewrite S1, Hv|done|]. by rewrite Hp5, Hp.
Qed.

(** The kernel boots to its demo: on a sane machine (an enabled APIC, a
    memory map with room, page tables that leave the heap and the MMIO window
    free, live clocks) the sequence of [kernel_main] from the PIC remap to the
    proof block runs without a panic and without a halt, under either frame
    allocator.  It leaves the heap mapped and handed to the global allocator, the
    LAPIC mapped at its window and its EOI address published, the LAPIC as the
    only clock (every PIC line masked), and the preemption state otherwise as it
    was, with the fence down. *)
Theorem kernel_reaches_demo edx msr rsdp cr3 regions on stub f k0 :
  sane_machine edx msr cr3 regions → stub ≠ 0 → PREEMPTIBLE (k_statics k0) = 0 → trace k0 = [] →
  ∃ m a k',
    kernel_boot edx msr rsdp cr3 (Memory.mkBootInfo (Some Memory.PHYS_MEM_OFFSET) regions) on stub f k0
      = Ret (LapicMaster, m, a, Some (Memory.HEAP_START, Memory.HEAP_SIZE), k') ∧
    alloc_inv a ∧
    (∀ v, Memory.HEAP_START ≤ v < Memory.HEAP_START + Memory.HEAP_SIZE →
       ∃ fr, fr ∈ regions ≫= region_frames ∧ mapped m !! page_of v = Some (fr, Memory.heap_flags)) ∧
    mapped m !! Memory.MMIO_WINDOW = Some (base (probe edx msr rsdp), Memory.mmio_flags) ∧
    LAPIC_VIRT k' = Memory.MMIO_WINDOW ∧ read_masks (PICS k') = (0xFF, 0xFF) ∧
    k_statics k' = set_eoi_base (Memory.MMIO_WINDOW + EOI_OFFSET) (k_statics k0).
Proof.
  intros [H1 H2 H3 [H4 H4'] H5 [H6 H6']%Forall_cons H7 H8 H9 H10] Hs Hf Htr.
  destruct (Memory.memory_init_spec p cr3 regions on H3 H4 H4' H6' ltac:(lia))
    as (m & a & fs & ts & E & Ha & _ & Hp & Hfs & Hts & _ & Hin).
  destruct (probe_base edx msr rsdp) as [Hal Hb]. pose proof window_not_heap as Hnh.
  assert (present (probe edx msr rsdp) = true) as Hpr by (etrans; [by apply land_bit|done]).
  assert (enabled (probe edx msr rsdp) = true) as Hen by (etrans; [by apply land_bit|done]).
  destruct (apic_init_ok dev p m a (probe edx msr rsdp)
    (set_pics k0 (write_masks (pics_initialize (PICS k0)) 0xFF 0xFF)))
    as (m1 & a1 & E1 & Ha1 & Hm1); [done| | |done|done|done|done|].
  { destruct Hin as (_ & Ho & Hbl). split; [rewrite Ho by done|rewrite Hbl]; apply H6. }
  { apply Permutation_length in Hp. rewrite !length_app in Hp. lia. }
  set (k2 := mkKernel Memory.MMIO_WINDOW _ _ _ _) in E1.
  destruct (clocks_up k2 f stub H7 H8 H9 H10) as (k' & Eu & U1 & U2 & U3);
    [split; by vm_compute|done|by vm_compute|done|cbn [k2 trace set_pics]; by rewrite Htr|].
  exists m1, a1, k'. split_and!; [|done| | |done| |done].
  - unfold kernel_boot. change (interrupts_init k0) with
      (Ret (Ok (), set_pics k0 (write_masks (pics_initialize (PICS k0)) 0xFF 0xFF))).
    rewrite bind_Ret, Hpr. cbn [assert_]. by rewrite bind_Ret, E, bind_Ret, E1, bind_Ret, Eu.
  - intros v Hv. destruct (Memory.installed_translate _ _ _ _ _ _ Hin Hv) as (fr & Hfr & Hm & _).
    exists fr. split; [rewrite Hp, elem_of_app; by left|].
    rewrite Hm1, lookup_insert_ne; [done|]. intros Heq. apply Hnh. rewrite Heq.
    by apply Memory.heap_pages_in.
  - by rewrite Hm1, lookup_insert_eq.
  - rewrite U3. destruct (promote_rollback_masks (rollback_masks (PICS k2))) as (-> & _).
    destruct (promote_rollback_masks (PICS k2)) as (_ & -> & _).
    cbn [k2 PICS set_pics]. by rewrite read_write_masks.
Qed.
End reaches_demo.
End boot.

(** ** Witnesses *)

(** Two clocks that advance by 100 ticks with every observation, and a LAPIC
    counter that ran down by 5000. *)
Definition tick_count (tr : list event) : Z := Z.min (100 * Z.of_nat (length tr)) (2 ^ 62).
Definition live_dev : Devices := mkDevices (λ _ _, 0xFFFFFFFF - 5000) tick_count tick_count.

Lemma tick_mono e tr : tick_count tr ≤ tick_count (e :: tr).
Proof. unfold tick_count. cbn [length]. lia. Qed.

Lemma live_clocks_ok : clocks_ok live_dev.
Proof. constructor; [intros tr|intros tr|apply tick_mono]; cbn; unfold tick_count; lia. Qed.

Lemma tick_early tr : early tr → tick_count tr = 100 * Z.of_nat (length tr).
Proof. unfold early, horizon, tick_count. lia. Qed.

Lemma live_clocks_live : clocks_live live_dev.
Proof.
  constructor.
  - apply tick_mono.
  - intros tr _. exists 1%nat. split; [by vm_compute|].
    unfold proven_at, turn_pic, turn_apic, turns, turn, SOAK_TICKS_EACH.
    cbn [live_dev timer_now apic_now]. unfold tick_count. cbn [length]. lia.
  - intros tr. cbn. unfold SOAK_TICKS_EACH. lia.
  - intros tr. cbn. unfold SOAK_TICKS_EACH. lia.
  - intros tr Htr base. exists 1%nat. split; [by vm_compute|]. subst base.
    unfold SOAK_TICKS_EACH. cbn [live_dev apic_now wturns]. unfold tick_count, early, horizon in *.
    cbn [length]. lia.
Qed.

Lemma live_pit : pit_live live_dev.
Proof.
  intros tr Htr v. exists 0%nat. split; [by vm_compute|]. subst v. cbn [spin live_dev timer_now].
  rewrite (tick_early tr Htr). unfold tick_count, early, horizon in *. cbn [length].
  rewrite Z.min_l by lia. replace (_ - _) with 100 by lia. by vm_compute.
Qed.

Lemma boot_clock_gate_witness :
  ∃ e k', clock_phase live_dev Dev (set_rate quick_kernel 500) = Ret (e, k').
Proof.
  destruct (boot_clock_gate live_dev Dev (set_rate quick_kernel 500)) as (e & k' & E & _).
  - apply live_clocks_ok.
  - apply quick_win.
  - by vm_compute.
  - by vm_compute.
  - exists e, k'. exact E.
Defined.

Definition cold_kernel : Kernel (P := Z * Z) := mkKernel 0 0 statics_init (0, 0) [].

Lemma live_machine : sane_machine live_dev (M := SparsePT) 0x200 0xFEE00900 0x2000 Memory.big_map.
Proof.
  constructor.
  - done.
  - done.
  - lia.
  - split; [apply Memory.big_map_ok|cbn; lia].
  - apply Nat.leb_le. by vm_compute.
  - apply Memory.no_pages_free.
  - apply live_pit.
  - intros tr. by vm_compute.
  - apply live_clocks_ok.
  - apply live_clocks_live.
Qed.

Lemma kernel_reaches_demo_witness :
  ∃ m a k', kernel_boot live_dev (M := SparsePT) (A := Buddy.BuddyFrameAllocator)
      (FA := BuddySpec.buddy_FrameAllocator Dev) (FO := Memory.buddy_FrameAlloc Dev) Dev
      0x200 0xFEE00900 None 0x2000
      (Memory.mkBootInfo (Some Memory.PHYS_MEM_OFFSET) Memory.big_map) true 0x8000 ZERO cold_kernel
    = Ret (LapicMaster, m, a, Some (Memory.HEAP_START, Memory.HEAP_SIZE), k') ∧
    EOI_BASE (k_statics k') = Memory.MMIO_WINDOW + 0xB0.
Proof.
  destruct (kernel_reaches_demo live_dev Dev (BA := Memory.buddy_BootAllocator Dev) 0x200 0xFEE00900 None
    0x2000 Memory.big_map true 0x8000 ZERO cold_kernel live_machine) as (m & a & k' & E & _ & _ & _ & _ & _ & Hst).
  - discriminate.
  - reflexivity.
  - reflexivity.
  - exists m, a, k'. split; [exact E|]. by rewrite Hst.
Defined.

End Boot.
