(* ===== verification/KernelMain.v ===== *)
(** * The kernel from the first instruction to rest ([kernel/src/main.rs])

    [kernel_main] whole: the boot sequence of Boot and then the demo of Driver,
    joined by what they share, the statics of [preempt.rs] with the tick counter,
    the heap and its mapping.  The theorem composes memory, APIC, clocks, spawning
    and scheduling, under either frame allocator and either policy. *)
From stdpp Require Import gmap.
From S2P Require Import Prelude Frames BumpAlloc BuddyAlloc BuddySpec Machine Paging Memory.
From S2P Require Import ContextSwitch Preempt PreemptStub PreemptTable Task Sched SchedRun.
From S2P Require Import SchedSpec SchedSpawn SchedFair Driver Apic ApicSpec Irq Boot.

#[local] Open Scope Z_scope.

Module KernelMain.
Import Preempt Stub Table Tasks Sched SchedRun SchedSpec SchedSpawn SchedFair Driver Apic ApicSpec.
Import Irq Boot.

(** ** The entry point *)

(** [bootloader_api::config::Mapping]. *)
Inductive Mapping :=
| Dynamic
| FixedAddress (a : Z).

(** The [bootloader_api] crate and the bootloader: a configuration with a default,
    the one field the kernel sets, and the hand-over, which reports where physical
    memory was mapped: at the fixed address asked for, and nowhere when it was not
    asked for. *)
Class Bootloader (C : Type) := {
  new_default : C;
  set_physical_memory : option Mapping → C → C;
  physical_memory : C → option Mapping;
  hand_over : C → list MemoryRegion → Memory.BootInfo;
  physical_memory_set o c : physical_memory (set_physical_memory o c) = o;
  hand_over_regions c regions : Memory.memory_regions (hand_over c regions) = regions;
  hand_over_fixed c regions a :
    physical_memory c = Some (FixedAddress a) →
    Memory.physical_memory_offset (hand_over c regions) = Some a;
  hand_over_none c regions :
    physical_memory c = None → Memory.physical_memory_offset (hand_over c regions) = None
}.

(** A bootloader that maps physical memory at a place of its own choice if left to. *)
#[export] Instance plain_bootloader : Bootloader (option Mapping).
Proof.
  refine {| new_default := None; set_physical_memory o _ := o; physical_memory c := c;
    hand_over c regions := Memory.mkBootInfo
      (match c with Some (FixedAddress a) => Some a | Some Dynamic => Some 0x18000000000 | None => None end)
      regions |}; by intros; simplify_eq.
Defined.

Section entry.
Context {C : Type} `{BL : !Bootloader C}.

Definition BOOTLOADER_CONFIG : C :=
  set_physical_memory (Some (FixedAddress Memory.PHYS_MEM_OFFSET)) new_default.

Lemma config_boot_info regions :
  hand_over BOOTLOADER_CONFIG regions = Memory.mkBootInfo (Some Memory.PHYS_MEM_OFFSET) regions.
Proof.
  pose proof (hand_over_regions BOOTLOADER_CONFIG regions) as H1.
  assert (Memory.physical_memory_offset (hand_over BOOTLOADER_CONFIG regions)
    = Some Memory.PHYS_MEM_OFFSET) as H2 by (apply hand_over_fixed, physical_memory_set).
  destruct (hand_over BOOTLOADER_CONFIG regions). cbn in *. by subst.
Qed.
End entry.

(** How the kernel comes to rest; the last is a demo that needs more turns than
    were given. *)
Inductive KernelEnd :=
| ClockHalt (e : ClockEnd)
| DemoRest (e : DemoEnd)
| DemoRuns.

Section kernel.
Context (dev : Devices) {P : Type} `{CP : ChainedPics P} (p : profile).
Context `{PF : PhysFrames} `{VA : VirtAddrs} {M A : Type} `{PG : Paging M} `{FA : FrameAllocator A}
  `{FO : !Memory.FrameAlloc A}.
Context {S : Type} `{SC : !Scheduler S} (sched_new : S) (cfs : bool).
Context {C : Type} `{BL : !Bootloader C}.

(** What the boot sequence leaves to the demo; [mem] is memory as it is then, no
    task pointer is set and no box allocated. *)
Definition demo_world (k : Kernel (P := P)) (mem : memory) : World :=
  mkWorld (set_ticks (k_statics k) (apic_now dev (trace k))) (replicate MAX_TASKS None) ∅ 1 mem 0 0.

(** The arguments of [kernel_boot]; the trampoline's address and the code
    selector; the stack allocations; what happens during the turns of the demo. *)
Definition kernel_main (edx msr : Z) (rsdp : option Z) (cr3 : Z) (bi : Memory.BootInfo)
    (self_test_on : bool) (stub : Z) (f : FullFrame) (k0 : Kernel (P := P))
    (mem : memory) (tramp cs_reg : Z) (raws : Z → Z) (envs : list TurnEnv)
    : outcome (KernelEnd * M) :=
  '(e, m, a, heap, k) ← kernel_boot dev p edx msr rsdp cr3 bi self_test_on stub f k0;
  match (e : ClockEnd) with
  | HaltStalled | HaltSkipped => Ret (ClockHalt e, m)
  | _ =>
      sw ← demo_spawn p tramp cs_reg cfs raws sched_new (demo_world k mem);
      r ← drive p envs (driver_start (fst sw) (snd sw));
      Ret (match r with inr d => DemoRest d | inl _ => DemoRuns end, m)
  end.

(** [entry_point!]: the bootloader reads the configuration, finds [regions] and
    calls [kernel_main]. *)
Definition kernel_entry (edx msr : Z) (rsdp : option Z) (cr3 : Z) (regions : list MemoryRegion)
    (self_test_on : bool) (stub : Z) (f : FullFrame) (k0 : Kernel (P := P))
    (mem : memory) (tramp cs_reg : Z) (raws : Z → Z) (envs : list TurnEnv)
    : outcome (KernelEnd * M) :=
  kernel_main edx msr rsdp cr3 (hand_over BOOTLOADER_CONFIG regions) self_test_on stub f k0
    mem tramp cs_reg raws envs.

(** Without the mapping in the configuration memory bring-up panics. *)
Lemma no_mapping_panics (c : C) cr3 regions self_test_on :
  physical_memory c = None →
  ∃ msg, Memory.memory_init (M := M) (A := A) p cr3 (hand_over c regions) self_test_on = Panic msg.
Proof.
  intros Hc. unfold Memory.memory_init. rewrite (hand_over_none c regions Hc). by eexists.
Qed.

(** ** What the demo needs *)

Definition bottom (raws : Z → Z) (k : nat) : Z := align_up (raws (Z.of_nat k)) STACK_ALIGN.

(** The heap allocator hands out four blocks of the heap, apart from each other. *)
Definition heap_blocks (raws : Z → Z) : Prop :=
  (∀ k, 0 ≤ k < 4 → Memory.HEAP_START ≤ raws k ∧
     raws k + STACK_ALLOC_BYTES ≤ Memory.HEAP_START + Memory.HEAP_SIZE) ∧
  ∀ i j, 0 ≤ i < j → j < 4 →
    raws i + STACK_ALLOC_BYTES ≤ raws j ∨ raws j + STACK_ALLOC_BYTES ≤ raws i.

(** A turn: a fresh tick, at most [B] interrupts, each step inside its own stack
    and no canary overwritten. *)
Definition turn_fits (B : Z) (raws : Z → Z) (e : TurnEnv) : Prop :=
  idle_irqs e ≠ [] ∧
  (∀ a, Z.of_nat (length (idle_irqs e)) + env_ticks (step_env e a) ≤ B) ∧
  ∀ i, (i < 4)%nat →
    Forall (λ f, valid_for f (bottom raws i) (bottom raws i + STACK_SIZE_BYTES) = true)
      (irq_during (step_env e (1 + i)%nat)) ∧
    ∀ j m, (j < 4)%nat → load 8 m (bottom raws j) = STACK_CANARY →
      load 8 (step_mem (step_env e (1 + i)%nat) m) (bottom raws j) = STACK_CANARY.

Lemma heap_blocks_ok raws wake : heap_blocks raws → blocks_ok (demo_tasks cfs raws wake).
Proof.
  intros [Hin Hap]. pose proof (Hin 0 ltac:(lia)). pose proof (Hin 1 ltac:(lia)).
  pose proof (Hin 2 ltac:(lia)). pose proof (Hin 3 ltac:(lia)).
  pose proof (Hap 0 1 ltac:(lia) ltac:(lia)). pose proof (Hap 0 2 ltac:(lia) ltac:(lia)).
  pose proof (Hap 0 3 ltac:(lia) ltac:(lia)). pose proof (Hap 1 2 ltac:(lia) ltac:(lia)).
  pose proof (Hap 1 3 ltac:(lia) ltac:(lia)). pose proof (Hap 2 3 ltac:(lia) ltac:(lia)).
  cbn [demo_tasks worker_spec blocks_ok sp_state sp_weight]. rewrite !Forall_cons, !Forall_nil.
  unfold block_apart, raw_ok, CFS_DEFAULT_WEIGHT, Memory.HEAP_START, Memory.HEAP_SIZE,
    STACK_ALLOC_BYTES, STACK_SIZE_BYTES, STACK_ALIGN, u64_lim in *. cbn [worker_spec sp_raw sp_weight].
  repeat match goal with |- context [if ?c then _ else _] => destruct c end; lia.
Qed.

(** A world without tasks. *)
Lemma empty_world_ok st mem :
  table_wf st → PREEMPTIBLE st = 0 → (∀ i, (i < MAX_TASKS)%nat → slot_bit st i = false) →
  u64 (APIC_TICKS st) → u64 (PREEMPT_SWITCHES st) →
  sched_ok [] (mkWorld st (replicate MAX_TASKS None) ∅ 1 mem 0 0).
Proof.
  intros Hw Hf Hs Ht Hp.
  assert (∀ a : nat, ¬ is_Some ((∅ : gmap nat Task) !! a)) as Hno by (intros a [? ?]; done).
  constructor; [constructor|done|done|done]; cbn [boxes statics task_ptrs next_box]; try done.
  - apply NoDup_nil_2.
  - intros a. split; [by intros ?%not_elem_of_nil|intros H; by apply Hno in H].
  - intros a H. by apply Hno in H.
  - intros i Hi Hb. rewrite Hs in Hb; done.
  - intros i Hi _. by apply lookup_replicate_2.
Qed.

Lemma boot_statics_ok v eoi mem :
  u64 v → sched_ok [] (mkWorld (set_ticks (set_eoi_base eoi statics_init) v)
                         (replicate MAX_TASKS None) ∅ 1 mem 0 0).
Proof.
  intros Hv. assert (table_wf statics_init) as [] by (apply (table_reachable_wf statics_init), rtc_refl).
  apply empty_world_ok; [by constructor|done| |done|done].
  intros i Hi. unfold MAX_TASKS in Hi. by do 7 (destruct i as [|i]; [done|]); lia.
Qed.

(** The demo in such a world: the scheduler is drained with the due ledger, what
    waiting and scheduling keep holds then, and the report is success. *)
Lemma demo_runs `{SS : !SchedulerSpec S} (J : S → World → Prop) `{LJ : !LoopInvariant p J}
    w tramp cs_reg raws envs B :
  sched_ok [] w → boxes w = ∅ → next_box w = 1%nat → now w < 2 ^ 63 →
  queue sched_new = [] → finished sched_new = [] → next_no sched_new = 1 →
  u64 tramp → heap_blocks raws → Forall (turn_fits B raws) envs → (36 < length envs)%nat →
  0 ≤ B → B * Z.of_nat (length envs) < 2 ^ 63 →
  (∀ e, head envs = Some e → turn_yanks e) →
  (∀ s w', finished s = [] → sched_ok (queue s) w' → queue s = [1; 2; 3; 4]%nat →
     demo_made cfs raws (now w + 20) w' → J s w') →
  ∃ s w' n d, demo_spawn p tramp cs_reg cfs raws sched_new w = Ret (s, w') ∧
    (n < length envs)%nat ∧ drive p (take n envs) (driver_start s w') = Ret (inl d) ∧
    alive (sched d) = 0%nat ∧ finished (sched d) ≡ₚ demo_ledger ∧
    ledger (sched d) (world d) ≡ₚ demo_ledger ∧ J (sched d) (world d) ∧
    drive p envs (driver_start s w') = Ret (inr Online).
Proof.
  intros Hok Hb Hnb Hnow Hq Hfin Hno Hu Hheap Hturns Hlen HB HBl Hy HJ.
  pose proof (so_ticks _ _ Hok) as Htk.
  destruct (demo_spawn_ok p tramp cs_reg cfs raws sched_new w)
    as (s & w' & E & Hok' & Hq' & Hf' & Hnow' & Hnew); try done; [ulia|by apply heap_blocks_ok|].
  rewrite Hfin in Hf'. pose proof (demo_due cfs raws _ w' Hnew) as Hdue. rewrite <- Hq' in Hdue.
  specialize (Hdue (λ a Hin, proj1 (wl_dom _ _ (so_live _ _ Hok') a) Hin)).
  destruct (demo_drives p J envs s w' demo_left (now w + 20) B)
    as (n & d & Hn & En & Hz & Hfd & Hl & HJd & Ed & _ & Hon).
  - done.
  - exact (demo_progress cfs raws _ w' Hnew).
  - by apply HJ.
  - rewrite Hq'. by vm_compute.
  - rewrite Hnow'. unfold SCHED_RUNAWAY_GUARD. lia.
  - done.
  - eapply Forall_impl; [exact Hturns|]. intros t (H1 & H2 & H3). split_and!; try done.
    intros a ta (i & sp & -> & Hi & Hsp & Hm)%Hnew.
    destruct (demo_stack _ _ _ _ _ _ Hi Hsp Hm) as [-> ->]. destruct (H3 i Hi) as [H4 H5]. split; [done|].
    intros b tb m (j & spj & -> & Hj & Hspj & Hmj)%Hnew. unfold canary_ok.
    destruct (demo_stack _ _ _ _ _ _ Hj Hspj Hmj) as [-> _]. rewrite !Z.eqb_eq. by apply H5.
  - rewrite Hnow'. ulia.
  - rewrite Hq', Hnow'. cbn [sum_list_with demo_left]. cbn. lia.
  - rewrite Hdue, Hf', app_nil_r in Hfd, Hl, Ed.
    exists s, w', n, d. split_and!; try done. rewrite Ed. unfold report.
    rewrite (proj2 (Z.eqb_neq _ _)); [done|]. apply Hon; [done|].
    assert (1%nat ∈ queue s) as Hin by (rewrite Hq'; by left).
    apply (wl_dom _ _ (so_live _ _ Hok')) in Hin as [t Ht]. exists 1%nat, t. split; [done|].
    destruct (Hnew 1%nat t Ht) as (k & sp & Hk & _ & Hsp & Hm).
    destruct (demo_task_left _ _ _ _ _ _ Hsp Hm) as (_ & _ & _ & _ & Hr). apply Hr. lia.
Qed.

(** C5.  The kernel comes online: on a sane machine (an enabled APIC, a usable
    memory map, a free address range, live clocks), with a heap allocator that
    hands out disjoint blocks of the heap and steps that stay on their stacks,
    [kernel_main], entered by a bootloader that honours [BOOTLOADER_CONFIG], boots,
    maps the heap, promotes the LAPIC, spawns the four demo tasks and runs them to
    the success report, without a panic and without tripping a guard, under either frame allocator and either policy, once a tick
    lands in the first step; and every byte of every task stack is backed by a
    frame of its page. *)
Theorem kernel_comes_online `{BA : !Memory.BootAllocator A} `{SS : !SchedulerSpec S}
    edx msr rsdp cr3 regions on stub f (k0 : Kernel (P := P)) mem tramp cs_reg raws envs B :
  sane_machine dev (M := M) edx msr cr3 regions → stub ≠ 0 → u64 tramp →
  k_statics k0 = statics_init → trace k0 = [] →
  queue sched_new = [] → finished sched_new = [] → next_no sched_new = 1 →
  heap_blocks raws → Forall (turn_fits B raws) envs → (36 < length envs)%nat →
  0 ≤ B → B * Z.of_nat (length envs) < 2 ^ 63 →
  (∀ e, head envs = Some e → turn_yanks e) →
  ∃ m, kernel_entry edx msr rsdp cr3 regions on stub f k0 mem tramp cs_reg raws envs
         = Ret (DemoRest Online, m) ∧
    ∀ k v, (k < 4)%nat → bottom raws k ≤ v < bottom raws k + STACK_SIZE_BYTES →
      ∃ fr, fr ∈ regions ≫= region_frames ∧ mapped m !! page_of v = Some (fr, Memory.heap_flags).
Proof.
  intros Hm Hs Hu Hst Htr Hq Hfin Hno Hheap Hturns Hlen HB HBl Hy.
  destruct (kernel_reaches_demo dev p edx msr rsdp cr3 regions on stub f k0 Hm Hs)
    as (m & a & k' & E & _ & Hmap & _ & _ & _ & Hst'); [by rewrite Hst|done|].
  pose proof (ck_apic dev (sm_clocks dev _ _ _ _ Hm) (trace k')) as Hck. rewrite Hst in Hst'.
  destruct (demo_runs (λ _ _, True) (demo_world k' mem) tramp cs_reg raws envs B)
    as (s & w & n & d & Es & _ & _ & _ & _ & _ & _ & Ed);
    try done; [unfold demo_world; rewrite Hst'; apply boot_statics_ok; ulia|unfold now; cbn; lia|].
  exists m. split.
  - unfold kernel_entry, kernel_main. rewrite config_boot_info, E, bind_Ret. cbn iota beta. rewrite Es, bind_Ret. cbn [fst snd].
    by rewrite Ed, bind_Ret.
  - intros k v Hk Hv. apply Hmap. destruct Hheap as [Hin _]. specialize (Hin (Z.of_nat k) ltac:(lia)).
    unfold bottom, STACK_ALLOC_BYTES, STACK_SIZE_BYTES, STACK_ALIGN in *.
    pose proof (align_up_bounds (raws (Z.of_nat k)) 16 ltac:(lia)). lia.
Qed.

End kernel.

(** ** Witness: the shipped build, buddy frames and round robin *)

Lemma heap_at_heap : heap_blocks heap_at.
Proof.
  split; unfold heap_at, Memory.HEAP_START, Memory.HEAP_SIZE, STACK_ALLOC_BYTES, STACK_SIZE_BYTES,
    STACK_ALIGN; intros; lia.
Qed.

Lemma busy_fits : turn_fits 2 heap_at busy_turn.
Proof.
  split_and!; [discriminate|intros a; by vm_compute|].
  intros i Hi. split; [|done]. cbn [busy_turn step_env irq_during]. apply Forall_singleton.
  by do 4 (destruct i as [|i]; [by vm_compute|]); lia.
Qed.

Lemma kernel_comes_online_witness :
  ∃ m, kernel_entry live_dev Dev (M := SparsePT) (A := Buddy.BuddyFrameAllocator)
      (FA := BuddySpec.buddy_FrameAllocator Dev) (FO := Memory.buddy_FrameAlloc Dev)
      RoundRobin_new false 0x200 0xFEE00900 None 0x2000 Memory.big_map true 0x8000 ZERO cold_kernel
      (λ _, 0) 0x8000 8 heap_at (replicate 40 busy_turn)
    = Ret (DemoRest Online, m).
Proof.
  destruct (kernel_comes_online live_dev Dev RoundRobin_new false
    (BA := Memory.buddy_BootAllocator Dev) 0x200 0xFEE00900 None 0x2000 Memory.big_map true 0x8000
    ZERO cold_kernel (λ _, 0) 0x8000 8 heap_at (replicate 40 busy_turn) 2 live_machine)
    as (m & E & _).
  - discriminate.
  - by vm_compute.
  - reflexivity.
  - reflexivity.
  - reflexivity.
  - reflexivity.
  - reflexivity.
  - exact heap_at_heap.
  - apply Forall_replicate, busy_fits.
  - rewrite length_replicate. lia.
  - lia.
  - by vm_compute.
  - intros e [= <-] a. discriminate.
  - exists m. exact E.
Defined.

End KernelMain.
