(* ===== verification/ShippedDemo.v ===== *)
(** * The demo as it ships under CFS

    The four tasks of the demo block, gamma with double weight, run under the
    completely fair scheduler: whatever the timer interrupts and the steps do
    within their stacks, gamma finishes before alpha and before beta.  The
    argument is an invariant of the driver loop: a worker's vruntime is its runs
    times its slice, a worker makes its last step from the fourth run on, and at
    that point alpha and beta stand at 400 while gamma never passes 200. *)
From stdpp Require Import gmap.
From S2P Require Import Prelude Machine Preempt PreemptStub PreemptTable Task Sched SchedRun.
From S2P Require Import SchedSpec SchedSpawn SchedFair CfsWait Driver KernelMain.

#[local] Open Scope Z_scope.

Module ShippedDemo.
Import Preempt Tasks Sched SchedRun SchedSpec SchedSpawn SchedFair CfsWait Driver KernelMain.

Section order.
Context `{VA : VirtAddrs} (p : profile).

Definition gamma_entry : entry := (3, "gamma"%string, 5).

(** The ledger entries of alpha and beta. *)
Definition other_worker (e : entry) : Prop := e.1.1 = 1 ∨ e.1.1 = 2.

(** Gamma's entry comes before those of alpha and beta. *)
Definition gamma_first (fin : list entry) : Prop :=
  ∃ pre post, fin = pre ++ gamma_entry :: post ∧ Forall (λ e, ¬ other_worker e) pre.

(** The slice of the worker in box [a]. *)
Definition worker_slice (a : nat) : Z := if (a =? 3)%nat then 50 else 100.

(** A live task of the block: the napper in box 4, or a worker. *)
Record block_task (a : nat) (t : Task) : Prop := {
  bt_id : id t = Z.of_nat a;
  bt_worker : a ≠ 4%nat →
    state t = Ready ∧ step t = worker_step ∧ 0 ≤ runs t ≤ 4 ∧
    cfs_slice t = worker_slice a ∧ vruntime t = runs t * worker_slice a;
  bt_gamma : a = 3%nat → name t = "gamma"%string
}.

(** As long as gamma lives no other worker has finished. *)
Record gamma_inv (s : Cfs) (w : World) : Prop := {
  gi_tasks : ∀ a t, boxes w !! a = Some t → block_task a t;
  gi_order : if boxes w !! 3%nat then Forall (λ e, ¬ other_worker e) (cfs_finished s)
             else gamma_first (cfs_finished s)
}.

Lemma worker_slice_pos a : 0 < worker_slice a ≤ 100.
Proof. unfold worker_slice. case_match; lia. Qed.

(** A worker that goes on is still a task of the block. *)
Lemma block_task_runs a t e q w :
  block_task a t → a ≠ 4%nat → step t (runs t) = true →
  block_task a (charged e (woken q w t)).
Proof.
  intros [Hid Hw Hg] Ha Hs. destruct (Hw Ha) as (Hst & Hstep & Hr & Hsl & Hv).
  assert (woken q w t = t) as -> by (unfold woken; by rewrite Hst).
  pose proof Hs as Hs'. rewrite Hstep in Hs'. unfold worker_step, SCHED_FAIR_RUNS in Hs'. apply Z.ltb_lt in Hs'.
  pose proof (worker_slice_pos a).
  constructor; [done|intros _|done].
  split_and!; [cbn; by rewrite Hs|done|cbn; lia|cbn; lia|done|].
  cbn. rewrite Hsl, Hv. unfold saturating_add64, u64_max, u64_lim. nia.
Qed.

(** The last step of alpha or beta comes after gamma's. *)
Lemma last_step_order a t tg :
  block_task a t → block_task 3 tg → a ≠ 4%nat → a ≠ 3%nat →
  step t (runs t) = false → vruntime tg < vruntime t.
Proof.
  intros [_ Hw _] [_ Hg _] H4 H3 Hs. destruct (Hw H4) as (_ & Hstep & Hr & _ & Hv).
  destruct (Hg ltac:(done)) as (_ & _ & Hrg & _ & Hvg).
  rewrite Hstep in Hs. unfold worker_step, SCHED_FAIR_RUNS in Hs. apply Z.ltb_ge in Hs.
  rewrite Hv, Hvg. unfold worker_slice. rewrite (proj2 (Nat.eqb_neq a 3) H3). cbn. lia.
Qed.

Lemma gamma_first_app fin e : gamma_first fin → gamma_first (fin ++ [e]).
Proof.
  intros (pre & post & -> & Hpre). exists pre, (post ++ [e]). by rewrite <- app_assoc.
Qed.

(** One call keeps the order. *)
Lemma gamma_inv_once env s w b s' w' :
  sched_ok (queue s) w → env_fits env w → gamma_inv s w →
  schedule_once p env s w = Ret (b, s', w') → gamma_inv s' w'.
Proof.
  intros Hok Hfit [Ht Ho] E.
  destruct (once_spec p env s w Hok Hfit) as (b0 & s0 & w0 & E0 & _ & Honce).
  rewrite E in E0. injection E0 as <- <- <-. destruct b.
  2:{ destruct Honce as (_ & -> & _ & Hf). change (finished s') with (cfs_finished s') in Hf.
      change (finished s) with (cfs_finished s) in Hf. split; [done|by rewrite Hf]. }
  destruct Honce as (x & tx & _ & Hx & Hsx & _).
  destruct (cfs_pick p env s w x tx Hok Hfit Hx Hsx) as (i & a & t & Hi & Ha & Hmin & w1 & E1 & Hbox).
  change (cfs_schedule_once p env s w = Ret (true, s', w')) in E. rewrite E in E1.
  injection E1 as -> ->. pose proof (Ht a t Ha) as Hta.
  set (q := delete i (cfs_ready s)) in *. set (t3 := charged (env a) (woken q w t)) in *.
  pose proof (woken_once q w t (env a)) as Hro. fold t3 in Hro.
  destruct (step t (runs t)) eqn:Hs.
  - assert (a ≠ 4%nat → block_task a t3) as Hnew by (intros H4; by apply block_task_runs).
    constructor; rewrite Hbox; cbn [cfs_finished].
    + intros c tc Hc. apply lookup_insert_Some in Hc as [[<- <-]|[_ Hc]]; [|by apply Ht].
      destruct (decide (a = 4%nat)) as [->|H4]; [|by apply Hnew].
      constructor; [rewrite (ro_id _ _ Hro); apply Hta|done|done].
    + destruct (decide (a = 3%nat)) as [->|Hne]; [|by rewrite lookup_insert_ne].
      rewrite lookup_insert_eq. by rewrite Ha in Ho.
  - constructor; rewrite Hbox; cbn [cfs_finished].
    + intros c tc Hc. apply lookup_delete_Some in Hc as [_ Hc]. by apply Ht.
    + assert (entry_of t3 = (Z.of_nat a, name t, runs t + 1)) as ->.
      { unfold entry_of. by rewrite (ro_id _ _ Hro), (ro_name _ _ Hro), (ro_runs _ _ Hro), (bt_id _ _ Hta). }
      destruct (decide (a = 3%nat)) as [->|Hne].
      * rewrite lookup_delete_eq. rewrite Ha in Ho.
        exists (cfs_finished s), []. split; [|done]. do 2 f_equal.
        destruct Hta as [_ Hw Hg]. rewrite (Hg eq_refl). destruct (Hw ltac:(done)) as (_ & Hstep & Hr & _).
        rewrite Hstep in Hs. unfold worker_step, SCHED_FAIR_RUNS in Hs. apply Z.ltb_ge in Hs.
        unfold gamma_entry. by replace (runs t + 1) with 5 by lia.
      * rewrite lookup_delete_ne by done. destruct (boxes w !! 3%nat) as [tg|] eqn:Hg;
          [|by apply gamma_first_app].
        apply Forall_app. split; [done|]. apply Forall_singleton.
        destruct (decide (a = 4%nat)) as [->|H4]; [by intros [?|?]|]. exfalso.
        pose proof (Ht 3%nat tg Hg) as Htg. pose proof (last_step_order a t tg Hta Htg H4 Hne Hs).
        specialize (Hmin 3%nat tg Hg). destruct (bt_worker _ _ Htg ltac:(done)) as (Hrdy & _).
        unfold asleep in Hmin. rewrite Hrdy in Hmin. specialize (Hmin eq_refl). lia.
Qed.

#[local] Instance gamma_loop : LoopInvariant p gamma_inv.
Proof.
  split; [|exact gamma_inv_once]. intros s w fs _ [Ht Ho]. by split.
Qed.

(** It holds of the block as spawned. *)
Lemma gamma_inv_start raws wake s w :
  cfs_finished s = [] → (∃ t, boxes w !! 3%nat = Some t) → demo_made true raws wake w → gamma_inv s w.
Proof.
  intros Hf [tg Hg] Hm. split; [|by rewrite Hg, Hf].
  intros a t (k & sp & -> & Hk & Hsp & (Hid & Hn & Hr & Hst & Hs & _ & Hv & Hw & _))%Hm.
  constructor.
  - rewrite Hid. lia.
  - intros H4. rewrite Hs, Hst, Hr, Hv. unfold cfs_slice. rewrite Hw.
    by do 3 (destruct k as [|k]; [injection Hsp as <-; by split_and!|]); lia.
  - intros H3. assert (k = 2%nat) as -> by lia. rewrite Hn. by injection Hsp as <-.
Qed.

(** C33.  The shipped demo under CFS, for every behaviour of timer and steps: on a
    heap that hands out disjoint stacks, with turns that bring a fresh tick and
    keep to their stacks, and a timer interrupt in the first step, the loop ends
    with the success report; the scheduler it drained has exactly the ledger of
    five runs for alpha, beta and gamma and one for the napper, and in the order
    of finishing gamma, with double weight, comes before alpha and before beta. *)
Theorem shipped_demo_outcome w tramp cs_reg raws envs B :
  sched_ok [] w → boxes w = ∅ → next_box w = 1%nat → now w < 2 ^ 63 → u64 tramp →
  heap_blocks raws → Forall (turn_fits B raws) envs → (36 < length envs)%nat →
  0 ≤ B → B * Z.of_nat (length envs) < 2 ^ 63 →
  (∀ e, head envs = Some e → turn_yanks e) →
  ∃ s w' n d, demo_spawn p tramp cs_reg true raws Cfs_new w = Ret (s, w') ∧
    (n < length envs)%nat ∧ drive p (take n envs) (driver_start s w') = Ret (inl d) ∧
    drive p envs (driver_start s w') = Ret (inr Online) ∧
    ledger (sched d) (world d) ≡ₚ
      [(1, "alpha"%string, 5); (2, "beta"%string, 5); (3, "gamma"%string, 5); (4, "napper"%string, 1)] ∧
    gamma_first (cfs_finished (sched d)).
Proof.
  intros Hok Hb Hnb Hnow Hu Hheap Hturns Hlen HB HBl Hy.
  destruct (demo_runs p Cfs_new true gamma_inv w tramp cs_reg raws envs B)
    as (s & w' & n & d & Es & Hn & En & Hz & Hf & Hl & [_ Ho] & Ed); try done.
  { intros s w' Hf Hok' Hq Hm. apply (gamma_inv_start raws (now w + 20)); [done| |done].
    apply (wl_dom _ _ (so_live _ _ Hok')). rewrite Hq. by right; right; left. }
  exists s, w', n, d. split_and!; try done.
  destruct (boxes (world d) !! 3%nat); [|done]. exfalso.
  rewrite Forall_forall in Ho. apply (Ho (1, "alpha"%string, 5)); [|by left].
  change (cfs_finished (sched d)) with (finished (sched d)). rewrite Hf. by left.
Qed.
End order.

Lemma shipped_demo_outcome_witness :
  ∃ s w d, demo_spawn Dev 0x8000 8 true heap_at Cfs_new world_init = Ret (s, w) ∧
    gamma_first (cfs_finished (sched (S := Cfs) d)).
Proof.
  destruct (shipped_demo_outcome Dev world_init 0x8000 8 heap_at (replicate 40 busy_turn) 2)
    as (s & w & n & d & Es & _ & _ & _ & _ & Hg).
  - exact world_init_ok.
  - reflexivity.
  - reflexivity.
  - by vm_compute.
  - by vm_compute.
  - exact heap_at_heap.
  - apply Forall_replicate, busy_fits.
  - rewrite length_replicate. lia.
  - lia.
  - by vm_compute.
  - intros e [= <-] a. discriminate.
  - exists s, w, d. split; [exact Es|exact Hg].
Defined.

End ShippedDemo.
