(* ===== verification/Serial.v ===== *)
(** * The serial line ([kernel/src/serial.rs])

    COM1 is driven by port reads and writes; the code keeps no state of its own,
    so its state is the log of port accesses, newest first.  What a read of the
    line status register returns is a parameter.  The theorems read the log as a
    16550 does: with the divisor latch open the first two ports are the baud
    divisor, else the transmit register and the interrupt enables. *)
From S2P Require Import Prelude.

#[local] Open Scope Z_scope.

Module Serial.

Definition COM1 : Z := 0x3F8.

(** ** The driver *)

Inductive port_io :=
| In (port v : Z)
| Out (port v : Z).

Notation log := (list port_io).

(** The writes of [init], in order. *)
Definition init_writes : list (Z * Z) :=
  [ (COM1 + 1, 0x00); (COM1 + 3, 0x80); (COM1, 0x01); (COM1 + 1, 0x00);
    (COM1 + 3, 0x03); (COM1 + 2, 0xC7); (COM1 + 4, 0x0B) ].

Definition serial_init (t : log) : log :=
  foldl (λ t w, Out w.1 w.2 :: t) t init_writes.

Section driver.
Context (line_status : log → Z).

(** One turn of the polling loop: a read of the line status, and the test. *)
Definition poll_body (t : log) : log + log :=
  let v := line_status t in
  let t' := In (COM1 + 5) v :: t in
  if Z.land v 0x20 =? 0 then inl t' else inr t'.

Definition write_byte (b : Z) (t : log) : outcome log :=
  match iter_pos poll_body loop_fuel t with
  | inr t' => Ret (Out COM1 b :: t')
  | inl _ => Panic "loop bound exceeded"
  end.

Fixpoint write_str (s : list Z) (t : log) : outcome log :=
  match s with
  | [] => Ret t
  | b :: s' =>
      t1 ← (if b =? 10 then write_byte 13 t else Ret t);
      t2 ← write_byte b t1;
      write_str s' t2
  end.

(** [_print]: the formatter hands its pieces, however it cuts the text, to the
    sink one by one. *)
Fixpoint print (pieces : list (list Z)) (t : log) : outcome log :=
  match pieces with
  | [] => Ret t
  | s :: ps => t' ← write_str s t; print ps t'
  end.

(** The macros: the formatted text as it is, or with a line feed after it. *)
Definition serial_print (pieces : list (list Z)) (t : log) : outcome log := print pieces t.
Definition serial_println (pieces : list (list Z)) (t : log) : outcome log :=
  serial_print (pieces ++ [[10]]) t.

(** One [serial_println!] per line. *)
Fixpoint println_all (ls : list (list (list Z))) (t : log) : outcome log :=
  match ls with
  | [] => Ret t
  | ps :: ls' => t' ← serial_println ps t; println_all ls' t'
  end.
End driver.

(** ** What the port sees *)

Record Uart := mkUart {
  IER : Z; FCR : Z; LCR : Z; MCR : Z;
  divisor : Z * Z;                 (* low, high *)
  transmitted : list Z
}.

Definition latch_open (u : Uart) : bool := Z.testbit (LCR u) 7.

Definition uart_out (u : Uart) (port v : Z) : Uart :=
  if port =? COM1 then
    if latch_open u then mkUart (IER u) (FCR u) (LCR u) (MCR u) (v, (divisor u).2) (transmitted u)
    else mkUart (IER u) (FCR u) (LCR u) (MCR u) (divisor u) (transmitted u ++ [v])
  else if port =? COM1 + 1 then
    if latch_open u then mkUart (IER u) (FCR u) (LCR u) (MCR u) ((divisor u).1, v) (transmitted u)
    else mkUart v (FCR u) (LCR u) (MCR u) (divisor u) (transmitted u)
  else if port =? COM1 + 2 then mkUart (IER u) v (LCR u) (MCR u) (divisor u) (transmitted u)
  else if port =? COM1 + 3 then mkUart (IER u) (FCR u) v (MCR u) (divisor u) (transmitted u)
  else if port =? COM1 + 4 then mkUart (IER u) (FCR u) (LCR u) v (divisor u) (transmitted u)
  else u.

Definition uart (u0 : Uart) (t : log) : Uart :=
  foldr (λ e u, match e with Out p v => uart_out u p v | In _ _ => u end) u0 t.

(** How often the status was read since the last other access. *)
Fixpoint polls (t : log) : Z :=
  match t with In _ _ :: t' => 1 + polls t' | _ => 0 end.

(** A transmitter that empties within [n] polls. *)
Definition drains (line_status : log → Z) (n : Z) : Prop :=
  ∀ t, n ≤ polls t → Z.land (line_status t) 0x20 ≠ 0.

(** Every byte handed to the transmit register follows a status read that saw it
    empty. *)
Fixpoint no_overrun (t : log) : Prop :=
  match t with
  | Out p _ :: t' =>
      (p = COM1 → match t' with In q v :: _ => q = COM1 + 5 ∧ Z.land v 0x20 ≠ 0 | _ => False end)
      ∧ no_overrun t'
  | In _ _ :: t' => no_overrun t'
  | [] => True
  end.

(** The newline convention of the line, and a terminal that undoes it. *)
Fixpoint crlf (s : list Z) : list Z :=
  match s with
  | [] => []
  | b :: s' => (if b =? 10 then [13; 10] else [b]) ++ crlf s'
  end.
Fixpoint uncrlf (s : list Z) : list Z :=
  match s with
  | [] => []
  | c :: s' =>
      match s' with
      | d :: _ => if (c =? 13) && (d =? 10) then uncrlf s' else c :: uncrlf s'
      | [] => [c]
      end
  end.

(** The texts printed, and the lines a reader of the terminal sees. *)
Definition texts (ls : list (list (list Z))) : list (list Z) := (λ ps, concat ps) <$> ls.
Definition join_lines (ls : list (list Z)) : list Z := concat ((λ l, l ++ [10]) <$> ls).
Fixpoint split_lines (cur : list Z) (s : list Z) : list (list Z) :=
  match s with
  | [] => []
  | c :: s' => if c =? 10 then cur :: split_lines [] s' else split_lines (cur ++ [c]) s'
  end.

Lemma split_line l cur s :
  10 ∉ l → split_lines cur (l ++ 10 :: s) = (cur ++ l) :: split_lines [] s.
Proof.
  revert cur. induction l as [|c l IH]; intros cur Hl; cbn; [by rewrite app_nil_r|].
  apply not_elem_of_cons in Hl as [Hc Hl]. rewrite (proj2 (Z.eqb_neq c 10)) by congruence.
  rewrite IH by done. by rewrite <- app_assoc.
Qed.

Lemma split_join ls : Forall (λ l, 10 ∉ l) ls → split_lines [] (join_lines ls) = ls.
Proof.
  unfold join_lines. induction 1 as [|l ls Hl _ IH]; [done|]. cbn [fmap list_fmap concat].
  rewrite <- app_assoc. cbn [app]. by rewrite split_line, IH.
Qed.

Lemma no_overrun_app l1 l2 : no_overrun l1 → no_overrun l2 → no_overrun (l1 ++ l2).
Proof.
  intros H1 H2. induction l1 as [|[p v|p v] l1 IH]; cbn in *; [done|by apply IH|].
  destruct H1 as [Hp H1]. split; [|by apply IH]. destruct l1; [by intros E; destruct (Hp E)|done].
Qed.

Lemma no_overrun_in l : Forall (λ e, ∃ p v, e = In p v) l → no_overrun l.
Proof. by induction 1 as [|e l (p & v & ->) _ IH]. Qed.

Lemma uart_in u0 l t : Forall (λ e, ∃ p v, e = In p v) l → uart u0 (l ++ t) = uart u0 t.
Proof. by induction 1 as [|e l (p & v & ->) _ IH]. Qed.

Lemma crlf_app s1 s2 : crlf (s1 ++ s2) = crlf s1 ++ crlf s2.
Proof. induction s1 as [|c s1 IH]; cbn; [done|]. by rewrite IH, app_assoc. Qed.

Lemma uncrlf_cons c s : c ≠ 13 → uncrlf (c :: s) = c :: uncrlf s.
Proof. intros Hc. cbn. destruct s; [done|]. by rewrite (proj2 (Z.eqb_neq c 13)). Qed.

Lemma uncrlf_cr s : head s ≠ Some 10 → uncrlf (13 :: s) = 13 :: uncrlf s.
Proof.
  intros Hs. destruct s as [|d s]; [done|]. cbn [uncrlf].
  destruct (Z.eqb_spec d 10) as [->|]; [done|]. by rewrite andb_false_r.
Qed.

(** A line feed never opens what the driver sends. *)
Lemma crlf_head s : head (crlf s) ≠ Some 10.
Proof. destruct s as [|c s]; [done|]. cbn. destruct (Z.eqb_spec c 10); cbn; congruence. Qed.

Lemma crlf_uncrlf s : uncrlf (crlf s) = s.
Proof.
  induction s as [|c s IH]; [done|]. cbn [crlf]. destruct (Z.eqb_spec c 10) as [->|Hc].
  - change ([13; 10] ++ crlf s) with (13 :: 10 :: crlf s).
    change (uncrlf (13 :: 10 :: crlf s)) with (uncrlf (10 :: crlf s)).
    rewrite uncrlf_cons by lia. by rewrite IH.
  - cbn [app]. destruct (decide (c = 13)) as [->|Hc'].
    + rewrite uncrlf_cr by apply crlf_head. by rewrite IH.
    + rewrite uncrlf_cons by done. by rewrite IH.
Qed.

(** ** Output *)
Section output.
Context (line_status : log → Z) (n : Z).
Context (Hn : 0 ≤ n < 2 ^ 64) (Hdrain : drains line_status n).
Implicit Types t : log.

(** [t'] is [t] and then [s] sent, polls in between, no byte lost. *)
Definition sends (t t' : log) (s : list Z) : Prop :=
  (∀ u0, latch_open (uart u0 t) = false →
     let u := uart u0 t in
     uart u0 t' = mkUart (IER u) (FCR u) (LCR u) (MCR u) (divisor u) (transmitted u ++ s)) ∧
  ∃ l, t' = l ++ t ∧ no_overrun l.

Lemma sends_refl t : sends t t [].
Proof.
  split; [|by exists []]. intros u0 _. cbn. rewrite app_nil_r. by destruct (uart u0 t).
Qed.

Lemma sends_trans t1 t2 t3 s s' : sends t1 t2 s → sends t2 t3 s' → sends t1 t3 (s ++ s').
Proof.
  intros [A1 (l1 & -> & N1)] [A2 (l2 & -> & N2)].
  split; [|exists (l2 ++ l1); rewrite <- app_assoc; eauto using no_overrun_app]. intros u0 Hl u.
  assert (latch_open (uart u0 (l1 ++ t1)) = false) as Hl2 by (rewrite A1 by done; exact Hl).
  rewrite A2 by done. rewrite A1 by done. cbn. by rewrite app_assoc.
Qed.

Lemma polls_nonneg t : 0 ≤ polls t.
Proof. induction t as [|[] t IH]; cbn; lia. Qed.

(** The polling loop only reads, and reaches an empty transmitter. *)
Definition polled (t t' : log) : Prop :=
  ∃ l, t' = l ++ t ∧ Forall (λ e, ∃ p v, e = In p v) l.

Lemma poll_spec t :
  ∃ t', iter_pos (poll_body line_status) loop_fuel t = inr t' ∧
    ∃ v l, t' = In (COM1 + 5) v :: l ++ t ∧ Z.land v 0x20 ≠ 0 ∧
      Forall (λ e, ∃ p v, e = In p v) l.
Proof.
  apply iter_pos_total with (Inv := polled t) (m := λ t', Z.max 0 (n - polls t')).
  - intros t1 (l & -> & Hl). unfold poll_body. pose proof (Hdrain (l ++ t)) as Hd.
    destruct (Z.land (line_status (l ++ t)) 0x20 =? 0) eqn:E; bool_to_prop.
    + split; [|cbn [polls]; destruct (decide (n ≤ polls (l ++ t))); [by destruct Hd|lia]].
      exists (In (COM1 + 5) (line_status (l ++ t)) :: l). split; [done|]. constructor; [by eexists _, _|done].
    + eexists _, l. by split.
  - intros. lia.
  - by exists [].
  - pose proof (polls_nonneg t). unfold loop_fuel. lia.
Qed.

Lemma write_byte_spec b t : ∃ t', write_byte line_status b t = Ret t' ∧ sends t t' [b].
Proof.
  destruct (poll_spec t) as (t' & E & v & l & -> & Hv & Hl).
  unfold write_byte. rewrite E. eexists. split; [done|]. split.
  - intros u0 Hs u. change (uart u0 (Out COM1 b :: In (COM1 + 5) v :: l ++ t))
      with (uart_out (uart u0 (l ++ t)) COM1 b).
    rewrite uart_in by done. unfold uart_out. by rewrite Z.eqb_refl, Hs.
  - exists (Out COM1 b :: In (COM1 + 5) v :: l). split; [done|].
    split; [done|]. by apply (no_overrun_in l).
Qed.

Lemma write_str_spec s t : ∃ t', write_str line_status s t = Ret t' ∧ sends t t' (crlf s).
Proof.
  revert t. induction s as [|c s IH]; intros t; cbn [write_str crlf].
  { exists t. split; [done|apply sends_refl]. }
  assert (∃ t1, (if c =? 10 then write_byte line_status 13 t else Ret t) = Ret t1 ∧
    sends t t1 (if c =? 10 then [13] else [])) as (t1 & -> & S1).
  { destruct (c =? 10); [apply write_byte_spec|]. exists t. split; [done|apply sends_refl]. }
  destruct (write_byte_spec c t1) as (t2 & E2 & S2). destruct (IH t2) as (t3 & E3 & S3).
  exists t3. rewrite bind_Ret, E2, bind_Ret, E3. split; [done|].
  replace (if c =? 10 then [13; 10] else [c]) with ((if c =? 10 then [13] else []) ++ [c])
    by (destruct (Z.eqb_spec c 10) as [->|]; done).
  eauto using sends_trans.
Qed.

Lemma print_spec ps t : ∃ t', print line_status ps t = Ret t' ∧ sends t t' (crlf (concat ps)).
Proof.
  revert t. induction ps as [|s ps IH]; intros t; cbn [print concat].
  { exists t. split; [done|apply sends_refl]. }
  destruct (write_str_spec s t) as (t1 & E1 & S1). destruct (IH t1) as (t2 & E2 & S2).
  exists t2. rewrite E1, bind_Ret, E2, crlf_app. split; [done|]. eauto using sends_trans.
Qed.

Lemma println_spec ls t :
  ∃ t', println_all line_status ls t = Ret t' ∧ sends t t' (crlf (join_lines (texts ls))).
Proof.
  revert t. induction ls as [|ps ls IH]; intros t.
  { exists t. split; [done|apply sends_refl]. }
  destruct (print_spec (ps ++ [[10]]) t) as (t1 & E1 & S1). destruct (IH t1) as (t2 & E2 & S2).
  exists t2. cbn [println_all]. unfold serial_println, serial_print.
  rewrite E1, bind_Ret, E2. split; [done|]. unfold join_lines, texts in *. cbn [fmap list_fmap concat].
  rewrite crlf_app. rewrite concat_app in S1. exact (sends_trans _ _ _ _ _ S1 S2).
Qed.
End output.

(** [init] on a port whose divisor latch is shut. *)
Lemma init_spec u0 t :
  latch_open (uart u0 t) = false →
  uart u0 (serial_init t) = mkUart 0 0xC7 0x03 0x0B (1, 0) (transmitted (uart u0 t)).
Proof.
  intros Hl. cbn [serial_init init_writes foldl uart foldr fst snd].
  fold (uart u0 t). set (u := uart u0 t) in *. unfold uart_out at 7. cbn [Z.eqb COM1].
  change (COM1 + 1 =? COM1) with false. change (COM1 + 1 =? COM1 + 1) with true. cbn iota.
  rewrite Hl. reflexivity.
Qed.

(** C28.  The serial line: on a port with the divisor latch shut, [init] leaves
    it at 115200 baud, 8-N-1, every interrupt of the port off; then every sequence
    of [serial_println!] terminates if the transmitter drains, whatever pieces the
    formatter cuts each text into; the line carries exactly the texts with a
    carriage return before each line feed, from which a terminal recovers the
    text, and line by line when the texts have no line feed of their own; no byte
    is written before the transmitter was seen empty, and the interrupts stay
    off. *)
Theorem serial_prints line_status n u0 ls :
  0 ≤ n < 2 ^ 64 → drains line_status n → latch_open u0 = false →
  let text := join_lines (texts ls) in
  ∃ t, println_all line_status ls (serial_init []) = Ret t ∧
    uart u0 t = mkUart 0 0xC7 0x03 0x0B (1, 0) (transmitted u0 ++ crlf text) ∧
    uncrlf (crlf text) = text ∧
    (Forall (λ ps, 10 ∉ concat ps) ls → split_lines [] (uncrlf (crlf text)) = texts ls) ∧
    ∃ l, t = l ++ serial_init [] ∧ no_overrun l.
Proof.
  intros Hn Hd Hl text. destruct (println_spec line_status n Hn Hd ls (serial_init []))
    as (t & E & Hu & Ho).
  pose proof (init_spec u0 [] Hl) as Hi.
  exists t. split; [exact E|]. split; [|split; [apply crlf_uncrlf|split; [|exact Ho]]].
  - rewrite Hu by (rewrite Hi; reflexivity). by rewrite Hi.
  - intros Hls. rewrite crlf_uncrlf. apply split_join. by apply Forall_fmap.
Qed.

(** A line whose transmitter empties on the second poll. *)
Lemma serial_prints_witness :
  ∃ t, println_all (λ t, if 1 <=? polls t then 0x60 else 0) [[[72]]; [[104]; [105]]] (serial_init []) = Ret t ∧
    transmitted (uart (mkUart 1 0 0 0 (12, 0) []) t) = [72; 13; 10; 104; 105; 13; 10].
Proof.
  destruct (serial_prints (λ t, if 1 <=? polls t then 0x60 else 0) 1 (mkUart 1 0 0 0 (12, 0) [])
    [[[72]]; [[104]; [105]]]) as (t & E & Hu & _).
  - lia.
  - intros t Ht. rewrite (proj2 (Z.leb_le _ _) Ht). done.
  - done.
  - exists t. split; [exact E|]. by rewrite Hu.
Defined.

End Serial.
