(* ===== verification/Faults.v ===== *)
(** * Fault containment ([kernel/src/gdt.rs], the panic handler of [main.rs])

    The segments and the task state segment with the double-fault stack, the
    stack an exception is delivered on, and the panic handler run action by
    action with interrupts in between.  [GlobalDescriptorTable] belongs to the
    [x86_64] crate: a class states what its [append] promises, and an eight-slot
    table in which a system segment takes two slots satisfies it. *)
From stdpp Require Import gmap.
From S2P Require Import Prelude Machine Preempt PreemptStub Apic ApicSpec Irq.

#[local] Open Scope Z_scope.

Module Faults.
Import Preempt Stub Apic ApicSpec Irq.

(** ** The descriptor table *)

Inductive Descriptor :=
| KernelCode
| KernelData
| TssSegment (ptr : Z).

(** Slots a descriptor takes. *)
Definition slots (d : Descriptor) : nat :=
  match d with TssSegment _ => 2 | _ => 1 end.

Class GdtTable (T : Type) := {
  gdt_new : T;
  gdt_append : T → Descriptor → outcome (Z * T);
  gdt_lookup : T → Z → option Descriptor;
  gdt_used : T → nat;
  gdt_new_used : gdt_used gdt_new = 1%nat;
  gdt_append_ok t d :
    (gdt_used t + slots d ≤ 8)%nat →
    ∃ s t', gdt_append t d = Ret (s, t') ∧ gdt_used t' = (gdt_used t + slots d)%nat ∧
      gdt_lookup t s = None ∧ gdt_lookup t' s = Some d ∧
      (∀ s' d', gdt_lookup t s' = Some d' → gdt_lookup t' s' = Some d')
}.

(** ** The task state segment *)

Definition DOUBLE_FAULT_IST_INDEX : nat := 0.
Definition DF_STACK_SIZE : Z := 4096 * 5.

Record Tss := mkTss {
  interrupt_stack_table : list Z;    (* seven *)
  privilege_stack_table : list Z     (* three *)
}.
Definition tss_new : Tss := mkTss (replicate 7 0) (replicate 3 0).

(** What [init] loads into the segment registers. *)
Record Segments := mkSegments { seg_cs : Z; seg_ds : Z; seg_es : Z; seg_ss : Z; seg_tr : Z }.

Section gdt.
Context `{VA : VirtAddrs} {T : Type} `{GT : GdtTable T} (p : profile).
(** Where the linker places the statics [DF_STACK] and [TSS]. *)
Context (df_stack tss_ptr : Z).

Definition init_tss_fields (t : Tss) : outcome Tss :=
  stack_start ← VirtAddr_new df_stack;
  top ← VirtAddr_add stack_start DF_STACK_SIZE;
  _ ← debug_assert p (top `mod` 16 =? 0) "double-fault IST top must be 16-aligned";
  _ ← assert_ (DOUBLE_FAULT_IST_INDEX <? length (interrupt_stack_table t))%nat "index out of bounds";
  Ret (mkTss (<[DOUBLE_FAULT_IST_INDEX := top]> (interrupt_stack_table t)) (privilege_stack_table t)).

(** The [lazy_static] [GDT], built on first use, and the loads of [init]. *)
Definition gdt_init (t : Tss) : outcome (T * Tss * Segments) :=
  t1 ← init_tss_fields t;
  '(code, g1) ← gdt_append gdt_new KernelCode;
  '(data, g2) ← gdt_append g1 KernelData;
  '(tss, g3) ← gdt_append g2 (TssSegment tss_ptr);
  Ret (g3, t1, mkSegments code data data data tss).

(** ** Where an exception is delivered *)

(** [set_stack_index] in the table of [idt.rs]: the double fault alone. *)
Definition stack_index (h : Handler) : option nat :=
  match h with double_fault_handler => Some DOUBLE_FAULT_IST_INDEX | _ => None end.

(** The stack pointer the processor pushes its frame from; [sp] is the
    interrupted one. *)
Definition delivery_stack (t : Tss) (v sp : Z) : option Z :=
  match idt_entry v with
  | None => None
  | Some h =>
      match stack_index h with
      | Some i => interrupt_stack_table t !! i
      | None => Some sp
      end
  end.

Lemma idt_double_fault v : idt_entry v = Some double_fault_handler → v = 8.
Proof.
  unfold idt_entry. intros ([i e] & Hf & He)%fmap_Some.
  apply list_find_Some in Hf as (Hl & Hv & _). apply list_elem_of_lookup_2 in Hl.
  repeat (apply elem_of_cons in Hl as [->|Hl]; [by cbn in *; congruence|]). by apply not_elem_of_nil in Hl.
Qed.

(** The statics as [repr(align(16))] and the linker place them. *)
Definition df_placed : Prop :=
  df_stack `mod` 16 = 0 ∧ 0 ≤ df_stack ∧ df_stack + DF_STACK_SIZE < u64_lim ∧
  (df_stack + DF_STACK_SIZE < 2 ^ 47 ∨ u64_lim - 2 ^ 47 ≤ df_stack).

Lemma init_tss_ok t :
  df_placed → length (interrupt_stack_table t) = 7%nat →
  init_tss_fields t = Ret (mkTss (<[0%nat := df_stack + DF_STACK_SIZE]> (interrupt_stack_table t))
                             (privilege_stack_table t)).
Proof.
  intros (Ha & H0 & Hlim & Hc) Hlen. unfold init_tss_fields, DF_STACK_SIZE in *.
  rewrite VirtAddr_new_ok, bind_Ret by (unfold canonical; ulia).
  rewrite VirtAddr_add_ok, bind_Ret by lia. rewrite Hlen.
  replace ((df_stack + 4096 * 5) `mod` 16) with 0.
  - by destruct p.
  - rewrite Z.add_mod, Ha by lia. done.
Qed.

(** C20.  After [gdt::init] a double fault is survivable: whatever the interrupted
    stack pointer (even one that ran off its stack), the frame of vector 8 is
    pushed from the 16-aligned top of the dedicated 20 KiB stack, while every
    other vector of the table stays on the interrupted stack; each segment
    register holds the selector of a descriptor of its kind, the task register
    that of the kernel's own segment, and the privilege stacks are untouched. *)
Theorem double_fault_stack_ready t :
  df_placed → length (interrupt_stack_table t) = 7%nat →
  ∃ g t' s, gdt_init t = Ret (g, t', s) ∧
    (∀ sp, delivery_stack t' 8 sp = Some (df_stack + DF_STACK_SIZE)) ∧
    (df_stack + DF_STACK_SIZE) `mod` 16 = 0 ∧
    (∀ v h sp, idt_entry v = Some h → v ≠ 8 → delivery_stack t' v sp = Some sp) ∧
    gdt_lookup g (seg_cs s) = Some KernelCode ∧
    Forall (λ r, gdt_lookup g r = Some KernelData) [seg_ds s; seg_es s; seg_ss s] ∧
    gdt_lookup g (seg_tr s) = Some (TssSegment tss_ptr) ∧
    privilege_stack_table t' = privilege_stack_table t.
Proof.
  intros Hp Hlen. pose proof Hp as (Ha & _). unfold gdt_init. rewrite init_tss_ok, bind_Ret by done.
  destruct (gdt_append_ok gdt_new KernelCode) as (s1 & g1 & E1 & U1 & _ & L1 & _);
    [rewrite gdt_new_used; cbn; lia|].
  destruct (gdt_append_ok g1 KernelData) as (s2 & g2 & E2 & U2 & _ & L2 & K2);
    [rewrite U1, gdt_new_used; cbn; lia|].
  destruct (gdt_append_ok g2 (TssSegment tss_ptr)) as (s3 & g3 & E3 & _ & _ & L3 & K3);
    [rewrite U2, U1, gdt_new_used; cbn; lia|].
  rewrite E1, bind_Ret, E2, bind_Ret, E3, bind_Ret. eexists _, _, _. split; [done|]. split_and!.
  - intros sp. unfold delivery_stack. change (idt_entry 8) with (Some double_fault_handler). cbn.
    apply list_lookup_insert_eq. lia.
  - unfold DF_STACK_SIZE. rewrite Z.add_mod, Ha by lia. done.
  - intros v h sp Hv Hne. unfold delivery_stack. rewrite Hv. destruct h; try done.
    destruct Hne. by apply idt_double_fault.
  - cbn. auto.
  - cbn. repeat constructor; by apply K3.
  - done.
  - done.
Qed.
End gdt.

(** ** The panic handler *)

(** The message goes out byte by byte, then fence, interrupt flag, halt. *)
Inductive PanicPhase :=
| Printing (left : nat)
| LowerFence
| Cli
| Halted.

Section panic.
Context {P : Type} `{CP : ChainedPics P}.
Notation IrqState := (IrqState (P := P)).

Record Dying := mkDying { phase : PanicPhase; dy_if : bool; dy_irq : IrqState }.

Definition dy_statics (d : Dying) : Statics := k_statics (kern (dy_irq d)).

Definition lower_fence (s : IrqState) : IrqState :=
  mkIrq (TIMER_TICKS s) (SYSCALL_HITS s) (SPURIOUS_HITS s) (pics_locked s)
    (set_kstatics (kern s) (set_preemptible false (k_statics (kern s)))).

(** One action of [panic]; the final [hlt] loop does nothing. *)
Definition panic_act (d : Dying) : option Dying :=
  match phase d with
  | Printing (S n) => Some (mkDying (Printing n) (dy_if d) (dy_irq d))
  | Printing O => Some (mkDying LowerFence (dy_if d) (dy_irq d))
  | LowerFence => Some (mkDying Cli (dy_if d) (lower_fence (dy_irq d)))
  | Cli => Some (mkDying Halted false (dy_irq d))
  | Halted => None
  end.

Inductive pstep : Dying → Dying → Prop :=
| pstep_main d d' : panic_act d = Some d' → pstep d d'
| pstep_irq v h f d s' :
    dy_if d = true → v ∈ hw_vectors → idt_entry v = Some h →
    deliver h f (dy_irq d) = Ret (Some s') → pstep d (mkDying (phase d) (dy_if d) s').

(** What a post-mortem reads: everything but the tick counter and the fence. *)
Definition post_mortem (st : Statics) :=
  (TASK_FRAMES st, SLOT_BOUNDS st, PREEMPT_SWITCHES st, CURRENT_IDX st, SLOT_USED st, EOI_BASE st).

Lemma eoi_statics (k : Kernel (P := P)) r k' : eoi k = Ret (r, k') → k_statics k' = k_statics k.
Proof.
  unfold eoi, io_bind, get, err, lift, write_volatile, modify. cbn.
  destruct (LAPIC_VIRT k =? 0); [by intros [= <- <-]|].
  destruct (lapic_reg _ _); [by intros [= <- <-]|done].
Qed.

(** With the fence down no handler touches the table. *)
Lemma deliver_fence_down h f (s s' : IrqState) :
  PREEMPTIBLE (k_statics (kern s)) = 0 → deliver h f s = Ret (Some s') →
  PREEMPTIBLE (k_statics (kern s')) = 0 ∧
  post_mortem (k_statics (kern s')) = post_mortem (k_statics (kern s)).
Proof.
  intros Hf. destruct h; cbn [deliver]; unfold with_pics, try_eoi, count_spurious;
    cbn [pics_locked kern]; try done;
    try (destruct (pics_locked s); [done|]; intros [= <-]; by cbn); try (intros [= <-]; by cbn).
  - intros [= <-]. cbn [kern]. rewrite (proj2 (stub_eoi_keeps _)). cbn. unfold stub_effect. assert (yanks (k_statics (kern s)) = false) as -> by
      (unfold yanks; by rewrite Hf). done.
  - destruct (eoi (kern s)) as [[r k]|] eqn:E; [|done]. rewrite bind_Ret. intros [= <-]. cbn.
    by rewrite (eoi_statics _ _ _ E).
  - destruct (eoi (kern s)) as [[r k]|] eqn:E; [|done]. rewrite bind_Ret. intros [= <-]. cbn.
    by rewrite (eoi_statics _ _ _ E).
Qed.

(** From the lowered fence on. *)
Definition quiet (pm : _) (d : Dying) : Prop :=
  match phase d with
  | Cli => True
  | Halted => dy_if d = false
  | _ => False
  end ∧ PREEMPTIBLE (dy_statics d) = 0 ∧ post_mortem (dy_statics d) = pm.

Lemma quiet_step pm d d' : quiet pm d → pstep d d' → quiet pm d'.
Proof.
  intros (Hp & Hf & Hm) Hs. destruct Hs as [d d' Ha|v h f d s' Hif Hv Hh Hd].
  - unfold panic_act in Ha. destruct (phase d); try done. by injection Ha as <-.
  - destruct (deliver_fence_down h f _ _ Hf Hd) as [Hf' Hm'].
    split; [done|]. split; [exact Hf'|]. unfold dy_statics in *. cbn. congruence.
Qed.

Lemma rtc_preserves (Q : Dying → Prop) d d' :
  (∀ d d', Q d → pstep d d' → Q d') → rtc pstep d d' → Q d → Q d'.
Proof. intros HQ Hr. induction Hr; eauto. Qed.

(** How many actions are left. *)
Definition acts_left (d : Dying) : nat :=
  match phase d with Printing n => n + 3 | LowerFence => 2 | Cli => 1 | Halted => 0 end.

Lemma panic_act_left d :
  match panic_act d with Some d' => acts_left d = S (acts_left d') | None => acts_left d = 0%nat end.
Proof. unfold panic_act, acts_left. destruct (phase d) as [[|n]| | |]; cbn; lia. Qed.

Lemma reaches_halt d : ∃ d', rtc pstep d d' ∧ phase d' = Halted.
Proof.
  remember (acts_left d) as n eqn:Hn. revert d Hn. induction n as [|n IH]; intros d Hn;
    pose proof (panic_act_left d) as H; destruct (panic_act d) as [d1|] eqn:E.
  - lia.
  - exists d. split; [done|]. unfold panic_act in E. by destruct (phase d) as [[]| | |].
  - destruct (IH d1) as (d' & Hr & Hh); [lia|]. exists d'. split; [|done].
    eapply rtc_l; [by apply pstep_main|done].
  - lia.
Qed.

(** C19.  A panicked kernel goes quiet: once the handler has lowered the fence,
    no interrupt in any order changes the frames, the bounds, the slots, the
    current index or the switch counter a post-mortem reads; from every state
    of the handler the halt is reached by its own actions, and once reached with
    the fence down nothing runs any more, interrupts included. *)
Theorem panic_goes_quiet (d0 d1 d : Dying) :
  phase d0 = LowerFence → panic_act d0 = Some d1 → rtc pstep d1 d →
  post_mortem (dy_statics d) = post_mortem (dy_statics d0) ∧
  PREEMPTIBLE (dy_statics d) = 0 ∧
  (∃ d', rtc pstep d d' ∧ phase d' = Halted) ∧
  (phase d = Halted → ∀ d', ¬ pstep d d').
Proof.
  intros Hp Ha Hr. unfold panic_act in Ha. rewrite Hp in Ha. injection Ha as <-.
  assert (quiet (post_mortem (dy_statics d0)) d) as (Hq & Hf & Hm).
  { eapply rtc_preserves; [apply quiet_step|exact Hr|by split]. }
  split; [done|]. split; [done|]. split; [apply reaches_halt|].
  intros Hh d' Hs. rewrite Hh in Hq. destruct Hs as [d d' Ha|v h f d s' Hif _ _ _].
  - unfold panic_act in Ha. by rewrite Hh in Ha.
  - congruence.
Qed.

(** Until then the table is live: while the message is printed with interrupts
    on, one timer tick overwrites the frame of the task that panicked. *)
Lemma panic_print_window n f (s : IrqState) :
  yanks (k_statics (kern s)) = true →
  ∃ d, pstep (mkDying (Printing n) true s) d ∧ phase d = Printing n ∧
    TASK_FRAMES (dy_statics d) =
      <[Z.to_nat (CURRENT_IDX (k_statics (kern s))) := f]> (TASK_FRAMES (k_statics (kern s))).
Proof.
  intros Hy. eexists. split.
  - eapply (pstep_irq LAPIC_TIMER_VECTOR preempt_stub_entry f); [done| |done|done].
    do 2 right. by left.
  - split; [done|]. unfold dy_statics. cbn [dy_irq kern].
    rewrite (proj2 (stub_eoi_keeps _)). cbn. by rewrite Hy.
Qed.
End panic.

(** ** Instances and witnesses *)

#[export] Instance slot_table : GdtTable (list (option Descriptor)).
Proof.
  refine {| gdt_new := [None];
    gdt_append t d := if (length t + slots d <=? 8)%nat
      then Ret (8 * Z.of_nat (length t), t ++ Some d :: replicate (slots d - 1) None)
      else Panic "GDT full";
    gdt_lookup t s := if s `mod` 8 =? 0 then mjoin (t !! Z.to_nat (s `div` 8)) else None;
    gdt_used t := length t |}.
  - done.
  - intros t d Hd. rewrite (proj2 (Nat.leb_le _ _) Hd). eexists _, _. split; [done|].
    rewrite (Z.mul_comm 8), Z.mod_mul, Z.div_mul, Nat2Z.id by lia. split_and!.
    + rewrite length_app. cbn. rewrite length_replicate. destruct d; cbn; lia.
    + cbn. by rewrite lookup_ge_None_2.
    + cbn. rewrite lookup_app_r, Nat.sub_diag by lia. done.
    + intros s' d'. destruct (s' `mod` 8 =? 0); [|done]. intros Hs.
      destruct (t !! Z.to_nat (s' `div` 8)) as [o|] eqn:E; [|done].
      erewrite lookup_app_l_Some by done. done.
Defined.

Lemma double_fault_stack_ready_witness :
  ∃ g t' s, gdt_init (T := list (option Descriptor)) Dev 0xFFFF800000200000 0x1000 tss_new
      = Ret (g, t', s) ∧
    delivery_stack t' 8 0 = Some 0xFFFF800000205000.
Proof.
  destruct (double_fault_stack_ready (T := list (option Descriptor)) Dev 0xFFFF800000200000 0x1000
    tss_new) as (g & t & s & E & H & _).
  - split_and!; [done|lia|done|by right].
  - done.
  - exists g, t, s. split; [exact E|exact (H 0)].
Defined.

Lemma panic_goes_quiet_witness :
  ∃ d, rtc pstep (mkDying Cli true (lower_fence irq_start)) d ∧ phase d = Halted ∧
    post_mortem (dy_statics d) = post_mortem (k_statics (kern irq_start)).
Proof.
  exists (mkDying Halted false (lower_fence irq_start)).
  assert (rtc pstep (mkDying Cli true (lower_fence irq_start))
    (mkDying Halted false (lower_fence irq_start))) as Hr by (apply rtc_once; by apply pstep_main).
  split; [exact Hr|]. split; [done|].
  destruct (panic_goes_quiet (mkDying LowerFence true irq_start)
    (mkDying Cli true (lower_fence irq_start)) _ eq_refl eq_refl Hr) as [H _]. exact H.
Defined.

End Faults.
