(* ===== verification/Config.v ===== *)
(** * Build configuration ([kernel/build.rs], [xtask/src/main.rs])

    The line reader that turns [config/kernel_config.toml] into build-time
    variables, the size parsers, the agreement checks with the Cargo features,
    and the reader and command lines of [xtask].  Text is a list of bytes, ASCII
    outside comments; whitespace and case are ASCII.  Files, processes and
    [println!] are the arguments and results. *)
From S2P Require Import Prelude Preempt Task Memory.

#[local] Open Scope Z_scope.

Module Config.

Notation text := (list Z).
Definition b (s : string) : text := bytes_of_string s.

(** ** Byte-string operations of the Rust standard library *)

Definition is_space (c : Z) : bool := ((9 <=? c) && (c <=? 13)) || (c =? 32).

Fixpoint trim_start_by (f : Z → bool) (s : text) : text :=
  match s with
  | c :: s' => if f c then trim_start_by f s' else s
  | [] => []
  end.
Definition trim_end_by (f : Z → bool) (s : text) : text := rev (trim_start_by f (rev s)).
Definition trim_by (f : Z → bool) (s : text) : text := trim_end_by f (trim_start_by f s).
Definition trim (s : text) : text := trim_by is_space s.
Definition trim_quotes (s : text) : text := trim_by (Z.eqb 34) s.

(** [str::lines]: split at newlines, drop a carriage return before each, and no
    last empty line. *)
Fixpoint split_at (c : Z) (s : text) : list text :=
  match s with
  | [] => [[]]
  | x :: s' =>
      if x =? c then [] :: split_at c s'
      else match split_at c s' with
           | l :: ls => (x :: l) :: ls
           | [] => [[x]]
           end
  end.
Definition chop_cr (s : text) : text :=
  match rev s with 13 :: s' => rev s' | _ => s end.
Definition lines (s : text) : list text :=
  let ls := split_at 10 s in
  (chop_cr <$> removelast ls) ++
  match last ls with Some (x :: l) => [x :: l] | _ => [] end.

Definition before (c : Z) (s : text) : text :=
  match split_at c s with l :: _ => l | [] => [] end.

(** [str::split_once] on a character. *)
Fixpoint split_once (c : Z) (s : text) : option (text * text) :=
  match s with
  | [] => None
  | x :: s' =>
      if x =? c then Some ([], s')
      else match split_once c s' with Some (k, v) => Some (x :: k, v) | None => None end
  end.

Definition strip_prefix (c : Z) (s : text) : option text :=
  match s with x :: s' => if x =? c then Some s' else None | [] => None end.
Definition strip_suffix (f : Z → bool) (s : text) : option text :=
  match rev s with x :: s' => if f x then Some (rev s') else None | [] => None end.

Definition upper (c : Z) : Z := if (97 <=? c) && (c <=? 122) then c - 32 else c.
Definition lower (c : Z) : Z := if (65 <=? c) && (c <=? 90) then c + 32 else c.
Definition underscore (c : Z) : Z := if (c =? 45) || (c =? 46) then 95 else c.

Definition is_digit (c : Z) : bool := (48 <=? c) && (c <=? 57).

(** [str::parse::<u64>]: an optional plus, digits, no overflow. *)
Fixpoint parse_u64_digits (s : text) (n : Z) : option Z :=
  match s with
  | [] => Some n
  | c :: s' =>
      if is_digit c then
        let n' := 10 * n + (c - 48) in
        if n' <? u64_lim then parse_u64_digits s' n' else None
      else None
  end.
Definition parse_u64 (s : text) : option Z :=
  let d := match s with 43 :: s' => s' | _ => s end in
  match d with [] => None | _ => parse_u64_digits d 0 end.

(** [{}] on a [u64]: decimal, no leading zero. *)
Fixpoint print_fuel (fuel : nat) (n : Z) (acc : text) : text :=
  match fuel with
  | O => acc
  | S fuel' =>
      let acc' := (48 + n `mod` 10) :: acc in
      if n `div` 10 =? 0 then acc' else print_fuel fuel' (n `div` 10) acc'
  end.
Definition print_u64 (n : Z) : text := print_fuel 20 n [].

(** ** [parse_size_bytes] *)

Definition is_b (c : Z) : bool := (c =? 66) || (c =? 98).

Definition size_split (v : text) : text * Z :=
  match strip_suffix (λ c, (c =? 75) || (c =? 107)) v with
  | Some n => (trim_end_by is_b n, 1024)
  | None =>
      match strip_suffix (λ c, (c =? 77) || (c =? 109)) v with
      | Some n => (trim_end_by is_b n, 1024 * 1024)
      | None =>
          match strip_suffix (λ c, (c =? 71) || (c =? 103)) v with
          | Some n => (trim_end_by is_b n, 1024 * 1024 * 1024)
          | None => (v, 1)
          end
      end
  end.

Definition parse_size_bytes (v : text) : option Z :=
  let '(digits, mult) := size_split (trim v) in
  match parse_u64 digits with
  | Some n => checked_mul64 n mult
  | None => None
  end.

(** ** The line loop of [main] *)

Record BuildState := mkBuild {
  cur_section : text;
  env_out : list (text * text);         (* [cargo:rustc-env], in order *)
  frame_allocator_cfg : option text;
  sched_cfg : option text
}.

Definition emit (k v : text) (s : BuildState) : BuildState :=
  mkBuild (cur_section s) (env_out s ++ [(b "KERNEL_CONFIG_" ++ k, v)])
    (frame_allocator_cfg s) (sched_cfg s).

Definition key_line (p : profile) (k v : text) (s : BuildState) : outcome BuildState :=
  let k := underscore <$> trim k in
  let v := trim (trim_quotes (trim v)) in
  let up := upper <$> k in
  let s := if decide (cur_section s = []) then s else emit (cur_section s ++ 95 :: up) v s in
  let s := emit up v s in
  s ← (if decide (up = b "HEAP_SIZE_KB") then
         kb ← expect (parse_u64 v) "kernel_config.toml: heap_size_kb must be a plain number";
         bytes ← mul64 p kb 1024;
         Ret (emit (b "HEAP_SIZE_BYTES") (print_u64 bytes) s)
       else Ret s);
  s ← (if decide (up = b "STACK_SIZE") then
         bytes ← expect (parse_size_bytes v) "kernel_config.toml: stack_size must be like 128K";
         Ret (emit (b "STACK_SIZE_BYTES") (print_u64 bytes) s)
       else Ret s);
  let s := if decide (cur_section s = b "MEMORY" ∧ up = b "FRAME_ALLOCATOR") then
             mkBuild (cur_section s) (env_out s) (Some (lower <$> v)) (sched_cfg s) else s in
  Ret (if decide (cur_section s = b "SCHED" ∧ up = b "DEFAULT") then
         mkBuild (cur_section s) (env_out s) (frame_allocator_cfg s) (Some (lower <$> v)) else s).

Definition config_line (p : profile) (raw : text) (s : BuildState) : outcome BuildState :=
  let line := trim raw in
  if decide (line = [] ∨ head line = Some 35) then Ret s
  else match (strip_prefix 91 line ≫= strip_suffix (Z.eqb 93)) with
  | Some name =>
      Ret (mkBuild (upper <$> (underscore <$> trim name)) (env_out s)
             (frame_allocator_cfg s) (sched_cfg s))
  | None =>
      match split_once 61 (trim (before 35 line)) with
      | Some (k, v) => key_line p k v s
      | None => Ret s
      end
  end.

Fixpoint config_lines (p : profile) (ls : list text) (s : BuildState) : outcome BuildState :=
  match ls with
  | [] => Ret s
  | l :: ls' => s1 ← config_line p l s; config_lines p ls' s1
  end.

(** The agreement of a config key with two exclusive Cargo features. *)
Definition agrees (cfg : option text) (n1 n2 : text) (f1 f2 : bool) (msg : string) : outcome unit :=
  match cfg with
  | None => Ret ()
  | Some v =>
      if (bool_decide (v = n1) && f1 && negb f2) || (bool_decide (v = n2) && f2 && negb f1)
      then Ret () else Panic msg
  end.

(** The Cargo features that [main] reads from its environment. *)
Record Features := mkFeatures { ft_bump : bool; ft_buddy : bool; ft_rr : bool; ft_cfs : bool }.

(** [main]: the variables it exports; [p] is the profile the build script runs in. *)
Definition build_main (p : profile) (config : text) (ft : Features) : outcome (list (text * text)) :=
  s ← config_lines p (lines config) (mkBuild [] [] None None);
  _ ← agrees (frame_allocator_cfg s) (b "bump") (b "buddy") (ft_bump ft) (ft_buddy ft)
        "kernel_config.toml [memory] frame_allocator disagrees with Cargo features";
  _ ← agrees (sched_cfg s) (b "rr") (b "cfs") (ft_rr ft) (ft_cfs ft)
        "kernel_config.toml [sched] default disagrees with Cargo features";
  Ret (env_out s).

(** [env!]: the value a later [cargo:rustc-env] line leaves. *)
Definition env_var (name : string) (env : list (text * text)) : option text :=
  snd <$> last (filter (λ kv, kv.1 = b "KERNEL_CONFIG_" ++ b name) env).

(** ** [xtask] *)

Fixpoint qemu_scan (key : text) (ls : list text) (in_qemu : bool) : option text :=
  match ls with
  | [] => None
  | raw :: ls' =>
      let line := trim raw in
      if decide (line = [] ∨ head line = Some 35) then qemu_scan key ls' in_qemu
      else if decide (head line = Some 91) then qemu_scan key ls' (bool_decide (line = b "[qemu]"))
      else if negb in_qemu then qemu_scan key ls' in_qemu
      else match split_once 61 (trim (before 35 line)) with
      | Some (k, v) =>
          if decide (trim k = key) then Some (trim_quotes (trim v))
          else qemu_scan key ls' in_qemu
      | None => qemu_scan key ls' in_qemu
      end
  end.

Definition qemu_cfg (config : text) (key : string) (fallback : string) : text :=
  default (b fallback) (qemu_scan (b key) (lines config) false).

Fixpoint words (s : text) (cur : text) : list text :=
  match s with
  | [] => if decide (cur = []) then [] else [cur]
  | c :: s' =>
      if is_space c then (if decide (cur = []) then words s' [] else cur :: words s' [])
      else words s' (cur ++ [c])
  end.
Definition split_whitespace (s : text) : list text := words s [].

Definition TARGET : string := "x86_64-unknown-none".

Definition profile_dir (release : bool) : text := if release then b "release" else b "debug".
Definition target_path (release : bool) (file : string) : text :=
  b "target/" ++ b TARGET ++ b "/" ++ profile_dir release ++ b "/" ++ b file.
Definition kernel_elf_path (release : bool) : text := target_path release "rustycore-kernel".
Definition image_path (release : bool) : text := target_path release "rustycore-bios.img".

(** What [xtask] does to the outside world, and what comes back: a process that
    cannot be started or its exit status, an image that is written or not. *)
Inductive Command :=
| Run (program : text) (args : list text)
| CreateBiosImage (kernel image : text).
Inductive CommandResult := NotStarted | Exited (success : bool).
Inductive XtaskEnd := Done | Failed (context : string) | Panicked (msg : string) | UsageExit.

(** The commands issued, in order, and how the tool ends. *)
Definition trace_of : Type := list Command * XtaskEnd.

Section xtask.
Context (world : Command → CommandResult).

Definition cargo_cmd (release : bool) : Command :=
  Run (b "cargo") ([b "build"; b "-p"; b "rustycore-kernel"; b "--target"; b TARGET] ++
    if release then [b "--release"] else []).

Definition build_kernel (release : bool) : trace_of :=
  let cmd := cargo_cmd release in
  ([cmd], match world cmd with
          | NotStarted => Panicked "failed to run cargo build"
          | Exited false => Panicked "kernel build failed"
          | Exited true => Done
          end).

(** What follows a step that ended well. *)
Definition and_then (t : trace_of) (k : trace_of) : trace_of :=
  match t with (cmds, Done) => (cmds ++ k.1, k.2) | _ => t end.

Definition image_cmd (release : bool) : Command :=
  CreateBiosImage (kernel_elf_path release) (image_path release).

Definition build_image (release : bool) : trace_of :=
  let cmd := image_cmd release in
  and_then (build_kernel release)
    ([cmd], match world cmd with
            | Exited true => Done
            | _ => Failed "failed to build BIOS disk image"
            end).

Definition qemu_args (config : text) (release : bool) : list text :=
  [b "-machine"; qemu_cfg config "machine" "q35"; b "-cpu"; b "max";
   b "-m"; qemu_cfg config "memory" "512M"; b "-smp"; qemu_cfg config "smp" "2";
   b "-nographic"; b "-display"; qemu_cfg config "display" "none";
   b "-drive"; b "format=raw,file=" ++ image_path release] ++
  split_whitespace (qemu_cfg config "extra_args" "-no-reboot -no-shutdown").

Definition qemu_cmd (config : text) (release : bool) : Command :=
  Run (b "qemu-system-x86_64") (qemu_args config release).

Definition run_qemu (config : text) (release : bool) : trace_of :=
  let cmd := qemu_cmd config release in
  and_then (build_image release)
    ([cmd], match world cmd with
            | NotStarted => Panicked "failed to launch qemu-system-x86_64"
            | Exited _ => Done
            end).

Definition xtask_main (config : text) (args : list text) : trace_of :=
  match args with
  | [] => ([], UsageExit)
  | sub :: rest =>
      let release := bool_decide (b "--release" ∈ rest) in
      if decide (sub = b "build") then build_kernel release
      else if decide (sub = b "image") then build_image release
      else if decide (sub = b "run-qemu") then run_qemu config release
      else ([], UsageExit)
  end.

End xtask.

(** ** Numbers: printing and parsing *)

Definition digits_value (ds : text) (n : Z) : Z := foldl (λ a c, 10 * a + (c - 48)) n ds.

Lemma digits_value_app ds ds' n : digits_value (ds ++ ds') n = digits_value ds' (digits_value ds n).
Proof. apply foldl_app. Qed.

Lemma digits_value_ge ds n : Forall (λ c, is_digit c = true) ds → 0 ≤ n → n ≤ digits_value ds n.
Proof.
  intros Hd. revert n. induction Hd as [|c ds Hc _ IH]; intros n Hn; cbn; [lia|].
  unfold is_digit in Hc. bool_to_prop. etrans; [|apply IH]; lia.
Qed.

(** What the printer produces. *)
Lemma print_fuel_spec fuel n acc :
  0 ≤ n < 10 ^ Z.of_nat fuel → (0 < fuel)%nat →
  ∃ ds, print_fuel fuel n acc = ds ++ acc ∧ Forall (λ c, is_digit c = true) ds ∧ ds ≠ [] ∧
    digits_value ds 0 = n.
Proof.
  revert n acc. induction fuel as [|fuel IH]; intros n acc Hn Hf; [lia|]. cbn [print_fuel].
  pose proof (Z.div_mod n 10 ltac:(lia)) as Hdm. pose proof (Z.mod_pos_bound n 10 ltac:(lia)) as Hm.
  assert (is_digit (48 + n `mod` 10) = true) as Hdig
    by (unfold is_digit; apply andb_true_iff; split; apply Z.leb_le; lia).
  destruct (n `div` 10 =? 0) eqn:E; bool_to_prop.
  - exists [48 + n `mod` 10]. split_and!; [done|by constructor|done|]. cbn. lia.
  - assert (0 ≤ n `div` 10) by (apply Z.div_pos; lia).
    assert (n `div` 10 < 10 ^ Z.of_nat fuel).
    { apply Z.div_lt_upper_bound; [lia|]. rewrite <- Z.pow_succ_r, <- Nat2Z.inj_succ by lia. lia. }
    assert (0 < fuel)%nat by (destruct fuel; [cbn in *; lia|lia]).
    destruct (IH (n `div` 10) ((48 + n `mod` 10) :: acc)) as (ds & -> & Hds & Hne & Hv); [done|done|].
    exists (ds ++ [48 + n `mod` 10]). split_and!; [by rewrite <- app_assoc| |by destruct ds|].
    + apply Forall_app. split; [done|]. by constructor.
    + rewrite digits_value_app, Hv. cbn. lia.
Qed.

Lemma print_u64_spec n :
  u64 n → Forall (λ c, is_digit c = true) (print_u64 n) ∧ print_u64 n ≠ [] ∧
    digits_value (print_u64 n) 0 = n.
Proof.
  intros Hn. destruct (print_fuel_spec 20 n []) as (ds & E & H); [|lia|].
  { change (10 ^ Z.of_nat 20) with 100000000000000000000. ulia. }
  unfold print_u64. rewrite E, app_nil_r. done.
Qed.

Lemma parse_u64_digits_value ds n :
  Forall (λ c, is_digit c = true) ds → 0 ≤ n → n < u64_lim →
  parse_u64_digits ds n = if digits_value ds n <? u64_lim then Some (digits_value ds n) else None.
Proof.
  intros Hd. revert n. induction Hd as [|c ds Hc Hds IH]; intros n Hn Hlt; cbn.
  { by rewrite (proj2 (Z.ltb_lt _ _) Hlt). }
  rewrite Hc. unfold is_digit in Hc. bool_to_prop.
  destruct (10 * n + (c - 48) <? u64_lim) eqn:E; bool_to_prop; [apply IH; lia|].
  rewrite (proj2 (Z.ltb_ge _ _)); [done|]. fold (digits_value ds (10 * n + (c - 48))).
  pose proof (digits_value_ge ds (10 * n + (c - 48)) Hds). lia.
Qed.

Lemma parse_digits_value msg ds n :
  Forall (λ c, is_digit c = true) ds → 0 ≤ n → digits_value ds n < u64_lim →
  parse_digits msg ds n = Ret (digits_value ds n).
Proof.
  intros Hd. revert n. induction Hd as [|c ds Hc Hds IH]; intros n Hn Hlt; cbn; [done|].
  unfold is_digit in Hc. bool_to_prop. rewrite Z.mod_small by lia.
  rewrite (proj2 (Z.ltb_lt _ _)) by lia. cbn [assert_]. rewrite bind_Ret.
  pose proof (digits_value_ge ds (10 * n + (c - 48)) Hds ltac:(lia)) as Hge.
  change (digits_value (c :: ds) n) with (digits_value ds (10 * n + (c - 48))) in Hlt.
  rewrite mul64_exact, bind_Ret by ulia. rewrite add64_exact, bind_Ret by ulia.
  replace (n * 10 + (c - 48)) with (10 * n + (c - 48)) by lia. apply IH; lia.
Qed.

Lemma parse_print n : u64 n → parse_u64 (print_u64 n) = Some n.
Proof.
  intros Hn. destruct (print_u64_spec n Hn) as (Hd & Hne & Hv).
  destruct (print_u64 n) as [|c ds]; [done|].
  assert (c ≠ 43) by (apply Forall_cons in Hd as [Hc _]; unfold is_digit in Hc; bool_to_prop; lia).
  assert (parse_u64 (c :: ds) = parse_u64_digits (c :: ds) 0) as ->.
  { unfold parse_u64. destruct c as [|c|c]; [done| |done]. repeat (destruct c as [c|c|]; try (done || congruence)). }
  rewrite parse_u64_digits_value, Hv by done. by rewrite (proj2 (Z.ltb_lt _ _)) by apply Hn.
Qed.

(** ** Size literals *)

Lemma trim_start_keep f s : Forall (λ c, f c = false) s → trim_start_by f s = s.
Proof. intros H. destruct H as [|c s Hc _]; [done|]. cbn. by rewrite Hc. Qed.

Lemma trim_end_keep f s : Forall (λ c, f c = false) s → trim_end_by f s = s.
Proof.
  intros H. unfold trim_end_by. rewrite trim_start_keep, rev_involutive; [done|]. by apply Forall_rev.
Qed.

Lemma trim_keep f s : Forall (λ c, f c = false) s → trim_by f s = s.
Proof. intros H. unfold trim_by. by rewrite trim_start_keep, trim_end_keep. Qed.

Lemma strip_suffix_snoc f s c : strip_suffix f (s ++ [c]) = if f c then Some s else None.
Proof. unfold strip_suffix. rewrite rev_app_distr. cbn. by rewrite rev_involutive. Qed.

Lemma digit_not (f : Z → bool) ds :
  Forall (λ c, is_digit c = true) ds → (∀ c, 48 ≤ c ≤ 57 → f c = false) →
  Forall (λ c, f c = false) ds.
Proof.
  intros Hd Hf. eapply Forall_impl; [exact Hd|]. intros c Hc. apply Hf.
  unfold is_digit in Hc. bool_to_prop. lia.
Qed.

Ltac byte_test := intros; unfold is_space, is_b; repeat match goal with
  | |- context [?x =? ?y] => destruct (Z.eqb_spec x y); try lia
  | |- context [?x <=? ?y] => destruct (Z.leb_spec x y); try lia
  end; done.

(** A literal with a suffix: what is left of it, and its multiplier. *)
Lemma size_split_suffix ds c :
  Forall (λ c, is_digit c = true) ds →
  size_split (ds ++ [c]) =
    if (c =? 75) || (c =? 107) then (ds, 1024)
    else if (c =? 77) || (c =? 109) then (ds, 1024 * 1024)
    else if (c =? 71) || (c =? 103) then (ds, 1024 * 1024 * 1024)
    else (ds ++ [c], 1).
Proof.
  intros Hd. unfold size_split. rewrite !strip_suffix_snoc.
  assert (trim_end_by is_b ds = ds) as Hb by (apply trim_end_keep, digit_not; [done|byte_test]).
  destruct ((c =? 75) || (c =? 107)), ((c =? 77) || (c =? 109)), ((c =? 71) || (c =? 103));
    by rewrite ?Hb.
Qed.

Lemma size_split_digits ds :
  Forall (λ c, is_digit c = true) ds → ds ≠ [] → size_split ds = (ds, 1).
Proof.
  intros Hd Hne. destruct (exists_last Hne) as (l & c & ->).
  apply Forall_app in Hd as [Hd Hc]. rewrite size_split_suffix by done.
  apply Forall_cons in Hc as [Hc _]. unfold is_digit in Hc. apply andb_true_iff in Hc as [H1%Z.leb_le H2%Z.leb_le].
  by rewrite !(proj2 (Z.eqb_neq c _)) by lia.
Qed.

Lemma parse_u64_stop ds c rest :
  Forall (λ c, is_digit c = true) ds → ds ≠ [] → is_digit c = false →
  parse_u64 (ds ++ c :: rest) = None.
Proof.
  intros Hd Hne Hc. destruct ds as [|d ds]; [done|].
  assert (∀ l n, Forall (λ c, is_digit c = true) l → parse_u64_digits (l ++ c :: rest) n = None) as Hstop.
  { intros l n Hl. revert n. induction Hl as [|x l Hx _ IH]; intros n; cbn; [by rewrite Hc|].
    rewrite Hx. by destruct (_ <? u64_lim). }
  assert (d ≠ 43) by (apply Forall_cons in Hd as [Hd _]; unfold is_digit in Hd; bool_to_prop; lia).
  assert (parse_u64 ((d :: ds) ++ c :: rest) = parse_u64_digits ((d :: ds) ++ c :: rest) 0) as ->.
  { unfold parse_u64. cbn [app]. destruct d as [|d|d]; [done| |done].
    repeat (destruct d as [d|d|]; try (done || congruence)). }
  by apply Hstop.
Qed.

Lemma trim_literal n suffix :
  u64 n → Forall (λ c, is_space c = false) suffix →
  trim (print_u64 n ++ suffix) = print_u64 n ++ suffix.
Proof.
  intros Hn Hs. apply trim_keep, Forall_app. split; [|done].
  apply digit_not; [by apply print_u64_spec|byte_test].
Qed.

(** C40.  Size literals of the configuration: printing and parsing a number are
    inverse (for [str::parse] and for the [const fn] digit loops of the kernel);
    a number with K, M or G is that many units, refused when it overflows 64
    bits; a two-letter suffix such as KB, which the comments admit, is refused,
    while the reversed BK is read as K. *)
Theorem size_literals n msg :
  u64 n →
  parse_u64 (print_u64 n) = Some n ∧ parse_digits msg (print_u64 n) 0 = Ret n ∧
  parse_size_bytes (print_u64 n) = Some n ∧
  parse_size_bytes (print_u64 n ++ b "K") = checked_mul64 n 1024 ∧
  parse_size_bytes (print_u64 n ++ b "M") = checked_mul64 n (1024 * 1024) ∧
  parse_size_bytes (print_u64 n ++ b "G") = checked_mul64 n (1024 * 1024 * 1024) ∧
  parse_size_bytes (print_u64 n ++ b "KB") = None ∧
  parse_size_bytes (print_u64 n ++ b "MB") = None ∧
  parse_size_bytes (print_u64 n ++ b "BK") = checked_mul64 n 1024.
Proof.
  intros Hn. pose proof (parse_print n Hn) as Hp. destruct (print_u64_spec n Hn) as (Hd & Hne & Hv).
  assert (∀ c, is_space c = false → size_split (trim (print_u64 n ++ [c])) = size_split (print_u64 n ++ [c]))
    as Ht by (intros c Hc; rewrite trim_literal; [done|done|by constructor]).
  split; [done|]. split; [by rewrite parse_digits_value, Hv by (done || rewrite ?Hv; apply Hn)|].
  unfold parse_size_bytes. split.
  { rewrite <- (app_nil_r (print_u64 n)), trim_literal, app_nil_r by (done || constructor).
    rewrite size_split_digits, Hp by done.
    unfold checked_mul64. rewrite Z.mul_1_r. by rewrite (proj2 (Z.ltb_lt _ _)) by apply Hn. }
  change (b "K") with [75]. change (b "M") with [77]. change (b "G") with [71].
  change (b "KB") with ([75] ++ [66]). change (b "MB") with ([77] ++ [66]). change (b "BK") with ([66] ++ [75]).
  rewrite !Ht, !size_split_suffix by done. cbv beta iota delta [Z.eqb Pos.eqb orb].
  rewrite !trim_literal by (done || by repeat constructor).
  split_and!; try by rewrite Hp.
  - unfold size_split. rewrite !app_assoc, !strip_suffix_snoc. cbv beta iota delta [Z.eqb Pos.eqb orb].
    rewrite <- app_assoc. cbn [app]. by rewrite parse_u64_stop.
  - unfold size_split. rewrite !app_assoc, !strip_suffix_snoc. cbv beta iota delta [Z.eqb Pos.eqb orb].
    rewrite <- app_assoc. cbn [app]. by rewrite parse_u64_stop.
  - unfold size_split. rewrite !app_assoc, !strip_suffix_snoc. cbv beta iota delta [Z.eqb Pos.eqb orb].
    unfold trim_end_by. rewrite rev_app_distr. cbn [rev app trim_start_by is_b Z.eqb Pos.eqb orb].
    rewrite trim_start_keep, rev_involutive, Hp; [done|].
    apply Forall_rev. apply digit_not; [done|byte_test].
Qed.

Lemma size_literals_witness :
  parse_size_bytes (b "128K") = Some 131072 ∧ parse_size_bytes (b "128KB") = None.
Proof.
  destruct (size_literals 128 "digits" ltac:(by vm_compute)) as (_ & _ & _ & H1 & _ & _ & H2 & _).
  split; [exact H1|exact H2].
Defined.

(** ** The pipeline of [xtask] *)

(** Kernel, image, emulator, always for one profile and in that order, each only
    after the one before it succeeded; usage is printed exactly when nothing is
    run, and the tool ends well only if every build step succeeded. *)
Lemma xtask_pipeline world config args :
  let '(cmds, e) := xtask_main world config args in
  ∃ release, cmds `prefix_of` [cargo_cmd release; image_cmd release; qemu_cmd config release] ∧
    (∀ i c, (S i < length cmds)%nat → cmds !! i = Some c → world c = Exited true) ∧
    (e = UsageExit ↔ cmds = []) ∧
    (e = Done → ∀ c, c ∈ cmds → c ≠ qemu_cmd config release → world c = Exited true).
Proof.
  assert (∀ r t, t ∈ [([], UsageExit); build_kernel world r; build_image world r;
      run_qemu world config r] →
    let '(cmds, e) := t in
    cmds `prefix_of` [cargo_cmd r; image_cmd r; qemu_cmd config r] ∧
    (∀ i c, (S i < length cmds)%nat → cmds !! i = Some c → world c = Exited true) ∧
    (e = UsageExit ↔ cmds = []) ∧
    (e = Done → ∀ c, c ∈ cmds → c ≠ qemu_cmd config r → world c = Exited true)) as H.
  { intros r t Ht. unfold run_qemu, build_image, build_kernel, and_then in Ht.
    destruct (world (cargo_cmd r)) as [|[]] eqn:E1, (world (image_cmd r)) as [|[]] eqn:E2,
      (world (qemu_cmd config r)) as [|[]] eqn:E3; cbn [app fst snd] in Ht;
      rewrite !elem_of_cons in Ht; destruct Ht as [->|[->|[->|[->|[]%not_elem_of_nil]]]];
      (split_and!; [by repeat (apply prefix_cons || apply prefix_nil)
        |intros [|[|i]] c Hi Hc; cbn in Hi, Hc; (lia || by injection Hc as <-)|done
        |intros He c Hc Hq; rewrite ?elem_of_cons in Hc; set_solver]). }
  destruct (xtask_main world config args) as [cmds e] eqn:E. unfold xtask_main in E.
  destruct args as [|sub rest]; [exists false; apply (H false (cmds, e)); rewrite <- E; set_solver|].
  exists (bool_decide (b "--release" ∈ rest)).
  apply (H _ (cmds, e)). rewrite <- E. repeat case_decide; set_solver.
Qed.

(** Comments are stripped from key lines only: a header with a comment behind it
    is no header, and the keys below it stay in the previous section. *)
Lemma commented_header_ignored p s : config_line p (b "[memory] # heap and stacks") s = Ret s.
Proof. reflexivity. Qed.

(** ** The shipped configuration *)

(** A file in which a tilde stands for the double quote. *)
Definition quoted (s : string) : text := (λ c, if c =? 126 then 34 else c) <$> b s.

(** [config/kernel_config.toml], comments included. *)
Definition kernel_config : text := quoted
"# RustyCore kernel configuration — один файл для кастомизации сборки.
# Честность прежде всего: каждая секция помечена, КТО её реально читает.

[arch]
target = ~x86_64-unknown-none~
# Rust codegen baseline (-C target-cpu в .cargo/config.toml). Это НЕ модель
# для QEMU-флага -cpu: такой модели у QEMU нет (проверено:
# ~unable to find CPU model 'x86-64-v2'~), поэтому xtask грузится с
# `-cpu max` — это надмножество v2 (POPCNT/SSE4.2 включены).
cpu = ~x86-64-v2~ # v2 = совместимость везде; v3 = максимум перфа (AVX2)

[sched]
default = ~rr~ # rr | cfs
# ВНИМАНИЕ: пока НЕ читается. Прерывание идёт от периодического LAPIC-таймера,
# квант задаётся калибровкой (10 мс), а не этим ключом. Пометка оставлена,
# чтобы не создавать ложного впечатления, что ключ что-то меняет.
quantum_us = 1000

[memory]
# Читает kernel/build.rs (экспорт в KERNEL_CONFIG_* env) + сверка с фичами.
phys_offset = ~0xFFFF800000000000~
heap_size_kb = 1024
stack_size = ~128K~
# bump = bring-up (no reclaim); buddy = production (split/merge + reclaim).
# Значение обязано совпадать с Cargo-фичой, иначе сборка упадает с объяснением.
frame_allocator = ~buddy~ # bump | buddy
# Heap self-test (Box+Vec) при каждом буте. true = ловить битую кучу сразу,
# false = пропустить ради скорости (heap всё равно инициализируется).
self_test = true

[drivers]
# drv-uart читается Cargo-фичами; virtio/ps2kbd пока только информационные —
# их подсистемы приходят в Phase 4 (VirtIO blk/net, PS/2 keyboard decode).
uart = true
virtio = true
ps2kbd = false

[log]
# ВНИМАНИЕ: пока НЕ читается. Уровень задаётся наличием/отсутствием
# serial_println! на конкретных путях, а не этим ключом.
level = ~info~ # trace | debug | info | warn | error

# Читает ТОЛЬКО `cargo xtask run-qemu` (единственный потребитель).
[qemu]
machine = ~q35~
memory = ~512M~
smp = 2
display = ~none~
# Информационно: -nographic уже вешает COM1 на stdio, отдельный -serial не нужен.
serial = ~stdio~
extra_args = ~-no-reboot -no-shutdown~
".

(** [const _ : () = assert!(..)] of [task.rs]: every slot's stack fits the heap. *)
Definition stacks_fit (heap stack : Z) : bool :=
  Z.of_nat Preempt.MAX_TASKS * (stack + Tasks.STACK_ALIGN) <=? heap.

(** The [compile_error!] gates: exactly one of two features. *)
Definition exactly_one (f1 f2 : bool) (both neither : string) : outcome unit :=
  if f1 && f2 then Panic both else if negb (f1 || f2) then Panic neither else Ret ().
Definition alloc_gate (ft : Features) : outcome unit :=
  exactly_one (ft_bump ft) (ft_buddy ft) "select exactly one of alloc-bump / alloc-buddy, not both"
    "select one of alloc-bump / alloc-buddy".
Definition sched_gate (ft : Features) : outcome unit :=
  exactly_one (ft_rr ft) (ft_cfs ft) "select exactly one of sched-rr / sched-cfs, not both"
    "select one of sched-rr / sched-cfs".

(** What the kernel crate checks while it compiles. *)
Definition compile_checks (ft : Features) (heap stack : Z) : outcome unit :=
  _ ← alloc_gate ft;
  _ ← sched_gate ft;
  _ ← assert_ Preempt.frame_layout "FullFrame layout drifted from the stub's spill math";
  assert_ (stacks_fit heap stack) "MAX_TASKS stacks do not fit in the kernel heap".

(** A build script that found the keys in the file lets no selection through that
    the gates refuse. *)
Lemma agrees_gate v n1 n2 f1 f2 msg both neither :
  agrees (Some v) n1 n2 f1 f2 msg = Ret () → exactly_one f1 f2 both neither = Ret ().
Proof. unfold agrees, exactly_one. destruct f1, f2; cbn; rewrite ?andb_false_r; done. Qed.

Lemma build_passes_gates p config ft s env :
  config_lines p (lines config) (mkBuild [] [] None None) = Ret s →
  frame_allocator_cfg s ≠ None → sched_cfg s ≠ None → build_main p config ft = Ret env →
  alloc_gate ft = Ret () ∧ sched_gate ft = Ret ().
Proof.
  intros Es Ha Hs. unfold build_main. rewrite Es, bind_Ret.
  destruct (frame_allocator_cfg s) as [va|]; [|done]. destruct (sched_cfg s) as [vs|]; [|done].
  intros ([] & E1 & E)%bind_inv. apply bind_inv in E as ([] & E2 & _).
  split; by eapply agrees_gate.
Qed.

Definition shipped_features : Features := mkFeatures false true true false.

Definition same_features (f g : Features) : bool :=
  Bool.eqb (ft_bump f) (ft_bump g) && Bool.eqb (ft_buddy f) (ft_buddy g) &&
  Bool.eqb (ft_rr f) (ft_rr g) && Bool.eqb (ft_cfs f) (ft_cfs g).

(** What a build exports to [env!] in the kernel. *)
Definition exports (env : list (text * text)) (heap stack : Z) (self_test : bool) : Prop :=
  (∃ h, env_var "HEAP_SIZE_BYTES" env = Some h ∧ Memory.parse_heap_bytes h = Ret heap) ∧
  (∃ s, env_var "STACK_SIZE_BYTES" env = Some s ∧ Tasks.parse_stack_bytes s = Ret stack) ∧
  (∃ t, env_var "MEMORY_SELF_TEST" env = Some t ∧ bool_decide (t = b "true") = self_test).

(** C34.  The shipped configuration file builds with exactly one set of features
    (buddy frames, round robin) and is refused with every other; what it exports
    is the heap and stack size the kernel is verified with, and the kernel crate
    then passes its compile-time checks: the feature gates, the frame layout and
    the capacity of the heap for a table full of such stacks. *)
Theorem shipped_config_builds p ft :
  if same_features ft shipped_features
   then ∃ env, build_main p kernel_config ft = Ret env ∧
          exports env Memory.HEAP_SIZE Tasks.STACK_SIZE_BYTES true ∧
          compile_checks ft Memory.HEAP_SIZE Tasks.STACK_SIZE_BYTES = Ret ()
   else ∃ msg, build_main p kernel_config ft = Panic msg.
Proof.
  assert (∃ s, config_lines p (lines kernel_config) (mkBuild [] [] None None) = Ret s ∧
    frame_allocator_cfg s = Some (b "buddy") ∧ sched_cfg s = Some (b "rr") ∧
    exports (env_out s) Memory.HEAP_SIZE Tasks.STACK_SIZE_BYTES true) as (s & E & Ha & Hs & Hx).
  { destruct p; (eexists; split; [vm_compute; reflexivity|]);
      (split; [reflexivity|split; [reflexivity|]]);
      (split; [|split]); (eexists; split; [vm_compute; reflexivity|vm_compute; reflexivity]). }
  unfold build_main. rewrite E, bind_Ret, Ha, Hs.
  destruct ft as [[] [] [] []]; cbn; eauto.
Qed.

End Config.
